(* ===== verification/_CoqProject ===== *)
-Q . S2P
Prelude.v
Interfaces.v
Models.v
Routing.v
Auth.v
Egress.v
Bedrock.v
Secrets.v
Admin.v
Providers.v
DataPlane.v
Transport.v
Endpoints.v
Storage.v
AuditLog.v
StoreOpen.v
Files.v
HttpApp.v
Routes.v
Config.v
Migration.v
System.v
ControlPlane.v
Startup.v
