(* ===== verification/Prelude.v ===== *)
(** * llmap: a verification of the multi-account LLM proxy

    ** The program

    [llmap] is a reverse proxy that shares several provider accounts (Claude OAuth,
    Anthropic API keys, Amazon Bedrock with API keys or SigV4, compatible services)
    among clients.  A client request passes through

    - _authentication_ (src/src/auth.rs): the presented token must be the current or a
      still valid previous credential of an enabled account of the store;
    - _routing_ (src/src/routing.rs, src/src/models.rs): a sticky, least-loaded choice
      among the enabled, healthy, undepleted accounts that serve the model;
    - _request building_ (src/src/providers.rs): the account's URL and credential
      headers, SigV4 signatures for Bedrock, the client's allowlisted headers;
    - _transport_ (src/src/data_plane.rs, src/src/egress.rs): a per-account chain of
      egress proxies, behind a destination policy that denies hosts off the allowlist
      and internal addresses;
    - _the response_: its status drives the account's health, its headers are filtered,
      and a Bedrock event stream is translated to server-sent events.

    Accounts live in an encrypted SQLite store (src/src/storage.rs, src/src/secrets.rs)
    which OAuth refreshes update in the background.  An administrator changes them
    through cookie sessions with CSRF tokens (src/src/admin.rs, src/src/http_app.rs);
    each change reloads the router.  The command line (src/src/main.rs) opens and
    migrates the store, assembles the service, creates the certificate authority of the
    forward proxy (src/src/forward_proxy.rs), imports accounts and writes backups.

    ** The files

    - [Prelude] (this file): results and [?], options, ASCII and UTF-8 strings, integer
      parsing, saturating arithmetic, [min_by], sorting, shared lemmas and tactics.
    - [Interfaces]: the crates the program calls ([url], [http] header maps, JSON) as
      classes of operations, their documented laws as separate classes, and small
      instances with which the examples run.
    - [Models]: models.rs ([family], [resolve], [accepted]).
    - [Routing]: routing.rs.  [Router] is the record of two finite maps; [choose],
      [start_request], [record_outcome], [replace_accounts], [reset_account_health],
      [session_count] are the methods.  [router_step] is one operation, [router_wf] the
      invariant.
    - [Auth]: auth.rs ([authorize] in its three modes, [matching_account]).
    - [Egress]: egress.rs ([endpoint_parse], [policy_authorize], [resolve_authorized],
      [is_unsafe_ip], the failover [ProxyChain]) with the standard library's address
      parser.
    - [Bedrock]: the event-stream half of providers.rs ([decode_bedrock_headers],
      [decode_bedrock_frame], [translate_bedrock_eventstream]).
    - [Secrets]: secrets.rs ([encrypt], [decrypt], master keys, password hashes).
    - [Admin]: admin.rs ([login], [authenticate], [issue_csrf], [logout], ...).
    - [Providers]: the request half of providers.rs ([prepare_request_for_stream],
      [finalize_request_auth], [canonical_query], [aws_encode]), and AWS Signature
      Version 4 as AWS defines it ([aws_signed]).
    - [DataPlane]: [DataPlane::handle] of data_plane.rs as an effect tree [prog]: the
      environment answers each effect (clock, snapshot, routing, loading, sending,
      audit), so a theorem about all answers is a theorem about all interleavings.  The
      pool [pool_step] runs any number of requests concurrently on one router, any of
      which may be cancelled between two effects.
    - [Transport]: [ReqwestTransport] of data_plane.rs; other requests use the proxy
      chains while [send] awaits.
    - [Endpoints]: how clients reach [handle]: the reverse endpoint of http_app.rs
      ([proxy], [error_response], [metrics_text]) and the handler of forward_proxy.rs
      ([authorize_uri], [handle_request]).
    - [Storage]: storage.rs.  The tables are finite maps, each critical section one
      function; [store_step] interleaves them.
    - [AuditLog]: the audit operations of storage.rs and the order of their rows.
    - [StoreOpen]: [SqliteStore::open]: a database file is its tables, each of which may
      be missing, and every statement may fail ([open_store]).
    - [Files]: the file system, the certificate authority of forward_proxy.rs
      ([generate_ca], [load_ca]), and [backup_to] of storage.rs.
    - [HttpApp]: the control plane of http_app.rs, one function per handler on the
      record of store, sessions and router: what a handler does when no other one runs.
    - [Routes]: the route table of http_app.rs ([application_router]) and a request from
      its method and path to the handler ([route_request], [application]).
    - [Config]: config.rs ([with_defaults], [validate], [from_toml_with_env]).
    - [Migration]: migration.rs ([parse_claudeproxy_env], [convert_credential],
      [import_claudeproxy_env]), and what a file's lines and credentials stand for
      ([file_says], [provider_of]).
    - [System]: the parts together.  [AccountRepository] is the trait of data_plane.rs,
      [RepositoryContract] what the data plane relies on, [store_contract] the proof
      that the store provides it; [system_step] interleaves clients, control plane,
      refreshes and route reloads.
    - [ControlPlane]: every control-plane request of [HttpApp] as a run of [System], and
      pausing and deleting in any interleaving ([switched_off]).
    - [Startup]: main.rs: the commands in a monad of files, errors and panics
      ([run_command], [serve]).

    ** What the theorems show

    - Routing: every reachable router is well formed; [choose] fails exactly when no
      account is eligible and otherwise picks a least loaded one or the session's own,
      whatever the hash map's order; failing, paused and depleted accounts are left
      out for as long as they should be; reloads keep runtime state.
    - The request handler: nothing is routed, loaded or sent before authorisation; an
      upstream request carries the loaded account's credential, only to that account's
      origin, and no client credential; at most one request is sent and one audit record
      written; the in-flight counter of an account is, in every interleaving, exactly
      the number of requests that started on it and recorded no outcome, so a request
      cancelled in between leaks its load (a finding); a response has the documented
      effect on its account; the handler never panics.  Both endpoints keep these
      guarantees: the forward proxy serves only allowed destinations (IPv6 literals
      excepted, a finding), and oversized bodies are refused before anything else.
    - Authentication: enforce mode equals a reference search, accepts exactly the live
      tokens, and observe mode predicts it.
    - Egress and transport: exact characterisations of allowlist patterns and of the
      denied IPv4 space; failover chains refine a three-failures automaton; only
      authorised destinations are contacted.
    - Bedrock: the translation does not depend on chunking, terminates without panics,
      ends cleanly exactly on well-formed input, and inverts the wire encoding.
    - Providers: the signature of a request with a plain path is the one AWS defines;
      canonical queries are canonical.
    - Store and secrets: what is stored is read back, ciphertexts are bound to their
      row, a replaced credential ends at once or with the window it was given,
      refreshes never overwrite a concurrent change, rows stay readable in every interleaving, and the audit view shows the
      newest events.
    - Administration: accepted sessions were granted, lockout bounds guessing, CSRF
      tokens rotate, and pausing or deleting takes effect in both planes in every
      interleaving without an older reload still to be installed (with one, a paused
      account can come back, a finding).  From the request line on, only the documented requests
      with a CSRF session change accounts, whatever else is asked of the service.
    - The whole system: its store, router and requests refine their own step relations,
      so the theorems above hold inside it; in enforce mode every upstream request was
      authorised by a token that was live in the store at the time the request read from
      the clock; a control-plane request is a run of the system whatever fails in it.
    - Files and start-up: opening migrates a database without losing anything, whatever
      fails; backups are all or nothing; no command overwrites a file or loses an
      account; a service that starts is sound and an initial state of the system.
    - Configuration and import: loading accepts exactly the sound configurations (of
      files that do not write one socket in two ways); a legacy file means what its
      lines and credentials say, and importing it neither loses nor overwrites accounts.

    ** Conventions, bounds and fuel

    Machine integers are [Z] with their saturation or checks written out ([in_flight]
    is a [u32], utilization a [u16], failed logins a [u8]).  Times are nanoseconds as
    unbounded [Z]: chrono's range of some 262000 years is not modelled.  Strings are
    byte strings.  A function whose Rust original can panic returns an [option], with
    [None] for the panic, and the theorems show that it is not returned.  Fuel is used
    in five places, each time the length of the remaining input, which every round
    shortens: stripping whitespace, splitting words, UTF-8 decoding, the headers of a
    frame, and the frames in a buffer; totality is proved for the last two.  Hash-map
    iteration order is an argument of the definitions that iterate.  Randomness,
    clocks, database errors and failures of the operating system are arguments.

    Cryptography, Base64, CRC-32, JSON and serde codecs, [url::Url], DNS, reqwest and
    the formatting of dates, certificates and TOML are not part of the sources: they are
    operations of the classes [UrlLib], [HeaderLib], [JsonLib], [CryptoLib],
    [StoreCodec], [CertLib], [SqliteFormat] and [AxumLib] or section variables.  Theorems
    that need one of their laws say so with a law class, and an instance shows that the
    laws can hold.

    ** What is not modelled

    The contents of the static pages; the redacting [Debug] implementations and the wiping of secrets from
    memory; argument parsing, logging and printing; sockets, TLS interception, the timer
    of the refresh task and graceful shutdown.  SQLite is its tables: journal mode, locking between processes
    and page-level corruption are outside.  Directories, links and several spellings of
    one path are left to the operating system.  In [System] the sessions of
    administrators do not appear: [ControlPlane] gives a request the system steps that
    have its effect on the store and the router.

    ** This file *)
From Stdlib Require Export ZArith Ascii String Lia.
From stdpp Require Export base list strings gmap fin_maps pretty.

#[export] Set Default Goal Selector "!".
Open Scope string_scope.
Open Scope list_scope.

(** ** Results: Rust's [Result<T, E>] and the [?] operator *)

Inductive result (T E : Type) : Type :=
| Ok (value : T)
| Err (error : E).
Arguments Ok {T E} value.
Arguments Err {T E} error.

Declare Scope result_scope.
Delimit Scope result_scope with result.

(** [let? x := e in k] is [let x = e?; k]: an [Err] returns at once. *)
Notation "'let?' x ':=' e 'in' k" :=
  (match e with Ok x => k | Err err => Err err end)
  (at level 10, x name, e at level 200, k at level 200,
   format "'[v' 'let?'  x  ':='  e  'in' '/' k ']'") : result_scope.
Open Scope result_scope.

#[global] Instance result_eq_dec {T E} `{EqDecision T, EqDecision E} :
  EqDecision (result T E).
Proof. solve_decision. Defined.

Definition is_ok {T E} (r : result T E) : bool :=
  match r with Ok _ => true | Err _ => false end.

Definition map_err {T E F} (f : E -> F) (r : result T E) : result T F :=
  match r with Ok x => Ok x | Err e => Err (f e) end.

(** [Option::ok_or]. *)
Definition ok_or {T E} (o : option T) (e : E) : result T E :=
  match o with Some x => Ok x | None => Err e end.

(** [iter().map(f).collect::<Result<Vec<_>, _>>()]: the first error wins. *)
Fixpoint collect_results {A B E} (f : A -> result B E) (l : list A) : result (list B) E :=
  match l with
  | [] => Ok []
  | x :: rest =>
      let? y := f x in
      let? ys := collect_results f rest in
      Ok (y :: ys)
  end.

(** ** Options *)

(** [Option::is_none_or], [Option::is_some_and]. *)
Definition is_none_or {A} (o : option A) (p : A -> bool) : bool :=
  match o with None => true | Some x => p x end.

Definition is_some_and {A} (o : option A) (p : A -> bool) : bool :=
  match o with None => false | Some x => p x end.

(** [Option::filter]. *)
Definition option_filter {A} (p : A -> bool) (o : option A) : option A :=
  match o with Some x => if p x then Some x else None | None => None end.

(** [Option::or] and [Option::or_else] (the closure is total here). *)
Definition option_or {A} (a b : option A) : option A :=
  match a with Some x => Some x | None => b end.

(** ** Machine integers *)

Open Scope Z_scope.

Definition U8_MAX : Z := 255.
Definition U16_MAX : Z := 65535.
Definition U32_MAX : Z := 4294967295.
Definition U64_MAX : Z := 18446744073709551615.

Definition saturating_add (max a b : Z) : Z := Z.min max (a + b).
Definition saturating_sub (a b : Z) : Z := Z.max 0 (a - b).
(** [AtomicU64::fetch_add] wraps. *)
Definition wrapping_add_u64 (a b : Z) : Z := (a + b) mod (U64_MAX + 1).

(** ** Time: [chrono::DateTime<Utc>] and [chrono::Duration] in nanoseconds *)

Definition DateTime := Z.
Definition Duration := Z.
Definition seconds (n : Z) : Duration := n * 1000000000.
Definition minutes (n : Z) : Duration := seconds (60 * n).
Definition hours (n : Z) : Duration := minutes (60 * n).

(** ** Text: a Rust [str] (or byte slice) is the [string] of its bytes *)

Definition byte_of (c : ascii) : Z := Z.of_N (N_of_ascii c).
Definition in_range (lo hi : Z) (c : ascii) : bool := (lo <=? byte_of c) && (byte_of c <=? hi).

Definition is_ascii_digit : ascii -> bool := in_range 48 57.
Definition is_ascii_uppercase : ascii -> bool := in_range 65 90.
Definition is_ascii_lowercase : ascii -> bool := in_range 97 122.
Definition is_ascii_alphanumeric (c : ascii) : bool :=
  is_ascii_digit c || is_ascii_uppercase c || is_ascii_lowercase c.

Definition to_ascii_lowercase_char (c : ascii) : ascii :=
  if is_ascii_uppercase c then ascii_of_N (N_of_ascii c + 32) else c.

Fixpoint string_map (f : ascii -> ascii) (s : string) : string :=
  match s with "" => "" | String c rest => String (f c) (string_map f rest) end.

Definition to_ascii_lowercase : string -> string := string_map to_ascii_lowercase_char.
Definition eq_ignore_ascii_case (a b : string) : bool :=
  bool_decide (to_ascii_lowercase a = to_ascii_lowercase b).

(** [s.bytes().all(p)] and [s.contains(char)]. *)
Fixpoint string_all (p : ascii -> bool) (s : string) : bool :=
  match s with "" => true | String c rest => p c && string_all p rest end.

Fixpoint contains_char (c : ascii) (s : string) : bool :=
  match s with "" => false | String d rest => (c =? d)%char || contains_char c rest end.

(** [strip_prefix], [starts_with]. *)
Fixpoint strip_prefix (p s : string) : option string :=
  match p, s with
  | "", _ => Some s
  | String a p', String b s' => if (a =? b)%char then strip_prefix p' s' else None
  | String _ _, "" => None
  end.

Definition starts_with (p s : string) : bool := bool_decide (is_Some (strip_prefix p s)).

(** [str::contains(&str)]: the needle starts at some byte. *)
Fixpoint contains (needle s : string) : bool :=
  starts_with needle s || match s with "" => false | String _ rest => contains needle rest end.

Fixpoint string_rev_append (s acc : string) : string :=
  match s with "" => acc | String c rest => string_rev_append rest (String c acc) end.
Definition string_rev (s : string) : string := string_rev_append s "".

(** [strip_suffix], [ends_with]. *)
Definition strip_suffix (p s : string) : option string :=
  string_rev <$> strip_prefix (string_rev p) (string_rev s).
Definition ends_with (p s : string) : bool := bool_decide (is_Some (strip_suffix p s)).

(** [str::split(char)]: always at least one piece. *)
Fixpoint split (c : ascii) (s : string) : list string :=
  match s with
  | "" => [""]
  | String d rest =>
      if (d =? c)%char then "" :: split c rest
      else match split c rest with
           | piece :: pieces => String d piece :: pieces
           | [] => [String d ""]
           end
  end.

(** [str::split_once(char)]. *)
Fixpoint split_once (c : ascii) (s : string) : option (string * string) :=
  match s with
  | "" => None
  | String d rest =>
      if (d =? c)%char then Some ("", rest)
      else match split_once c rest with
           | Some (before, after) => Some (String d before, after)
           | None => None
           end
  end.

(** [trim_start_matches(char)], [trim_end_matches(char)]. *)
Fixpoint trim_start_matches (c : ascii) (s : string) : string :=
  match s with
  | "" => ""
  | String d rest => if (d =? c)%char then trim_start_matches c rest else s
  end.
Definition trim_end_matches (c : ascii) (s : string) : string :=
  string_rev (trim_start_matches c (string_rev s)).

(** [pieces.join(sep)]. *)
Fixpoint join (sep : string) (pieces : list string) : string :=
  match pieces with
  | [] => ""
  | [piece] => piece
  | piece :: rest => piece +:+ sep +:+ join sep rest
  end.

Definition string_is_empty (s : string) : bool :=
  match s with "" => true | String _ _ => false end.

Definition byte_length (s : string) : Z := Z.of_nat (String.length s).

(** [str::parse] for integers: an optional sign and at least one digit, in range.
    A [-] is accepted for signed types only. *)
Definition parse_digits (s : string) : option Z :=
  if string_is_empty s || negb (string_all is_ascii_digit s) then None
  else Some (fold_left (fun acc c => acc * 10 + (byte_of c - 48)) (list_ascii_of_string s) 0).

Definition parse_unsigned (max : Z) (s : string) : option Z :=
  option_filter (fun n => n <=? max)
    (match strip_prefix "+" s with Some rest => parse_digits rest | None => parse_digits s end).

Definition I64_MAX : Z := 9223372036854775807.
Definition parse_i64 (s : string) : option Z :=
  match strip_prefix "-" s with
  | Some rest => option_filter (fun n => - I64_MAX - 1 <=? n) (Z.opp <$> parse_digits rest)
  | None => parse_unsigned I64_MAX s
  end.

(** The UTF-8 encodings of the characters with the Unicode [White_Space]
    property, which [str::trim] and [split_whitespace] strip. *)
Definition encoded (bytes : list N) : string := string_of_list_ascii (map ascii_of_N bytes).

Definition WHITESPACE : list string :=
  map encoded
    ([[9]; [10]; [11]; [12]; [13]; [32]; [194; 133]; [194; 160]; [225; 154; 128];
      [226; 128; 128]; [226; 128; 129]; [226; 128; 130]; [226; 128; 131]; [226; 128; 132];
      [226; 128; 133]; [226; 128; 134]; [226; 128; 135]; [226; 128; 136]; [226; 128; 137];
      [226; 128; 138]; [226; 128; 168]; [226; 128; 169]; [226; 128; 175]; [226; 129; 159];
      [227; 128; 128]]%N).

(** The rest of [s] after one leading pattern of [ps], if there is one. *)
Fixpoint strip_any (ps : list string) (s : string) : option string :=
  match ps with
  | [] => None
  | p :: rest => option_or (strip_prefix p s) (strip_any rest s)
  end.

Fixpoint trim_start_any (fuel : nat) (ps : list string) (s : string) : string :=
  match fuel with
  | O => s
  | S fuel' => match strip_any ps s with
               | Some rest => trim_start_any fuel' ps rest
               | None => s
               end
  end.

(** Every pattern of [WHITESPACE] is non-empty, so [String.length s] rounds
    strip all of them. *)
Definition trim_start (s : string) : string := trim_start_any (String.length s) WHITESPACE s.
Definition trim_end (s : string) : string :=
  string_rev (trim_start_any (String.length s) (map string_rev WHITESPACE) (string_rev s)).
Definition trim (s : string) : string := trim_end (trim_start s).

(** ** Lists: [iter().filter(p)] with a boolean test *)

Lemma elem_of_bool_filter {A} (p : A -> bool) (l : list A) (x : A) :
  x ∈ List.filter p l <-> x ∈ l /\ p x = true.
Proof. by rewrite list_elem_of_In, filter_In, <- list_elem_of_In. Qed.

Lemma existsb_elem {A} (p : A -> bool) (l : list A) :
  existsb p l = true <-> exists x, x ∈ l /\ p x = true.
Proof. rewrite existsb_exists. by setoid_rewrite list_elem_of_In. Qed.

#[global] Instance bool_filter_Permutation {A} (p : A -> bool) :
  Proper ((≡ₚ) ==> (≡ₚ)) (List.filter p).
Proof.
  intros l1 l2 H. induction H as [|x l1 l2 _ IH|x y l|l1 l2 l3 _ IH1 _ IH2]; cbn.
  - done.
  - destruct (p x); by rewrite IH.
  - destruct (p x), (p y); try done. apply Permutation_swap.
  - by rewrite IH1.
Qed.

(** ** Orders: [Ord::cmp], [Ordering::then_with] and [Iterator::min_by] *)

Definition then_with (first second : comparison) : comparison :=
  match first with Eq => second | _ => first end.

(** What a comparison function must satisfy for [min_by] to have a meaning. *)
Class TotalCmp {A} (cmp : A -> A -> comparison) : Prop := {
  cmp_trans : forall a b c, cmp a b <> Gt -> cmp b c <> Gt -> cmp a c <> Gt;
  cmp_antisym : forall a b, cmp b a = CompOpp (cmp a b)
}.

Section MinBy.
Context {A : Type} (cmp : A -> A -> comparison).

(** [min_by] keeps the earlier of two equal elements. *)
Definition min_step (acc y : A) : A := match cmp acc y with Gt => y | _ => acc end.

Definition min_by (l : list A) : option A :=
  match l with [] => None | x :: rest => Some (fold_left min_step rest x) end.

Lemma fold_min_elem (l : list A) (x : A) :
  fold_left min_step l x = x \/ fold_left min_step l x ∈ l.
Proof.
  revert x. induction l as [|y l IH]; intros x; [by left|]. cbn [fold_left].
  destruct (IH (min_step x y)) as [E|E]; [|set_solver].
  rewrite E. unfold min_step. destruct (cmp x y); set_solver.
Qed.

Lemma min_by_elem (l : list A) (m : A) : min_by l = Some m -> m ∈ l.
Proof.
  destruct l as [|x l]; [done|]. intros [= <-].
  destruct (fold_min_elem l x) as [->|?]; set_solver.
Qed.

Lemma min_by_None (l : list A) : min_by l = None <-> l = [].
Proof. by destruct l. Qed.

Context `{!TotalCmp cmp}.

Lemma cmp_refl (a : A) : cmp a a <> Gt.
Proof. intros E. pose proof (cmp_antisym a a) as H. by rewrite E in H. Qed.

Lemma fold_min_least (l : list A) (x y : A) :
  y ∈ x :: l -> cmp (fold_left min_step l x) y <> Gt.
Proof.
  revert x y. induction l as [|z l IH]; intros x y Hy; cbn [fold_left].
  { assert (y = x) as -> by set_solver. apply cmp_refl. }
  assert (Hstep : cmp (min_step x z) x <> Gt /\ cmp (min_step x z) z <> Gt).
  { unfold min_step. pose proof (cmp_antisym x z) as Hanti.
    destruct (cmp x z) eqn:E; rewrite ?E, ?Hanti; split; try done; apply cmp_refl. }
  destruct Hstep as [Hx Hz].
  assert (Hmin : cmp (fold_left min_step l (min_step x z)) (min_step x z) <> Gt)
    by (apply IH; set_solver).
  apply elem_of_cons in Hy as [->|Hy]; [by eapply cmp_trans|].
  apply elem_of_cons in Hy as [->|Hy]; [by eapply cmp_trans|].
  apply IH. set_solver.
Qed.

Lemma min_by_least (l : list A) (m y : A) :
  min_by l = Some m -> y ∈ l -> cmp m y <> Gt.
Proof. destruct l as [|x l]; [done|]. intros [= <-]. apply fold_min_least. Qed.

(** When ties are impossible the minimum does not depend on the order in
    which the elements are visited. *)
Lemma min_by_perm (l1 l2 : list A) :
  l1 ≡ₚ l2 ->
  (forall x y, x ∈ l1 -> y ∈ l1 -> cmp x y = Eq -> x = y) ->
  min_by l1 = min_by l2.
Proof.
  intros Hperm Hties.
  destruct (min_by l1) as [a|] eqn:E1, (min_by l2) as [b|] eqn:E2; [|exfalso..|done].
  - f_equal. apply Hties.
    + by eapply min_by_elem.
    + rewrite Hperm. by eapply min_by_elem.
    + assert (Hab : cmp a b <> Gt)
        by (eapply min_by_least; [done|]; rewrite Hperm; by eapply min_by_elem).
      assert (Hba : cmp b a <> Gt)
        by (eapply min_by_least; [done|]; rewrite <- Hperm; by eapply min_by_elem).
      rewrite cmp_antisym in Hba. by destruct (cmp a b).
  - apply min_by_None in E2 as ->. apply Permutation_nil_r in Hperm. by subst.
  - apply min_by_None in E1 as ->. apply Permutation_nil_l in Hperm. by subst.
Qed.
End MinBy.

#[global] Instance Z_compare_total : TotalCmp Z.compare.
Proof.
  split.
  - intros a b c. rewrite !Z.compare_gt_iff. lia.
  - intros a b. apply Z.compare_antisym.
Qed.

Lemma string_compare_le (a b : string) : String.compare a b <> Gt <-> String.le a b.
Proof. unfold String.le, String.leb. destruct (String.compare a b); naive_solver. Qed.

#[global] Instance string_compare_total : TotalCmp String.compare.
Proof.
  split.
  - intros a b c. rewrite !string_compare_le. apply transitivity.
  - intros a b. apply String.compare_antisym.
Qed.

(** Comparing a projection, and breaking its ties with a second comparison. *)
#[global] Instance cmp_on_total {A B} (f : A -> B) cmp `{!TotalCmp cmp} :
  TotalCmp (fun x y => cmp (f x) (f y)).
Proof. split; intros; [by eapply cmp_trans|apply cmp_antisym]. Qed.

#[global] Instance then_with_total {A} (c1 c2 : A -> A -> comparison)
    `{!TotalCmp c1, !TotalCmp c2} : TotalCmp (fun x y => then_with (c1 x y) (c2 x y)).
Proof.
  split.
  - intros a b c Hab Hbc.
    assert (Hac : c1 a c <> Gt).
    { apply (cmp_trans a b c); [by destruct (c1 a b)|by destruct (c1 b c)]. }
    destruct (c1 a c) eqn:E; [|done|done]. cbn.
    assert (Hca : c1 c a = Eq) by (rewrite cmp_antisym, E; done).
    assert (E1 : c1 a b = Eq).
    { destruct (c1 a b) eqn:E1; [done| |done].
      destruct (cmp_trans (cmp := c1) b c a).
      - by destruct (c1 b c).
      - by rewrite Hca.
      - by rewrite cmp_antisym, E1. }
    assert (E2 : c1 b c = Eq).
    { destruct (c1 b c) eqn:E2; [done| |done].
      destruct (cmp_trans (cmp := c1) c a b).
      - by rewrite Hca.
      - by rewrite E1.
      - by rewrite cmp_antisym, E2. }
    rewrite E1 in Hab. rewrite E2 in Hbc. by eapply cmp_trans.
  - intros a b. rewrite (cmp_antisym a b). rewrite (cmp_antisym (cmp := c2) a b).
    by destruct (c1 a b).
Qed.

Lemma then_with_Eq (a b : comparison) : then_with a b = Eq <-> a = Eq /\ b = Eq.
Proof. destruct a; naive_solver. Qed.

(** ** Hexadecimal text: [format!("{byte:02x}")] and [format!("{byte:02X}")] *)

Definition hex_digit (ten : Z) (d : Z) : ascii :=
  ascii_of_N (Z.to_N (if d <? 10 then 48 + d else ten + (d - 10))).

Definition hex_byte (ten : Z) (c : ascii) : string :=
  String (hex_digit ten (byte_of c / 16)) (String (hex_digit ten (byte_of c mod 16)) "").

(** Every byte as two lower-case digits. *)
Fixpoint hex (value : string) : string :=
  match value with "" => "" | String c rest => hex_byte 97 c +:+ hex rest end.

Definition is_lower_hex (c : ascii) : bool := is_ascii_digit c || in_range 97 102 c.

Lemma byte_of_bounds (c : ascii) : 0 <= byte_of c < 256.
Proof. unfold byte_of. pose proof (N_ascii_bounded c). lia. Qed.

Lemma byte_of_inj (a b : ascii) : byte_of a = byte_of b -> a = b.
Proof.
  unfold byte_of. intros H%N2Z.inj.
  by rewrite <- (ascii_N_embedding a), <- (ascii_N_embedding b), H.
Qed.

Lemma byte_of_ascii_of_N (n : N) : (n < 256)%N -> byte_of (ascii_of_N n) = Z.of_N n.
Proof. intros H. unfold byte_of. by rewrite N_ascii_embedding. Qed.

Lemma string_app_cons (c : ascii) (a b : string) : String c a +:+ b = String c (a +:+ b).
Proof. reflexivity. Qed.

Lemma string_app_nil_l (b : string) : "" +:+ b = b.
Proof. reflexivity. Qed.

Lemma string_all_app (p : ascii -> bool) (a b : string) :
  string_all p (a +:+ b) = string_all p a && string_all p b.
Proof.
  induction a as [|c a IH]; [done|]. rewrite string_app_cons. cbn. by rewrite IH, andb_assoc.
Qed.

Lemma contains_char_app (c : ascii) (a b : string) :
  contains_char c (a +:+ b) = contains_char c a || contains_char c b.
Proof.
  induction a as [|d a IH]; [done|]. rewrite string_app_cons. cbn. by rewrite IH, orb_assoc.
Qed.

Lemma string_length_app (a b : string) :
  String.length (a +:+ b) = (String.length a + String.length b)%nat.
Proof. induction a as [|c a IH]; [done|]. rewrite string_app_cons. cbn. by rewrite IH. Qed.

Lemma hex_digit_lower (d : Z) : 0 <= d < 16 -> is_lower_hex (hex_digit 97 d) = true.
Proof.
  intros H. unfold is_lower_hex, is_ascii_digit, in_range, hex_digit.
  destruct (Z.ltb_spec d 10); rewrite byte_of_ascii_of_N by lia; rewrite Z2N.id by lia;
    apply orb_true_iff; [left|right]; apply andb_true_iff; split; apply Z.leb_le; lia.
Qed.

Lemma hex_lower (value : string) : string_all is_lower_hex (hex value) = true.
Proof.
  induction value as [|c value IH]; [done|]. cbn [hex]. rewrite string_all_app, IH.
  unfold hex_byte. cbn -[hex_digit].
  pose proof (byte_of_bounds c).
  rewrite !hex_digit_lower; [done|apply Z.mod_pos_bound; lia|].
  split; [apply Z.div_pos; lia|apply Z.div_lt_upper_bound; lia].
Qed.

Lemma hex_length (value : string) : String.length (hex value) = (2 * String.length value)%nat.
Proof.
  induction value as [|c value IH]; [done|]. cbn [hex String.length].
  rewrite string_length_app, IH. cbn. lia.
Qed.

(** ** Prefixes, suffixes and reversal *)

Lemma string_app_assoc (a b c : string) : (a +:+ b) +:+ c = a +:+ (b +:+ c).
Proof. induction a as [|x a IH]; [done|]. by rewrite !string_app_cons, IH. Qed.

Lemma string_app_nil_r (a : string) : a +:+ "" = a.
Proof. induction a as [|x a IH]; [done|]. by rewrite string_app_cons, IH. Qed.

Lemma split_pieces c s : Forall (fun x => contains_char c x = false) (split c s).
Proof.
  induction s as [|d s IH]; cbn; [by repeat constructor|]. destruct (d =? c)%char eqn:E; [by constructor|].
  destruct (split c s) as [|x l]; [|inversion IH; subst]; (constructor; [|done]); cbn; rewrite Ascii.eqb_sym, E; done.
Qed.

Lemma join_cons sep x l : join sep (x :: l) = x +:+ match l with [] => "" | _ => sep +:+ join sep l end.
Proof. destruct l; [|done]. cbn. by rewrite string_app_nil_r. Qed.

Lemma join_split c s : join (String c "") (split c s) = s.
Proof.
  induction s as [|d s IH]; [done|]. cbn [split]. destruct (Ascii.eqb_spec d c) as [->|_].
  - destruct (split c s) as [|x l] eqn:E; [by destruct s; cbn in E; repeat case_match|].
    rewrite join_cons, IH. done.
  - destruct (split c s) as [|x l]; [by cbn in *; rewrite <- IH|]. rewrite join_cons in IH |- *. by rewrite <- IH.
Qed.

Lemma strip_prefix_Some (p s r : string) : strip_prefix p s = Some r <-> s = p +:+ r.
Proof.
  revert s. induction p as [|a p IH]; intros s; cbn.
  { rewrite string_app_nil_l. naive_solver. }
  rewrite string_app_cons. destruct s as [|b s]; [naive_solver|].
  destruct (Ascii.eqb_spec a b) as [->|Hne]; [rewrite IH; naive_solver|naive_solver].
Qed.

Lemma starts_with_true (p s : string) : starts_with p s = true <-> exists r, s = p +:+ r.
Proof.
  unfold starts_with. rewrite bool_decide_eq_true. unfold is_Some.
  split; intros [r Hr]; exists r; by apply strip_prefix_Some.
Qed.

Lemma string_rev_append_app (s acc : string) : string_rev_append s acc = string_rev s +:+ acc.
Proof.
  unfold string_rev. revert acc. induction s as [|c s IH]; intros acc; [done|]. cbn.
  by rewrite IH, (IH (String c "")), string_app_assoc.
Qed.

Lemma string_rev_cons (c : ascii) (s : string) : string_rev (String c s) = string_rev s +:+ String c "".
Proof. unfold string_rev at 1. cbn. by rewrite string_rev_append_app. Qed.

Lemma string_rev_app (a b : string) : string_rev (a +:+ b) = string_rev b +:+ string_rev a.
Proof.
  induction a as [|c a IH]; [by rewrite string_app_nil_r|].
  by rewrite string_app_cons, !string_rev_cons, IH, string_app_assoc.
Qed.

Lemma string_rev_involutive (s : string) : string_rev (string_rev s) = s.
Proof.
  induction s as [|c s IH]; [done|]. by rewrite string_rev_cons, string_rev_app, IH.
Qed.

Lemma strip_suffix_Some (p s r : string) : strip_suffix p s = Some r <-> s = r +:+ p.
Proof.
  unfold strip_suffix. rewrite fmap_Some. split.
  - intros (q & Hq & ->). apply strip_prefix_Some in Hq.
    rewrite <- (string_rev_involutive s), Hq, string_rev_app, string_rev_involutive. done.
  - intros ->. exists (string_rev r). rewrite string_rev_involutive. split; [|done].
    apply strip_prefix_Some. apply string_rev_app.
Qed.

Lemma ends_with_true (p s : string) : ends_with p s = true <-> exists r, s = r +:+ p.
Proof.
  unfold ends_with. rewrite bool_decide_eq_true. unfold is_Some.
  split; intros [r Hr]; exists r; by apply strip_suffix_Some.
Qed.

(** The character just before a suffix. *)
Lemma get_before_suffix (r s : string) (c : ascii) :
  r <> "" ->
  String.get (String.length r - 1) (r +:+ s) = Some c <-> exists p, r = p +:+ String c "".
Proof.
  induction r as [|d r IH]; [done|]. intros _. cbn [String.length].
  rewrite Nat.sub_succ, Nat.sub_0_r, string_app_cons.
  destruct (decide (r = "")) as [->|Hr].
  - cbn. split.
    + intros [= ->]. by exists "".
    + intros [p Hp]. destruct p as [|x p]; [by injection Hp as ->|].
      rewrite string_app_cons in Hp. injection Hp as _ Hp. by destruct p.
  - destruct r as [|e r]; [done|]. cbn [String.length String.get].
    specialize (IH Hr). cbn [String.length] in IH. rewrite Nat.sub_succ, Nat.sub_0_r in IH.
    rewrite IH. split; intros [p Hp].
    + exists (String d p). by rewrite string_app_cons, Hp.
    + destruct p as [|x p]; [discriminate Hp|]. rewrite string_app_cons in Hp.
      injection Hp as _ Hp. by exists p.
Qed.

(** ** Byte buffers and panics

    A [&[u8]] is a list of bytes.  An operation that can panic returns an
    [option]: [None] is the panic (an index or range out of bounds). *)

Abbreviation bytes := (list ascii).

Definition slice (l : bytes) (a b : nat) : option bytes :=
  if ((a <=? b) && (b <=? length l))%nat then Some (take (b - a) (drop a l)) else None.

(** [u16::from_be_bytes], [u32::from_be_bytes]. *)
Definition from_be_bytes (l : bytes) : Z := fold_left (fun acc c => acc * 256 + byte_of c) l 0.

(** [let! x := e in k]: a panic propagates, an error returns. *)
Notation "'let!' x ':=' e 'in' k" :=
  (match e with None => None | Some (Err err) => Some (Err err) | Some (Ok x) => k end)
  (at level 10, x name, e at level 200, k at level 200,
   format "'[v' 'let!'  x  ':='  e  'in' '/' k ']'") : result_scope.

(** ** UTF-8 (core::str::from_utf8, String::from_utf8_lossy) *)

(** The ranges the bytes after a leading byte must lie in; [None] when the byte
    cannot start a character. *)
Definition utf8_tail_ranges (c : ascii) : option (list (Z * Z)) :=
  let b := byte_of c in
  if b <? 128 then Some []
  else if (194 <=? b) && (b <=? 223) then Some [(128, 191)]
  else if b =? 224 then Some [(160, 191); (128, 191)]
  else if (225 <=? b) && (b <=? 236) then Some [(128, 191); (128, 191)]
  else if b =? 237 then Some [(128, 159); (128, 191)]
  else if (238 <=? b) && (b <=? 239) then Some [(128, 191); (128, 191)]
  else if b =? 240 then Some [(144, 191); (128, 191); (128, 191)]
  else if (241 <=? b) && (b <=? 243) then Some [(128, 191); (128, 191); (128, 191)]
  else if b =? 244 then Some [(128, 143); (128, 191); (128, 191)]
  else None.

(** How many leading bytes of [l] lie in the ranges, one range per byte. *)
Fixpoint match_ranges (ranges : list (Z * Z)) (l : bytes) : nat :=
  match ranges, l with
  | (lo, hi) :: ranges', c :: l' => if in_range lo hi c then S (match_ranges ranges' l') else O
  | _, _ => O
  end.

(** The first character or maximal ill-formed part of [c :: l]: how many bytes of
    [l] belong to it, and whether it is well formed. *)
Definition utf8_take (c : ascii) (l : bytes) : nat * bool :=
  match utf8_tail_ranges c with
  | None => (O, false)
  | Some ranges => (match_ranges ranges l, (match_ranges ranges l =? length ranges)%nat)
  end.

Fixpoint utf8_valid_fuel (fuel : nat) (l : bytes) : bool :=
  match fuel, l with
  | _, [] => true
  | O, _ => false
  | S fuel', c :: l' => let '(n, ok) := utf8_take c l' in ok && utf8_valid_fuel fuel' (drop n l')
  end.
Definition utf8_valid (l : bytes) : bool := utf8_valid_fuel (length l) l.

(** [std::str::from_utf8]. *)
Definition from_utf8 (l : bytes) : option string :=
  if utf8_valid l then Some (string_of_list_ascii l) else None.

Fixpoint from_utf8_lossy_fuel (fuel : nat) (l : bytes) : bytes :=
  match fuel, l with
  | _, [] => []
  | O, _ => []
  | S fuel', c :: l' =>
      let '(n, ok) := utf8_take c l' in
      (if ok then c :: take n l' else list_ascii_of_string (encoded [239; 191; 189]%N))
      ++ from_utf8_lossy_fuel fuel' (drop n l')
  end.
Definition from_utf8_lossy (l : bytes) : string :=
  string_of_list_ascii (from_utf8_lossy_fuel (length l) l).

Lemma from_utf8_lossy_valid (l : bytes) :
  utf8_valid l = true -> from_utf8_lossy l = string_of_list_ascii l.
Proof.
  unfold utf8_valid, from_utf8_lossy. intros H. f_equal. revert H.
  generalize (length l) at 1 2. intros fuel. revert l.
  induction fuel as [|fuel IH]; intros [|c l]; cbn; try done.
  destruct (utf8_take c l) as [n ok]. destruct ok; cbn; [|done].
  intros H%IH. by rewrite H, take_drop.
Qed.

Lemma from_be_bytes_bounds (l : bytes) : 0 <= from_be_bytes l < 256 ^ Z.of_nat (length l).
Proof.
  unfold from_be_bytes.
  assert (H : forall l acc k, 0 <= acc < 256 ^ Z.of_nat k ->
    0 <= fold_left (fun acc c => acc * 256 + byte_of c) l acc < 256 ^ Z.of_nat (k + length l)).
  { clear l. induction l as [|c l IH]; intros acc k Hacc; cbn.
    - by rewrite Nat.add_0_r.
    - rewrite Nat.add_succ_r, <- Nat.add_succ_l. apply IH.
      rewrite Nat2Z.inj_succ, Z.pow_succ_r by lia. pose proof (byte_of_bounds c). nia. }
  apply (H l 0 O). cbn. lia.
Qed.

Lemma slice_Some (l : bytes) (a b : nat) :
  (a <= b)%nat -> (b <= length l)%nat -> slice l a b = Some (take (b - a) (drop a l)).
Proof. intros H1 H2. unfold slice. by rewrite (proj2 (Nat.leb_le _ _) H1), (proj2 (Nat.leb_le _ _) H2). Qed.

(** ** Trimming removes only bytes of whitespace characters *)

Definition whitespace_byte (c : ascii) : bool := existsb (contains_char c) WHITESPACE.

Lemma string_all_rev (p : ascii -> bool) (s : string) : string_all p (string_rev s) = string_all p s.
Proof.
  induction s as [|c s IH]; [done|]. rewrite string_rev_cons, string_all_app, IH. cbn.
  by rewrite andb_true_r, andb_comm.
Qed.

Lemma trim_start_any_removes (p : ascii -> bool) fuel (ps : list string) s :
  Forall (fun w => string_all p w = true) ps ->
  exists pre, s = pre +:+ trim_start_any fuel ps s /\ string_all p pre = true.
Proof.
  intros Hps. revert s. induction fuel as [|fuel IH]; intros s; cbn; [by exists ""|].
  destruct (strip_any ps s) as [r|] eqn:Hr; [|by exists ""].
  assert (Hw : exists w, string_all p w = true /\ s = w +:+ r).
  { clear IH. induction Hps as [|w ps Hw Hps IHps]; cbn in Hr; [done|].
    destruct (strip_prefix w s) as [r'|] eqn:Hs; cbn in Hr; [|by apply IHps].
    injection Hr as <-. exists w. by rewrite <- strip_prefix_Some. }
  destruct Hw as (w & Hw & ->). destruct (IH r) as (pre & Hpre & Hall).
  exists (w +:+ pre). by rewrite string_all_app, Hw, string_app_assoc, <- Hpre.
Qed.

Lemma trim_removes (s : string) :
  exists pre post, s = pre +:+ trim s +:+ post /\
    string_all whitespace_byte pre = true /\ string_all whitespace_byte post = true.
Proof.
  assert (Hws : Forall (fun w => string_all whitespace_byte w = true) WHITESPACE)
    by (apply Forall_forall; intros w Hw; repeat (apply elem_of_cons in Hw as [->|Hw]; [reflexivity|]);
        by apply elem_of_nil in Hw).
  destruct (trim_start_any_removes whitespace_byte (String.length s) WHITESPACE s Hws) as (pre & Hs & Hpre).
  unfold trim, trim_end. set (t := trim_start s) in *.
  destruct (trim_start_any_removes whitespace_byte (String.length t) (map string_rev WHITESPACE)
              (string_rev t)) as (post & Ht & Hpost).
  { apply Forall_map. eapply Forall_impl; [exact Hws|]. intros w Hw. cbn. by rewrite string_all_rev. }
  exists pre, (string_rev post). rewrite string_all_rev. split; [|done].
  rewrite <- string_rev_app, <- Ht, string_rev_involutive. exact Hs.
Qed.
