(* ===== verification/Interfaces.v ===== *)
(** * Third-party interfaces

    The crates the program calls but does not contain, as type classes of the
    operations the sources use.  Nothing is assumed of them here; a theorem that
    relies on documented behaviour of a crate states it as a hypothesis. *)
From S2P Require Import Prelude.

(** ** url: [url::Url] and the accessors the sources call *)
Class UrlLib := {
  Url : Type;
  url_eq_dec :: EqDecision Url;
  url_parse : string -> option Url;                 (* Url::parse(..).ok() *)
  url_to_string : Url -> string;                    (* Display *)
  url_scheme : Url -> string;
  url_host_str : Url -> option string;
  url_port : Url -> option Z;                       (* u16 *)
  url_port_or_known_default : Url -> option Z;
  url_username : Url -> string;
  url_password : Url -> option string;
  url_path : Url -> string;
  url_query_pairs : Url -> list (string * string);
  url_same_origin : Url -> Url -> bool;             (* a.origin() == b.origin() *)
  url_set_path : Url -> string -> Url;
  url_join : Url -> string -> option Url;           (* join(..).ok() *)
  url_clear_query : Url -> Url;                     (* set_query(None) *)
  url_clear_fragment : Url -> Url;                  (* set_fragment(None) *)
  (* path_segments_mut() followed by clear() and a push() per segment;
     [None] when the URL cannot be a base *)
  url_replace_segments : Url -> list string -> option Url
}.

(** ** http: [HeaderMap] as axum, hyper and reqwest pass it around.  Names are
    lower-case; a name may have several values. *)
Class HeaderLib := {
  HeaderMap : Type;
  HeaderValue : Type;
  hm_empty : HeaderMap;
  hm_get : HeaderMap -> string -> option HeaderValue;       (* the first value *)
  hm_iter : HeaderMap -> list (string * HeaderValue);
  hm_insert : HeaderMap -> string -> HeaderValue -> HeaderMap;  (* replaces all values *)
  hm_append : HeaderMap -> string -> HeaderValue -> HeaderMap;
  hm_remove : HeaderMap -> string -> HeaderMap;
  hv_to_str : HeaderValue -> option string;                 (* to_str().ok() *)
  hv_from_static : string -> HeaderValue
}.

(** The documented behaviour of [HeaderMap] the data plane relies on. *)
Class HeaderLaws (H : HeaderLib) : Prop := {
  hm_iter_empty : hm_iter hm_empty = [];
  hm_iter_append : forall m n v n' v',
    (n', v') ∈ hm_iter (hm_append m n v) <-> (n', v') = (n, v) \/ (n', v') ∈ hm_iter m
}.

(** ** serde_json: the [Value] enum, with its parser and printer *)
Inductive Value :=
| VNull
| VBool (b : bool)
| VNumber (text : string)
| VString (s : string)
| VArray (items : list Value)
| VObject (fields : list (string * Value)).

Class JsonLib := {
  json_parse : string -> option Value;     (* from_slice / from_str, .ok() *)
  json_print : Value -> string             (* to_vec / to_string *)
}.

(** ** A small concrete URL library for examples

    [scheme://[user[:password]@]host[:port][/path][?query]] with [http] and [https]
    default ports; enough to evaluate the definitions on ordinary URLs. *)
Record simple_url := {
  su_scheme : string; su_username : string; su_password : option string;
  su_host : string; su_port : option Z; su_path : string; su_query : option string
}.

#[global] Instance simple_url_eq_dec : EqDecision simple_url.
Proof. solve_decision. Defined.

Definition parse_port (s : string) : option Z :=
  if string_is_empty s || negb (string_all is_ascii_digit s) then None
  else option_filter (fun n => n <=? U16_MAX)
         (Some (fold_left (fun acc c => acc * 10 + (byte_of c - 48)) (list_ascii_of_string s) 0)).

Definition split_host_port (authority : string) : option (string * option Z) :=
  match strip_prefix "[" authority with
  | Some v6 =>
      match split_once "]" v6 with
      | Some (host, "") => Some ("[" +:+ host +:+ "]", None)
      | Some (host, String ":" p) => (fun n => ("[" +:+ host +:+ "]", Some n)) <$> parse_port p
      | _ => None
      end
  | None =>
      match split_once ":" authority with
      | Some (host, p) => (fun n => (host, Some n)) <$> parse_port p
      | None => Some (authority, None)
      end
  end.

Definition simple_parse (s : string) : option simple_url :=
  '(scheme, rest) ← split_once ":" s;
  rest ← strip_prefix "//" rest;
  let '(rest, query) := match split_once "?" rest with
                        | Some (before, after) => (before, Some after) | None => (rest, None) end in
  let '(authority, path) := match split_once "/" rest with
                            | Some (before, after) => (before, "/" +:+ after) | None => (rest, "/") end in
  let '(userinfo, host_port) := match split_once "@" authority with
                                | Some (before, after) => (before, after) | None => ("", authority) end in
  let '(username, password) := match split_once ":" userinfo with
                               | Some (u, p) => (u, Some p) | None => (userinfo, None) end in
  '(host, port) ← split_host_port host_port;
  if string_is_empty host then None
  else Some {| su_scheme := scheme; su_username := username; su_password := password;
               su_host := host; su_port := port; su_path := path; su_query := query |}.

Definition default_port (scheme : string) : option Z :=
  if bool_decide (scheme = "https") then Some 443
  else if bool_decide (scheme = "http") then Some 80 else None.

Definition with_path (u : simple_url) (path : string) (query : option string) : simple_url :=
  {| su_scheme := su_scheme u; su_username := su_username u; su_password := su_password u;
     su_host := su_host u; su_port := su_port u; su_path := path; su_query := query |}.

Definition simple_join (u : simple_url) (reference : string) : option simple_url :=
  let '(path, query) := match split_once "?" reference with
                        | Some (before, after) => (before, Some after) | None => (reference, None) end in
  Some (if starts_with "/" path then with_path u path query
        else with_path u (su_path u +:+ path) query).

Definition simple_to_string (u : simple_url) : string :=
  su_scheme u +:+ "://" +:+ su_host u +:+
  match su_port u with Some p => ":" +:+ pretty p | None => "" end +:+ su_path u.

#[local] Instance simple_url_lib : UrlLib := {|
  Url := simple_url;
  url_eq_dec := simple_url_eq_dec;
  url_parse := simple_parse;
  url_to_string := simple_to_string;
  url_scheme := su_scheme;
  url_host_str := fun u => Some (su_host u);
  url_port := fun u => if bool_decide (su_port u = default_port (su_scheme u)) then None else su_port u;
  url_port_or_known_default := fun u => option_or (su_port u) (default_port (su_scheme u));
  url_username := su_username;
  url_password := su_password;
  url_path := su_path;
  url_query_pairs := fun u => match su_query u with
    | None => []
    | Some q => map (fun kv => default (kv, "") (split_once "=" kv)) (split "&" q) end;
  url_same_origin := fun a b => bool_decide ((su_scheme a, su_host a, su_port a)
                                             = (su_scheme b, su_host b, su_port b));
  url_set_path := fun u p => with_path u p (su_query u);
  url_join := simple_join;
  url_clear_query := fun u => with_path u (su_path u) None;
  url_clear_fragment := fun u => u;
  url_replace_segments := fun u segments => Some (with_path u ("/" +:+ join "/" segments) (su_query u))
|}.

(** ** A small concrete JSON library for examples

    Strings have no escapes, numbers are runs of digits and there is no white
    space; enough to evaluate the definitions on compact documents. *)
Definition quote : string := String "034" "".

Fixpoint simple_print (v : Value) : string :=
  match v with
  | VNull => "null"
  | VBool b => if b then "true" else "false"
  | VNumber text => text
  | VString s => quote +:+ s +:+ quote
  | VArray items => "[" +:+ join "," (map simple_print items) +:+ "]"
  | VObject fields =>
      "{" +:+ join "," (map (fun kv => quote +:+ kv.1 +:+ quote +:+ ":" +:+ simple_print kv.2) fields)
      +:+ "}"
  end.

Fixpoint take_digits (s : string) : string * string :=
  match s with
  | String c rest => if is_ascii_digit c
                     then let '(digits, rest) := take_digits rest in (String c digits, rest)
                     else ("", s)
  | "" => ("", "")
  end.

(** A value, the items of an array and the fields of an object, each with the text
    after it. *)
Fixpoint simple_parse_value (fuel : nat) (s : string) : option (Value * string) :=
  match fuel with
  | O => None
  | S fuel =>
      let fix items (n : nat) (s : string) : option (list Value * string) :=
        match n with
        | O => None
        | S n =>
            '(v, s) ← simple_parse_value fuel s;
            match s with
            | String "]" rest => Some ([v], rest)
            | String "," rest => '(vs, rest) ← items n rest; Some (v :: vs, rest)
            | _ => None
            end
        end in
      let fix fields (n : nat) (s : string) : option (list (string * Value) * string) :=
        match n with
        | O => None
        | S n =>
            s ← strip_prefix quote s;
            '(key, s) ← split_once "034" s;
            s ← strip_prefix ":" s;
            '(v, s) ← simple_parse_value fuel s;
            match s with
            | String "}" rest => Some ([(key, v)], rest)
            | String "," rest => '(kvs, rest) ← fields n rest; Some ((key, v) :: kvs, rest)
            | _ => None
            end
        end in
      match strip_prefix "null" s, strip_prefix "true" s, strip_prefix "false" s with
      | Some rest, _, _ => Some (VNull, rest)
      | _, Some rest, _ => Some (VBool true, rest)
      | _, _, Some rest => Some (VBool false, rest)
      | None, None, None =>
          match s with
          | String "034" rest => '(text, rest) ← split_once "034" rest; Some (VString text, rest)
          | String "[" (String "]" rest) => Some (VArray [], rest)
          | String "[" rest => '(vs, rest) ← items fuel rest; Some (VArray vs, rest)
          | String "{" (String "}" rest) => Some (VObject [], rest)
          | String "{" rest => '(kvs, rest) ← fields fuel rest; Some (VObject kvs, rest)
          | _ => match take_digits s with
                 | ("", _) => None
                 | (digits, rest) => Some (VNumber digits, rest)
                 end
          end
      end
  end.

#[local] Instance simple_json_lib : JsonLib := {|
  json_parse := fun s => match simple_parse_value (S (String.length s)) s with
                         | Some (v, "") => Some v
                         | _ => None
                         end;
  json_print := simple_print
|}.

(** A header map as the list of its entries in insertion order. *)
#[local] Instance simple_header_lib : HeaderLib := {|
  HeaderMap := list (string * string);
  HeaderValue := string;
  hm_empty := [];
  hm_get := fun m n => snd <$> List.find (fun kv => bool_decide (kv.1 = n)) m;
  hm_iter := fun m => m;
  hm_insert := fun m n v => List.filter (fun kv => negb (bool_decide (kv.1 = n))) m ++ [(n, v)];
  hm_append := fun m n v => m ++ [(n, v)];
  hm_remove := fun m n => List.filter (fun kv => negb (bool_decide (kv.1 = n))) m;
  hv_to_str := Some;
  hv_from_static := fun s => s
|}.

#[local] Instance simple_header_laws : HeaderLaws simple_header_lib.
Proof. split; [done|]. intros m n v n' v'. cbn. set_solver. Qed.

Example simple_json_roundtrip :
  json_print <$> json_parse (simple_print (VObject [("model", VString "m"); ("stream", VBool true)]))
  = Some (simple_print (VObject [("model", VString "m"); ("stream", VBool true)])).
Proof. vm_compute. reflexivity. Qed.
