(* ===== verification/Models.v ===== *)
(** * Model names (src/src/models.rs)

    Family detection, model-map resolution and the eligibility test, and the
    theorem that ties the last two together: the router offers an account for a
    model exactly when the provider adapter can rewrite that model. *)
From S2P Require Import Prelude.

Definition KNOWN_FAMILIES : list string := ["opus"; "sonnet"; "haiku"; "fable"].

Definition family (model : string) : option string :=
  let normalized := to_ascii_lowercase model in
  List.find (fun family => contains family normalized) KNOWN_FAMILIES.

Definition resolve (mapping : gmap string string) (requested : string) : option string :=
  option_or (mapping !! requested)
    (option_or (family requested ≫= fun family => mapping !! family)
       (mapping !! "default")).

Definition accepted (keys : gset string) (requested : string) : bool :=
  bool_decide (keys = ∅)
  || bool_decide (requested ∈ keys)
  || bool_decide ("default" ∈ keys)
  || is_some_and (family requested) (fun family => bool_decide (family ∈ keys)).

Lemma family_known (model f : string) : family model = Some f -> f ∈ KNOWN_FAMILIES.
Proof. intros [H _]%List.find_some. by apply list_elem_of_In in H. Qed.

Lemma resolve_is_Some (m : gmap string string) (requested : string) :
  is_Some (resolve m requested) <->
  requested ∈ dom m \/ (exists f, family requested = Some f /\ f ∈ dom m) \/ "default" ∈ dom m.
Proof.
  unfold resolve. rewrite !elem_of_dom.
  destruct (m !! requested) eqn:E1; [naive_solver|].
  destruct (family requested) as [f|] eqn:E2; cbn.
  - destruct (m !! f) eqn:E3; cbn.
    + split; [|naive_solver]. intros _. right. left. exists f. split; [done|].
      rewrite elem_of_dom. naive_solver.
    + split; [naive_solver|]. intros [[]|[(? & [= <-] & H)|?]]; [done| |done].
      rewrite elem_of_dom, E3 in H. by destruct H.
  - naive_solver.
Qed.

(** Eligibility and rewriting agree: an account whose model map has the
    keys [dom m] is accepted for a requested model if and only if the map is
    empty (every model is passed through unchanged) or [resolve] finds an
    upstream name for it, through the exact name, the family or [default]. *)
Lemma accepted_iff_resolvable (m : gmap string string) (requested : string) :
  accepted (dom m) requested = true <-> m = ∅ \/ is_Some (resolve m requested).
Proof.
  unfold accepted. rewrite resolve_is_Some, !orb_true_iff, !bool_decide_eq_true.
  rewrite dom_empty_iff_L.
  assert (Hfam : is_some_and (family requested) (fun f => bool_decide (f ∈ dom m)) = true <->
    exists f, family requested = Some f /\ f ∈ dom m).
  { destruct (family requested); cbn; rewrite ?bool_decide_eq_true; naive_solver. }
  rewrite Hfam. naive_solver.
Qed.

(** Resolution order: an exact key wins over the family key, and a family key
    over [default]. *)
Lemma resolve_exact (m : gmap string string) (requested upstream : string) :
  m !! requested = Some upstream -> resolve m requested = Some upstream.
Proof. unfold resolve. by intros ->. Qed.

Lemma resolve_family (m : gmap string string) (requested f upstream : string) :
  m !! requested = None -> family requested = Some f -> m !! f = Some upstream ->
  resolve m requested = Some upstream.
Proof. unfold resolve. intros -> ->. cbn. by intros ->. Qed.

Example family_case_insensitive : family "Claude-OPUS-4" = Some "opus".
Proof. reflexivity. Qed.
