(* ===== verification/Routing.v ===== *)
(** * Sticky least-loaded routing (src/src/routing.rs)

    The [Router]: its accounts and sticky sessions, every operation on them,
    the invariant of all reachable routers and the theorems on selection,
    stickiness, eviction and load accounting. *)
From S2P Require Import Prelude Models.

(** ** Data *)

Record RouteAccount := {
  id : string;
  provider : string;
  enabled : bool;
  healthy : bool;
  in_flight : Z;                       (* u32 *)
  utilization_basis_points : Z;        (* u16 *)
  models : gset string;
  depleted_until : option DateTime
}.

Record RouteRequest := { req_session_id : option string; req_model : string }.

Record RouteSelection := {
  sel_account_id : string;
  sel_provider : string;
  reused_session : bool
}.

Inductive RouteError := NoEligibleAccount | UnknownAccount.

Inductive UpstreamOutcome :=
| Success
| Unauthorized
| RateLimited (retry_at : DateTime)
| Overloaded (retry_at : DateTime)
| TransientFailure.

Inductive RetryDecision := RetryAnotherAccount | ReturnFailure.

Record SessionBinding := { account_id : string; last_seen_at : DateTime }.

Record Router := {
  accounts : gmap string RouteAccount;
  sessions : gmap string SessionBinding
}.

Definition SESSION_IDLE_TIMEOUT : Duration := minutes 30.

(** ** Operations *)

Definition retry_decision (outcome : UpstreamOutcome)
    (request_bytes_may_have_been_sent response_bytes_seen : bool) : RetryDecision :=
  if request_bytes_may_have_been_sent || response_bytes_seen then ReturnFailure
  else match outcome with
       | Unauthorized | RateLimited _ | Overloaded _ | TransientFailure => RetryAnotherAccount
       | Success => ReturnFailure
       end.

(** [into_iter().map(|a| (a.id.clone(), a)).collect::<HashMap<_, _>>()]: a later
    account with the same id replaces an earlier one. *)
Definition collect_accounts (l : list RouteAccount) : gmap string RouteAccount :=
  fold_left (fun m a => <[id a := a]> m) l ∅.

Definition router_new (l : list RouteAccount) : Router :=
  {| accounts := collect_accounts l; sessions := ∅ |}.

(** [sessions.retain(|_, binding| keep binding)]. *)
Definition retain_sessions (keep : SessionBinding -> bool)
    (s : gmap string SessionBinding) : gmap string SessionBinding :=
  filter (fun kv => keep (kv.2) = true) s.

(** The dynamic state an account keeps across a replacement that does not
    change its [enabled] flag. *)
Definition carry_over (previous account : RouteAccount) : RouteAccount :=
  {| id := id account; provider := provider account; enabled := enabled account;
     healthy := healthy previous; in_flight := in_flight previous;
     utilization_basis_points := utilization_basis_points previous;
     models := models account; depleted_until := depleted_until previous |}.

Definition merge_account (r : Router) (account : RouteAccount) : RouteAccount :=
  match option_filter (fun previous => Bool.eqb (enabled previous) (enabled account))
          (accounts r !! id account) with
  | Some previous => carry_over previous account
  | None => account
  end.

Definition replace_accounts (r : Router) (l : list RouteAccount) : Router :=
  let replacement := collect_accounts (map (merge_account r) l) in
  {| accounts := replacement;
     sessions := retain_sessions
       (fun binding => is_some_and (replacement !! account_id binding) enabled) (sessions r) |}.

Definition evict_account (account : string) (s : gmap string SessionBinding) :
    gmap string SessionBinding :=
  retain_sessions (fun binding => negb (bool_decide (account_id binding = account))) s.

Definition set_health (a : RouteAccount) (h : bool) (d : option DateTime) : RouteAccount :=
  {| id := id a; provider := provider a; enabled := enabled a; healthy := h;
     in_flight := in_flight a; utilization_basis_points := utilization_basis_points a;
     models := models a; depleted_until := d |}.

Definition set_in_flight (a : RouteAccount) (n : Z) : RouteAccount :=
  {| id := id a; provider := provider a; enabled := enabled a; healthy := healthy a;
     in_flight := n; utilization_basis_points := utilization_basis_points a;
     models := models a; depleted_until := depleted_until a |}.

Definition reset_account_health (r : Router) (aid : string) : Router * result unit RouteError :=
  match accounts r !! aid with
  | None => (r, Err UnknownAccount)
  | Some account =>
      ({| accounts := <[aid := set_health account true None]> (accounts r);
          sessions := evict_account aid (sessions r) |}, Ok tt)
  end.

Definition binding_live (now : DateTime) (binding : SessionBinding) : bool :=
  now <=? last_seen_at binding + SESSION_IDLE_TIMEOUT.

Definition session_count (r : Router) (now : DateTime) : Router * nat :=
  let kept := retain_sessions (binding_live now) (sessions r) in
  ({| accounts := accounts r; sessions := kept |}, size kept).

Definition start_request (r : Router) (aid : string) : Router * result unit RouteError :=
  match accounts r !! aid with
  | None => (r, Err UnknownAccount)
  | Some account =>
      ({| accounts := <[aid := set_in_flight account
                                 (saturating_add U32_MAX (in_flight account) 1)]> (accounts r);
          sessions := sessions r |}, Ok tt)
  end.

Definition eligible (account : RouteAccount) (model : string) (now : DateTime) : bool :=
  enabled account
  && healthy account
  && is_none_or (depleted_until account) (fun depleted_until => depleted_until <=? now)
  && (string_is_empty model || accepted (models account) model).

(** [left.in_flight.cmp(..).then_with(utilization).then_with(id)]. *)
Definition load_cmp (left right : RouteAccount) : comparison :=
  then_with (Z.compare (in_flight left) (in_flight right))
    (then_with (Z.compare (utilization_basis_points left) (utilization_basis_points right))
       (String.compare (id left) (id right))).

(** [accounts.values().filter(eligible).min_by(load_cmp)], for the values in the
    order [order] in which the hash map happens to yield them. *)
Definition select_account (order : list RouteAccount) (model : string) (now : DateTime) :
    option RouteAccount :=
  min_by load_cmp (List.filter (fun account => eligible account model now) order).

(** The account a live binding of the session points to. *)
Definition sticky_account (r : Router) (session_id : string) (now : DateTime) :
    option RouteAccount :=
  option_filter (binding_live now) (sessions r !! session_id)
    ≫= fun binding => accounts r !! account_id binding.

Definition touch (now : DateTime) (binding : SessionBinding) : SessionBinding :=
  {| account_id := account_id binding; last_seen_at := now |}.

(** The selection that ignores stickiness, binding the session if there is one. *)
Definition choose_fresh (order : list RouteAccount) (r : Router) (request : RouteRequest)
    (now : DateTime) : Router * result RouteSelection RouteError :=
  match select_account order (req_model request) now with
  | None => (r, Err NoEligibleAccount)
  | Some account =>
      ({| accounts := accounts r;
          sessions := match req_session_id request with
                      | Some session_id =>
                          <[session_id := {| account_id := id account; last_seen_at := now |}]>
                            (sessions r)
                      | None => sessions r
                      end |},
       Ok {| sel_account_id := id account; sel_provider := provider account;
             reused_session := false |})
  end.

Definition drop_session (r : Router) (session_id : string) : Router :=
  {| accounts := accounts r; sessions := delete session_id (sessions r) |}.

Definition choose_in (order : list RouteAccount) (r : Router) (request : RouteRequest)
    (now : DateTime) : Router * result RouteSelection RouteError :=
  match req_session_id request with
  | None => choose_fresh order r request now
  | Some session_id =>
      match option_filter (fun account => eligible account (req_model request) now)
              (sticky_account r session_id now) with
      | Some account =>
          ({| accounts := accounts r; sessions := alter (touch now) session_id (sessions r) |},
           Ok {| sel_account_id := id account; sel_provider := provider account;
                 reused_session := true |})
      | None => choose_fresh order (drop_session r session_id) request now
      end
  end.

Definition account_values (r : Router) : list RouteAccount := (map_to_list (accounts r)).*2.

Definition choose (r : Router) (request : RouteRequest) (now : DateTime) :
    Router * result RouteSelection RouteError :=
  choose_in (account_values r) r request now.

Definition record_outcome (r : Router) (aid : string) (outcome : UpstreamOutcome) :
    Router * result unit RouteError :=
  match accounts r !! aid with
  | None => (r, Err UnknownAccount)
  | Some account =>
      let account := set_in_flight account (saturating_sub (in_flight account) 1) in
      let account' := match outcome with
                      | Success | TransientFailure => account
                      | Unauthorized => set_health account false (depleted_until account)
                      | RateLimited retry_at | Overloaded retry_at =>
                          set_health account (healthy account) (Some retry_at)
                      end in
      ({| accounts := <[aid := account']> (accounts r);
          sessions := match outcome with
                      | Success => sessions r
                      | _ => evict_account aid (sessions r)
                      end |}, Ok tt)
  end.

(** ** The invariant of reachable routers *)

Record router_wf (r : Router) : Prop := {
  wf_keys : forall k a, accounts r !! k = Some a -> id a = k;
  wf_widths : forall k a, accounts r !! k = Some a ->
    0 <= in_flight a <= U32_MAX /\ 0 <= utilization_basis_points a <= U16_MAX;
  wf_sessions : forall s b, sessions r !! s = Some b ->
    exists a, accounts r !! account_id b = Some a /\ enabled a = true /\ healthy a = true
}.

(** The values a Rust caller can pass: the fields have their integer types. *)
Definition account_typed (a : RouteAccount) : Prop :=
  0 <= in_flight a <= U32_MAX /\ 0 <= utilization_basis_points a <= U16_MAX.

Inductive router_step : Router -> Router -> Prop :=
| step_replace r l : Forall account_typed l -> router_step r (replace_accounts r l)
| step_reset r aid : router_step r (reset_account_health r aid).1
| step_count r now : router_step r (session_count r now).1
| step_start r aid : router_step r (start_request r aid).1
| step_choose r request now : router_step r (choose r request now).1
| step_outcome r aid outcome : router_step r (record_outcome r aid outcome).1.

Inductive reachable : Router -> Prop :=
| reachable_new l : Forall account_typed l -> reachable (router_new l)
| reachable_step r r' : reachable r -> router_step r r' -> reachable r'.

(** ** Lookup lemmas *)

Create HintDb routing.

Lemma fold_collect_lookup (l : list RouteAccount) (m : gmap string RouteAccount) k a :
  fold_left (fun m a => <[id a := a]> m) l m !! k = Some a ->
  (a ∈ l /\ id a = k) \/ m !! k = Some a.
Proof.
  revert m. induction l as [|b l IH]; intros m; cbn; [by right|].
  intros [[? ?]|H]%IH; [set_solver|].
  destruct (decide (id b = k)) as [<-|Hne]; simplify_map_eq; set_solver.
Qed.

Lemma collect_accounts_lookup (l : list RouteAccount) k a :
  collect_accounts l !! k = Some a -> a ∈ l /\ id a = k.
Proof. by intros [?|?]%fold_collect_lookup; simplify_map_eq. Qed.

Lemma fold_collect_dom (l : list RouteAccount) (m : gmap string RouteAccount) k :
  is_Some (m !! k) \/ (exists a, a ∈ l /\ id a = k) ->
  is_Some (fold_left (fun m a => <[id a := a]> m) l m !! k).
Proof.
  revert m. induction l as [|b l IH]; intros m; cbn; [set_solver|].
  intros H. apply IH. destruct (decide (id b = k)) as [<-|Hne]; simplify_map_eq; [naive_solver|].
  destruct H as [?|(a & [->|?]%elem_of_cons & ?)]; naive_solver.
Qed.

Lemma collect_accounts_dom (l : list RouteAccount) k :
  is_Some (collect_accounts l !! k) <-> exists a, a ∈ l /\ id a = k.
Proof.
  split.
  - intros [a [? ?]%collect_accounts_lookup]. eauto.
  - intros H. apply fold_collect_dom. by right.
Qed.

Lemma retain_lookup keep (s : gmap string SessionBinding) k b :
  retain_sessions keep s !! k = Some b <-> s !! k = Some b /\ keep b = true.
Proof. unfold retain_sessions. by rewrite map_lookup_filter_Some. Qed.

Lemma evict_lookup aid (s : gmap string SessionBinding) k b :
  evict_account aid s !! k = Some b <-> s !! k = Some b /\ account_id b <> aid.
Proof.
  unfold evict_account. rewrite retain_lookup, negb_true_iff, bool_decide_eq_false. done.
Qed.

Lemma account_values_elem (r : Router) a :
  router_wf r -> a ∈ account_values r <-> accounts r !! id a = Some a.
Proof.
  intros Hwf. unfold account_values. rewrite list_elem_of_fmap. split.
  - intros [[k b] [-> H%elem_of_map_to_list]]. cbn. by rewrite (wf_keys _ Hwf k b H).
  - intros H. exists (id a, a). split; [done|]. by apply elem_of_map_to_list.
Qed.

#[global] Instance load_cmp_total : TotalCmp load_cmp.
Proof.
  unfold load_cmp.
  refine (then_with_total _ _ (TotalCmp1 := then_with_total _ _)).
Qed.

Lemma load_cmp_Eq a b : load_cmp a b = Eq -> id a = id b.
Proof.
  unfold load_cmp. rewrite !then_with_Eq. intros (_ & _ & H). by apply String.compare_eq_iff.
Qed.

Lemma select_account_spec order model now a :
  select_account order model now = Some a ->
  a ∈ order /\ eligible a model now = true /\
  (forall b, b ∈ order -> eligible b model now = true -> load_cmp a b <> Gt).
Proof.
  intros H. pose proof (min_by_elem _ _ _ H) as Hin.
  rewrite elem_of_bool_filter in Hin. destruct Hin. split; [done|]. split; [done|].
  intros b Hb He. apply (min_by_least load_cmp _ _ _ H).
  by rewrite elem_of_bool_filter.
Qed.

Lemma select_account_None order model now :
  select_account order model now = None <-> forall b, b ∈ order -> eligible b model now = false.
Proof.
  unfold select_account. rewrite min_by_None. split.
  - intros H b Hb. apply not_true_iff_false. intros He.
    assert (Hin : b ∈ List.filter (fun a => eligible a model now) order)
      by (rewrite elem_of_bool_filter; done).
    rewrite H in Hin. set_solver.
  - intros H. destruct (List.filter _ order) as [|b l] eqn:E; [done|]. exfalso.
    assert (Hin : b ∈ List.filter (fun a => eligible a model now) order) by (rewrite E; set_solver).
    rewrite elem_of_bool_filter in Hin. destruct Hin as [Hb He].
    by rewrite H in He.
Qed.

Lemma eligible_enabled_healthy a model now :
  eligible a model now = true -> enabled a = true /\ healthy a = true.
Proof. unfold eligible. rewrite !andb_true_iff. tauto. Qed.

Lemma sticky_account_lookup r sid now a :
  sticky_account r sid now = Some a ->
  exists b, sessions r !! sid = Some b /\ binding_live now b = true /\
            accounts r !! account_id b = Some a.
Proof.
  unfold sticky_account. destruct (sessions r !! sid) as [b|] eqn:E; cbn; [|done].
  destruct (binding_live now b) eqn:El; cbn; [|done]. eauto.
Qed.

(** What [choose] can return, branch by branch. *)
Lemma choose_in_cases order r request now r' res :
  choose_in order r request now = (r', res) ->
  accounts r' = accounts r /\
  ((exists sid b a, req_session_id request = Some sid /\ sessions r !! sid = Some b /\
      binding_live now b = true /\ accounts r !! account_id b = Some a /\
      eligible a (req_model request) now = true /\
      sessions r' = <[sid := touch now b]> (sessions r) /\
      res = Ok {| sel_account_id := id a; sel_provider := provider a; reused_session := true |})
   \/ (exists a, select_account order (req_model request) now = Some a /\
      res = Ok {| sel_account_id := id a; sel_provider := provider a; reused_session := false |} /\
      sessions r' = match req_session_id request with
                    | Some sid => <[sid := {| account_id := id a; last_seen_at := now |}]> (sessions r)
                    | None => sessions r end)
   \/ (select_account order (req_model request) now = None /\ res = Err NoEligibleAccount /\
      sessions r' = match req_session_id request with
                    | Some sid => delete sid (sessions r) | None => sessions r end)).
Proof.
  unfold choose_in, choose_fresh.
  destruct (req_session_id request) as [sid|] eqn:Esid.
  - destruct (sticky_account r sid now) as [a|] eqn:Est; cbn.
    + apply sticky_account_lookup in Est as (b & Hb & Hlive & Ha).
      destruct (eligible a (req_model request) now) eqn:Eel; cbn.
      * intros [= <- <-]. split; [done|]. left. exists sid, b, a. split_and!; try done. cbn.
        apply map_eq. intros k. destruct (decide (sid = k)) as [<-|?]; simplify_map_eq; done.
      * destruct (select_account _ _ _) eqn:Es; intros [= <- <-]; split; try done;
          right; [left|right]; cbn; rewrite ?insert_delete_eq; eauto.
    + destruct (select_account _ _ _) eqn:Es; intros [= <- <-]; split; try done;
        right; [left|right]; cbn; rewrite ?insert_delete_eq; eauto.
  - destruct (select_account _ _ _) eqn:Es; intros [= <- <-]; split; try done;
      right; [left|right]; eauto.
Qed.

(** ** Preservation of the invariant *)

(** Changing one account in place without touching its identity or enablement,
    and dropping every session that would be bound to an unhealthy account. *)
Lemma wf_update_account r aid a a' s' :
  router_wf r -> accounts r !! aid = Some a ->
  id a' = id a -> enabled a' = enabled a -> account_typed a' ->
  (forall k b, s' !! k = Some b -> sessions r !! k = Some b) ->
  (forall k b, s' !! k = Some b -> account_id b = aid -> healthy a = true -> healthy a' = true) ->
  router_wf {| accounts := <[aid := a']> (accounts r); sessions := s' |}.
Proof.
  intros Hwf Ha Hid Hen Hty Hsub Hh. split; cbn.
  - intros k b. destruct (decide (aid = k)) as [<-|?]; intros; simplify_map_eq.
    + rewrite Hid. by apply (wf_keys _ Hwf).
    + by apply (wf_keys _ Hwf).
  - intros k b. destruct (decide (aid = k)) as [<-|?]; intros; simplify_map_eq; [done|].
    by apply (wf_widths _ Hwf k).
  - intros k b Hb. destruct (wf_sessions _ Hwf k b (Hsub _ _ Hb)) as (c & Hc & Hce & Hch).
    destruct (decide (aid = account_id b)) as [Heq|?]; simplify_map_eq; [|eauto].
    exists a'. rewrite Hen. eauto.
Qed.

Lemma account_typed_wf r k a : router_wf r -> accounts r !! k = Some a -> account_typed a.
Proof. intros Hwf H. by apply (wf_widths _ Hwf k). Qed.

Lemma saturating_add_bounds max a b : 0 <= a <= max -> 0 <= b -> 0 <= saturating_add max a b <= max.
Proof. unfold saturating_add. lia. Qed.

Lemma saturating_sub_bounds max a b : 0 <= a <= max -> 0 <= b -> 0 <= saturating_sub a b <= max.
Proof. unfold saturating_sub. lia. Qed.

#[export] Hint Resolve account_typed_wf saturating_add_bounds saturating_sub_bounds : routing.

Lemma wf_reset r aid : router_wf r -> router_wf (reset_account_health r aid).1.
Proof.
  intros Hwf. unfold reset_account_health. destruct (accounts r !! aid) as [a|] eqn:Ha; [|done].
  eapply wf_update_account; try done.
  - pose proof (account_typed_wf _ _ _ Hwf Ha) as [? ?]. by split.
  - intros k b [? _]%evict_lookup. done.
Qed.

Lemma wf_start r aid : router_wf r -> router_wf (start_request r aid).1.
Proof.
  intros Hwf. unfold start_request. destruct (accounts r !! aid) as [a|] eqn:Ha; [|done].
  eapply wf_update_account; try done.
  pose proof (account_typed_wf _ _ _ Hwf Ha) as [? ?]. split; cbn; [|done].
  apply saturating_add_bounds; lia.
Qed.

Lemma wf_outcome r aid outcome : router_wf r -> router_wf (record_outcome r aid outcome).1.
Proof.
  intros Hwf. unfold record_outcome. destruct (accounts r !! aid) as [a|] eqn:Ha; [|done].
  pose proof (account_typed_wf _ _ _ Hwf Ha) as [? ?].
  eapply wf_update_account; try done.
  - by destruct outcome.
  - by destruct outcome.
  - assert (0 <= saturating_sub (in_flight a) 1 <= U32_MAX) by (apply saturating_sub_bounds; lia).
    destruct outcome; by split.
  - intros k b. destruct outcome; rewrite ?evict_lookup; naive_solver.
  - intros k b. destruct outcome; rewrite ?evict_lookup; naive_solver.
Qed.

Lemma wf_count r now : router_wf r -> router_wf (session_count r now).1.
Proof.
  intros [? ? Hs]. split; cbn; [done..|]. intros s b [? _]%retain_lookup. eauto.
Qed.

Lemma wf_choose r request now : router_wf r -> router_wf (choose r request now).1.
Proof.
  intros Hwf. destruct (choose r request now) as [r' res] eqn:E.
  pose proof (choose_in_cases _ _ _ _ _ _ E) as [Hacc Hcases]. cbn.
  split; rewrite Hacc; [by apply wf_keys|by apply wf_widths|].
  intros s b Hb.
  destruct Hcases as [(sid & b0 & a & _ & Hb0 & _ & Ha & Hel & Hs & _)
                     |[(a & Hsel & _ & Hs)|(_ & _ & Hs)]]; rewrite Hs in Hb.
  - destruct (decide (sid = s)) as [<-|?]; simplify_map_eq; [|by apply (wf_sessions _ Hwf s)].
    exists a. by apply eligible_enabled_healthy in Hel as [? ?].
  - apply select_account_spec in Hsel as (Hin & Hel & _).
    apply account_values_elem in Hin; [|done].
    apply eligible_enabled_healthy in Hel as [? ?].
    destruct (req_session_id request) as [sid|]; [|by apply (wf_sessions _ Hwf s)].
    destruct (decide (sid = s)) as [<-|?]; simplify_map_eq; [by exists a|].
    by apply (wf_sessions _ Hwf s).
  - destruct (req_session_id request) as [sid|]; [|by apply (wf_sessions _ Hwf s)].
    apply lookup_delete_Some in Hb as [_ Hb]. by apply (wf_sessions _ Hwf s).
Qed.

Lemma merge_account_id r a : id (merge_account r a) = id a.
Proof. unfold merge_account. by destruct (option_filter _ _). Qed.

Lemma merge_account_enabled r a : enabled (merge_account r a) = enabled a.
Proof. unfold merge_account. by destruct (option_filter _ _). Qed.

Lemma merge_account_typed r a : router_wf r -> account_typed a -> account_typed (merge_account r a).
Proof.
  intros Hwf Ha. unfold merge_account.
  destruct (accounts r !! id a) as [p|] eqn:Ep; cbn; [|done].
  destruct (Bool.eqb _ _); [|done]. exact (wf_widths _ Hwf (id a) p Ep).
Qed.

Lemma replacement_lookup r l k a :
  accounts (replace_accounts r l) !! k = Some a ->
  exists a0, a0 ∈ l /\ id a0 = k /\ a = merge_account r a0.
Proof.
  cbn. intros [Hin Hid]%collect_accounts_lookup.
  apply list_elem_of_fmap in Hin as (a0 & -> & Ha0). rewrite merge_account_id in Hid. eauto.
Qed.

Lemma wf_replace r l :
  router_wf r -> Forall account_typed l -> router_wf (replace_accounts r l).
Proof.
  intros Hwf Hl. split.
  - intros k a (a0 & _ & <- & ->)%replacement_lookup. apply merge_account_id.
  - intros k a (a0 & Hin & _ & ->)%replacement_lookup.
    apply merge_account_typed; [done|]. by eapply Forall_forall in Hin.
  - intros s b [Hb Hkeep]%retain_lookup.
    destruct (wf_sessions _ Hwf s b Hb) as (p & Hp & Hpe & Hph).
    destruct (collect_accounts (map (merge_account r) l) !! account_id b) as [a|] eqn:Ea;
      [|done]. cbn in Hkeep.
    exists a. split; [done|]. split; [done|].
    apply replacement_lookup in Ea as (a0 & _ & Hid & ->).
    rewrite merge_account_enabled in Hkeep.
    unfold merge_account. rewrite Hid, Hp. cbn. by rewrite Hpe, Hkeep.
Qed.

Lemma wf_new l : Forall account_typed l -> router_wf (router_new l).
Proof.
  intros Hl. split; cbn.
  - intros k a [_ ?]%collect_accounts_lookup. done.
  - intros k a [Hin _]%collect_accounts_lookup. exact (proj1 (Forall_forall _ _) Hl a Hin).
  - intros s b H. simplify_map_eq.
Qed.

Lemma wf_step r r' : router_wf r -> router_step r r' -> router_wf r'.
Proof.
  intros Hwf Hstep. destruct Hstep; auto using wf_replace, wf_reset, wf_count, wf_start, wf_choose, wf_outcome.
Qed.

Lemma wf_reachable r : reachable r -> router_wf r.
Proof. induction 1; eauto using wf_new, wf_step. Qed.

(** ** Theorems *)

(** C1.  Router invariant.  In every router reachable from [Router::new] through
    any sequence of [choose], [start_request], [record_outcome],
    [reset_account_health], [session_count] and [replace_accounts] calls, accounts
    are stored under their own id, the counters stay in their machine width, and
    every sticky session points to an account that exists, is enabled and is
    healthy. *)
Theorem reachable_router_wf (r : Router) (Hr : reachable r) : router_wf r.
Proof. by apply wf_reachable. Qed.

(** The order in which the hash map yields its values does not matter. *)
Lemma select_account_perm r order model now :
  router_wf r -> order ≡ₚ account_values r ->
  select_account order model now = select_account (account_values r) model now.
Proof.
  intros Hwf Hperm. unfold select_account. apply min_by_perm.
  - apply _.
  - by rewrite Hperm.
  - intros x y Hx Hy Heq%load_cmp_Eq.
    rewrite elem_of_bool_filter, Hperm in Hx, Hy.
    destruct Hx as [Hx _], Hy as [Hy _].
    apply (account_values_elem r) in Hx, Hy; [|done..].
    rewrite Heq in Hx. congruence.
Qed.

(** Selection is deterministic although [HashMap::values] has no fixed
    order: whatever permutation of the stored accounts the iteration yields,
    [choose] returns the same selection and leaves the same sessions behind. *)
Lemma choose_iteration_order_irrelevant (r : Router) (order : list RouteAccount)
    (request : RouteRequest) (now : DateTime)
    (Hr : reachable r) (Hperm : order ≡ₚ account_values r) :
  choose_in order r request now = choose r request now.
Proof.
  pose proof (select_account_perm r order (req_model request) now (wf_reachable _ Hr) Hperm) as E.
  unfold choose, choose_in, choose_fresh. by rewrite E.
Qed.

Lemma load_cmp_spec a b :
  load_cmp a b <> Gt <->
  in_flight a < in_flight b \/
  (in_flight a = in_flight b /\
   (utilization_basis_points a < utilization_basis_points b \/
    (utilization_basis_points a = utilization_basis_points b /\ String.le (id a) (id b)))).
Proof.
  unfold load_cmp. rewrite <- string_compare_le.
  destruct (Z.compare_spec (in_flight a) (in_flight b)); cbn;
    [|intuition (done || lia)..].
  destruct (Z.compare_spec (utilization_basis_points a) (utilization_basis_points b)); cbn;
    intuition (done || lia).
Qed.

Lemma choose_ok r request now r' sel :
  router_wf r -> choose r request now = (r', Ok sel) ->
  exists a, accounts r !! sel_account_id sel = Some a /\ id a = sel_account_id sel /\
    provider a = sel_provider sel /\ eligible a (req_model request) now = true.
Proof.
  intros Hwf [_ Hcases]%choose_in_cases.
  destruct Hcases as [(sid & b & a & _ & _ & _ & Ha & Hel & _ & [= ->])
                     |[(a & Hsel & [= ->] & _)|(_ & ? & _)]]; [..|done]; exists a; cbn.
  - pose proof (wf_keys _ Hwf _ _ Ha) as Hid. rewrite Hid. done.
  - apply select_account_spec in Hsel as (Hin & Hel & _).
    by apply account_values_elem in Hin.
Qed.

(** Successful selections. *)
Lemma choose_selects (r r' : Router) (request : RouteRequest) (now : DateTime)
    (sel : RouteSelection) (Hr : reachable r) (Hc : choose r request now = (r', Ok sel)) :
  exists a, accounts r !! sel_account_id sel = Some a /\
    provider a = sel_provider sel /\ eligible a (req_model request) now = true /\
    accounts r' = accounts r /\
    (forall sid, req_session_id request = Some sid ->
      sessions r' !! sid = Some {| account_id := sel_account_id sel; last_seen_at := now |}) /\
    (reused_session sel = false -> forall k b, accounts r !! k = Some b ->
      eligible b (req_model request) now = true ->
      in_flight a < in_flight b \/ (in_flight a = in_flight b /\
        (utilization_basis_points a < utilization_basis_points b \/
          (utilization_basis_points a = utilization_basis_points b /\ String.le (id a) (id b))))).
Proof.
  pose proof (wf_reachable _ Hr) as Hwf.
  destruct (choose_ok _ _ _ _ _ Hwf Hc) as (a & Ha & Hid & Hp & Hel).
  exists a. split; [done|]. split; [done|]. split; [done|].
  apply choose_in_cases in Hc as [Hacc Hcases]. split; [done|].
  destruct Hcases as [(sid & b & c & Hsid & Hb & _ & Hcb & _ & Hs & [= ->])
                     |[(c & Hsel & [= ->] & Hs)|(_ & ? & _)]]; [..|done]; cbn in *.
  - split; [|done]. intros sid' Hsid'. rewrite Hsid in Hsid'. simplify_eq.
    pose proof (wf_keys _ Hwf _ _ Hcb) as Hk. rewrite Hs, lookup_insert_eq. unfold touch. by rewrite Hk.
  - split.
    + intros sid Hsid. rewrite Hs, Hsid. by rewrite lookup_insert_eq.
    + intros _ k b Hb Helb. apply select_account_spec in Hsel as (Hin & _ & Hmin).
      apply account_values_elem in Hin; [|done]. simplify_eq.
      apply load_cmp_spec, Hmin; [|done]. apply account_values_elem; [done|].
      by rewrite (wf_keys _ Hwf k b Hb).
Qed.

(** Failed selections. *)
Lemma choose_fails_iff_none_eligible (r : Router) (request : RouteRequest) (now : DateTime)
    (e : RouteError) (Hr : reachable r) :
  (choose r request now).2 = Err e <->
  e = NoEligibleAccount /\
  forall k a, accounts r !! k = Some a -> eligible a (req_model request) now = false.
Proof.
  pose proof (wf_reachable _ Hr) as Hwf.
  destruct (choose r request now) as [r' res] eqn:E.
  apply choose_in_cases in E as [_ Hcases]. cbn. split.
  - destruct Hcases as [(? & ? & ? & _ & _ & _ & _ & _ & _ & ->)|[(? & _ & -> & _)|(Hsel & -> & _)]];
      [done..|]. intros [= <-]. split; [done|]. intros k a Ha.
    apply (proj1 (select_account_None _ _ _) Hsel). apply account_values_elem; [done|].
    by rewrite (wf_keys _ Hwf k a Ha).
  - intros [-> Hnone].
    destruct Hcases as [(? & b & a & _ & _ & _ & Ha & Hel & _)|[(a & Hsel & _)|(_ & -> & _)]]; [..|done].
    + by rewrite (Hnone _ _ Ha) in Hel.
    + apply select_account_spec in Hsel as (Hin & Hel & _).
      apply account_values_elem in Hin; [|done]. by rewrite (Hnone _ _ Hin) in Hel.
Qed.

(** C11.  Correct selection.  [choose] leaves the accounts alone.  When it succeeds it
    names a stored account that is enabled, healthy, not depleted and serves the model,
    reports its provider and binds the request's session to it at [now]; when the
    selection is not a sticky reuse, no eligible account has fewer requests in flight,
    ties are broken by utilisation and then by id.  It fails only with
    [NoEligibleAccount] and only when no stored account is eligible: a stale binding
    never turns a servable request into a failure. *)
Theorem choose_selects_least_loaded (r : Router) (request : RouteRequest) (now : DateTime)
    (Hr : reachable r) :
  let '(r', res) := choose r request now in
  accounts r' = accounts r /\
  match res with
  | Ok sel => exists a, accounts r !! sel_account_id sel = Some a /\
      provider a = sel_provider sel /\ eligible a (req_model request) now = true /\
      (forall sid, req_session_id request = Some sid ->
        sessions r' !! sid = Some {| account_id := sel_account_id sel; last_seen_at := now |}) /\
      (reused_session sel = false -> forall k b, accounts r !! k = Some b ->
        eligible b (req_model request) now = true ->
        in_flight a < in_flight b \/ (in_flight a = in_flight b /\
          (utilization_basis_points a < utilization_basis_points b \/
            (utilization_basis_points a = utilization_basis_points b /\ String.le (id a) (id b)))))
  | Err e => e = NoEligibleAccount /\
      forall k a, accounts r !! k = Some a -> eligible a (req_model request) now = false
  end.
Proof.
  destruct (choose r request now) as [r' [sel|e]] eqn:Hc.
  - destruct (choose_selects r r' request now sel Hr Hc) as (a & Ha & Hp & Hel & Hacc & Hs & Hmin).
    split; [done|]. by exists a.
  - split; [by apply choose_in_cases in Hc as [Hacc _]|].
    apply (choose_fails_iff_none_eligible r request now e Hr). by rewrite Hc.
Qed.

(** ** Traffic: what requests, as opposed to administrators, do to a router *)

Inductive traffic_step : Router -> Router -> Prop :=
| traffic_count r now : traffic_step r (session_count r now).1
| traffic_start r aid : traffic_step r (start_request r aid).1
| traffic_choose r request now : traffic_step r (choose r request now).1
| traffic_outcome r aid outcome : traffic_step r (record_outcome r aid outcome).1.

(** An account no request may be routed to. *)
Definition barred (aid : string) (r : Router) : Prop :=
  forall a, accounts r !! aid = Some a -> enabled a = false \/ healthy a = false.

Lemma choose_accounts r request now : accounts (choose r request now).1 = accounts r.
Proof.
  destruct (choose r request now) as [r' res] eqn:E. by apply choose_in_cases in E as [? _].
Qed.

Lemma barred_traffic aid r r' : traffic_step r r' -> barred aid r -> barred aid r'.
Proof.
  intros Hstep Hbar. destruct Hstep as [r now|r x|r request now|r x outcome]; intros a.
  - apply Hbar.
  - unfold start_request. destruct (accounts r !! x) as [b|] eqn:E; [|apply Hbar]. cbn.
    destruct (decide (x = aid)) as [->|?]; intros; simplify_map_eq; [|by apply Hbar].
    by apply (Hbar b).
  - rewrite choose_accounts. apply Hbar.
  - unfold record_outcome. destruct (accounts r !! x) as [b|] eqn:E; [|apply Hbar]. cbn.
    destruct (decide (x = aid)) as [->|?]; intros; simplify_map_eq; [|by apply Hbar].
    destruct (Hbar b E); destruct outcome; cbn; auto.
Qed.

Lemma barred_traffic_rtc aid r r' : rtc traffic_step r r' -> barred aid r -> barred aid r'.
Proof. induction 1; eauto using barred_traffic. Qed.

Lemma traffic_wf r r' : rtc traffic_step r r' -> router_wf r -> router_wf r'.
Proof.
  induction 1 as [|x y z Hs _ IH]; [done|]. intros Hwf. apply IH.
  destruct Hs; auto using wf_count, wf_start, wf_choose, wf_outcome.
Qed.

Lemma barred_not_chosen aid r request now r' sel :
  router_wf r -> barred aid r -> choose r request now = (r', Ok sel) -> sel_account_id sel <> aid.
Proof.
  intros Hwf Hbar Hc <-. apply choose_ok in Hc as (a & Ha & _ & _ & Hel); [|done].
  apply eligible_enabled_healthy in Hel as [He Hh].
  destruct (Hbar a Ha); congruence.
Qed.

(** C39.  Revoked credentials stay out: once an upstream has answered an account's request
    with an authentication failure, no later request is routed to that account, whatever
    traffic follows on any account, until an administrator resets its health or the
    accounts are replaced. *)
Theorem unauthorized_account_not_chosen (r r1 r2 r3 : Router) (aid : string)
    (request : RouteRequest) (now : DateTime) (sel : RouteSelection)
    (Hr : reachable r) (Ho : record_outcome r aid Unauthorized = (r1, Ok tt))
    (Ht : rtc traffic_step r1 r2) (Hc : choose r2 request now = (r3, Ok sel)) :
  sel_account_id sel <> aid.
Proof.
  assert (Hwf1 : router_wf r1).
  { replace r1 with (record_outcome r aid Unauthorized).1 by (by rewrite Ho).
    by apply wf_outcome, wf_reachable. }
  eapply barred_not_chosen; [|eapply barred_traffic_rtc; [done|]|done].
  - by eapply traffic_wf.
  - intros a. unfold record_outcome in Ho. destruct (accounts r !! aid); simplify_eq.
    cbn. rewrite lookup_insert_eq. intros [= <-]. by right.
Qed.

(** Pausing and deleting take effect at once.  After [replace_accounts] with
    a list in which no enabled account has the id [aid], every sticky session of
    that account is gone and no request is routed to it, whatever traffic
    follows. *)
Lemma paused_account_not_chosen (r r2 r3 : Router) (l : list RouteAccount) (aid : string)
    (request : RouteRequest) (now : DateTime) (sel : RouteSelection)
    (Hr : reachable r) (Hl : Forall account_typed l)
    (Hoff : forall a, a ∈ l -> id a = aid -> enabled a = false)
    (Ht : rtc traffic_step (replace_accounts r l) r2)
    (Hc : choose r2 request now = (r3, Ok sel)) :
  sel_account_id sel <> aid /\
  (forall s b, sessions (replace_accounts r l) !! s = Some b -> account_id b <> aid).
Proof.
  pose proof (wf_replace r l (wf_reachable _ Hr) Hl) as Hwf.
  assert (Hbar : barred aid (replace_accounts r l)).
  { intros a (a0 & Hin & Hid & ->)%replacement_lookup. left.
    rewrite merge_account_enabled. eauto. }
  split.
  - eapply barred_not_chosen; [by eapply traffic_wf|by eapply barred_traffic_rtc|done].
  - intros s b Hb <-. destruct (wf_sessions _ Hwf s b Hb) as (a & Ha & He & Hh).
    destruct (Hbar a Ha); congruence.
Qed.

(** Depletion window.  After a 429 or 529 with retry time [retry_at] the
    account is never selected before [retry_at] and its sticky sessions are
    evicted; from [retry_at] on it is eligible again exactly when its enablement,
    health and models allow it. *)
Lemma depleted_account_window (r r1 : Router) (aid : string) (retry_at : DateTime)
    (outcome : UpstreamOutcome) (Hr : reachable r)
    (Hout : outcome = RateLimited retry_at \/ outcome = Overloaded retry_at)
    (Ho : record_outcome r aid outcome = (r1, Ok tt)) :
  (forall request now r2 sel, now < retry_at ->
     choose r1 request now = (r2, Ok sel) -> sel_account_id sel <> aid) /\
  (forall s b, sessions r1 !! s = Some b -> account_id b <> aid) /\
  (exists a a1, accounts r !! aid = Some a /\ accounts r1 !! aid = Some a1 /\
     forall model now, retry_at <= now ->
       eligible a1 model now =
         enabled a && healthy a && (string_is_empty model || accepted (models a) model)).
Proof.
  assert (Hwf : router_wf r1).
  { replace r1 with (record_outcome r aid outcome).1 by (by rewrite Ho).
    by apply wf_outcome, wf_reachable. }
  unfold record_outcome in Ho. destruct (accounts r !! aid) as [a|] eqn:Ea; [|done].
  injection Ho as <-. split; [|split].
  - intros request now r2 sel Hlt Hc <-.
    apply choose_ok in Hc as (b & Hb & _ & _ & Hel); [|done]. cbn in Hb.
    rewrite lookup_insert_eq in Hb. injection Hb as <-.
    destruct Hout as [-> | ->]; unfold eligible in Hel; cbn in Hel;
      rewrite (proj2 (Z.leb_gt retry_at now)) in Hel by lia;
      destruct (enabled a), (healthy a); done.
  - intros s b. destruct Hout as [-> | ->]; cbn; rewrite evict_lookup; tauto.
  - exists a. eexists. split; [done|]. cbn. rewrite lookup_insert_eq. split; [done|].
    intros model now Hle. destruct Hout as [-> | ->]; unfold eligible; cbn;
      rewrite (proj2 (Z.leb_le retry_at now)) by lia; by rewrite andb_true_r.
Qed.

(** Steps of other requests between two requests of the session [sid], bound to
    [aid] at time [t]: they may change any load, but do not evict [aid]. *)
Inductive quiet_step (sid aid : string) (t : DateTime) : Router -> Router -> Prop :=
| quiet_count r now : now <= t + SESSION_IDLE_TIMEOUT -> quiet_step sid aid t r (session_count r now).1
| quiet_start r x : quiet_step sid aid t r (start_request r x).1
| quiet_choose r request now : req_session_id request <> Some sid ->
    quiet_step sid aid t r (choose r request now).1
| quiet_outcome r x outcome : outcome = Success \/ x <> aid ->
    quiet_step sid aid t r (record_outcome r x outcome).1.

Lemma quiet_step_binding sid b r r' :
  quiet_step sid (account_id b) (last_seen_at b) r r' ->
  sessions r !! sid = Some b -> sessions r' !! sid = Some b.
Proof.
  intros Hstep Hb. destruct Hstep as [r now Hnow|r x|r request now Hne|r x outcome Ho].
  - cbn. apply retain_lookup. split; [done|]. unfold binding_live. by apply Z.leb_le.
  - unfold start_request. by destruct (accounts r !! x).
  - destruct (choose r request now) as [r' res] eqn:E. apply choose_in_cases in E as [_ Hcases].
    cbn. destruct Hcases as [(s & ? & ? & Hs & _ & _ & _ & _ & -> & _)
                            |[(? & _ & _ & ->)|(_ & _ & ->)]].
    + rewrite lookup_insert_ne by congruence. done.
    + destruct (req_session_id request); [|done]. by rewrite lookup_insert_ne by congruence.
    + destruct (req_session_id request); [|done]. by rewrite lookup_delete_ne by congruence.
  - unfold record_outcome. destruct (accounts r !! x); [|done]. cbn.
    destruct Ho as [->|Hne]; [done|].
    destruct outcome; [done|..]; by apply evict_lookup.
Qed.

Lemma quiet_rtc_binding sid b r r' :
  rtc (quiet_step sid (account_id b) (last_seen_at b)) r r' ->
  sessions r !! sid = Some b -> sessions r' !! sid = Some b.
Proof. induction 1; eauto using quiet_step_binding. Qed.

Lemma quiet_wf sid aid t r r' : rtc (quiet_step sid aid t) r r' -> router_wf r -> router_wf r'.
Proof.
  induction 1 as [|x y z Hs _ IH]; [done|]. intros Hwf. apply IH.
  destruct Hs; auto using wf_count, wf_start, wf_choose, wf_outcome.
Qed.

Lemma choose_binds r request now r' sel sid :
  router_wf r -> choose r request now = (r', Ok sel) -> req_session_id request = Some sid ->
  sessions r' !! sid = Some {| account_id := sel_account_id sel; last_seen_at := now |}.
Proof.
  intros Hwf [_ Hcases]%choose_in_cases Hsid.
  destruct Hcases as [(s & b & a & Hs & _ & _ & Ha & _ & -> & [= ->])
                     |[(a & _ & [= ->] & ->)|(_ & ? & _)]]; [..|done]; cbn.
  - assert (s = sid) as -> by congruence. rewrite lookup_insert_eq. unfold touch.
    by rewrite (wf_keys _ Hwf _ _ Ha).
  - rewrite Hsid. by rewrite lookup_insert_eq.
Qed.

(** C33.  Sticky sessions.  After a session was routed to an account at time [t],
    its next request is routed to the same account (and marked as reused) as long
    as it comes within the 30-minute idle timeout and the account is still
    eligible for the requested model, however the loads changed in between; once
    the timeout has passed the old binding is never reused. *)
Theorem sticky_session_reused (r r1 r2 : Router) (request1 request2 : RouteRequest)
    (t now : DateTime) (sel : RouteSelection) (sid : string) (a : RouteAccount)
    (Hr : reachable r) (Hs1 : req_session_id request1 = Some sid)
    (Hs2 : req_session_id request2 = Some sid)
    (Hc : choose r request1 t = (r1, Ok sel))
    (Hq : rtc (quiet_step sid (sel_account_id sel) t) r1 r2)
    (Ha : accounts r2 !! sel_account_id sel = Some a)
    (Hel : eligible a (req_model request2) now = true) :
  (now <= t + SESSION_IDLE_TIMEOUT ->
     (choose r2 request2 now).2 =
       Ok {| sel_account_id := sel_account_id sel; sel_provider := provider a;
             reused_session := true |}) /\
  (t + SESSION_IDLE_TIMEOUT < now ->
     exists sel2, (choose r2 request2 now).2 = Ok sel2 /\ reused_session sel2 = false).
Proof.
  pose proof (wf_reachable _ Hr) as Hwf.
  assert (Hwf1 : router_wf r1).
  { replace r1 with (choose r request1 t).1 by (by rewrite Hc). by apply wf_choose. }
  pose proof (quiet_wf _ _ _ _ _ Hq Hwf1) as Hwf2.
  pose proof (choose_binds _ _ _ _ _ _ Hwf Hc Hs1) as Hb.
  set (b := {| account_id := sel_account_id sel; last_seen_at := t |}) in *.
  apply (quiet_rtc_binding sid b r1 r2 Hq) in Hb.
  pose proof (wf_keys _ Hwf2 _ _ Ha) as Hid.
  split; intros Hnow; unfold choose, choose_in, sticky_account; rewrite Hs2, Hb; cbn;
    unfold binding_live; cbn.
  - rewrite (proj2 (Z.leb_le _ _) Hnow). cbn. rewrite Ha. cbn. rewrite Hel. cbn. by rewrite Hid.
  - rewrite (proj2 (Z.leb_gt _ _) Hnow). cbn. unfold choose_fresh.
    destruct (select_account _ _ _) as [c|] eqn:Esel; [cbn; eauto|exfalso].
    assert (Hf : eligible a (req_model request2) now = false).
    { apply (proj1 (select_account_None _ _ _) Esel). apply account_values_elem; [done|].
      by rewrite Hid. }
    congruence.
Qed.

Lemma collect_accounts_NoDup (l : list RouteAccount) (m : gmap string RouteAccount) a :
  NoDup (map id l) -> a ∈ l ->
  fold_left (fun m a => <[id a := a]> m) l m !! id a = Some a.
Proof.
  revert m. induction l as [|b l IH]; intros m Hnd Hin; [set_solver|]. cbn in *.
  apply NoDup_cons in Hnd as [Hni Hnd]. apply elem_of_cons in Hin as [<-|Hin]; [|by apply IH].
  destruct (fold_left _ l _ !! id a) as [c|] eqn:E.
  - apply fold_collect_lookup in E as [[Hc Hid]|E]; [|by simplify_map_eq].
    destruct Hni. rewrite <- Hid. by apply list_elem_of_fmap_2.
  - destruct (fold_collect_dom l (<[id a := a]> m) (id a)) as [c Hc]; [|by rewrite E in Hc].
    left. by rewrite lookup_insert_eq.
Qed.

(** Reloading accounts keeps runtime state.  When [replace_accounts] (called
    after every administrative write) receives an account whose [enabled] flag did
    not change, the stored account takes the new configuration (provider, models)
    and keeps the old health, in-flight count, utilisation and depletion, and an
    enabled account keeps its sticky sessions. *)
Lemma replace_accounts_keeps_runtime_state (r : Router) (l : list RouteAccount)
    (a p : RouteAccount) (Hnd : NoDup (map id l)) (Hin : a ∈ l)
    (Hp : accounts r !! id a = Some p) (Hen : enabled p = enabled a) :
  accounts (replace_accounts r l) !! id a =
    Some {| id := id a; provider := provider a; enabled := enabled a; healthy := healthy p;
            in_flight := in_flight p; utilization_basis_points := utilization_basis_points p;
            models := models a; depleted_until := depleted_until p |} /\
  (enabled a = true -> forall s b, account_id b = id a ->
     sessions (replace_accounts r l) !! s = Some b <-> sessions r !! s = Some b).
Proof.
  assert (Hl : accounts (replace_accounts r l) !! id a = Some (merge_account r a)).
  { cbn. rewrite <- (merge_account_id r a). apply collect_accounts_NoDup.
    - rewrite map_map. by rewrite (map_ext _ id) by apply merge_account_id.
    - by apply list_elem_of_fmap_2. }
  assert (Hm : merge_account r a = carry_over p a).
  { unfold merge_account. rewrite Hp. cbn. rewrite Hen. by rewrite eqb_reflx. }
  rewrite Hm in Hl. split; [exact Hl|]. intros He s b Hb.
  unfold replace_accounts at 1. cbn [sessions]. rewrite retain_lookup, Hb.
  cbn in Hl. rewrite Hl. cbn. tauto.
Qed.

(** ** Witnesses *)

Definition sample_account (name : string) (load : Z) : RouteAccount :=
  {| id := name; provider := "anthropic_api_key"; enabled := true; healthy := true;
     in_flight := load; utilization_basis_points := 0; models := ∅; depleted_until := None |}.

Definition sample_router : Router := router_new [sample_account "a" 1; sample_account "b" 0].
Definition sample_request : RouteRequest :=
  {| req_session_id := Some "s"; req_model := "claude-sonnet-4" |}.
Definition sample_selection : RouteSelection :=
  {| sel_account_id := "b"; sel_provider := "anthropic_api_key"; reused_session := false |}.

Lemma sample_typed : Forall account_typed [sample_account "a" 1; sample_account "b" 0].
Proof. repeat constructor; cbn; unfold U32_MAX, U16_MAX; lia. Qed.

Lemma sample_reachable : reachable sample_router.
Proof. apply reachable_new, sample_typed. Qed.

Lemma reachable_router_wf_witness : router_wf sample_router.
Proof. apply (reachable_router_wf sample_router). exact sample_reachable. Defined.

Lemma choose_selects_least_loaded_witness :
  exists a, accounts sample_router !! "b" = Some a /\ in_flight a = 0.
Proof.
  pose proof (choose_selects_least_loaded sample_router sample_request 0 sample_reachable) as Hspec.
  assert (Hsel : (choose sample_router sample_request 0).2 = Ok sample_selection) by (vm_compute; reflexivity).
  destruct (choose sample_router sample_request 0) as [r' res]. cbn [snd] in Hsel. rewrite Hsel in Hspec.
  destruct Hspec as [_ (a & Ha & _)].
  exists a. split; [exact Ha|]. vm_compute in Ha. injection Ha as <-. reflexivity.
Defined.

(** The idler account is refused by its provider; the next request goes to the other. *)
Lemma unauthorized_account_not_chosen_witness :
  exists sel, (choose (record_outcome sample_router "b" Unauthorized).1 sample_request 0).2 = Ok sel /\
    sel_account_id sel <> "b".
Proof.
  destruct (choose (record_outcome sample_router "b" Unauthorized).1 sample_request 0) as [r3 res] eqn:Hc.
  assert (Hres : (choose (record_outcome sample_router "b" Unauthorized).1 sample_request 0).2
    = Ok {| sel_account_id := "a"; sel_provider := "anthropic_api_key"; reused_session := false |})
    by (vm_compute; reflexivity).
  rewrite Hc in Hres. cbn [snd] in Hres. subst res. eexists. split; [reflexivity|].
  refine (unauthorized_account_not_chosen sample_router (record_outcome sample_router "b" Unauthorized).1
    (record_outcome sample_router "b" Unauthorized).1 r3 "b" sample_request 0 _ sample_reachable _ (rtc_refl _ _) Hc).
  vm_compute. reflexivity.
Defined.

Lemma sticky_session_reused_witness :
  (choose (choose sample_router sample_request 0).1 sample_request 7).2 =
    Ok {| sel_account_id := "b"; sel_provider := "anthropic_api_key"; reused_session := true |}.
Proof.
  refine (proj1 (sticky_session_reused sample_router (choose sample_router sample_request 0).1
    (choose sample_router sample_request 0).1 sample_request sample_request 0 7 sample_selection "s"
    (sample_account "b" 0) sample_reachable eq_refl eq_refl _ (rtc_refl _ _) _ _) _).
  - vm_compute. reflexivity.
  - vm_compute. reflexivity.
  - vm_compute. reflexivity.
  - vm_compute. discriminate.
Defined.

