(* ===== verification/Auth.v ===== *)
(** * Client authentication (src/src/auth.rs)

    Mode-aware membership checks of a presented token against the digests of
    the configured accounts' credentials.  HMAC-SHA256 is a parameter: digests
    are whatever byte string [hmac_sha256 key message] returns. *)
From S2P Require Import Prelude.

Inductive AuthMode := Off | Observe | Enforce.

Record CredentialVersion := { digest : string; expires_at : option DateTime }.

Record AccountCredential := {
  cred_account_id : string;
  active : bool;
  current : CredentialVersion;
  previous : list CredentialVersion
}.

Inductive CredentialSnapshot :=
| Available (credentials : list AccountCredential)
| Unavailable.

Record AuthDecision := {
  allowed : bool;
  observed_failure : bool;
  matched_account_id : option string
}.

Inductive AuthError := AuthUnauthorized | AuthStoreUnavailable.

Record Authenticator := { digest_key : string }.

Section Auth.
Context (hmac_sha256 : string -> string -> string).

Definition authenticator_digest (a : Authenticator) (token : string) : string :=
  hmac_sha256 (digest_key a) token.

(** ** Building credentials: [AccountCredential::active], [with_previous],
    [with_current_expiry], [paused] *)

Definition credential_active (a : Authenticator) (aid token : string) : AccountCredential :=
  {| cred_account_id := aid; active := true;
     current := {| digest := authenticator_digest a token; expires_at := None |};
     previous := [] |}.

Definition with_previous (c : AccountCredential) (a : Authenticator) (token : string)
    (expiry : DateTime) : AccountCredential :=
  {| cred_account_id := cred_account_id c; active := active c; current := current c;
     previous := previous c ++
       [{| digest := authenticator_digest a token; expires_at := Some expiry |}] |}.

Definition with_current_expiry (c : AccountCredential) (expiry : option DateTime) :
    AccountCredential :=
  {| cred_account_id := cred_account_id c; active := active c;
     current := {| digest := digest (current c); expires_at := expiry |};
     previous := previous c |}.

Definition paused (c : AccountCredential) : AccountCredential :=
  {| cred_account_id := cred_account_id c; active := false; current := current c;
     previous := previous c |}.

(** ** [Authenticator::authorize] *)

(** One digest comparison of the scan: [expiry > now] and constant-time equality. *)
Definition version_matches (presented : string) (now : DateTime) (v : CredentialVersion) : bool :=
  is_none_or (expires_at v) (fun expiry => now <? expiry) && bool_decide (presented = digest v).

(** The loop body: the current version, then every previous version; a later
    match overwrites an earlier one. *)
Definition scan_account (presented : string) (now : DateTime)
    (matched : option string) (account : AccountCredential) : option string :=
  let hit v m := if active account && version_matches presented now v
                 then Some (cred_account_id account) else m in
  fold_left (fun m v => hit v m) (previous account) (hit (current account) matched).

Definition matching_account (a : Authenticator) (presented_token : option string)
    (credentials : list AccountCredential) (now : DateTime) : option string :=
  fold_left (scan_account (authenticator_digest a (default "" presented_token)) now)
    credentials None.

Definition observed : AuthDecision :=
  {| allowed := true; observed_failure := true; matched_account_id := None |}.

(** The part of [authorize] after the test for [Off], with the two results
    that depend on the mode: store unavailable and no match. *)
Definition check_snapshot (unavailable unmatched : result AuthDecision AuthError)
    (a : Authenticator) (presented_token : option string) (snapshot : CredentialSnapshot)
    (now : DateTime) : result AuthDecision AuthError :=
  match snapshot with
  | Unavailable => unavailable
  | Available credentials =>
      match matching_account a presented_token credentials now with
      | Some aid =>
          Ok {| allowed := true; observed_failure := false; matched_account_id := Some aid |}
      | None => unmatched
      end
  end.

Definition authorize (a : Authenticator) (mode : AuthMode) (presented_token : option string)
    (snapshot : CredentialSnapshot) (now : DateTime) : result AuthDecision AuthError :=
  match mode with
  | Off => Ok {| allowed := true; observed_failure := false; matched_account_id := None |}
  | Observe => check_snapshot (Ok observed) (Ok observed) a presented_token snapshot now
  | Enforce => check_snapshot (Err AuthStoreUnavailable) (Err AuthUnauthorized)
                 a presented_token snapshot now
  end.

(** [metadata_fingerprint]: the first 12 digest bytes in hexadecimal. *)
Definition metadata_fingerprint (a : Authenticator) (value : string) : string :=
  hex (substring 0 12 (authenticator_digest a value)).
End Auth.

(** ** Reference semantics and theorems *)

(** An account the token is a live credential of. *)
Definition account_matches (presented : string) (now : DateTime) (c : AccountCredential) : bool :=
  active c && existsb (version_matches presented now) (current c :: previous c).

Lemma scan_versions (presented : string) (now : DateTime) (c : AccountCredential)
    (vs : list CredentialVersion) (m : option string) :
  fold_left (fun m v => if active c && version_matches presented now v
                        then Some (cred_account_id c) else m) vs m
  = if active c && existsb (version_matches presented now) vs
    then Some (cred_account_id c) else m.
Proof.
  revert m. induction vs as [|v vs IH]; intros m; cbn; [by rewrite andb_false_r|].
  rewrite IH. destruct (active c), (version_matches presented now v); cbn; try done.
  by destruct (existsb _ vs).
Qed.

Lemma scan_account_spec presented now m c :
  scan_account presented now m c
  = if account_matches presented now c then Some (cred_account_id c) else m.
Proof.
  unfold scan_account, account_matches. rewrite scan_versions. cbn [existsb].
  destruct (active c), (version_matches presented now (current c)); cbn; try done.
  by destruct (existsb _ _).
Qed.

Lemma scan_all_spec presented now (l : list AccountCredential) m :
  fold_left (scan_account presented now) l m
  = match last (List.filter (account_matches presented now) l) with
    | Some c => Some (cred_account_id c)
    | None => m
    end.
Proof.
  revert m. induction l as [|c l IH]; intros m; [done|]. cbn [fold_left].
  rewrite IH, scan_account_spec. cbn [List.filter].
  destruct (account_matches presented now c); [|done].
  rewrite last_cons. by destruct (last _).
Qed.

Section AuthTheorems.
Context (hmac_sha256 : string -> string -> string) (a : Authenticator).

Notation authz := (authorize hmac_sha256 a).
Notation presented_digest tok := (authenticator_digest hmac_sha256 a (default "" tok)).


(** Observe mode predicts enforce mode: it never rejects, it reports
    [observed_failure] exactly when enforce mode would have rejected the same
    request, and otherwise attributes it to the same account.  Off mode accepts
    without looking at the token or the snapshot. *)
Lemma observe_predicts_enforce (tok : option string) (snapshot : CredentialSnapshot)
    (now : DateTime) :
  authz Off tok snapshot now =
    Ok {| allowed := true; observed_failure := false; matched_account_id := None |} /\
  exists d, authz Observe tok snapshot now = Ok d /\ allowed d = true /\
    observed_failure d = negb (is_ok (authz Enforce tok snapshot now)) /\
    (forall e, authz Enforce tok snapshot now = Ok e -> d = e).
Proof.
  split; [done|]. destruct snapshot as [l|]; cbn; [|by exists observed].
  destruct (matching_account _ _ _ _ _); eexists; (split; [done|]); cbn; naive_solver.
Qed.

(** ** Membership in terms of tokens *)

(** What the account store knows of one account, before hashing. *)
Record stored_token := {
  st_id : string; st_enabled : bool; st_token : string; st_expiry : option DateTime;
  st_previous : list (string * DateTime)
}.

(** The credential the store builds from it. *)
Definition credential_of (s : stored_token) : AccountCredential :=
  let c := fold_left (fun c p => with_previous hmac_sha256 c a p.1 p.2) (st_previous s)
             (with_current_expiry (credential_active hmac_sha256 a (st_id s) (st_token s))
                (st_expiry s)) in
  if st_enabled s then c else paused c.

Definition token_live (now : DateTime) (token : string) (s : stored_token) : Prop :=
  st_enabled s = true /\
  ((st_token s = token /\ (forall e, st_expiry s = Some e -> now < e)) \/
   (exists e, (token, e) ∈ st_previous s /\ now < e)).

Lemma fold_with_previous (ps : list (string * DateTime)) (c : AccountCredential) :
  fold_left (fun c p => with_previous hmac_sha256 c a p.1 p.2) ps c
  = {| cred_account_id := cred_account_id c; active := active c; current := current c;
       previous := previous c ++ map (fun p =>
         {| digest := authenticator_digest hmac_sha256 a p.1; expires_at := Some p.2 |}) ps |}.
Proof.
  revert c. induction ps as [|p ps IH]; intros c; cbn; [by destruct c; rewrite app_nil_r|].
  rewrite IH. unfold with_previous. cbn. by rewrite <- app_assoc.
Qed.

(** No two distinct tokens have the same digest under this key. *)
Hypothesis digest_inj : forall t1 t2,
  authenticator_digest hmac_sha256 a t1 = authenticator_digest hmac_sha256 a t2 -> t1 = t2.

Lemma credential_of_matches (s : stored_token) (token : string) (now : DateTime) :
  account_matches (authenticator_digest hmac_sha256 a token) now (credential_of s) = true <->
  token_live now token s.
Proof.
  unfold account_matches, credential_of, token_live. rewrite fold_with_previous.
  destruct (st_enabled s); cbn -[existsb]; [|naive_solver].
  cbn [existsb]. rewrite orb_true_iff. unfold version_matches at 1. cbn.
  rewrite andb_true_iff, bool_decide_eq_true, existsb_exists.
  split.
  - intros [[Hexp Hd]|(v & Hin & Hv)]; (split; [done|]).
    + left. split; [by symmetry; apply digest_inj|]. intros e He. rewrite He in Hexp.
      by apply Z.ltb_lt.
    + right. apply in_map_iff in Hin as ([t e] & <- & Hin). unfold version_matches in Hv.
      cbn in Hv. apply andb_true_iff in Hv as [He%Z.ltb_lt Hd%bool_decide_eq_true].
      apply digest_inj in Hd as ->. exists e. split; [by apply list_elem_of_In|done].
  - intros [_ [[<- Hexp]|(e & Hin & He)]].
    + left. split; [|done]. destruct (st_expiry s) as [e|]; [|done]. apply Z.ltb_lt. by apply Hexp.
    + right. eexists. rewrite in_map_iff. split.
      * exists (token, e). split; [done|]. by apply list_elem_of_In.
      * unfold version_matches. cbn. apply andb_true_iff. split; [by apply Z.ltb_lt|].
        by apply bool_decide_eq_true.
Qed.

(** Membership.  When distinct tokens have distinct digests, enforce mode
    accepts a request exactly when the presented token is the unexpired current
    token, or an unexpired previous token, of an enabled account; in particular
    a request without a token is rejected unless some enabled account stores an
    empty live token. *)
Lemma enforce_accepts_only_live_tokens (l : list stored_token) (tok : option string)
    (now : DateTime) :
  is_ok (authz Enforce tok (Available (map credential_of l)) now) = true <->
  exists s, s ∈ l /\ token_live now (default "" tok) s.
Proof.
  cbn. unfold matching_account. rewrite scan_all_spec.
  set (p := account_matches (presented_digest tok) now).
  destruct (last (List.filter p (map credential_of l))) as [c|] eqn:E; cbn.
  - split; [|done]. intros _. apply last_Some_elem_of, elem_of_bool_filter in E as [Hin Hc].
    apply list_elem_of_fmap in Hin as (s & -> & Hs). exists s.
    split; [done|]. by apply credential_of_matches.
  - split; [done|]. intros (s & Hs & Hlive). apply last_None in E.
    assert (Hin : credential_of s ∈ List.filter p (map credential_of l)).
    { apply elem_of_bool_filter. split; [by apply list_elem_of_fmap_2|].
      by apply credential_of_matches. }
    rewrite E in Hin. set_solver.
Qed.
End AuthTheorems.

(** Audit fingerprints are 24 hexadecimal digits and so never carry the session
    text itself. *)
Lemma metadata_fingerprint_shape (hmac_sha256 : string -> string -> string) (a : Authenticator)
    (value : string) :
  String.length (hmac_sha256 (digest_key a) value) = 32%nat ->
  String.length (metadata_fingerprint hmac_sha256 a value) = 24%nat /\
  string_all is_lower_hex (metadata_fingerprint hmac_sha256 a value) = true.
Proof.
  intros Hlen. unfold metadata_fingerprint, authenticator_digest. split; [|apply hex_lower].
  rewrite hex_length. remember (hmac_sha256 _ _) as d eqn:Ed. clear Ed.
  do 12 (destruct d as [|? d]; [done|]). cbn. by destruct d.
Qed.
