(* ===== verification/Egress.v ===== *)
(** * Egress (src/src/egress.rs)

    Proxy endpoints and their redaction, the destination policy (allowlist and
    unsafe-address denial) and sticky failover chains.  The standard library's
    [IpAddr::from_str] and address classes are modelled; [url::Url] and the DNS
    resolver are parameters. *)
From S2P Require Import Prelude Interfaces.

(** ** std::net: addresses and their parser *)

Inductive IpAddr :=
| V4 (octets : Z * Z * Z * Z)
| V6 (segments : list Z).       (* eight u16 *)

#[global] Instance IpAddr_eq_dec : EqDecision IpAddr.
Proof. solve_decision. Defined.

Record SocketAddr := { ip : IpAddr; port : Z }.

Definition to_digit (radix : Z) (c : ascii) : option Z :=
  let v := if is_ascii_digit c then Some (byte_of c - 48)
           else if is_ascii_lowercase c then Some (byte_of c - 87)
           else if is_ascii_uppercase c then Some (byte_of c - 55) else None in
  option_filter (fun d => d <? radix) v.

(** The longest run of digits and what follows it. *)
Fixpoint span_digits (radix : Z) (s : string) : list Z * string :=
  match s with
  | "" => ([], "")
  | String c rest =>
      match to_digit radix c with
      | Some d => let '(ds, after) := span_digits radix rest in (d :: ds, after)
      | None => ([], s)
      end
  end.

Definition read_number (radix : Z) (max_digits : nat) (allow_zero_prefix : bool) (max : Z)
    (s : string) : option (Z * string) :=
  let '(ds, rest) := span_digits radix s in
  let count := length ds in
  let value := fold_left (fun acc d => acc * radix + d) ds 0 in
  if (count =? 0)%nat || (max_digits <? count)%nat then None
  else if negb allow_zero_prefix && starts_with "0" s && (1 <? count)%nat then None
  else if max <? value then None else Some (value, rest).

Definition read_separator {A} (sep : ascii) (index : nat) (inner : string -> option (A * string))
    (s : string) : option (A * string) :=
  match index with
  | O => inner s
  | S _ => match s with
           | String c rest => if (c =? sep)%char then inner rest else None
           | "" => None
           end
  end.

Definition read_ipv4_addr (s : string) : option ((Z * Z * Z * Z) * string) :=
  let octet i := read_separator "." i (read_number 10 3 false 255) in
  match octet 0%nat s with
  | Some (a, s1) => match octet 1%nat s1 with
    | Some (b, s2) => match octet 2%nat s2 with
      | Some (c, s3) => match octet 3%nat s3 with
        | Some (d, s4) => Some ((a, b, c, d), s4)
        | None => None end
      | None => None end
    | None => None end
  | None => None
  end.

(** Groups [index ..] of at most [remaining] more; a trailing IPv4 address fills
    two.  Returns the groups, whether they end in an IPv4 address, and the rest. *)
Fixpoint read_groups (remaining index : nat) (s : string) : list Z * bool * string :=
  match remaining with
  | O => ([], false, s)
  | S remaining' =>
      match (match remaining' with O => None | S _ => read_separator ":" index read_ipv4_addr s end) with
      | Some ((a, b, c, d), rest) => ([a * 256 + b; c * 256 + d], true, rest)
      | None =>
          match read_separator ":" index (read_number 16 4 true U16_MAX) s with
          | Some (g, rest) =>
              let '(gs, v4, rest') := read_groups remaining' (S index) rest in (g :: gs, v4, rest')
          | None => ([], false, s)
          end
      end
  end.

Definition read_ipv6_addr (s : string) : option (list Z * string) :=
  let '(head, head_ipv4, rest) := read_groups 8 0 s in
  if (length head =? 8)%nat then Some (head, rest)
  else if head_ipv4 then None
  else match strip_prefix "::" rest with
       | None => None
       | Some rest' =>
           let '(tail, _, rest'') := read_groups (8 - (length head + 1)) 0 rest' in
           Some (head ++ replicate (8 - length head - length tail) 0 ++ tail, rest'')
       end.

(** [IpAddr::from_str(s).ok()]: the whole text must be consumed. *)
Definition ip_from_str (s : string) : option IpAddr :=
  match read_ipv4_addr s with
  | Some (octets, rest) => if string_is_empty rest then Some (V4 octets) else None
  | None =>
      match read_ipv6_addr s with
      | Some (segments, rest) => if string_is_empty rest then Some (V6 segments) else None
      | None => None
      end
  end.

Example ip_from_str_v4 : ip_from_str "169.254.169.254" = Some (V4 (169, 254, 169, 254)).
Proof. reflexivity. Qed.
Example ip_from_str_leading_zero : ip_from_str "127.0.0.01" = None.
Proof. reflexivity. Qed.
Example ip_from_str_v6 : ip_from_str "fe80::1" = Some (V6 [65152; 0; 0; 0; 0; 0; 0; 1]).
Proof. reflexivity. Qed.
Example ip_from_str_mapped :
  ip_from_str "::ffff:10.0.0.1" = Some (V6 [0; 0; 0; 0; 0; 65535; 2560; 1]).
Proof. reflexivity. Qed.
Example ip_from_str_brackets : ip_from_str "[::1]" = None.
Proof. reflexivity. Qed.

(** ** Address classes *)

Definition v4_is_private (o : Z * Z * Z * Z) : bool :=
  let '(a, b, _, _) := o in
  (a =? 10) || ((a =? 172) && (16 <=? b) && (b <=? 31)) || ((a =? 192) && (b =? 168)).
Definition v4_is_loopback (o : Z * Z * Z * Z) : bool := let '(a, _, _, _) := o in a =? 127.
Definition v4_is_link_local (o : Z * Z * Z * Z) : bool :=
  let '(a, b, _, _) := o in (a =? 169) && (b =? 254).
Definition v4_is_unspecified (o : Z * Z * Z * Z) : bool := bool_decide (o = (0, 0, 0, 0)).
Definition v4_is_broadcast (o : Z * Z * Z * Z) : bool := bool_decide (o = (255, 255, 255, 255)).
Definition v4_is_multicast (o : Z * Z * Z * Z) : bool :=
  let '(a, _, _, _) := o in (224 <=? a) && (a <=? 239).
Definition v4_is_documentation (o : Z * Z * Z * Z) : bool :=
  let '(a, b, c, _) := o in
  ((a =? 192) && (b =? 0) && (c =? 2)) || ((a =? 198) && (b =? 51) && (c =? 100))
  || ((a =? 203) && (b =? 0) && (c =? 113)).

Definition segment0 (s : list Z) : Z := default 0 (head s).
Definition v6_is_loopback (s : list Z) : bool := bool_decide (s = [0; 0; 0; 0; 0; 0; 0; 1]).
Definition v6_is_unspecified (s : list Z) : bool := bool_decide (s = replicate 8 0).
Definition v6_is_unique_local (s : list Z) : bool := Z.land (segment0 s) 65024 =? 64512.
Definition v6_is_unicast_link_local (s : list Z) : bool := Z.land (segment0 s) 65472 =? 65152.
Definition v6_is_multicast (s : list Z) : bool := Z.shiftr (segment0 s) 8 =? 255.

Definition is_unsafe_ip (address : IpAddr) : bool :=
  match address with
  | V4 o => v4_is_private o || v4_is_loopback o || v4_is_link_local o || v4_is_unspecified o
            || v4_is_broadcast o || v4_is_multicast o || v4_is_documentation o
  | V6 s => v6_is_loopback s || v6_is_unspecified s || v6_is_unique_local s
            || v6_is_unicast_link_local s || v6_is_multicast s
  end.

Definition is_unsafe_host (host : string) : bool :=
  if bool_decide (host = "localhost") || ends_with ".localhost" host then true
  else match ip_from_str host with
       | None => false
       | Some address => is_unsafe_ip address
       end.

(** ** Host patterns *)

(** [zip] then [all]; the lengths have been compared before. *)
Definition label_wildcard_matches (host configured : string) : bool :=
  let host_labels := split "." host in
  let configured_labels := split "." configured in
  (length host_labels =? length configured_labels)%nat
  && forallb (fun p => bool_decide (p.2 = "*") || bool_decide (p.1 = p.2))
       (zip host_labels configured_labels).

Definition host_matches (host configured : string) : bool :=
  let configured := to_ascii_lowercase (trim_end_matches "." configured) in
  match strip_prefix "*." configured with
  | Some suffix =>
      if contains_char "*" suffix then label_wildcard_matches host configured
      else (String.length suffix <? String.length host)%nat
           && ends_with suffix host
           && bool_decide (String.get (String.length host - String.length suffix - 1) host
                           = Some "."%char)
  | None =>
      if contains_char "*" configured then label_wildcard_matches host configured
      else bool_decide (host = configured)
  end.

(** ** Errors, endpoints, policy *)

Inductive ProxyProtocol := Http | Https | Socks5 | Socks5h.

#[global] Instance ProxyProtocol_eq_dec : EqDecision ProxyProtocol.
Proof. solve_decision. Defined.

Inductive EgressError :=
| UnsupportedProxyScheme | MissingProxyHost | DestinationNotAllowed | UnsafeDestination
| EmptyProxyChain | UnknownProxyIndex | ResolutionFailed.

Record DestinationPolicy := {
  allowlist : list string;
  allow_unsafe_private_networks : bool
}.

(** Decimal text of a machine integer, as [format!] prints it. *)
Definition Z_to_string (n : Z) : string := pretty n.

Section Egress.
Context `{UrlLib}.

Record ProxyEndpoint := { protocol : ProxyProtocol; endpoint_url : Url }.

Definition endpoint_parse (value : string) : result ProxyEndpoint EgressError :=
  match url_parse value with
  | None => Err UnsupportedProxyScheme
  | Some url =>
      let scheme := url_scheme url in
      let? protocol :=
        (if bool_decide (scheme = "http") then Ok Http
         else if bool_decide (scheme = "https") then Ok Https
         else if bool_decide (scheme = "socks5") then Ok Socks5
         else if bool_decide (scheme = "socks5h") then Ok Socks5h
         else Err UnsupportedProxyScheme) in
      match url_host_str url with
      | None => Err MissingProxyHost
      | Some _ => Ok {| protocol := protocol; endpoint_url := url |}
      end
  end.

(** [None] is the panic of [expect("validated proxy endpoint host")]. *)
Definition redacted_authority (e : ProxyEndpoint) : option string :=
  match url_host_str (endpoint_url e) with
  | None => None
  | Some host =>
      let host := if contains_char ":" host then "[" +:+ host +:+ "]" else host in
      Some match url_port (endpoint_url e) with
           | Some port => url_scheme (endpoint_url e) +:+ "://" +:+ host +:+ ":" +:+ Z_to_string port
           | None => url_scheme (endpoint_url e) +:+ "://" +:+ host
           end
  end.

Definition policy_authorize (p : DestinationPolicy) (destination : Url) : result unit EgressError :=
  match url_host_str destination with
  | None => Err DestinationNotAllowed
  | Some host =>
      let host := to_ascii_lowercase (trim_end_matches "." host) in
      if negb (allow_unsafe_private_networks p) && is_unsafe_host host then Err UnsafeDestination
      else if existsb (host_matches host) (allowlist p) then Ok tt
      else Err DestinationNotAllowed
  end.

(** [tokio::net::lookup_host]; [None] is a resolution error. *)
Context (lookup_host : string -> Z -> option (list SocketAddr)).

Definition resolve_authorized (p : DestinationPolicy) (destination : Url) :
    result (list SocketAddr) EgressError :=
  let? _ := policy_authorize p destination in
  let? host := ok_or (url_host_str destination) DestinationNotAllowed in
  let? port := ok_or (url_port_or_known_default destination) DestinationNotAllowed in
  let? addresses :=
    match ip_from_str host with
    | Some address => Ok [{| ip := address; port := port |}]
    | None => ok_or (lookup_host host port) ResolutionFailed
    end in
  match addresses with
  | [] => Err ResolutionFailed
  | _ => if negb (allow_unsafe_private_networks p)
            && existsb (fun address => is_unsafe_ip (ip address)) addresses
         then Err UnsafeDestination else Ok addresses
  end.
End Egress.

(** ** Host patterns: what matches *)

Definition normalize_pattern (configured : string) : string :=
  to_ascii_lowercase (trim_end_matches "." configured).

Lemma suffix_test_spec (host suffix : string) :
  (String.length suffix <? String.length host)%nat && ends_with suffix host
  && bool_decide (String.get (String.length host - String.length suffix - 1) host = Some "."%char)
  = true <-> exists p, host = p +:+ "." +:+ suffix.
Proof.
  rewrite !andb_true_iff, Nat.ltb_lt, ends_with_true, bool_decide_eq_true. split.
  - intros [[Hlen [r ->]] Hget]. rewrite string_length_app in Hlen, Hget.
    replace (String.length r + String.length suffix - String.length suffix - 1)%nat
      with (String.length r - 1)%nat in Hget by lia.
    apply get_before_suffix in Hget as [p ->].
    + exists p. by rewrite string_app_assoc.
    + intros ->. cbn in Hlen. lia.
  - intros [p ->]. rewrite <- string_app_assoc, string_length_app.
    split; [split|].
    + rewrite string_length_app. cbn. lia.
    + by exists (p +:+ ".").
    + replace (String.length (p +:+ ".") + String.length suffix - String.length suffix - 1)%nat
        with (String.length (p +:+ ".") - 1)%nat by lia.
      apply get_before_suffix; [by destruct p|]. by exists p.
Qed.

Lemma label_wildcard_spec (host configured : string) :
  label_wildcard_matches host configured = true <->
  Forall2 (fun actual expected => expected = "*" \/ actual = expected)
    (split "." host) (split "." configured).
Proof.
  unfold label_wildcard_matches. rewrite andb_true_iff, Nat.eqb_eq.
  generalize (split "." host) (split "." configured). intros l1 l2. revert l2.
  induction l1 as [|x l1 IH]; intros [|y l2]; cbn.
  - split; [constructor|done].
  - split; [naive_solver|inversion 1].
  - split; [naive_solver|inversion 1].
  - rewrite andb_true_iff, orb_true_iff, !bool_decide_eq_true, Forall2_cons, <- IH. naive_solver.
Qed.

(** C34.  Allowlist patterns.  With the configured pattern normalised (lower case,
    trailing dots removed), a host matches exactly when: the pattern has no
    wildcard and is the host; or it is [*.suffix] without a further wildcard and
    the host ends in a whole [.suffix] (so [evilexample.com] never matches
    [*.example.com]); or it has other wildcards and each label of the host equals
    the pattern's label or faces a [*], with as many labels on both sides. *)
Theorem host_matches_spec (host configured : string) :
  host_matches host configured = true <->
  let c := normalize_pattern configured in
  (contains_char "*" c = false /\ host = c) \/
  (exists suffix, c = "*." +:+ suffix /\ contains_char "*" suffix = false /\
     exists p, host = p +:+ "." +:+ suffix) \/
  (contains_char "*" c = true /\
   (forall suffix, c = "*." +:+ suffix -> contains_char "*" suffix = true) /\
   Forall2 (fun actual expected => expected = "*" \/ actual = expected)
     (split "." host) (split "." c)).
Proof.
  cbv zeta. unfold host_matches. fold (normalize_pattern configured).
  set (c := normalize_pattern configured). rewrite <- label_wildcard_spec.
  destruct (strip_prefix "*." c) as [suffix|] eqn:Ep.
  - apply strip_prefix_Some in Ep. rewrite Ep.
    assert (Hstar : contains_char "*" ("*." +:+ suffix) = true) by done.
    assert (Hinj : forall x, "*." +:+ suffix = "*." +:+ x -> x = suffix).
    { intros x Hx. change (String "*" (String "." suffix) = String "*" (String "." x)) in Hx.
      by injection Hx. }
    rewrite Hstar. destruct (contains_char "*" suffix) eqn:Es.
    + split.
      * intros Hm. right. right. split; [done|]. split; [|done].
        intros s Hs%Hinj. by subst s.
      * intros [[? _]|[(s & Hs%Hinj & Hc & _)|(_ & _ & Hm)]]; [done|congruence|done].
    + rewrite suffix_test_spec. split.
      * intros Hp. right. left. exists suffix. done.
      * intros [[? _]|[(s & ->%Hinj & _ & Hp)|(_ & Hall & _)]]; [done|done|].
        specialize (Hall suffix eq_refl). congruence.
  - assert (Hno : forall x, c <> "*." +:+ x).
    { intros x Hx. apply strip_prefix_Some in Hx. congruence. }
    destruct (contains_char "*" c) eqn:Ec.
    + split.
      * intros Hm. right. right. split; [done|]. split; [|done]. intros s Hs. by destruct (Hno s).
      * intros [[? _]|[(s & Hs & _)|(_ & _ & Hm)]]; [done|by destruct (Hno s)|done].
    + rewrite bool_decide_eq_true. split.
      * intros Hh. by left.
      * intros [[_ ?]|[(s & Hs & _)|(? & _)]]; [done|by destruct (Hno s)|done].
Qed.

(** ** Unsafe addresses as CIDR blocks *)

Definition octets_typed (o : Z * Z * Z * Z) : Prop :=
  let '(a, b, c, d) := o in 0 <= a < 256 /\ 0 <= b < 256 /\ 0 <= c < 256 /\ 0 <= d < 256.

Definition address32 (o : Z * Z * Z * Z) : Z :=
  let '(a, b, c, d) := o in ((a * 256 + b) * 256 + c) * 256 + d.

Definition in_cidr (o block : Z * Z * Z * Z) (prefix : Z) : bool :=
  address32 o / 2 ^ (32 - prefix) =? address32 block / 2 ^ (32 - prefix).

Definition UNSAFE_BLOCKS : list ((Z * Z * Z * Z) * Z) :=
  [((10, 0, 0, 0), 8); ((172, 16, 0, 0), 12); ((192, 168, 0, 0), 16); ((127, 0, 0, 0), 8);
   ((169, 254, 0, 0), 16); ((0, 0, 0, 0), 32); ((255, 255, 255, 255), 32); ((224, 0, 0, 0), 4);
   ((192, 0, 2, 0), 24); ((198, 51, 100, 0), 24); ((203, 0, 113, 0), 24)].

(** Dividing the 32-bit address by a power of two keeps the leading octets. *)
Lemma address32_prefixes (a b c d : Z) :
  octets_typed (a, b, c, d) ->
  address32 (a, b, c, d) / 2 ^ (32 - 4) = a / 16 /\
  address32 (a, b, c, d) / 2 ^ (32 - 8) = a /\
  address32 (a, b, c, d) / 2 ^ (32 - 12) = (a * 256 + b) / 16 /\
  address32 (a, b, c, d) / 2 ^ (32 - 16) = a * 256 + b /\
  address32 (a, b, c, d) / 2 ^ (32 - 24) = (a * 256 + b) * 256 + c /\
  address32 (a, b, c, d) / 2 ^ (32 - 32) = address32 (a, b, c, d).
Proof.
  intros (Ha & Hb & Hc & Hd). unfold address32.
  assert (E1 : (((a * 256 + b) * 256 + c) * 256 + d) / 256 = (a * 256 + b) * 256 + c)
    by (Z.to_euclidean_division_equations; lia).
  assert (E2 : ((a * 256 + b) * 256 + c) / 256 = a * 256 + b)
    by (Z.to_euclidean_division_equations; lia).
  assert (E3 : (a * 256 + b) / 256 = a) by (Z.to_euclidean_division_equations; lia).
  change (2 ^ (32 - 4)) with (256 * 256 * 256 * 16). change (2 ^ (32 - 8)) with (256 * 256 * 256).
  change (2 ^ (32 - 12)) with (256 * 256 * 16). change (2 ^ (32 - 16)) with (256 * 256).
  change (2 ^ (32 - 24)) with 256. change (2 ^ (32 - 32)) with 1.
  rewrite <- !Z.div_div, E1, E2, E3, Z.div_1_r by lia. done.
Qed.

(** The block prefixes as conditions on octets. *)
Lemma octet_prefixes (a b c d : Z) :
  octets_typed (a, b, c, d) ->
  ((a * 256 + b) / 16 = 2753 <-> (a = 172 /\ 16 <= b) /\ b <= 31) /\
  (a / 16 = 14 <-> 224 <= a /\ a <= 239) /\
  (a * 256 + b = 49320 <-> a = 192 /\ b = 168) /\
  (a * 256 + b = 43518 <-> a = 169 /\ b = 254) /\
  ((a * 256 + b) * 256 + c = 12582914 <-> (a = 192 /\ b = 0) /\ c = 2) /\
  ((a * 256 + b) * 256 + c = 12989284 <-> (a = 198 /\ b = 51) /\ c = 100) /\
  ((a * 256 + b) * 256 + c = 13303921 <-> (a = 203 /\ b = 0) /\ c = 113) /\
  (address32 (a, b, c, d) = 0 <-> ((a = 0 /\ b = 0) /\ c = 0) /\ d = 0) /\
  (address32 (a, b, c, d) = 4294967295 <-> ((a = 255 /\ b = 255) /\ c = 255) /\ d = 255).
Proof.
  intros (Ha & Hb & Hc & Hd). unfold address32.
  assert ((a * 256 + b) / 16 = a * 16 + b / 16) by (Z.to_euclidean_division_equations; lia).
  assert (b / 16 = 1 <-> 16 <= b <= 31) by (Z.to_euclidean_division_equations; lia).
  assert (0 <= b / 16 < 16) by (Z.to_euclidean_division_equations; lia).
  split_and!; try lia. Z.to_euclidean_division_equations; lia.
Qed.

Lemma in_cidr_iff (o block : Z * Z * Z * Z) (prefix : Z) :
  in_cidr o block prefix = true <->
  address32 o / 2 ^ (32 - prefix) = address32 block / 2 ^ (32 - prefix).
Proof. apply Z.eqb_eq. Qed.

Lemma unsafe_v4_blocks (o : Z * Z * Z * Z) (Ho : octets_typed o) :
  is_unsafe_ip (V4 o) = existsb (fun block => in_cidr o block.1 block.2) UNSAFE_BLOCKS.
Proof.
  destruct o as [[[a b] c] d].
  destruct (address32_prefixes a b c d Ho) as (E4 & E8 & E12 & E16 & E24 & E32).
  destruct (octet_prefixes a b c d Ho)
    as (E172 & E224 & E192 & E169 & Edoc1 & Edoc2 & Edoc3 & Ezero & Eones).
  apply eq_true_iff_eq. cbn [existsb UNSAFE_BLOCKS fst snd]. unfold is_unsafe_ip.
  unfold v4_is_private, v4_is_loopback, v4_is_link_local, v4_is_unspecified, v4_is_broadcast,
    v4_is_multicast, v4_is_documentation.
  rewrite !orb_true_iff, !in_cidr_iff, E4, E8, E12, E16, E24, E32.
  rewrite !andb_true_iff, !bool_decide_eq_true, !Z.eqb_eq, !Z.leb_le, !pair_equal_spec.
  change (address32 (172, 16, 0, 0) / 2 ^ (32 - 12)) with 2753.
  change (address32 (224, 0, 0, 0) / 2 ^ (32 - 4)) with 14.
  change (address32 (10, 0, 0, 0) / 2 ^ (32 - 8)) with 10.
  change (address32 (127, 0, 0, 0) / 2 ^ (32 - 8)) with 127.
  change (address32 (192, 168, 0, 0) / 2 ^ (32 - 16)) with 49320.
  change (address32 (169, 254, 0, 0) / 2 ^ (32 - 16)) with 43518.
  change (address32 (192, 0, 2, 0) / 2 ^ (32 - 24)) with 12582914.
  change (address32 (198, 51, 100, 0) / 2 ^ (32 - 24)) with 12989284.
  change (address32 (203, 0, 113, 0) / 2 ^ (32 - 24)) with 13303921.
  change (address32 (0, 0, 0, 0) / 2 ^ (32 - 32)) with 0.
  change (address32 (255, 255, 255, 255) / 2 ^ (32 - 32)) with 4294967295.
  rewrite E172, E224, E192, E169, Edoc1, Edoc2, Edoc3, Ezero, Eones.
  assert (Hfalse : false = true <-> False) by done. rewrite Hfalse. clear. tauto.
Qed.

(** C35.  The denied IPv4 space is exactly eleven blocks: private (10/8, 172.16/12,
    192.168/16), loopback 127/8, link-local 169.254/16 (which holds the cloud
    metadata address), the unspecified and broadcast addresses, multicast 224/4
    and the three documentation blocks. *)
Theorem unsafe_v4_is_cidr_union (o : Z * Z * Z * Z) (Ho : octets_typed o) :
  is_unsafe_ip (V4 o) = existsb (fun block => in_cidr o block.1 block.2) UNSAFE_BLOCKS.
Proof. by apply unsafe_v4_blocks. Qed.

(** The masks of the IPv6 classes select contiguous ranges of the first segment. *)
Lemma land_high_bits (x k : Z) :
  0 <= x < 2 ^ 16 -> 0 <= k <= 16 -> Z.land x (2 ^ 16 - 2 ^ k) = 2 ^ k * (x / 2 ^ k).
Proof.
  intros Hx Hk.
  replace (2 ^ 16 - 2 ^ k) with (Z.shiftl (Z.ones (16 - k)) k).
  2: { rewrite Z.shiftl_mul_pow2, Z.ones_equiv by lia.
       rewrite Z.mul_pred_l, <- Z.pow_add_r by lia. f_equal. f_equal. lia. }
  rewrite Z.mul_comm, <- Z.shiftl_mul_pow2 by lia.
  apply Z.bits_inj'. intros n Hn. rewrite Z.land_spec, !Z.shiftl_spec by lia.
  destruct (Z.lt_ge_cases n k).
  - rewrite !(Z.testbit_neg_r _ (n - k)) by lia. by rewrite andb_false_r.
  - rewrite <- Z.shiftr_div_pow2, Z.shiftr_spec by lia. rewrite Z.sub_add.
    destruct (Z.lt_ge_cases (n - k) (16 - k)).
    + rewrite Z.ones_spec_low by lia. by rewrite andb_true_r.
    + rewrite Z.ones_spec_high by lia. rewrite andb_false_r. symmetry.
      destruct (decide (x = 0)) as [->|]; [by rewrite Z.bits_0|].
      apply Z.bits_above_log2; [lia|]. apply Z.log2_lt_pow2; [lia|].
      apply Z.lt_le_trans with (2 ^ 16); [lia|]. apply Z.pow_le_mono_r; lia.
Qed.

(** The denied IPv6 space: the loopback and unspecified addresses, and every
    address whose first segment lies in fc00-fdff (unique local), fe80-febf (link
    local) or ff00-ffff (multicast). *)
Lemma unsafe_v6_ranges (s : list Z) (Hs : 0 <= segment0 s < 65536) :
  is_unsafe_ip (V6 s) = true <->
  s = [0; 0; 0; 0; 0; 0; 0; 1] \/ s = [0; 0; 0; 0; 0; 0; 0; 0] \/
  64512 <= segment0 s <= 65023 \/ 65152 <= segment0 s <= 65215 \/ 65280 <= segment0 s <= 65535.
Proof.
  cbn. unfold v6_is_loopback, v6_is_unspecified, v6_is_unique_local, v6_is_unicast_link_local,
    v6_is_multicast.
  rewrite !orb_true_iff, !bool_decide_eq_true, !Z.eqb_eq.
  change 65024 with (2 ^ 16 - 2 ^ 9). change 65472 with (2 ^ 16 - 2 ^ 6).
  rewrite !land_high_bits, Z.shiftr_div_pow2 by lia.
  change (2 ^ 9) with 512. change (2 ^ 6) with 64. change (2 ^ 8) with 256.
  assert (E1 : 512 * (segment0 s / 512) = 64512 <-> 64512 <= segment0 s <= 65023)
    by (Z.to_euclidean_division_equations; lia).
  assert (E2 : 64 * (segment0 s / 64) = 65152 <-> 65152 <= segment0 s <= 65215)
    by (Z.to_euclidean_division_equations; lia).
  assert (E3 : segment0 s / 256 = 255 <-> 65280 <= segment0 s <= 65535)
    by (Z.to_euclidean_division_equations; lia).
  rewrite E1, E2, E3. cbn. tauto.
Qed.

(** ** Destination policy *)

Section PolicyTheorems.
Context `{U : UrlLib}.

Definition policy_host (host : string) : string := to_ascii_lowercase (trim_end_matches "." host).

Lemma policy_authorize_ok (p : DestinationPolicy) (u : Url) :
  policy_authorize p u = Ok tt <->
  exists host, url_host_str u = Some host /\
    (allow_unsafe_private_networks p = true \/ is_unsafe_host (policy_host host) = false) /\
    exists entry, entry ∈ allowlist p /\ host_matches (policy_host host) entry = true.
Proof.
  unfold policy_authorize, policy_host. destruct (url_host_str u) as [host|]; [|naive_solver].
  set (h := to_ascii_lowercase _).
  destruct (negb (allow_unsafe_private_networks p) && is_unsafe_host h) eqn:E.
  - apply andb_true_iff in E as [E1%negb_true_iff E2].
    split; [done|]. intros (h' & [= <-] & [Hs|Hs] & _); subst h; congruence.
  - destruct (existsb (host_matches h) (allowlist p)) eqn:Ee.
    + split; [|done]. intros _. exists host. split; [done|]. split.
      * apply andb_false_iff in E as [E%negb_false_iff|E]; auto.
      * by apply existsb_elem.
    + split; [done|]. intros (h' & [= <-] & _ & Hex%existsb_elem). subst h. congruence.
Qed.

(** No request leaves for a destination that is not allowlisted or resolves
    to an unsafe address.  When [resolve_authorized] succeeds, the URL has a host,
    the host matches an allowlist entry, there is at least one address, and,
    unless private networks were explicitly allowed, neither the host text nor
    any of the addresses to be connected to (whatever the resolver answered) is
    loopback, private, link-local or otherwise denied. *)
Lemma resolve_authorized_safe (lookup_host : string -> Z -> option (list SocketAddr))
    (p : DestinationPolicy) (u : Url) (addresses : list SocketAddr)
    (Hok : resolve_authorized lookup_host p u = Ok addresses) :
  exists host entry, url_host_str u = Some host /\ entry ∈ allowlist p /\
    host_matches (policy_host host) entry = true /\ addresses <> [] /\
    (allow_unsafe_private_networks p = false ->
      is_unsafe_host (policy_host host) = false /\
      forall address, address ∈ addresses -> is_unsafe_ip (ip address) = false).
Proof.
  unfold resolve_authorized in Hok.
  destruct (policy_authorize p u) as [[]|] eqn:Ep; [|done].
  apply policy_authorize_ok in Ep as (host & Hh & Hu & entry & Hin & Hm).
  exists host, entry. split; [done|]. split; [done|]. split; [done|].
  rewrite Hh in Hok. cbn in Hok.
  destruct (url_port_or_known_default u) as [port|]; [|done]. cbn in Hok.
  destruct (match ip_from_str host with Some _ => _ | None => _ end) as [addrs|]; [|done].
  destruct addrs as [|x addrs]; [done|].
  destruct (allow_unsafe_private_networks p) eqn:Ea; cbn in Hok.
  - injection Hok as <-. done.
  - destruct (is_unsafe_ip (ip x) || existsb _ addrs) eqn:Ee; [done|]. injection Hok as <-.
    split; [done|]. intros _. destruct Hu as [?|Hu]; [done|]. split; [done|].
    intros y Hy. apply orb_false_iff in Ee as [Ex Ee].
    apply elem_of_cons in Hy as [->|Hy]; [done|].
    destruct (is_unsafe_ip (ip y)) eqn:Ey; [|done].
    assert (existsb (fun address => is_unsafe_ip (ip address)) addrs = true); [|congruence].
    apply existsb_elem. eauto.
Qed.

(** Parsed endpoints are never stuck on a missing host, and what the redaction
    shows is a function of scheme, host and port alone. *)
Lemma endpoint_parse_ok (value : string) (e : ProxyEndpoint) :
  endpoint_parse value = Ok e ->
  url_parse value = Some (endpoint_url e) /\ is_Some (url_host_str (endpoint_url e)) /\
  url_scheme (endpoint_url e) ∈ ["http"; "https"; "socks5"; "socks5h"].
Proof.
  unfold endpoint_parse. destruct (url_parse value) as [u|]; [|done].
  destruct (bool_decide_reflect (url_scheme u = "http"));
    [|destruct (bool_decide_reflect (url_scheme u = "https"));
      [|destruct (bool_decide_reflect (url_scheme u = "socks5"));
        [|destruct (bool_decide_reflect (url_scheme u = "socks5h"))]]];
    destruct (url_host_str u) eqn:Eh; intros; simplify_eq; cbn; rewrite Eh;
    (split; [done|]); (split; [by eexists|]); set_solver.
Qed.
End PolicyTheorems.

(** ** Sticky failover chains

    Indexing a [Vec] out of range panics; an operation that would panic is
    [None]. *)

Section ProxyChain.
Context {Endpoint : Type}.
#[local] Arguments Nat.leb : simpl never.
#[local] Arguments Nat.ltb : simpl never.

Record ProxyChain := {
  endpoints : list Endpoint;
  active_index : nat;
  consecutive_failures : list Z;       (* u8 *)
  consecutive_successes : list Z       (* u8 *)
}.

Definition vec_set (v : list Z) (i : nat) (x : Z) : option (list Z) :=
  if (i <? length v)%nat then Some (<[i := x]> v) else None.

Definition chain_new (es : list Endpoint) : result ProxyChain EgressError :=
  match es with
  | [] => Err EmptyProxyChain
  | _ => Ok {| endpoints := es; active_index := 0;
               consecutive_failures := replicate (length es) 0;
               consecutive_successes := replicate (length es) 0 |}
  end.

Definition chain_active (c : ProxyChain) : option Endpoint := endpoints c !! active_index c.

Definition record_failure (c : ProxyChain) : option ProxyChain :=
  let active := active_index c in
  successes ← vec_set (consecutive_successes c) active 0;
  f ← consecutive_failures c !! active;
  failures ← vec_set (consecutive_failures c) active (saturating_add U8_MAX f 1);
  f' ← failures !! active;
  Some {| endpoints := endpoints c;
          active_index := if (3 <=? f') && (active + 1 <? length (endpoints c))%nat
                          then S active else active;
          consecutive_failures := failures; consecutive_successes := successes |}.

Definition record_success (c : ProxyChain) : option ProxyChain :=
  let active := active_index c in
  failures ← vec_set (consecutive_failures c) active 0;
  n ← consecutive_successes c !! active;
  successes ← vec_set (consecutive_successes c) active (saturating_add U8_MAX n 1);
  Some {| endpoints := endpoints c; active_index := active;
          consecutive_failures := failures; consecutive_successes := successes |}.

Definition make_active (c : ProxyChain) (index : nat) : option (ProxyChain * result unit EgressError) :=
  if (length (endpoints c) <=? index)%nat then Some (c, Err UnknownProxyIndex)
  else
    failures ← vec_set (consecutive_failures c) index 0;
    successes ← vec_set (consecutive_successes c) index 0;
    Some ({| endpoints := endpoints c; active_index := index;
             consecutive_failures := failures; consecutive_successes := successes |}, Ok tt).

(** *** The chain never panics *)

Definition counter_typed (z : Z) : Prop := 0 <= z <= U8_MAX.

Record chain_wf (c : ProxyChain) : Prop := {
  chain_index : (active_index c < length (endpoints c))%nat;
  chain_failures : length (consecutive_failures c) = length (endpoints c);
  chain_successes : length (consecutive_successes c) = length (endpoints c);
  chain_counters : Forall counter_typed (consecutive_failures c ++ consecutive_successes c)
}.

Inductive chain_op := OpFailure | OpSuccess | OpMakeActive (index : nat).

Definition run_op (c : ProxyChain) (op : chain_op) : option ProxyChain :=
  match op with
  | OpFailure => record_failure c
  | OpSuccess => record_success c
  | OpMakeActive index => fst <$> make_active c index
  end.

Fixpoint run_ops (c : ProxyChain) (ops : list chain_op) : option ProxyChain :=
  match ops with [] => Some c | op :: rest => c' ← run_op c op; run_ops c' rest end.

Lemma vec_set_Some v i x : (i < length v)%nat -> vec_set v i x = Some (<[i := x]> v).
Proof. intros H. unfold vec_set. by rewrite (proj2 (Nat.ltb_lt _ _) H). Qed.

Lemma counters_insert v i x :
  Forall counter_typed v -> counter_typed x -> Forall counter_typed (<[i := x]> v).
Proof. intros Hv Hx. by apply Forall_insert. Qed.

Lemma chain_new_wf es c : chain_new es = Ok c -> chain_wf c.
Proof.
  destruct es as [|e es]; [done|]. intros [= <-].
  assert (Hrep : forall n, Forall counter_typed (replicate n 0)).
  { intros n. apply Forall_replicate. unfold counter_typed, U8_MAX. lia. }
  split; cbn; rewrite ?length_replicate; [lia|done|done|].
  apply (Forall_app _ (replicate (S (length es)) 0)). split; exact (Hrep (S (length es))).
Qed.

Lemma run_op_wf c op : chain_wf c -> exists c', run_op c op = Some c' /\ chain_wf c'.
Proof.
  intros [Hi Hf Hs [Hcf Hcs]%Forall_app].
  assert (H0 : counter_typed 0) by (unfold counter_typed, U8_MAX; lia).
  assert (Hsat : forall n, counter_typed n -> counter_typed (saturating_add U8_MAX n 1)).
  { unfold counter_typed, saturating_add, U8_MAX. lia. }
  destruct op as [| |index]; cbn.
  - destruct (lookup_lt_is_Some_2 (consecutive_failures c) (active_index c)) as [f Ef]; [lia|].
    unfold record_failure. rewrite vec_set_Some by lia. cbn. rewrite Ef. cbn.
    rewrite vec_set_Some by lia. cbn. rewrite list_lookup_insert_eq by lia. cbn.
    eexists. split; [done|]. split; cbn; rewrite ?length_insert; try done.
    + destruct ((3 <=? _) && _) eqn:E; [|done].
      apply andb_true_iff in E as [_ E%Nat.ltb_lt]. lia.
    + apply Forall_app. split; apply counters_insert; try done. apply Hsat.
      by eapply Forall_lookup in Ef.
  - destruct (lookup_lt_is_Some_2 (consecutive_successes c) (active_index c)) as [n En]; [lia|].
    unfold record_success. rewrite vec_set_Some by lia. cbn. rewrite En. cbn.
    rewrite vec_set_Some by lia. cbn. eexists. split; [done|].
    split; cbn; rewrite ?length_insert; try done.
    apply Forall_app. split; apply counters_insert; try done. apply Hsat.
    by eapply Forall_lookup in En.
  - unfold make_active. destruct (Nat.leb_spec (length (endpoints c)) index).
    { cbn. eexists. split; [done|]. split; [done..|]. by apply Forall_app. }
    rewrite vec_set_Some by lia. cbn. rewrite vec_set_Some by lia. cbn. eexists. split; [done|].
    split; cbn; rewrite ?length_insert; try done. apply Forall_app. by split; apply counters_insert.
Qed.

Lemma run_ops_wf c ops : chain_wf c -> exists c', run_ops c ops = Some c' /\ chain_wf c'.
Proof.
  revert c. induction ops as [|op ops IH]; intros c Hwf; cbn; [eauto|].
  destruct (run_op_wf c op Hwf) as (c' & -> & Hwf'). cbn. by apply IH.
Qed.

Lemma chain_wf_active c : chain_wf c -> is_Some (chain_active c).
Proof. intros [Hi _ _ _]. by apply lookup_lt_is_Some_2. Qed.

(** *** Refinement to a two-counter automaton *)

(** The abstract chain: the active position and the current failure streak. *)
Definition streak_step (n : nat) (st : nat * nat) (failed : bool) : nat * nat :=
  let '(i, streak) := st in
  if failed then
    if (3 <=? S streak)%nat && (i + 1 <? n)%nat then (S i, O) else (i, S streak)
  else (i, O).

Definition streak_run (n : nat) (results : list bool) : nat * nat :=
  fold_left (streak_step n) results (O, O).

Definition op_of_result (failed : bool) : chain_op := if failed then OpFailure else OpSuccess.

(** The active endpoint's counter is the streak, saturated, and the endpoints
    after the active one have not failed yet. *)
Definition simulates (c : ProxyChain) (st : nat * nat) : Prop :=
  chain_wf c /\ active_index c = st.1 /\
  consecutive_failures c !! active_index c = Some (Z.min U8_MAX (Z.of_nat st.2)) /\
  forall j, (active_index c < j < length (endpoints c))%nat -> consecutive_failures c !! j = Some 0.

Lemma run_op_simulates c st failed :
  simulates c st ->
  exists c', run_op c (op_of_result failed) = Some c' /\ endpoints c' = endpoints c /\
    simulates c' (streak_step (length (endpoints c)) st failed).
Proof.
  intros (Hwf & Hi & Hf & Hlater). destruct st as [i streak]. cbn in *. subst i.
  destruct (run_op_wf c (op_of_result failed) Hwf) as (c' & Hc' & Hwf').
  exists c'. split; [done|].
  destruct Hwf as [Hidx Hlf Hls _]. destruct failed; cbn in Hc'.
  - unfold record_failure in Hc'. rewrite vec_set_Some in Hc' by lia. cbn in Hc'.
    rewrite Hf in Hc'. cbn in Hc'. rewrite vec_set_Some in Hc' by lia. cbn in Hc'.
    rewrite list_lookup_insert_eq in Hc' by lia. cbn in Hc'. injection Hc' as <-.
    split; [done|]. split; [done|]. cbn.
    assert (Esat : saturating_add U8_MAX (Z.min U8_MAX (Z.of_nat streak)) 1
                   = Z.min U8_MAX (Z.of_nat (S streak))) by (unfold saturating_add; lia).
    rewrite Esat.
    assert (Ethree : (3 <=? Z.min U8_MAX (Z.of_nat (S streak))) = (3 <=? S streak)%nat).
    { apply eq_true_iff_eq. rewrite Z.leb_le, Nat.leb_le. unfold U8_MAX. lia. }
    rewrite Ethree. destruct ((3 <=? S streak)%nat && _) eqn:E; cbn.
    + apply andb_true_iff in E as [_ E%Nat.ltb_lt].
      split; [done|]. rewrite !list_lookup_insert_ne by lia. split; [apply Hlater; lia|].
      intros j Hj. rewrite list_lookup_insert_ne by lia. apply Hlater. lia.
    + split; [done|]. rewrite list_lookup_insert_eq by lia. split; [done|].
      intros j Hj. rewrite list_lookup_insert_ne by lia. by apply Hlater.
  - unfold record_success in Hc'. rewrite vec_set_Some in Hc' by lia. cbn in Hc'.
    destruct (lookup_lt_is_Some_2 (consecutive_successes c) (active_index c)) as [n En]; [lia|].
    rewrite En in Hc'. cbn in Hc'. rewrite vec_set_Some in Hc' by lia. cbn in Hc'.
    injection Hc' as <-. split; [done|]. split; [done|]. cbn. split; [done|].
    rewrite list_lookup_insert_eq by lia. split; [done|].
    intros j Hj. rewrite list_lookup_insert_ne by lia. by apply Hlater.
Qed.

Lemma run_ops_simulates c st results :
  simulates c st ->
  exists c', run_ops c (map op_of_result results) = Some c' /\ endpoints c' = endpoints c /\
    simulates c' (fold_left (streak_step (length (endpoints c))) results st).
Proof.
  revert c st. induction results as [|failed results IH]; intros c st Hsim; cbn; [eauto|].
  destruct (run_op_simulates c st failed Hsim) as (c1 & -> & He & Hsim1). cbn.
  destruct (IH c1 _ Hsim1) as (c2 & Hrun & He2 & Hsim2). rewrite He in He2, Hsim2. eauto.
Qed.

(** Proxy chains never panic: after any sequence of recorded failures and
    successes and of [make_active] calls (with any index), every vector access
    is in range, the counters stay 8-bit, and [active] returns an endpoint. *)
Lemma chain_never_panics (es : list Endpoint) (c : ProxyChain) (ops : list chain_op)
    (Hnew : chain_new es = Ok c) :
  exists c', run_ops c ops = Some c' /\ chain_wf c' /\ is_Some (chain_active c').
Proof.
  destruct (run_ops_wf c ops (chain_new_wf _ _ Hnew)) as (c' & Hrun & Hwf).
  eauto using chain_wf_active.
Qed.

(** C36.  Failover is sticky and ordered: under transport results the chain
    refines the automaton that stays on the active endpoint until three
    failures in a row, then moves to the next one for good; the last endpoint is
    kept however often it fails. *)
Theorem chain_refines_streak_automaton (es : list Endpoint) (c : ProxyChain)
    (results : list bool) (Hnew : chain_new es = Ok c) :
  exists c', run_ops c (map op_of_result results) = Some c' /\
    active_index c' = (streak_run (length es) results).1 /\
    chain_active c' = es !! (streak_run (length es) results).1.
Proof.
  assert (Hes : endpoints c = es) by (destruct es; [done|]; by injection Hnew as <-).
  destruct (run_ops_simulates c (O, O) results) as (c' & Hrun & He & _ & Hi & _ & _).
  - split; [by eapply chain_new_wf|]. destruct es as [|e es]; [done|].
    injection Hnew as <-. cbn. split; [done|]. split; [done|].
    intros j Hj. change (replicate (S (length es)) 0 !! j = Some 0).
    rewrite lookup_replicate. lia.
  - rewrite Hes in He, Hi. exists c'. split; [done|]. split; [done|].
    unfold chain_active. by rewrite He, Hi.
Qed.
End ProxyChain.
Arguments ProxyChain Endpoint : clear implicits.

(** ** IPv6 literals

    [Url::host_str] documents that IPv6 addresses are given between brackets. *)

(** Bracketed IPv6 literals escape both IPv6 code paths of this module: the
    host-text check never recognises [[v6]] as an address, so no IPv6 literal is
    reported as unsafe by it, and the redaction brackets the host a second time. *)
Lemma ipv6_literals_keep_brackets `{U : UrlLib} (e : ProxyEndpoint) (v6 : string)
    (Hhost : url_host_str (endpoint_url e) = Some ("[" +:+ v6 +:+ "]"))
    (Hcolon : contains_char ":" v6 = true) (Hport : url_port (endpoint_url e) = None) :
  is_unsafe_host ("[" +:+ v6 +:+ "]") = false /\
  redacted_authority e = Some (url_scheme (endpoint_url e) +:+ "://[[" +:+ v6 +:+ "]]").
Proof.
  split.
  - unfold is_unsafe_host.
    assert (Hloc : ends_with ".localhost" ("[" +:+ v6 +:+ "]") = false).
    { unfold ends_with, strip_suffix. rewrite string_rev_app, string_rev_app. done. }
    rewrite Hloc. done.
  - unfold redacted_authority. rewrite Hhost, Hport.
    assert (Hc : contains_char ":" ("[" +:+ v6 +:+ "]") = true).
    { by rewrite !contains_char_app, Hcolon. }
    rewrite Hc. by rewrite !string_app_assoc.
Qed.

(** ** Witnesses *)

Section EgressWitnesses.
#[local] Existing Instance simple_url_lib.

Definition sample_policy : DestinationPolicy :=
  {| allowlist := ["api.anthropic.com"; "bedrock-runtime.*.amazonaws.com"];
     allow_unsafe_private_networks := false |}.
Definition sample_resolver (host : string) (p : Z) : option (list SocketAddr) :=
  Some [{| ip := V4 (160, 79, 104, 10); port := p |}].
Definition sample_destination : Url :=
  {| su_scheme := "https"; su_username := ""; su_password := None; su_host := "api.anthropic.com";
     su_port := None; su_path := "/v1/messages"; su_query := None |}.
Definition sample_v6_proxy : ProxyEndpoint :=
  {| protocol := Https;
     endpoint_url := {| su_scheme := "https"; su_username := ""; su_password := None;
       su_host := "[2001:db8::1]"; su_port := None; su_path := "/"; su_query := None |} |}.

Lemma ipv6_literals_keep_brackets_witness :
  is_unsafe_host "[2001:db8::1]" = false /\
  redacted_authority sample_v6_proxy = Some "https://[[2001:db8::1]]".
Proof.
  apply (ipv6_literals_keep_brackets sample_v6_proxy "2001:db8::1"); reflexivity.
Defined.
End EgressWitnesses.

Lemma unsafe_v4_is_cidr_union_witness : is_unsafe_ip (V4 (172, 31, 0, 1)) = true.
Proof.
  rewrite (unsafe_v4_is_cidr_union (172, 31, 0, 1)).
  - vm_compute. reflexivity.
  - cbn. lia.
Defined.

Lemma unsafe_v6_ranges_witness : is_unsafe_ip (V6 [65024; 0; 0; 0; 0; 0; 0; 1]) <> true.
Proof.
  intros H. apply (unsafe_v6_ranges [65024; 0; 0; 0; 0; 0; 0; 1]) in H.
  - cbn in H. destruct H as [H|[H|H]]; [discriminate H..|lia].
  - cbn. lia.
Defined.

Lemma chain_never_panics_witness :
  exists c', run_ops {| endpoints := ["p"; "q"]; active_index := 0; consecutive_failures := [0; 0];
                        consecutive_successes := [0; 0] |} [OpFailure; OpMakeActive 7; OpSuccess]
             = Some c'.
Proof.
  destruct (chain_never_panics ["p"; "q"] _ [OpFailure; OpMakeActive 7; OpSuccess] eq_refl)
    as (c' & H & _).
  exists c'. exact H.
Defined.

Lemma chain_refines_streak_automaton_witness :
  exists c', run_ops {| endpoints := ["p"; "q"]; active_index := 0; consecutive_failures := [0; 0];
                        consecutive_successes := [0; 0] |}
               (map op_of_result [true; true; false; true; true; true; true; true; true; true]) = Some c'
             /\ chain_active c' = Some "q".
Proof.
  destruct (chain_refines_streak_automaton ["p"; "q"] _
    [true; true; false; true; true; true; true; true; true; true] eq_refl) as (c' & H & _ & Ha).
  exists c'. split; [exact H|exact Ha].
Defined.
