(* ===== verification/Bedrock.v ===== *)
(** * Bedrock event streams (src/src/providers.rs, decode_bedrock_frame to
    translate_bedrock_eventstream)

    The binary event-stream decoder and its translation to server-sent events.
    CRC-32, the JSON parser and printer and the Base64 decoder are parameters; the
    framing, the header grammar, the error handling and the buffering are the
    program's own.  [None] as a result is a panic. *)
From S2P Require Import Prelude Interfaces.

Inductive ProviderError :=
| InvalidPath | InvalidAuthenticationHeader | AwsSigningRequired | InvalidAwsCredential
| InvalidBedrockFrame.

Definition BEDROCK_MAX_PAYLOAD_BYTES : Z := 24 * 1024 * 1024.
Definition BEDROCK_MAX_HEADERS_BYTES : Z := 128 * 1024.
Definition BEDROCK_MAX_FRAME_BYTES : Z :=
  16 + BEDROCK_MAX_HEADERS_BYTES + BEDROCK_MAX_PAYLOAD_BYTES.

Definition blen (l : bytes) : Z := Z.of_nat (length l).

(** ** Headers *)

Definition skip_bedrock_header_bytes (encoded : bytes) (cursor count : nat) :
    result nat ProviderError :=
  if (length encoded <? cursor + count)%nat then Err InvalidBedrockFrame
  else Ok (cursor + count)%nat.

(** The [match value_type] of the loop: the value, if it is a string, and the
    cursor after it. *)
Definition read_header_value (encoded : bytes) (cursor : nat) (value_type : Z) :
    option (result (option string * nat) ProviderError) :=
  let skip count := Some (let? cursor := skip_bedrock_header_bytes encoded cursor count in
                          Ok (None, cursor)) in
  if (value_type =? 0) || (value_type =? 1) then Some (Ok (None, cursor))
  else if value_type =? 2 then skip 1%nat
  else if value_type =? 3 then skip 2%nat
  else if value_type =? 4 then skip 4%nat
  else if (value_type =? 5) || (value_type =? 8) then skip 8%nat
  else if (value_type =? 6) || (value_type =? 7) then
    if (length encoded <? cursor + 2)%nat then Some (Err InvalidBedrockFrame)
    else
      b0 ← encoded !! cursor;
      b1 ← encoded !! (cursor + 1)%nat;
      let value_length := Z.to_nat (from_be_bytes [b0; b1]) in
      let cursor := (cursor + 2)%nat in
      if (length encoded <? cursor + value_length)%nat then Some (Err InvalidBedrockFrame)
      else if value_type =? 7 then
        text ← slice encoded cursor (cursor + value_length);
        match from_utf8 text with
        | None => Some (Err InvalidBedrockFrame)
        | Some value => Some (Ok (Some value, (cursor + value_length)%nat))
        end
      else Some (Ok (None, (cursor + value_length)%nat))
  else if value_type =? 9 then skip 16%nat
  else Some (Err InvalidBedrockFrame).

(** One iteration of the loop: the header's name and value, and the next cursor. *)
Definition read_header (encoded : bytes) (cursor : nat) :
    option (result (string * option string * nat) ProviderError) :=
  n ← encoded !! cursor;
  let name_length := Z.to_nat (byte_of n) in
  let cursor := S cursor in
  if (name_length =? 0)%nat || (length encoded <? cursor + name_length + 1)%nat
  then Some (Err InvalidBedrockFrame)
  else
    raw_name ← slice encoded cursor (cursor + name_length);
    match from_utf8 raw_name with
    | None => Some (Err InvalidBedrockFrame)
    | Some name =>
        let cursor := (cursor + name_length)%nat in
        value_type ← encoded !! cursor;
        let! read := read_header_value encoded (S cursor) (byte_of value_type) in
        Some (Ok (name, read.1, read.2))
    end.

(** [headers.insert(name, value)] of a pseudo header: a duplicate is an error. *)
Definition add_header (headers : gmap string string) (name : string) (value : option string) :
    result (gmap string string) ProviderError :=
  if starts_with ":" name then
    match value with
    | None => Err InvalidBedrockFrame
    | Some v => match headers !! name with
                | Some _ => Err InvalidBedrockFrame
                | None => Ok (<[name := v]> headers)
                end
    end
  else Ok headers.

(** [while cursor < encoded.len()]; the fuel counts iterations. *)
Fixpoint decode_headers_from (fuel : nat) (encoded : bytes) (cursor : nat)
    (headers : gmap string string) : option (result (gmap string string) ProviderError) :=
  if (length encoded <=? cursor)%nat then Some (Ok headers)
  else match fuel with
       | O => None
       | S fuel' =>
           let! header := read_header encoded cursor in
           match add_header headers header.1.1 header.1.2 with
           | Err e => Some (Err e)
           | Ok headers => decode_headers_from fuel' encoded header.2 headers
           end
       end.

Definition decode_bedrock_headers (encoded : bytes) :
    option (result (gmap string string) ProviderError) :=
  decode_headers_from (length encoded) encoded 0 ∅.

(** ** Exception names *)

(** The loop state: the text built so far and whether the previous character was
    a lower-case letter or a digit.  A multi-byte character takes the last branch
    once per byte, which has the effect of taking it once. *)
Definition normalize_step (st : string * bool) (c : ascii) : string * bool :=
  let '(normalized, previous_was_lowercase_or_digit) := st in
  if is_ascii_uppercase c then
    let normalized := if previous_was_lowercase_or_digit && negb (ends_with "_" normalized)
                      then normalized +:+ "_" else normalized in
    (normalized +:+ String (to_ascii_lowercase_char c) "", false)
  else if is_ascii_alphanumeric c then
    (normalized +:+ String (to_ascii_lowercase_char c) "", true)
  else
    (if negb (string_is_empty normalized) && negb (ends_with "_" normalized)
     then normalized +:+ "_" else normalized, false).

Definition normalize_bedrock_exception_type (value : string) : string :=
  let '(normalized, _) := fold_left normalize_step (list_ascii_of_string value) ("", false) in
  trim_end_matches "_" (trim_start_matches "_" normalized).

Example normalize_throttling :
  normalize_bedrock_exception_type "ThrottlingException" = "throttling_exception".
Proof. reflexivity. Qed.

(** ** Frames *)

(** [value.get(key)] and [.as_str()]. *)
Fixpoint field (key : string) (fields : list (string * Value)) : option Value :=
  match fields with
  | [] => None
  | (k, v) :: rest => if bool_decide (k = key) then Some v else field key rest
  end.
Definition value_get (key : string) (v : Value) : option Value :=
  match v with VObject fields => field key fields | _ => None end.
Definition as_str (v : Value) : option string := match v with VString s => Some s | _ => None end.
Definition as_bool (v : Value) : option bool := match v with VBool b => Some b | _ => None end.

Definition newline : string := String "010" "".

(** [format!("event: {event}\ndata: {data}\n\n")]. *)
Definition sse (event data : string) : string :=
  "event: " +:+ event +:+ newline +:+ "data: " +:+ data +:+ newline +:+ newline.

Section BedrockFrames.
Context (crc32 : bytes -> Z) `{J : JsonLib} (base64_decode : string -> option bytes).

(** The body of an exception or error frame. *)
Definition decode_exception (headers : gmap string string) : result string ProviderError :=
  let? exception_type := ok_or
    (option_or (headers !! ":event-type")
       (option_or (headers !! ":exception-type") (headers !! ":error-code"))) InvalidBedrockFrame in
  let safe_type := "bedrock_" +:+ normalize_bedrock_exception_type exception_type in
  let data := VObject
    [("error", VObject [("message", VString ("Amazon Bedrock stream ended with " +:+ safe_type));
                        ("type", VString safe_type)]);
     ("type", VString "error")] in
  Ok (sse "error" (json_print data)).

(** The body of a [chunk] event: JSON, Base64, JSON. *)
Definition decode_chunk (payload : bytes) : result string ProviderError :=
  let? envelope := ok_or (json_parse (string_of_list_ascii payload)) InvalidBedrockFrame in
  let? encoded := ok_or (value_get "bytes" envelope ≫= as_str) InvalidBedrockFrame in
  let? decoded := ok_or (base64_decode encoded) InvalidBedrockFrame in
  let? event := ok_or (json_parse (string_of_list_ascii decoded)) InvalidBedrockFrame in
  let? event_type := ok_or (value_get "type" event ≫= as_str) InvalidBedrockFrame in
  Ok (sse event_type (from_utf8_lossy decoded)).

(** What a frame with these headers and payload becomes. *)
Definition decode_message (headers : gmap string string) (payload : bytes) :
    result string ProviderError :=
  let? message_type := ok_or (headers !! ":message-type") InvalidBedrockFrame in
  if bool_decide (message_type = "exception") || bool_decide (message_type = "error")
  then decode_exception headers
  else
    let? event_type := ok_or (headers !! ":event-type") InvalidBedrockFrame in
    if negb (bool_decide (message_type = "event")) || negb (bool_decide (event_type = "chunk"))
    then Err InvalidBedrockFrame
    else decode_chunk payload.

Definition decode_bedrock_frame (frame : bytes) : option (result string ProviderError) :=
  if (length frame <? 16)%nat then Some (Err InvalidBedrockFrame)
  else
    total_bytes ← slice frame 0 4;
    headers_bytes ← slice frame 4 8;
    let total_length := from_be_bytes total_bytes in
    let headers_length := from_be_bytes headers_bytes in
    if negb (total_length =? blen frame)
       || (BEDROCK_MAX_FRAME_BYTES <? total_length)
       || (BEDROCK_MAX_HEADERS_BYTES <? headers_length)
       || (saturating_sub total_length 16 <? headers_length)
    then Some (Err InvalidBedrockFrame)
    else
      let total := Z.to_nat total_length in
      let payload_start := (12 + Z.to_nat headers_length)%nat in
      expected_prelude ← slice frame 8 12;
      expected_message ← slice frame (total - 4) (length frame);
      prelude ← slice frame 0 8;
      message ← slice frame 0 (total - 4);
      if negb (crc32 prelude =? from_be_bytes expected_prelude)
         || negb (crc32 message =? from_be_bytes expected_message)
      then Some (Err InvalidBedrockFrame)
      else
        encoded_headers ← slice frame 12 payload_start;
        let! headers := decode_bedrock_headers encoded_headers in
        payload ← slice frame payload_start (total - 4);
        Some (decode_message headers payload).

(** ** The stream *)

Inductive io_error :=
| InvalidData (message : string)
| UnexpectedEof (message : string)
| OtherIo (message : string).

(** Items of the provider's body: a chunk, or a transport error that ends it. *)
Inductive stream_item := Chunk (data : bytes) | StreamError (message : string).

Inductive drained := NeedMore (buffer : bytes) | StreamFailed.

(** The inner [while buffer.len() >= 4] loop: the items it yields, and what is
    left.  Each round consumes a frame of at least 16 bytes. *)
Fixpoint drain (fuel : nat) (buffer : bytes) : option (list (result string io_error) * drained) :=
  if (length buffer <? 4)%nat then Some ([], NeedMore buffer)
  else
    let total_length := from_be_bytes (take 4 buffer) in
    if negb ((16 <=? total_length) && (total_length <=? BEDROCK_MAX_FRAME_BYTES))
    then Some ([Err (InvalidData "invalid Bedrock event-stream frame length")], StreamFailed)
    else if blen buffer <? total_length then Some ([], NeedMore buffer)
    else match fuel with
         | O => None
         | S fuel' =>
             let total := Z.to_nat total_length in
             match decode_bedrock_frame (take total buffer) with
             | None => None
             | Some (Err _) =>
                 Some ([Err (InvalidData "invalid Bedrock event-stream frame")], StreamFailed)
             | Some (Ok event) =>
                 '(items, rest) ← drain fuel' (drop total buffer);
                 Some (Ok event :: items, rest)
             end
         end.

(** The outer ['read] loop over the incoming items, from a given buffer. *)
Fixpoint translate_from (buffer : bytes) (input : list stream_item) :
    option (list (result string io_error)) :=
  '(items, rest) ← drain (length buffer) buffer;
  match rest with
  | StreamFailed => Some items
  | NeedMore buffer' =>
      match input with
      | [] => Some (items ++ match buffer' with
                             | [] => []
                             | _ => [Err (UnexpectedEof "truncated Bedrock event stream")]
                             end)
      | Chunk data :: input' =>
          more ← translate_from (buffer' ++ data) input';
          Some (items ++ more)
      | StreamError message :: _ => Some (items ++ [Err (OtherIo message)])
      end
  end.

Definition translate_bedrock_eventstream (body : list stream_item) :
    option (list (result string io_error)) := translate_from [] body.
End BedrockFrames.

(** ** No panics, and termination *)

#[local] Arguments Nat.leb : simpl never.
#[local] Arguments Nat.ltb : simpl never.
#[local] Arguments Nat.add : simpl never.
#[local] Arguments Z.to_nat : simpl never.
#[local] Arguments from_be_bytes : simpl never.
#[local] Arguments take : simpl never.
#[local] Arguments drop : simpl never.

(** Reading a value stays inside the buffer and never moves backwards. *)
Lemma read_header_value_bounds (encoded : bytes) (cursor : nat) (ty : Z) :
  (cursor <= length encoded)%nat ->
  exists r, read_header_value encoded cursor ty = Some r /\
    forall v c, r = Ok (v, c) -> (cursor <= c <= length encoded)%nat.
Proof.
  intros Hc. unfold read_header_value.
  assert (Hskip : forall n, exists r,
    Some (let? cursor := skip_bedrock_header_bytes encoded cursor n in Ok (@None string, cursor))
      = Some r /\ forall v c, r = Ok (v, c) -> (cursor <= c <= length encoded)%nat).
  { intros n. unfold skip_bedrock_header_bytes.
    destruct (Nat.ltb_spec (length encoded) (cursor + n)); eexists; (split; [done|]); [done|].
    intros v c [= <- <-]. lia. }
  destruct (_ || _); [eexists; split; [done|]; intros v c [= <- <-]; lia|].
  destruct (ty =? 2); [apply Hskip|]. destruct (ty =? 3); [apply Hskip|].
  destruct (ty =? 4); [apply Hskip|]. destruct (_ || _); [apply Hskip|].
  destruct (_ || _).
  - destruct (Nat.ltb_spec (length encoded) (cursor + 2)); [by eexists|].
    destruct (lookup_lt_is_Some_2 encoded cursor) as [b0 ->]; [lia|]. cbn.
    destruct (lookup_lt_is_Some_2 encoded (cursor + 1)) as [b1 ->]; [lia|]. cbn.
    destruct (Nat.ltb_spec (length encoded) (cursor + 2 + Z.to_nat (from_be_bytes [b0; b1])));
      [by eexists|].
    destruct (ty =? 7).
    + rewrite slice_Some by lia. cbn. destruct (from_utf8 _); [|by eexists].
      eexists. split; [done|]. intros v c [= <- <-]. lia.
    + eexists. split; [done|]. intros v c [= <- <-]. lia.
  - destruct (ty =? 9); [apply Hskip|]. by eexists.
Qed.

(** Reading a header consumes at least two bytes and stays inside the buffer. *)
Lemma read_header_bounds (encoded : bytes) (cursor : nat) :
  (cursor < length encoded)%nat ->
  exists r, read_header encoded cursor = Some r /\
    forall h, r = Ok h -> (cursor + 2 <= h.2 <= length encoded)%nat.
Proof.
  intros Hc. unfold read_header.
  destruct (lookup_lt_is_Some_2 encoded cursor Hc) as [n ->]. cbn.
  destruct (Nat.eqb_spec (Z.to_nat (byte_of n)) 0); [by eexists|]. cbn.
  destruct (Nat.ltb_spec (length encoded) (S cursor + Z.to_nat (byte_of n) + 1)); [by eexists|].
  rewrite slice_Some by lia. cbn. destruct (from_utf8 _) as [name|]; [|by eexists].
  destruct (lookup_lt_is_Some_2 encoded (S cursor + Z.to_nat (byte_of n))) as [ty ->]; [lia|]. cbn.
  destruct (read_header_value_bounds encoded (S (S cursor + Z.to_nat (byte_of n))) (byte_of ty))
    as (r & -> & Hr); [lia|].
  destruct r as [[v c]|e]; [|by eexists]. eexists. split; [done|]. intros h [= <-]. cbn.
  specialize (Hr v c eq_refl). lia.
Qed.

Lemma decode_headers_total (fuel : nat) (encoded : bytes) (cursor : nat) headers :
  (length encoded <= cursor + fuel)%nat ->
  is_Some (decode_headers_from fuel encoded cursor headers).
Proof.
  revert cursor headers. induction fuel as [|fuel IH]; intros cursor headers Hf; cbn.
  - destruct (Nat.leb_spec (length encoded) cursor); [by eexists|lia].
  - destruct (Nat.leb_spec (length encoded) cursor) as [|Hlt]; [by eexists|].
    destruct (read_header_bounds encoded cursor Hlt) as (r & -> & Hr).
    destruct r as [h|e]; [|by eexists].
    destruct (add_header headers h.1.1 h.1.2); [|by eexists].
    apply IH. specialize (Hr h eq_refl). lia.
Qed.

Lemma decode_bedrock_headers_total (encoded : bytes) : is_Some (decode_bedrock_headers encoded).
Proof. apply decode_headers_total. lia. Qed.

Section BedrockTheorems.
Context (crc32 : bytes -> Z) `{J : JsonLib} (base64_decode : string -> option bytes).
Abbreviation decode_frame := (decode_bedrock_frame crc32 base64_decode).
Abbreviation drain' := (drain crc32 base64_decode).
Abbreviation translate' := (translate_from crc32 base64_decode).
Abbreviation translate := (translate_bedrock_eventstream crc32 base64_decode).

Lemma decode_bedrock_frame_total (frame : bytes) : is_Some (decode_frame frame).
Proof.
  unfold decode_bedrock_frame. destruct (Nat.ltb_spec (length frame) 16); [by eexists|].
  rewrite !slice_Some by lia. cbn [mbind option_bind].
  set (total := from_be_bytes (take (4 - 0) (drop 0 frame))).
  set (hl := from_be_bytes (take (8 - 4) (drop 4 frame))).
  destruct (_ || _) eqn:E; [by eexists|].
  apply orb_false_iff in E as [[[Et%negb_false_iff%Z.eqb_eq _]%orb_false_iff _]%orb_false_iff
                              Eh%Z.ltb_ge].
  assert (Hhl : 0 <= hl) by apply from_be_bytes_bounds.
  unfold saturating_sub, blen in *.
  rewrite !slice_Some by lia. cbn [mbind option_bind].
  destruct (_ || _); [by eexists|].
  destruct (decode_bedrock_headers_total (take (12 + Z.to_nat hl - 12) (drop 12 frame)))
    as [[headers|e] ->]; by eexists.
Qed.

Lemma drain_total (fuel : nat) (buffer : bytes) :
  (length buffer <= fuel)%nat -> is_Some (drain' fuel buffer).
Proof.
  revert buffer. induction fuel as [|fuel IH]; intros buffer Hf; cbn.
  - destruct buffer; [by eexists|cbn in Hf; lia].
  - destruct (Nat.ltb_spec (length buffer) 4); [by eexists|].
    set (total := from_be_bytes (take 4 buffer)).
    destruct (negb _) eqn:E; [by eexists|].
    destruct (Z.ltb_spec (blen buffer) total); [by eexists|].
    destruct (decode_bedrock_frame_total (take (Z.to_nat total) buffer)) as [[ev|e] ->];
      [|by eexists].
    apply negb_false_iff, andb_true_iff in E as [E%Z.leb_le _].
    destruct (IH (drop (Z.to_nat total) buffer)) as [[items rest] ->]; [|by eexists].
    rewrite length_drop. lia.
Qed.

(** Fuel beyond the buffer's length makes no difference. *)
Lemma drain_fuel (fuel1 fuel2 : nat) (buffer : bytes) :
  (length buffer <= fuel1)%nat -> (length buffer <= fuel2)%nat ->
  drain' fuel1 buffer = drain' fuel2 buffer.
Proof.
  revert fuel2 buffer. induction fuel1 as [|fuel1 IH]; intros fuel2 buffer H1 H2.
  - destruct buffer; [by destruct fuel2|cbn in H1; lia].
  - destruct fuel2 as [|fuel2]; [destruct buffer; [done|cbn in H2; lia]|]. cbn.
    destruct (Nat.ltb_spec (length buffer) 4); [done|].
    destruct (negb _) eqn:E; [done|]. destruct (blen buffer <? _); [done|].
    apply negb_false_iff, andb_true_iff in E as [E%Z.leb_le _].
    destruct (decode_frame _) as [[ev|e]|]; [|done..].
    rewrite (IH fuel2); [done|rewrite length_drop; lia..].
Qed.

(** A complete frame at the head of the buffer. *)
Definition frame_ready (buffer : bytes) (total : Z) : Prop :=
  (4 <= length buffer)%nat /\ from_be_bytes (take 4 buffer) = total /\
  16 <= total <= BEDROCK_MAX_FRAME_BYTES /\ total <= blen buffer.

Lemma drain_frame (fuel : nat) (buffer : bytes) (total : Z) :
  frame_ready buffer total ->
  drain' (S fuel) buffer =
    match decode_frame (take (Z.to_nat total) buffer) with
    | None => None
    | Some (Err _) =>
        Some ([Err (InvalidData "invalid Bedrock event-stream frame")], StreamFailed)
    | Some (Ok event) =>
        '(items, rest) ← drain' fuel (drop (Z.to_nat total) buffer); Some (Ok event :: items, rest)
    end.
Proof.
  intros (Hlen & Ht & [H1 H2] & Hb). cbn [drain]. rewrite Ht.
  rewrite (proj2 (Nat.ltb_ge _ _) Hlen), (proj2 (Z.leb_le _ _) H1), (proj2 (Z.leb_le _ _) H2).
  by rewrite (proj2 (Z.ltb_ge _ _) Hb).
Qed.

Lemma frame_ready_app (buffer more : bytes) (total : Z) :
  frame_ready buffer total -> frame_ready (buffer ++ more) total.
Proof.
  intros (Hlen & Ht & Hr & Hb). unfold frame_ready, blen in *. rewrite length_app.
  rewrite take_app_le by lia. split_and!; [lia|done|lia..].
Qed.

(** The three ways a round of draining goes. *)
Lemma drain_cases (buffer : bytes) :
  (forall fuel, drain' fuel buffer = Some ([], NeedMore buffer)) \/
  (forall more fuel, drain' fuel (buffer ++ more) =
     Some ([Err (InvalidData "invalid Bedrock event-stream frame length")], StreamFailed)) \/
  (exists total, frame_ready buffer total).
Proof.
  destruct (Nat.ltb_spec (length buffer) 4) as [Hlt|Hge].
  { left. intros [|fuel]; cbn [drain]; by rewrite (proj2 (Nat.ltb_lt _ _) Hlt). }
  set (total := from_be_bytes (take 4 buffer)).
  destruct ((16 <=? total) && (total <=? BEDROCK_MAX_FRAME_BYTES)) eqn:E.
  - destruct (Z.ltb_spec (blen buffer) total) as [Hb|Hb].
    + left. intros [|fuel]; cbn [drain]; fold total;
        by rewrite (proj2 (Nat.ltb_ge _ _) Hge), E, (proj2 (Z.ltb_lt _ _) Hb).
    + right. right. exists total. apply andb_true_iff in E as [E1%Z.leb_le E2%Z.leb_le].
      by split_and!.
  - right. left. intros more [|fuel]; cbn [drain]; rewrite length_app, take_app_le by lia; fold total;
      by rewrite (proj2 (Nat.ltb_ge _ _)), E by lia.
Qed.

Lemma drain_rest_shorter (fuel : nat) (buffer buffer' : bytes) items :
  drain' fuel buffer = Some (items, NeedMore buffer') -> (length buffer' <= length buffer)%nat.
Proof.
  revert buffer items. induction fuel as [|fuel IH]; intros buffer items Hd;
    destruct (drain_cases buffer) as [Hs|[Hf|[total Hr]]].
  - rewrite Hs in Hd. by injection Hd as <- <-.
  - specialize (Hf [] O). rewrite app_nil_r, Hd in Hf. done.
  - exfalso. destruct Hr as (Hlen & Ht & [H1 H2] & Hb). cbn [drain] in Hd. rewrite Ht in Hd.
    rewrite (proj2 (Nat.ltb_ge _ _) Hlen), (proj2 (Z.leb_le _ _) H1), (proj2 (Z.leb_le _ _) H2),
      (proj2 (Z.ltb_ge _ _) Hb) in Hd. done.
  - rewrite Hs in Hd. by injection Hd as <- <-.
  - specialize (Hf [] (S fuel)). rewrite app_nil_r, Hd in Hf. done.
  - rewrite (drain_frame fuel buffer total Hr) in Hd.
    destruct (decode_frame _) as [[ev|e]|]; [|done..].
    destruct (drain' fuel (drop _ buffer)) as [[items1 rest1]|] eqn:E; [|done].
    cbn in Hd. injection Hd as <- ->. apply IH in E. rewrite length_drop in E. lia.
Qed.

(** Draining a longer buffer first does what draining its prefix does. *)
Lemma drain_app (fuel : nat) (buffer more : bytes) items rest :
  (length (buffer ++ more) <= fuel)%nat -> drain' fuel buffer = Some (items, rest) ->
  drain' fuel (buffer ++ more) =
    match rest with
    | StreamFailed => Some (items, StreamFailed)
    | NeedMore buffer' =>
        '(items', rest') ← drain' fuel (buffer' ++ more); Some (items ++ items', rest')
    end.
Proof.
  revert buffer items rest. induction fuel as [|fuel IH]; intros buffer items rest Hf Hd.
  { destruct buffer, more; cbn in Hf; try lia. cbn in Hd. by injection Hd as <- <-. }
  destruct (drain_cases buffer) as [Hs|[Hbad|[total Hr]]].
  - rewrite Hs in Hd. injection Hd as <- <-. by destruct (drain' _ _) as [[? ?]|].
  - rewrite Hbad. specialize (Hbad [] (S fuel)). rewrite app_nil_r, Hd in Hbad.
    by injection Hbad as -> ->.
  - rewrite (drain_frame fuel _ total (frame_ready_app _ more _ Hr)).
    rewrite (drain_frame fuel _ total Hr) in Hd.
    destruct Hr as (_ & _ & [H16 _] & Hb). unfold blen in Hb.
    rewrite take_app_le, drop_app_le by lia.
    destruct (decode_frame (take (Z.to_nat total) buffer)) as [[ev|e]|];
      [|by injection Hd as <- <-|done].
    destruct (drain' fuel (drop (Z.to_nat total) buffer)) as [[items1 rest1]|] eqn:E2; [|done].
    cbn in Hd. injection Hd as <- <-.
    assert (Hl1 : (length (drop (Z.to_nat total) buffer ++ more) <= fuel)%nat).
    { rewrite length_app, length_drop. rewrite length_app in Hf. lia. }
    rewrite (IH _ _ _ Hl1 E2). destruct rest1 as [buffer'|]; [|done].
    apply drain_rest_shorter in E2.
    rewrite (drain_fuel fuel (S fuel)) by (rewrite length_app in *; lia).
    by destruct (drain' (S fuel) (buffer' ++ more)) as [[? ?]|].
Qed.
(** What the outer loop does after draining. *)
Definition resume (items : list (result string io_error)) (rest : drained)
    (input : list stream_item) : option (list (result string io_error)) :=
  match rest with
  | StreamFailed => Some items
  | NeedMore buffer' =>
      match input with
      | [] => Some (items ++ match buffer' with
                             | [] => []
                             | _ => [Err (UnexpectedEof "truncated Bedrock event stream")]
                             end)
      | Chunk data :: input' => more ← translate' (buffer' ++ data) input'; Some (items ++ more)
      | StreamError message :: _ => Some (items ++ [Err (OtherIo message)])
      end
  end.

Lemma translate_unfold (buffer : bytes) (input : list stream_item) :
  translate' buffer input =
    '(items, rest) ← drain' (length buffer) buffer; resume items rest input.
Proof. by destruct input. Qed.

Lemma resume_app items items' rest input :
  resume (items ++ items') rest input = (more ← resume items' rest input; Some (items ++ more)).
Proof.
  destruct rest as [buffer'|]; [|done]. destruct input as [|[data|message] input]; cbn.
  - by rewrite <- app_assoc.
  - destruct (translate' _ _); [|done]. cbn. by rewrite <- app_assoc.
  - by rewrite <- app_assoc.
Qed.

Lemma translate_total (buffer : bytes) (input : list stream_item) : is_Some (translate' buffer input).
Proof.
  revert buffer. induction input as [|item input IH]; intros buffer; rewrite translate_unfold;
    destruct (drain_total (length buffer) buffer) as [[items rest] ->]; try lia;
    destruct rest as [buffer'|]; cbn; try (by eexists).
  destruct item as [data|message]; [|by eexists].
  destruct (IH (buffer' ++ data)) as [more ->]. by eexists.
Qed.

Lemma translate_concat (chunks : list bytes) (buffer : bytes) (tail : list stream_item) :
  translate' buffer (map Chunk chunks ++ tail) = translate' (buffer ++ concat chunks) tail.
Proof.
  revert buffer. induction chunks as [|c chunks IH]; intros buffer; cbn [map concat].
  { by rewrite app_nil_r. }
  rewrite !translate_unfold. set (x := c ++ concat chunks).
  destruct (drain_total (length buffer) buffer) as [[items rest] Hd]; [lia|]. rewrite Hd. cbn.
  rewrite (drain_fuel _ (length (buffer ++ x))) in Hd by (rewrite ?length_app; lia).
  rewrite (drain_app _ buffer x items rest (le_n _) Hd).
  destruct rest as [buffer'|]; [|done]. apply drain_rest_shorter in Hd. cbn.
  rewrite IH, translate_unfold, <- app_assoc. fold x.
  rewrite (drain_fuel (length (buffer ++ x)) (length (buffer' ++ x)))
    by (rewrite !length_app; lia).
  destruct (drain' _ (buffer' ++ x)) as [[items' rest']|]; [|done]. cbn.
  by rewrite resume_app.
Qed.

(** C16.  Chunk boundaries are invisible.  However the provider's bytes are cut
    into chunks, and whether the body then ends or breaks with a transport error,
    the client sees the same sequence of events and errors. *)
Theorem chunking_irrelevant (chunks1 chunks2 : list bytes) (tail : list stream_item)
    (Hsame : concat chunks1 = concat chunks2) :
  translate (map Chunk chunks1 ++ tail) = translate (map Chunk chunks2 ++ tail).
Proof. unfold translate_bedrock_eventstream. by rewrite !translate_concat, Hsame. Qed.

Lemma drain_shape (fuel : nat) (buffer : bytes) items rest :
  drain' fuel buffer = Some (items, rest) ->
  exists events, match rest with
                 | NeedMore _ => items = map Ok events
                 | StreamFailed => exists e, items = map Ok events ++ [Err e]
                 end.
Proof.
  revert buffer items. induction fuel as [|fuel IH]; intros buffer items Hd;
    destruct (drain_cases buffer) as [Hs|[Hf|[total Hr]]].
  - rewrite Hs in Hd. injection Hd as <- <-. by exists [].
  - specialize (Hf [] O). rewrite app_nil_r, Hd in Hf. injection Hf as -> ->. exists []. by eexists.
  - exfalso. destruct Hr as (Hlen & Ht & [H1 H2] & Hb). cbn [drain] in Hd. rewrite Ht in Hd.
    rewrite (proj2 (Nat.ltb_ge _ _) Hlen), (proj2 (Z.leb_le _ _) H1), (proj2 (Z.leb_le _ _) H2),
      (proj2 (Z.ltb_ge _ _) Hb) in Hd. done.
  - rewrite Hs in Hd. injection Hd as <- <-. by exists [].
  - specialize (Hf [] (S fuel)). rewrite app_nil_r, Hd in Hf. injection Hf as -> ->. exists [].
    by eexists.
  - rewrite (drain_frame fuel buffer total Hr) in Hd.
    destruct (decode_frame _) as [[ev|e]|]; [|injection Hd as <- <-; exists []; by eexists|done].
    destruct (drain' fuel (drop _ buffer)) as [[items1 rest1]|] eqn:E; [|done].
    cbn in Hd. injection Hd as <- <-. apply IH in E as [events He]. exists (ev :: events).
    destruct rest1; [by rewrite He|]. destruct He as [e ->]. by exists e.
Qed.

(** C28.  The translation always finishes without a panic, and fails cleanly: for
    every body, broken or not, it yields a finite sequence of events followed by at
    most one error, after which nothing more is sent. *)
Theorem bedrock_stream_total (body : list stream_item) :
  exists events tail, translate body = Some (map Ok events ++ tail) /\
    (tail = [] \/ exists e, tail = [Err e]).
Proof.
  unfold translate_bedrock_eventstream. generalize (@nil ascii).
  induction body as [|item body IH]; intros buffer; rewrite translate_unfold;
    destruct (drain_total (length buffer) buffer) as [[items rest] Hd]; try lia; rewrite Hd; cbn;
    apply drain_shape in Hd as [events He]; destruct rest as [buffer'|];
    [subst items; cbn|destruct He as [e ->]; exists events, [Err e]; by eauto
    |subst items; cbn|destruct He as [e ->]; exists events, [Err e]; by eauto].
  - eexists events, _. split; [done|]. destruct buffer'; eauto.
  - destruct item as [data|message].
    + destruct (IH (buffer' ++ data)) as (events' & tail & -> & Htail). cbn.
      exists (events ++ events'), tail. split; [|done]. by rewrite map_app, app_assoc.
    + eexists events, _. split; [done|]. eauto.
Qed.
(** The facts an accepted frame satisfies. *)
Definition frame_fields (frame : bytes) : Prop :=
  16 <= blen frame <= BEDROCK_MAX_FRAME_BYTES /\
  from_be_bytes (take 4 frame) = blen frame /\
  from_be_bytes (take 4 (drop 4 frame)) <= BEDROCK_MAX_HEADERS_BYTES /\
  from_be_bytes (take 4 (drop 4 frame)) <= blen frame - 16 /\
  crc32 (take 8 frame) = from_be_bytes (take 4 (drop 8 frame)) /\
  crc32 (take (length frame - 4) frame) = from_be_bytes (drop (length frame - 4) frame).

Lemma accepted_frame_fields (frame : bytes) (event : string) :
  decode_frame frame = Some (Ok event) -> frame_fields frame.
Proof.
  intros Hok. unfold frame_fields. unfold decode_bedrock_frame in Hok.
  destruct (Nat.ltb_spec (length frame) 16) as [|Hlen]; [done|].
  rewrite !slice_Some in Hok by lia. cbn [mbind option_bind] in Hok.
  change (drop 0 frame) with frame in Hok. change (4 - 0)%nat with 4%nat in Hok.
  change (8 - 4)%nat with 4%nat in Hok.
  destruct (_ || _) eqn:E in Hok; [done|].
  apply orb_false_iff in E as [[[Et%negb_false_iff%Z.eqb_eq Em%Z.ltb_ge]%orb_false_iff
                               Eh%Z.ltb_ge]%orb_false_iff Ehl%Z.ltb_ge].
  pose proof (from_be_bytes_bounds (take 4 (drop 4 frame))) as [Hnn _].
  unfold saturating_sub in Ehl. unfold blen in *.
  rewrite Et, Nat2Z.id in Hok. rewrite !slice_Some in Hok by lia. cbn [mbind option_bind] in Hok.
  change (drop 0 frame) with frame in Hok. change (12 - 8)%nat with 4%nat in Hok.
  change (8 - 0)%nat with 8%nat in Hok. rewrite Nat.sub_0_r in Hok.
  replace (length frame - (length frame - 4))%nat with 4%nat in Hok by lia.
  destruct (_ || _) eqn:Ec in Hok; [done|].
  apply orb_false_iff in Ec as [Ec1%negb_false_iff%Z.eqb_eq Ec2%negb_false_iff%Z.eqb_eq].
  rewrite (take_ge (drop (length frame - 4) frame)) in Ec2 by (rewrite length_drop; lia).
  split_and!; [lia|lia|done|lia|lia|done|done].
Qed.

(** Frame integrity.  A frame is accepted only if its length field is its
    actual length, between 16 bytes and the maximum, its header block is at most
    128 KiB and fits, and both checksums (of the first eight bytes and of everything
    before the last four) are the stored ones. *)
Lemma accepted_frame_integrity (frame : bytes) (event : string)
    (Hok : decode_frame frame = Some (Ok event)) :
  16 <= blen frame <= BEDROCK_MAX_FRAME_BYTES /\
  from_be_bytes (take 4 frame) = blen frame /\
  from_be_bytes (take 4 (drop 4 frame)) <= BEDROCK_MAX_HEADERS_BYTES /\
  from_be_bytes (take 4 (drop 4 frame)) <= blen frame - 16 /\
  crc32 (take 8 frame) = from_be_bytes (take 4 (drop 8 frame)) /\
  crc32 (take (length frame - 4) frame) = from_be_bytes (drop (length frame - 4) frame).
Proof. exact (accepted_frame_fields frame event Hok). Qed.

Lemma accepted_frame_ready (frame : bytes) (event : string) (more : bytes) :
  decode_frame frame = Some (Ok event) -> frame_ready (frame ++ more) (blen frame).
Proof.
  intros H. apply frame_ready_app. apply accepted_frame_fields in H as ([H1 H2] & Ht & _).
  unfold frame_ready, blen in *. split_and!; lia.
Qed.

Definition decodes (frame : bytes) (event : string) : Prop := decode_frame frame = Some (Ok event).

Lemma drain_frames (frames : list bytes) (events : list string) (fuel : nat) :
  Forall2 decodes frames events -> (length (concat frames) <= fuel)%nat ->
  drain' fuel (concat frames) = Some (map Ok events, NeedMore []).
Proof.
  intros H. revert fuel. induction H as [|f e frames events Hf _ IH]; intros fuel Hfuel.
  { by destruct fuel. }
  cbn [concat map] in *. pose proof (accepted_frame_ready f e (concat frames) Hf) as Hr.
  rewrite length_app in Hfuel. destruct fuel as [|fuel].
  { destruct Hr as (Hl & _ & [? _] & _). unfold blen in *. lia. }
  rewrite (drain_frame fuel _ _ Hr). unfold blen. rewrite Nat2Z.id, take_app_length, Hf, drop_app_length.
  rewrite IH; [done|]. destruct Hr as (_ & _ & [? _] & _). unfold blen in *. lia.
Qed.

Lemma drain_frames_inv (fuel : nat) (buffer : bytes) (events : list string) :
  drain' fuel buffer = Some (map Ok events, NeedMore []) ->
  exists frames, concat frames = buffer /\ Forall2 decodes frames events.
Proof.
  revert buffer events. induction fuel as [|fuel IH]; intros buffer events Hd;
    destruct (drain_cases buffer) as [Hs|[Hbad|[total Hr]]].
  - rewrite Hs in Hd. injection Hd as Hev ->. exists []. by destruct events.
  - specialize (Hbad [] O). rewrite app_nil_r, Hd in Hbad. done.
  - destruct Hr as (Hlen & Ht & [H1 H2] & Hb). cbn [drain] in Hd. rewrite Ht in Hd.
    rewrite (proj2 (Nat.ltb_ge _ _) Hlen), (proj2 (Z.leb_le _ _) H1), (proj2 (Z.leb_le _ _) H2),
      (proj2 (Z.ltb_ge _ _) Hb) in Hd. done.
  - rewrite Hs in Hd. injection Hd as Hev ->. exists []. by destruct events.
  - specialize (Hbad [] (S fuel)). rewrite app_nil_r, Hd in Hbad. done.
  - rewrite (drain_frame fuel buffer total Hr) in Hd.
    destruct (decode_frame _) as [[ev|e]|] eqn:Ef; [|done..].
    destruct (drain' fuel (drop _ buffer)) as [[items1 rest1]|] eqn:E; [|done].
    cbn in Hd. injection Hd as Hev ->. destruct events as [|ev' events]; [done|].
    cbn in Hev. injection Hev as -> ->. apply IH in E as (frames & Hcat & Hall).
    exists (take (Z.to_nat total) buffer :: frames). cbn. rewrite Hcat, take_drop.
    split; [done|]. by constructor.
Qed.

(** C27.  The stream is its frames.  A body without transport errors is translated
    without an error exactly when its bytes, however chunked, are a concatenation
    of acceptable frames, and then the client receives the event of each frame, in
    order, once; a partial frame at the end or a corrupt frame never passes. *)
Theorem clean_stream_iff_frames (chunks : list bytes) (events : list string) :
  translate (map Chunk chunks) = Some (map Ok events) <->
  exists frames, concat frames = concat chunks /\ Forall2 decodes frames events.
Proof.
  unfold translate_bedrock_eventstream.
  rewrite <- (app_nil_r (map Chunk chunks)), translate_concat, translate_unfold. cbn [app].
  split.
  - destruct (drain' _ _) as [[items rest]|] eqn:Hd; [|done]. cbn.
    pose proof (drain_shape _ _ _ _ Hd) as [evs He]. destruct rest as [buffer'|].
    + subst items. cbn. intros [= Heq]. destruct buffer' as [|b buffer'].
      * rewrite app_nil_r in Heq. rewrite Heq in Hd. by eapply drain_frames_inv.
      * exfalso. assert (Hin : Err (UnexpectedEof "truncated Bedrock event stream") ∈ map (@Ok string io_error) events)
          by (rewrite <- Heq; set_solver).
        apply list_elem_of_fmap in Hin as (? & ? & _). done.
    + destruct He as [e ->]. intros [= Heq]. exfalso.
      assert (Hin : Err e ∈ map (@Ok string io_error) events) by (rewrite <- Heq; set_solver).
      apply list_elem_of_fmap in Hin as (? & ? & _). done.
  - intros (frames & Hcat & Hall). rewrite <- Hcat, (drain_frames frames events); [|done|lia].
    cbn. by rewrite app_nil_r.
Qed.
End BedrockTheorems.

(** ** Round trip with the event-stream encoding

    The encoding of headers and frames, as the wire format defines it. *)

Definition byte_ascii (n : Z) : ascii := ascii_of_N (Z.to_N n).
Definition be16 (n : Z) : bytes := [byte_ascii (n / 256); byte_ascii (n mod 256)].
Definition be32 (n : Z) : bytes := be16 (n / 65536) ++ be16 (n mod 65536).

Inductive header_value :=
| HvFixed (ty : Z) (data : bytes)      (* booleans, integers, timestamp, uuid *)
| HvBytes (data : bytes)
| HvString (text : bytes).

Definition fixed_size (ty : Z) : option nat :=
  if (ty =? 0) || (ty =? 1) then Some 0%nat else if ty =? 2 then Some 1%nat
  else if ty =? 3 then Some 2%nat else if ty =? 4 then Some 4%nat
  else if (ty =? 5) || (ty =? 8) then Some 8%nat else if ty =? 9 then Some 16%nat else None.

Definition encode_value (v : header_value) : bytes :=
  match v with
  | HvFixed ty data => byte_ascii ty :: data
  | HvBytes data => byte_ascii 6 :: be16 (blen data) ++ data
  | HvString text => byte_ascii 7 :: be16 (blen text) ++ text
  end.

Definition encode_header (h : bytes * header_value) : bytes :=
  byte_ascii (blen h.1) :: h.1 ++ encode_value h.2.

Definition header_valid (h : bytes * header_value) : Prop :=
  1 <= blen h.1 <= 255 /\ utf8_valid h.1 = true /\
  match h.2 with
  | HvFixed ty data => fixed_size ty = Some (length data)
  | HvBytes data => blen data <= U16_MAX
  | HvString text => blen text <= U16_MAX /\ utf8_valid text = true
  end.

Definition header_text (v : header_value) : option string :=
  match v with HvString text => Some (string_of_list_ascii text) | _ => None end.

(** What a header block means: pseudo headers are collected, a duplicate or
    non-string pseudo header is an error, other headers are ignored. *)
Fixpoint headers_meaning (acc : gmap string string) (hs : list (bytes * header_value)) :
    result (gmap string string) ProviderError :=
  match hs with
  | [] => Ok acc
  | h :: hs => let? acc := add_header acc (string_of_list_ascii h.1) (header_text h.2) in
               headers_meaning acc hs
  end.

Lemma byte_of_byte_ascii (n : Z) : 0 <= n < 256 -> byte_of (byte_ascii n) = n.
Proof. intros H. unfold byte_ascii. rewrite byte_of_ascii_of_N by lia. lia. Qed.

Lemma from_be16 (n : Z) : 0 <= n < 65536 -> from_be_bytes (be16 n) = n.
Proof.
  intros H. unfold from_be_bytes, be16. cbn.
  rewrite !byte_of_byte_ascii by (Z.to_euclidean_division_equations; lia).
  Z.to_euclidean_division_equations. lia.
Qed.

Lemma from_be_bytes_app (a b : bytes) :
  from_be_bytes (a ++ b) = from_be_bytes a * 256 ^ blen b + from_be_bytes b.
Proof.
  unfold from_be_bytes, blen. rewrite fold_left_app. generalize (fold_left (fun acc c => acc * 256 + byte_of c) a 0).
  induction b as [|c b IH] using rev_ind; intros z; [cbn; lia|].
  rewrite !fold_left_app, IH, length_app. cbn.
  rewrite Nat2Z.inj_add, Z.pow_add_r by lia. change (256 ^ Z.of_nat 1) with 256. ring.
Qed.

Lemma from_be32 (n : Z) : 0 <= n < 4294967296 -> from_be_bytes (be32 n) = n.
Proof.
  intros H. unfold be32. rewrite from_be_bytes_app, !from_be16
    by (Z.to_euclidean_division_equations; lia).
  change (256 ^ blen (be16 (n mod 65536))) with 65536. Z.to_euclidean_division_equations. lia.
Qed.

(** Slices and lookups of a buffer after a prefix. *)
Lemma slice_app_r (pre l : bytes) (a b : nat) :
  slice (pre ++ l) (length pre + a) (length pre + b) = slice l a b.
Proof.
  unfold slice. rewrite length_app.
  replace (length pre + a <=? length pre + b)%nat with (a <=? b)%nat
    by (apply eq_true_iff_eq; rewrite !Nat.leb_le; lia).
  replace (length pre + b <=? length pre + length l)%nat with (b <=? length l)%nat
    by (apply eq_true_iff_eq; rewrite !Nat.leb_le; lia).
  destruct (_ && _); [|done]. f_equal. rewrite drop_app_add. f_equal. lia.
Qed.

Lemma lookup_app_add (pre l : bytes) (i : nat) : (pre ++ l) !! (length pre + i)%nat = l !! i.
Proof. rewrite lookup_app_r by lia. f_equal. lia. Qed.

Definition shift_value (k : nat) (r : option (result (option string * nat) ProviderError)) :=
  match r with
  | Some (Ok (v, c)) => Some (Ok (v, (k + c)%nat))
  | other => other
  end.

Lemma read_header_value_shift (pre l : bytes) (c : nat) (ty : Z) :
  read_header_value (pre ++ l) (length pre + c) ty
  = shift_value (length pre) (read_header_value l c ty).
Proof.
  assert (Hlt : forall n, (length (pre ++ l) <? length pre + c + n)%nat = (length l <? c + n)%nat).
  { intros n. apply eq_true_iff_eq. rewrite !Nat.ltb_lt, length_app. lia. }
  unfold read_header_value, skip_bedrock_header_bytes. rewrite !Hlt.
  destruct (_ || _); [done|].
  destruct (ty =? 2); [destruct (_ <? _)%nat; cbn; [done|by rewrite Nat.add_assoc]|].
  destruct (ty =? 3); [destruct (_ <? _)%nat; cbn; [done|by rewrite Nat.add_assoc]|].
  destruct (ty =? 4); [destruct (_ <? _)%nat; cbn; [done|by rewrite Nat.add_assoc]|].
  destruct (_ || _); [destruct (_ <? _)%nat; cbn; [done|by rewrite Nat.add_assoc]|].
  destruct (_ || _).
  - destruct (_ <? _)%nat; [done|]. rewrite <- !Nat.add_assoc, !lookup_app_add.
    destruct (l !! c) as [b0|]; [|done]. cbn. destruct (l !! (c + 1)%nat) as [b1|]; [|done]. cbn.
    rewrite <- !Nat.add_assoc, (Nat.add_assoc (length pre)), Hlt.
    destruct (_ <? _)%nat; [done|]. rewrite <- Nat.add_assoc.
    destruct (ty =? 7); [|done]. rewrite slice_app_r.
    destruct (slice l _ _); [|done]. cbn. by destruct (from_utf8 _).
  - destruct (ty =? 9); [destruct (_ <? _)%nat; cbn; [done|by rewrite Nat.add_assoc]|]. done.
Qed.

Lemma read_header_shift (pre l : bytes) (c : nat) :
  read_header (pre ++ l) (length pre + c)
  = match read_header l c with
    | Some (Ok (n, v, c')) => Some (Ok (n, v, (length pre + c')%nat))
    | other => other
    end.
Proof.
  unfold read_header. rewrite lookup_app_add. destruct (l !! c) as [n|]; [|done]. cbn.
  set (k := Z.to_nat (byte_of n)).
  replace (S (length pre + c)) with (length pre + S c)%nat by lia.
  replace (length (pre ++ l) <? length pre + S c + k + 1)%nat with (length l <? S c + k + 1)%nat
    by (apply eq_true_iff_eq; rewrite !Nat.ltb_lt, length_app; lia).
  destruct (_ || _); [done|]. rewrite <- (Nat.add_assoc (length pre)), slice_app_r.
  destruct (slice l _ _) as [raw|]; [|done]. cbn. destruct (from_utf8 raw) as [name|]; [|done].
  rewrite lookup_app_add. destruct (l !! (S c + k)%nat) as [ty|]; [|done]. cbn.
  replace (S (length pre + (S c + k))) with (length pre + S (S c + k))%nat by lia.
  rewrite read_header_value_shift. by destruct (read_header_value l _ _) as [[[v c']|e]|].
Qed.

(** A value of fixed size is skipped. *)
Lemma fixed_value_read (ty : Z) (n : nat) :
  fixed_size ty = Some n ->
  0 <= ty < 256 /\
  forall l : bytes, (n <= length l)%nat -> read_header_value l 0 ty = Some (Ok (None, n)).
Proof.
  assert (Hskip : forall (k : nat) (l : bytes), (k <= length l)%nat ->
    Some (let? cursor := skip_bedrock_header_bytes l 0 k in Ok (@None string, cursor))
    = Some (Ok (None, k))).
  { intros k l Hk. unfold skip_bedrock_header_bytes.
    by rewrite (proj2 (Nat.ltb_ge _ _)) by (rewrite Nat.add_0_l; lia). }
  unfold fixed_size.
  repeat match goal with
  | |- context [ty =? ?k] => destruct (Z.eqb_spec ty k) as [->|?]; cbn [orb]
  end; intros [= <-]; (split; [lia|]); intros l Hl; unfold read_header_value; cbn [Z.eqb orb Pos.eqb].
  all: try done; by apply Hskip.
Qed.

(** Reading an encoded value right at the start of a buffer. *)
Lemma read_value_encoded (v : header_value) (name rest : bytes) :
  header_valid (name, v) ->
  exists ty tail, encode_value v = ty :: tail /\
    read_header_value (tail ++ rest) 0 (byte_of ty) = Some (Ok (header_text v, length tail)).
Proof.
  intros (_ & _ & Hv). cbn in Hv. destruct v as [ty data|data|text]; eexists _, _; (split; [done|]).
  - apply fixed_value_read in Hv as [Hty Hread]. rewrite byte_of_byte_ascii by done.
    apply Hread. rewrite length_app. lia.
  - assert (Hlen : 0 <= blen data <= 65535) by (unfold blen, U16_MAX in *; lia).
    rewrite byte_of_byte_ascii by lia. unfold read_header_value. cbn -[be16].
    rewrite (proj2 (Nat.ltb_ge _ _)) by (rewrite !length_app; cbn; lia). cbn.
    change ((_ :: ?x :: _) !! (0 + 1)%nat) with (Some x). cbn [mbind option_bind].
    change [byte_ascii (blen data / 256); byte_ascii (blen data mod 256)] with (be16 (blen data)).
    rewrite from_be16 by lia. unfold blen. rewrite Nat2Z.id.
    rewrite (proj2 (Nat.ltb_ge _ _)) by (cbn; rewrite length_app; lia). done.
  - destruct Hv as [Hv Hutf]. assert (Hlen : 0 <= blen text <= 65535) by (unfold blen, U16_MAX in *; lia).
    rewrite byte_of_byte_ascii by lia. unfold read_header_value. cbn -[be16].
    rewrite (proj2 (Nat.ltb_ge _ _)) by (rewrite !length_app; cbn; lia). cbn.
    change ((_ :: ?x :: _) !! (0 + 1)%nat) with (Some x). cbn [mbind option_bind].
    change [byte_ascii (blen text / 256); byte_ascii (blen text mod 256)] with (be16 (blen text)).
    rewrite from_be16 by lia. unfold blen. rewrite Nat2Z.id.
    rewrite (proj2 (Nat.ltb_ge _ _)) by (cbn; rewrite length_app; lia).
    rewrite slice_Some by (cbn; rewrite ?length_app; lia). cbn.
    replace (0 + 2 + length text - (0 + 2))%nat with (length text) by lia.
    change (drop (0 + 2) (_ :: _ :: text ++ rest)) with (text ++ rest).
    rewrite take_app_length. unfold from_utf8. by rewrite Hutf.
Qed.

Lemma read_header_encoded (h : bytes * header_value) (rest : bytes) :
  header_valid h ->
  read_header (encode_header h ++ rest) 0
  = Some (Ok (string_of_list_ascii h.1, header_text h.2, length (encode_header h))).
Proof.
  intros Hval. destruct h as [name v]. pose proof Hval as (Hn & Hutf & _). cbn -[utf8_valid] in Hn, Hutf.
  destruct (read_value_encoded v name rest Hval) as (ty & tail & Hev & Hrd).
  unfold read_header, encode_header. cbn [fst snd]. rewrite Hev. cbn [app].
  change ((byte_ascii (blen name) :: (name ++ ty :: tail) ++ rest) !! 0%nat)
    with (Some (byte_ascii (blen name))). cbn [mbind option_bind].
  rewrite byte_of_byte_ascii by lia. unfold blen in *. rewrite Nat2Z.id, <- app_assoc. cbn [app].
  set (whole := byte_ascii (Z.of_nat (length name)) :: name ++ ty :: tail ++ rest).
  assert (Hlw : length whole = (2 + length name + length tail + length rest)%nat).
  { unfold whole. cbn. rewrite length_app. cbn. rewrite length_app. lia. }
  rewrite (proj2 (Nat.eqb_neq _ _)), (proj2 (Nat.ltb_ge _ _)) by lia. cbn [orb].
  rewrite slice_Some by lia. cbn [mbind option_bind].
  assert (Hname : take (1 + length name - 1) (drop 1 whole) = name).
  { replace (1 + length name - 1)%nat with (length name) by lia.
    change (drop 1 whole) with (name ++ ty :: tail ++ rest). apply take_app_length. }
  rewrite Hname. unfold from_utf8 at 1. rewrite Hutf.
  assert (Hty : whole !! (1 + length name)%nat = Some ty).
  { change (whole !! (1 + length name)%nat) with ((name ++ ty :: tail ++ rest) !! (length name)).
    by rewrite lookup_app_r, Nat.sub_diag by lia. }
  rewrite Hty. cbn [mbind option_bind].
  assert (Hsplit : whole = (byte_ascii (Z.of_nat (length name)) :: name ++ [ty]) ++ (tail ++ rest)).
  { unfold whole. cbn [app]. by rewrite <- app_assoc. }
  rewrite Hsplit.
  replace (S (1 + length name)) with
    (length (byte_ascii (Z.of_nat (length name)) :: name ++ [ty]) + 0)%nat
    by (cbn; rewrite length_app; cbn; lia).
  rewrite read_header_value_shift, Hrd. cbn. f_equal. f_equal. f_equal.
  rewrite !length_app. cbn. lia.
Qed.

Lemma encode_header_length (h : bytes * header_value) : (2 <= length (encode_header h))%nat.
Proof. unfold encode_header. cbn. rewrite length_app. destruct h.2; cbn; lia. Qed.

Lemma decode_headers_encoded (hs : list (bytes * header_value)) (pre : bytes) (fuel : nat)
    (acc : gmap string string) :
  Forall header_valid hs -> (length hs <= fuel)%nat ->
  decode_headers_from fuel (pre ++ concat (map encode_header hs)) (length pre) acc
  = Some (headers_meaning acc hs).
Proof.
  revert pre fuel acc. induction hs as [|h hs IH]; intros pre fuel acc Hval Hfuel; cbn [map concat].
  { rewrite app_nil_r. destruct fuel; cbn; by rewrite (proj2 (Nat.leb_le _ _)) by lia. }
  apply Forall_cons in Hval as [Hh Hval]. pose proof (encode_header_length h).
  destruct fuel as [|fuel]; [cbn in Hfuel; lia|]. cbn [decode_headers_from].
  rewrite (proj2 (Nat.leb_gt _ _)) by (rewrite !length_app; lia).
  rewrite <- (Nat.add_0_r (length pre)), read_header_shift, (read_header_encoded h) by done.
  cbn [fst snd headers_meaning].
  destruct (add_header acc _ _) as [acc'|e]; [|done].
  rewrite app_assoc, <- length_app. apply IH; [done|]. cbn in Hfuel. lia.
Qed.

Lemma decode_bedrock_headers_encoded (hs : list (bytes * header_value)) :
  Forall header_valid hs ->
  decode_bedrock_headers (concat (map encode_header hs)) = Some (headers_meaning ∅ hs).
Proof.
  intros Hval. unfold decode_bedrock_headers.
  apply (decode_headers_encoded hs []); [done|].
  clear. induction hs as [|h hs IH]; cbn; [lia|].
  rewrite length_app. pose proof (encode_header_length h). lia.
Qed.

Section FrameRoundTrip.
Context (crc32 : bytes -> Z) `{J : JsonLib} (base64_decode : string -> option bytes).

(** The frame with header block [eh] and payload [p]. *)
Definition frame_prelude (eh p : bytes) : bytes :=
  be32 (16 + blen eh + blen p) ++ be32 (blen eh).
Definition frame_message (eh p : bytes) : bytes :=
  frame_prelude eh p ++ be32 (crc32 (frame_prelude eh p)) ++ eh ++ p.
Definition encode_frame (hs : list (bytes * header_value)) (p : bytes) : bytes :=
  let m := frame_message (concat (map encode_header hs)) p in m ++ be32 (crc32 m).

Lemma slice_app_mid (a b c : bytes) (i j : nat) :
  i = length a -> j = (length a + length b)%nat -> slice (a ++ b ++ c) i j = Some b.
Proof.
  intros -> ->. rewrite slice_Some by (rewrite ?length_app; lia).
  rewrite drop_app_length. replace (length a + length b - length a)%nat with (length b) by lia.
  by rewrite take_app_length.
Qed.

Lemma slice_prefix (b c : bytes) (j : nat) : j = length b -> slice (b ++ c) 0 j = Some b.
Proof. intros ->. by apply (slice_app_mid [] b c). Qed.

Lemma frame_message_length (eh p : bytes) :
  length (frame_message eh p) = (12 + length eh + length p)%nat.
Proof. unfold frame_message, frame_prelude. rewrite !length_app. cbn. lia. Qed.

(** The fields of an encoded frame, by position. *)
Lemma frame_prelude_fields (eh p rest : bytes) :
  let f := frame_message eh p ++ rest in
  slice f 0 4 = Some (be32 (16 + blen eh + blen p)) /\
  slice f 4 8 = Some (be32 (blen eh)) /\
  slice f 8 12 = Some (be32 (crc32 (frame_prelude eh p))) /\
  slice f 0 8 = Some (frame_prelude eh p).
Proof.
  unfold frame_message. cbn zeta. rewrite <- !app_assoc.
  split_and!; [| |by apply slice_app_mid|by apply slice_prefix].
  - unfold frame_prelude at 1. rewrite <- !app_assoc. by apply slice_prefix.
  - unfold frame_prelude at 1. rewrite <- !app_assoc. by apply slice_app_mid.
Qed.

Lemma frame_body_fields (eh p : bytes) :
  let m := frame_message eh p in
  let f := m ++ be32 (crc32 m) in
  slice f 12 (12 + length eh) = Some eh /\
  slice f (12 + length eh) (12 + length eh + length p) = Some p /\
  slice f 0 (12 + length eh + length p) = Some m /\
  slice f (12 + length eh + length p) (12 + length eh + length p + 4) = Some (be32 (crc32 m)).
Proof.
  cbn zeta. pose proof (frame_message_length eh p) as Hl.
  set (sum := be32 (crc32 (frame_message eh p))).
  split_and!; [| |by apply slice_prefix|].
  - unfold frame_message. rewrite <- !app_assoc, (app_assoc (frame_prelude eh p)).
    apply slice_app_mid; by rewrite length_app.
  - unfold frame_message. rewrite <- !app_assoc, (app_assoc (frame_prelude eh p)), (app_assoc _ eh).
    apply slice_app_mid; rewrite !length_app; cbn; lia.
  - rewrite <- (app_nil_r sum) at 1. apply slice_app_mid; by rewrite Hl.
Qed.

(** C29.  Round trip of the wire format: a frame built by the event-stream
    encoding (big-endian lengths, prelude checksum, typed headers, payload, message
    checksum) with valid headers and within the size limits is decoded without a
    panic, and the result is exactly what its headers and payload mean: no length,
    checksum or header check rejects it and no byte is misread. *)
Theorem encoded_frame_decodes (hs : list (bytes * header_value)) (p : bytes) :
  (forall l, 0 <= crc32 l <= U32_MAX) ->
  Forall header_valid hs ->
  blen (concat (map encode_header hs)) <= BEDROCK_MAX_HEADERS_BYTES ->
  blen p <= BEDROCK_MAX_PAYLOAD_BYTES ->
  decode_bedrock_frame crc32 base64_decode (encode_frame hs p)
  = Some (let? headers := headers_meaning ∅ hs in decode_message base64_decode headers p).
Proof.
  intros Hcrc Hval Hh Hp. unfold encode_frame.
  pose proof (decode_bedrock_headers_encoded hs Hval) as Hdec. revert Hh Hdec.
  generalize (concat (map encode_header hs)) as eh. intros eh Hh Hdec.
  assert (Hb : forall l, 0 <= blen l) by (intros; unfold blen; lia).
  pose proof (Hb eh). pose proof (Hb p). unfold BEDROCK_MAX_HEADERS_BYTES, BEDROCK_MAX_PAYLOAD_BYTES in *.
  assert (Hc : forall l, from_be_bytes (be32 (crc32 l)) = crc32 l)
    by (intros l; apply from_be32; specialize (Hcrc l); unfold U32_MAX in Hcrc; lia).
  destruct (frame_prelude_fields eh p (be32 (crc32 (frame_message eh p)))) as (Hs1 & Hs2 & Hs3 & Hs4).
  destruct (frame_body_fields eh p) as (Hs5 & Hs6 & Hs7 & Hs8).
  pose proof (frame_message_length eh p) as Hlm. cbn zeta in *.
  revert Hs1 Hs2 Hs3 Hs4 Hs5 Hs6 Hs7 Hs8 Hlm. generalize (frame_message eh p) as m. intros m. intros.
  assert (Hlen : blen (m ++ be32 (crc32 m)) = 16 + blen eh + blen p)
    by (unfold blen; rewrite length_app, Hlm; cbn; lia).
  unfold decode_bedrock_frame. rewrite (proj2 (Nat.ltb_ge _ _)) by (rewrite length_app; cbn; lia).
  rewrite Hlen, length_app, Hlm, Hs1, Hs2. cbn [mbind option_bind].
  rewrite !from_be32, Z.eqb_refl by lia.
  replace (saturating_sub _ _) with (blen eh + blen p) by (unfold saturating_sub; lia).
  rewrite !(proj2 (Z.ltb_ge _ _)) by (unfold BEDROCK_MAX_FRAME_BYTES,
    BEDROCK_MAX_HEADERS_BYTES, BEDROCK_MAX_PAYLOAD_BYTES; lia). cbn [negb orb].
  replace (Z.to_nat (16 + blen eh + blen p) - 4)%nat with (12 + length eh + length p)%nat
    by (unfold blen; lia).
  replace (12 + Z.to_nat (blen eh))%nat with (12 + length eh)%nat by (unfold blen; lia).
  change (length (be32 _)) with 4%nat.
  rewrite Hs3, Hs8, Hs4, Hs7. cbn [mbind option_bind]. rewrite !Hc, !Z.eqb_refl. cbn [negb orb].
  rewrite Hs5. cbn [mbind option_bind]. rewrite Hdec. destruct (headers_meaning ∅ hs); [|done].
  by rewrite Hs6.
Qed.
End FrameRoundTrip.

(** ** Exception names are reduced to snake case *)

Definition is_snake (c : ascii) : bool :=
  is_ascii_lowercase c || is_ascii_digit c || (c =? "_")%char.

Lemma trim_start_matches_all (p : ascii -> bool) (c : ascii) (s : string) :
  string_all p s = true -> string_all p (trim_start_matches c s) = true.
Proof.
  induction s as [|d s IH]; [done|]. cbn. intros [Hd Hs]%andb_true_iff.
  destruct (d =? c)%char; [by apply IH|]. cbn. by rewrite Hd.
Qed.

Lemma trim_start_matches_head (c : ascii) (s : string) :
  starts_with (String c "") (trim_start_matches c s) = false.
Proof.
  induction s as [|d s IH]; [done|]. cbn. destruct (Ascii.eqb_spec d c) as [->|Hne]; [done|].
  apply not_true_iff_false. rewrite starts_with_true. intros [r Hr].
  rewrite string_app_cons in Hr. by injection Hr as -> _.
Qed.

(** Trimming the end keeps a prefix. *)
Lemma trim_end_matches_prefix (c : ascii) (s : string) :
  exists r, s = trim_end_matches c s +:+ r.
Proof.
  unfold trim_end_matches.
  assert (H : forall t, exists r, t = r +:+ trim_start_matches c t).
  { induction t as [|d t [r IH]]; [by exists ""|]. cbn. destruct (d =? c)%char; [|by exists ""].
    exists (String d r). by rewrite string_app_cons, <- IH. }
  destruct (H (string_rev s)) as [r Hr]. exists (string_rev r).
  rewrite <- (string_rev_involutive s) at 1. by rewrite Hr at 1; rewrite string_rev_app.
Qed.

Lemma to_lower_snake (c : ascii) :
  is_ascii_alphanumeric c = true -> is_snake (to_ascii_lowercase_char c) = true.
Proof. destruct c as [[] [] [] [] [] [] [] []]; vm_compute; done. Qed.

Lemma normalize_step_snake (st : string * bool) (c : ascii) :
  string_all is_snake st.1 = true -> string_all is_snake (normalize_step st c).1 = true.
Proof.
  destruct st as [s b]. cbn [fst]. intros H. unfold normalize_step.
  destruct (is_ascii_uppercase c) eqn:Hu.
  { assert (Ha : is_ascii_alphanumeric c = true)
      by (unfold is_ascii_alphanumeric; by rewrite Hu, orb_true_r).
    destruct (_ && _); cbn [fst]; rewrite !string_all_app, H; cbn; by rewrite to_lower_snake. }
  destruct (is_ascii_alphanumeric c) eqn:Ha; cbn [fst].
  { rewrite string_all_app, H. cbn. by rewrite to_lower_snake. }
  destruct (_ && _); [by rewrite string_all_app, H|done].
Qed.

(** Whatever exception name the provider sends, the name shown to the client
    contains only lower-case ASCII letters, digits and underscores and neither
    starts nor ends with an underscore: no provider-controlled byte can end the
    event's line or break out of its JSON string. *)
Lemma exception_name_is_snake_case (value : string) :
  let name := normalize_bedrock_exception_type value in
  string_all is_snake name = true /\ starts_with "_" name = false /\ ends_with "_" name = false.
Proof.
  unfold normalize_bedrock_exception_type. cbn zeta.
  assert (Hinv : string_all is_snake
    (fold_left normalize_step (list_ascii_of_string value) ("", false)).1 = true).
  { assert (Hg : forall l st, string_all is_snake st.1 = true ->
      string_all is_snake (fold_left normalize_step l st).1 = true).
    { induction l as [|c l IH]; intros st Hst; [done|]. cbn. by apply IH, normalize_step_snake. }
    by apply Hg. }
  destruct (fold_left _ _ _) as [s b]. cbn [fst] in Hinv.
  set (t := trim_start_matches "_" s). split_and!.
  - unfold trim_end_matches. rewrite string_all_rev. apply trim_start_matches_all.
    rewrite string_all_rev. by apply trim_start_matches_all.
  - destruct (trim_end_matches_prefix "_" t) as [r Hr].
    pose proof (trim_start_matches_head "_" s) as Hh. fold t in Hh.
    apply not_true_iff_false. apply not_true_iff_false in Hh. contradict Hh.
    rewrite starts_with_true in *. destruct Hh as [q Hq]. exists (q +:+ r).
    by rewrite Hr, Hq, string_app_assoc.
  - apply not_true_iff_false. rewrite ends_with_true. intros [r Hr].
    pose proof (trim_start_matches_head "_" (string_rev t)) as Hh.
    apply not_true_iff_false in Hh. apply Hh. rewrite starts_with_true. exists (string_rev r).
    unfold trim_end_matches in Hr.
    by rewrite <- (string_rev_involutive (trim_start_matches _ _)), Hr, string_rev_app.
Qed.

(** ** Concrete frames

    CRC-32 (IEEE 802.3, reflected), which the crc32fast crate computes. *)
Definition crc32_bit (c : Z) : Z :=
  if Z.odd c then Z.lxor (Z.shiftr c 1) 3988292384 else Z.shiftr c 1.
Definition crc32_ieee (l : bytes) : Z :=
  Z.lxor (fold_left (fun crc b => Nat.iter 8 crc32_bit (Z.lxor crc (byte_of b))) l U32_MAX)
    U32_MAX mod (U32_MAX + 1).

Example crc32_check : crc32_ieee (list_ascii_of_string "123456789") = 3421780262.
Proof. vm_compute. reflexivity. Qed.

Section Witnesses.
#[local] Existing Instance simple_json_lib.

Definition text (s : string) : bytes := list_ascii_of_string s.

Definition exception_headers : list (bytes * header_value) :=
  [(text ":message-type", HvString (text "exception"));
   (text "trace", HvFixed 9 (text "0123456789abcdef"));
   (text ":exception-type", HvString (text "ThrottlingException"))].

Definition exception_frame : bytes := encode_frame crc32_ieee exception_headers (text "{}").

Definition exception_event : string :=
  sse "error" (json_print (VObject
    [("error", VObject
        [("message", VString "Amazon Bedrock stream ended with bedrock_throttling_exception");
         ("type", VString "bedrock_throttling_exception")]);
     ("type", VString "error")])).

Lemma exception_frame_decodes :
  decode_bedrock_frame crc32_ieee (fun _ => None) exception_frame = Some (Ok exception_event).
Proof. vm_compute. reflexivity. Qed.

Lemma chunking_irrelevant_witness :
  translate_bedrock_eventstream crc32_ieee (fun _ => None)
    (map Chunk [take 10 exception_frame; drop 10 exception_frame] ++ [])
  = translate_bedrock_eventstream crc32_ieee (fun _ => None) (map Chunk [exception_frame] ++ []).
Proof. apply chunking_irrelevant. vm_compute. reflexivity. Defined.

Lemma accepted_frame_integrity_witness :
  16 <= blen exception_frame <= BEDROCK_MAX_FRAME_BYTES.
Proof.
  apply (accepted_frame_integrity crc32_ieee (fun _ => None) exception_frame exception_event).
  exact exception_frame_decodes.
Defined.

Lemma encoded_frame_decodes_witness :
  decode_bedrock_frame crc32_ieee (fun _ => None) exception_frame = Some (Ok exception_event).
Proof.
  unfold exception_frame. rewrite encoded_frame_decodes.
  - vm_compute. reflexivity.
  - intros l. unfold crc32_ieee.
    pose proof (Z.mod_pos_bound (Z.lxor (fold_left (fun crc b => Nat.iter 8 crc32_bit
      (Z.lxor crc (byte_of b))) l U32_MAX) U32_MAX) (U32_MAX + 1)). unfold U32_MAX in *. lia.
  - repeat constructor; vm_compute; done.
  - vm_compute. done.
  - vm_compute. done.
Defined.
End Witnesses.
