(* ===== verification/Secrets.v ===== *)
(** * Secrets at rest and password hashes (src/src/secrets.rs)

    The ciphertext envelope [v1.<nonce>.<ciphertext>], master keys and password
    hashes.  Base64, XChaCha20-Poly1305, Argon2 and the hash functions are the
    operations of the class [CryptoLib]; random bytes are arguments.  Byte strings
    are [string]s. *)
From S2P Require Import Prelude.

Class CryptoLib := {
  b64_url_encode : string -> string;                    (* URL_SAFE_NO_PAD.encode *)
  b64_url_decode : string -> option string;             (* URL_SAFE_NO_PAD.decode(..).ok() *)
  b64_std_decode : string -> option string;             (* STANDARD.decode(..).ok() *)
  (* key, nonce, associated data, message *)
  aead_encrypt : string -> string -> string -> string -> option string;
  aead_decrypt : string -> string -> string -> string -> option string;
  argon2_hash : string -> string -> option string;      (* salt, password *)
  argon2_parses : string -> bool;                       (* PasswordHash::new(..).is_ok() *)
  argon2_verify : string -> string -> bool;             (* hash, password *)
  sha256 : string -> string;
  hmac_sha256 : string -> string -> string              (* key, message *)
}.

(** Documented behaviour of the codecs and of the cipher. *)
Class CryptoLaws (L : CryptoLib) : Prop := {
  b64_url_roundtrip : forall s, b64_url_decode (b64_url_encode s) = Some s;
  b64_url_no_dot : forall s, contains_char "." (b64_url_encode s) = false;
  aead_roundtrip : forall key nonce aad msg c,
    aead_encrypt key nonce aad msg = Some c -> aead_decrypt key nonce aad c = Some msg
}.

(** The integrity a cipher with associated data promises, for one box: what it
    encrypted under one [aad] is refused under another. *)
Definition aad_binding `{CryptoLib} (key : string) : Prop :=
  forall nonce aad aad' msg c,
    aead_encrypt key nonce aad msg = Some c -> aad <> aad' -> aead_decrypt key nonce aad' c = None.

Inductive SecretError :=
| InvalidMasterKey | InvalidCiphertext | AuthenticationFailed | PasswordHashFailed.

#[global] Instance SecretError_eq_dec : EqDecision SecretError.
Proof. solve_decision. Defined.

Record SecretBox := { box_key : string }.

(** [EncryptedSecret] and [AdminPasswordHash] wrap their storage text. *)
Abbreviation EncryptedSecret := string (only parsing).
Abbreviation AdminPasswordHash := string (only parsing).

Section Secrets.
Context `{L : CryptoLib}.

Definition encrypt (box : SecretBox) (nonce plaintext associated_data : string) :
    result EncryptedSecret SecretError :=
  let? ciphertext := ok_or (aead_encrypt (box_key box) nonce associated_data plaintext)
                       AuthenticationFailed in
  Ok ("v1." +:+ b64_url_encode nonce +:+ "." +:+ b64_url_encode ciphertext).

(** [String::from_utf8]. *)
Definition string_from_utf8 (s : string) : option string := from_utf8 (list_ascii_of_string s).

(** The calls of [parts.next()] in order, each error where the code returns it. *)
Definition decrypt (box : SecretBox) (ciphertext : EncryptedSecret) (associated_data : string) :
    result string SecretError :=
  let parts := split "." ciphertext in
  if negb (bool_decide (parts !! 0%nat = Some "v1")) then Err InvalidCiphertext
  else
    let? nonce_text := ok_or (parts !! 1%nat) InvalidCiphertext in
    let? nonce := ok_or (b64_url_decode nonce_text) InvalidCiphertext in
    let? encrypted_text := ok_or (parts !! 2%nat) InvalidCiphertext in
    let? encrypted := ok_or (b64_url_decode encrypted_text) InvalidCiphertext in
    if bool_decide (is_Some (parts !! 3%nat)) || negb (String.length nonce =? 24)%nat
    then Err InvalidCiphertext
    else
      let? plaintext := ok_or (aead_decrypt (box_key box) nonce associated_data encrypted)
                          AuthenticationFailed in
      ok_or (string_from_utf8 plaintext) InvalidCiphertext.

Definition parse_master_key (encoded : string) : result string SecretError :=
  let? decoded := ok_or (option_or (b64_std_decode (trim encoded)) (b64_url_decode (trim encoded)))
                    InvalidMasterKey in
  if (String.length decoded =? 32)%nat then Ok decoded else Err InvalidMasterKey.

Definition from_base64 (encoded : string) : result SecretBox SecretError :=
  let? key := parse_master_key encoded in
  Ok {| box_key := key |}.

Definition password_hash_create (salt password : string) : result AdminPasswordHash SecretError :=
  ok_or (argon2_hash salt password) PasswordHashFailed.

Definition password_hash_verify (h : AdminPasswordHash) (password : string) : bool :=
  if argon2_parses h then argon2_verify h password else false.

(** ** The envelope *)

#[local] Arguments Nat.eqb : simpl never.

Lemma split_no_char (c : ascii) (s : string) : contains_char c s = false -> split c s = [s].
Proof.
  induction s as [|d s IH]; [done|]. cbn. intros [Hd Hs]%orb_false_iff. rewrite IH by done.
  by rewrite Ascii.eqb_sym, Hd.
Qed.

Lemma split_app_char (c : ascii) (a b : string) :
  contains_char c a = false -> split c (a +:+ String c b) = a :: split c b.
Proof.
  induction a as [|d a IH]; cbn.
  { intros _. rewrite string_app_nil_l. cbn. by rewrite Ascii.eqb_refl. }
  intros [Hd Ha]%orb_false_iff. rewrite string_app_cons. cbn. rewrite IH by done.
  by rewrite Ascii.eqb_sym, Hd.
Qed.

Lemma envelope_parts `{!CryptoLaws L} (nonce c : string) :
  split "." ("v1." +:+ b64_url_encode nonce +:+ "." +:+ b64_url_encode c)
  = ["v1"; b64_url_encode nonce; b64_url_encode c].
Proof.
  change ("v1." +:+ ?x) with ("v1" +:+ String "." x). rewrite split_app_char by done.
  change ("." +:+ ?x) with (String "." x). rewrite split_app_char by apply b64_url_no_dot.
  by rewrite split_no_char by apply b64_url_no_dot.
Qed.

Lemma decrypt_envelope `{!CryptoLaws L} (box : SecretBox) (nonce c aad : string) :
  String.length nonce = 24%nat ->
  decrypt box ("v1." +:+ b64_url_encode nonce +:+ "." +:+ b64_url_encode c) aad
  = let? plaintext := ok_or (aead_decrypt (box_key box) nonce aad c) AuthenticationFailed in
    ok_or (string_from_utf8 plaintext) InvalidCiphertext.
Proof.
  intros Hn. unfold decrypt. rewrite envelope_parts. cbn. rewrite !b64_url_roundtrip. cbn.
  by rewrite Hn.
Qed.

Lemma encrypt_decrypt `{!CryptoLaws L} (box : SecretBox) (nonce plaintext aad stored : string) :
  String.length nonce = 24%nat -> utf8_valid (list_ascii_of_string plaintext) = true ->
  encrypt box nonce plaintext aad = Ok stored -> decrypt box stored aad = Ok plaintext.
Proof.
  intros Hn Hutf8. unfold encrypt.
  destruct (aead_encrypt _ _ _ _) as [c|] eqn:Henc; [|done]. intros [= <-].
  rewrite decrypt_envelope by done. erewrite aead_roundtrip by done. cbn.
  unfold string_from_utf8, from_utf8. by rewrite Hutf8, string_of_list_ascii_of_string.
Qed.

(** A ciphertext is never empty. *)
Lemma encrypt_nonempty (box : SecretBox) (nonce plaintext aad stored : string) :
  encrypt box nonce plaintext aad = Ok stored -> string_is_empty stored = false.
Proof. unfold encrypt. destruct (aead_encrypt _ _ _ _); [|done]. by intros [= <-]. Qed.

(** C26.  A secret written under a context (the associated data, such as the
    account and version it belongs to) is read back exactly under that context, and
    is refused as unauthentic under every other one: a stored ciphertext cannot be
    moved to another account's row. *)
Theorem secret_roundtrip_and_binding `{!CryptoLaws L} (box : SecretBox)
    (nonce plaintext aad stored : string)
    (Hnonce : String.length nonce = 24%nat)
    (Hutf8 : utf8_valid (list_ascii_of_string plaintext) = true)
    (Hstored : encrypt box nonce plaintext aad = Ok stored) :
  decrypt box stored aad = Ok plaintext /\
  (aad_binding (box_key box) ->
   forall aad', aad' <> aad -> decrypt box stored aad' = Err AuthenticationFailed).
Proof.
  split; [by eapply encrypt_decrypt|]. intros Hbind aad' Hne. unfold encrypt in Hstored.
  destruct (aead_encrypt _ _ _ _) as [c|] eqn:Henc; [|done]. injection Hstored as <-.
  rewrite decrypt_envelope by done. by rewrite (Hbind _ _ _ _ _ Henc) by done.
Qed.

(** Whatever [decrypt] accepts has exactly three parts and a 24-byte nonce. *)
Lemma decrypt_Ok_format (box : SecretBox) (stored aad plaintext : string) :
  decrypt box stored aad = Ok plaintext ->
  exists n c nonce, split "." stored = ["v1"; n; c] /\ b64_url_decode n = Some nonce /\
    String.length nonce = 24%nat.
Proof.
  unfold decrypt. destruct (split "." stored) as [|v [|n [|c [|x rest]]]]; cbn;
    try (case_bool_decide; done).
  - case_bool_decide as Hv; [|done]. cbn. by destruct (b64_url_decode n).
  - case_bool_decide as Hv; [|done]. cbn. injection Hv as ->.
    destruct (b64_url_decode n) as [nonce|] eqn:Hn; [|done].
    destruct (b64_url_decode c); [|done].
    cbn.
    destruct (Nat.eqb_spec (String.length nonce) 24); [|done]. intros _. by eauto 8.
  - case_bool_decide as Hv; [|done]. cbn. destruct (b64_url_decode n) as [nonce|]; [|done].
    by destruct (b64_url_decode c).
Qed.
End Secrets.

(** ** A concrete library for examples

    Hexadecimal text as the codec, and a "cipher" that stores the key, nonce and
    associated data next to the message; enough to evaluate the definitions. *)
Definition from_hex_digit (c : ascii) : Z :=
  if is_ascii_digit c then byte_of c - 48 else byte_of c - 87.
Fixpoint from_hex (s : string) : option string :=
  match s with
  | "" => Some ""
  | String a (String b rest) =>
      String (ascii_of_N (Z.to_N (16 * from_hex_digit a + from_hex_digit b))) <$> from_hex rest
  | String _ "" => None
  end.

Definition seal (key nonce aad msg : string) : string :=
  hex key +:+ "," +:+ hex nonce +:+ "," +:+ hex aad +:+ "," +:+ msg.

#[local] Instance simple_crypto_lib : CryptoLib := {|
  b64_url_encode := hex;
  b64_url_decode := from_hex;
  b64_std_decode := from_hex;
  aead_encrypt := fun key nonce aad msg => Some (seal key nonce aad msg);
  aead_decrypt := fun key nonce aad c => strip_prefix (seal key nonce aad "") c;
  argon2_hash := fun salt password => Some (salt +:+ "$" +:+ password);
  argon2_parses := contains_char "$";
  argon2_verify := fun h password =>
    is_some_and (split_once "$" h) (fun sp => bool_decide (sp.2 = password));
  sha256 := fun s => s;
  hmac_sha256 := fun key s => hex key +:+ "," +:+ s
|}.

Lemma hex_byte_roundtrip (c : ascii) (rest : string) :
  from_hex (hex_byte 97 c +:+ rest) = String c <$> from_hex rest.
Proof.
  assert (H : forall a b, hex_byte 97 c = String a (String b "") ->
    ascii_of_N (Z.to_N (16 * from_hex_digit a + from_hex_digit b)) = c).
  { destruct c as [[] [] [] [] [] [] [] []]; intros a b [= <- <-]; vm_compute; done. }
  unfold hex_byte in *. rewrite !string_app_cons, string_app_nil_l. cbn [from_hex].
  by rewrite (H _ _ eq_refl).
Qed.

Lemma hex_roundtrip (s : string) : from_hex (hex s) = Some s.
Proof. induction s as [|c s IH]; [done|]. cbn [hex]. by rewrite hex_byte_roundtrip, IH. Qed.

Lemma hex_free (c : ascii) (s : string) : is_lower_hex c = false -> contains_char c (hex s) = false.
Proof.
  intros Hc. pose proof (hex_lower s) as H. induction (hex s) as [|d t IH]; [done|]. cbn in *.
  apply andb_true_iff in H as [Hd Ht]. rewrite (IH Ht), orb_false_r.
  apply Ascii.eqb_neq. intros ->. by rewrite Hd in Hc.
Qed.

#[local] Instance simple_crypto_laws : CryptoLaws simple_crypto_lib.
Proof.
  split.
  - exact hex_roundtrip.
  - intros s. by apply hex_free.
  - intros key nonce aad msg c [= <-]. cbn. apply strip_prefix_Some. unfold seal.
    by rewrite !string_app_assoc, string_app_nil_l.
Qed.

Lemma split_once_app (c : ascii) (a b : string) :
  contains_char c a = false -> split_once c (a +:+ String c b) = Some (a, b).
Proof.
  induction a as [|d a IH]; cbn.
  { intros _. rewrite string_app_nil_l. cbn. by rewrite Ascii.eqb_refl. }
  intros [Hd Ha]%orb_false_iff. rewrite string_app_cons. cbn. rewrite IH by done.
  by rewrite Ascii.eqb_sym, Hd.
Qed.

Lemma seal_binding (key : string) : aad_binding key.
Proof.
  intros nonce aad aad' msg c [= <-] Hne. cbn.
  destruct (strip_prefix _ _) as [r|] eqn:H; [|done]. exfalso. apply Hne.
  apply strip_prefix_Some in H. unfold seal in H. rewrite !string_app_assoc in H.
  assert (Hinj : forall p s t, p +:+ s = p +:+ t -> s = t).
  { induction p as [|x p IH]; intros s t; [done|]. rewrite !string_app_cons. intros [= E]. by apply IH. }
  assert (Hfin : hex aad +:+ String "," msg = hex aad' +:+ String "," r) by (by do 4 apply Hinj in H).
  apply (f_equal (split_once ",")) in Hfin. rewrite !split_once_app in Hfin by (by apply hex_free).
  injection Hfin as Hhex _. apply (f_equal from_hex) in Hhex. rewrite !hex_roundtrip in Hhex. by injection Hhex.
Qed.

Section Witnesses.
#[local] Existing Instance simple_crypto_lib.

Lemma secret_roundtrip_and_binding_witness :
  exists stored, encrypt {| box_key := "k" |} "012345678901234567890123" "sk-secret" "account/a" = Ok stored /\
    decrypt {| box_key := "k" |} stored "account/a" = Ok "sk-secret" /\
    decrypt {| box_key := "k" |} stored "account/b" = Err AuthenticationFailed.
Proof.
  eexists. split; [reflexivity|].
  split; eapply (secret_roundtrip_and_binding {| box_key := "k" |} "012345678901234567890123");
    try reflexivity; try done. apply seal_binding.
Defined.
End Witnesses.
