(* ===== verification/Admin.v ===== *)
(** * Administrator sessions (src/src/admin.rs)

    Password login with per-client lockout, cookie sessions with idle and absolute
    timeouts, and CSRF tokens.  Random tokens are arguments of the operations that
    draw them; the two critical sections of [issue_csrf] are separate operations, so
    that a trace can interleave other requests between them. *)
From S2P Require Import Prelude Secrets.

Definition ADMIN_SESSION_COOKIE : string := "llmap_admin_session".

Record SessionPolicy := {
  idle_timeout : Duration;
  absolute_timeout : Duration;
  max_failed_attempts : Z;          (* u8 *)
  lockout_duration : Duration
}.

Definition default_policy : SessionPolicy :=
  {| idle_timeout := minutes 30; absolute_timeout := hours 12;
     max_failed_attempts := 5; lockout_duration := minutes 15 |}.

Record SessionGrant := {
  grant_token : string;
  grant_csrf_token : string;
  grant_expires_at : DateTime;
  max_age_seconds : Z
}.

Definition grant_cookie (g : SessionGrant) (secure : bool) : string :=
  ADMIN_SESSION_COOKIE +:+ "=" +:+ grant_token g +:+ "; Path=/admin; Max-Age="
  +:+ pretty (max_age_seconds g) +:+ "; HttpOnly; SameSite=Strict"
  +:+ (if secure then "; Secure" else "").

Inductive AdminAuthError := InvalidCredentials | RateLimited | InvalidSession | InvalidCsrf.

Record LoginAttempt := { failures : Z; locked_until : option DateTime }.

Record Session := {
  created_at : DateTime;
  last_seen_at : DateTime;
  csrf_digest : string
}.

Record SessionState := {
  attempts : gmap string LoginAttempt;
  sessions : gmap string Session
}.

Record AdminSessionManager := {
  mgr_username : string;
  mgr_password_hash : AdminPasswordHash;
  mgr_digest_key : string;
  mgr_policy : SessionPolicy
}.

Definition initial_state : SessionState := {| attempts := ∅; sessions := ∅ |}.

(** Updates of one field. *)
Definition with_sessions (st : SessionState) (s : gmap string Session) : SessionState :=
  {| attempts := attempts st; sessions := s |}.
Definition with_attempts (st : SessionState) (a : gmap string LoginAttempt) : SessionState :=
  {| attempts := a; sessions := sessions st |}.

Section Admin.
Context `{L : CryptoLib} (m : AdminSessionManager).

Abbreviation policy := (mgr_policy m).

Definition session_digest (value : string) : string := hmac_sha256 (mgr_digest_key m) value.

Definition constant_time_text_eq (left right : string) : bool :=
  bool_decide (sha256 left = sha256 right).

(** The predicate of the two [retain] calls. *)
Definition session_live (now : DateTime) (s : Session) : bool :=
  (now <? created_at s + absolute_timeout policy)
  && (now <=? last_seen_at s + idle_timeout policy).

Definition retain_live (now : DateTime) (s : gmap string Session) : gmap string Session :=
  filter (fun kv => session_live now kv.2 = true) s.

Definition credentials_match (username password : string) : bool :=
  constant_time_text_eq username (mgr_username m)
  && password_hash_verify (mgr_password_hash m) password.

(** [token] and [csrf_token] are what the two calls of [random_token] return. *)
Definition login (st : SessionState) (username password client_key : string) (now : DateTime)
    (token csrf_token : string) : result SessionGrant AdminAuthError * SessionState :=
  let st := with_sessions st (retain_live now (sessions st)) in
  let attempt := default {| failures := 0; locked_until := None |} (attempts st !! client_key) in
  let st := with_attempts st (<[client_key := attempt]> (attempts st)) in
  if is_some_and (locked_until attempt) (fun t => now <? t) then (Err RateLimited, st)
  else
    let attempt := if bool_decide (is_Some (locked_until attempt))
                   then {| failures := 0; locked_until := None |} else attempt in
    if negb (credentials_match username password) then
      let failed := saturating_add U8_MAX (failures attempt) 1 in
      let attempt := {| failures := failed;
                        locked_until := if max_failed_attempts policy <=? failed
                                        then Some (now + lockout_duration policy)
                                        else locked_until attempt |} in
      (Err InvalidCredentials, with_attempts st (<[client_key := attempt]> (attempts st)))
    else
      let st := with_attempts st (delete client_key (attempts st)) in
      let session := {| created_at := now; last_seen_at := now;
                        csrf_digest := session_digest csrf_token |} in
      (Ok {| grant_token := token; grant_csrf_token := csrf_token;
             grant_expires_at := now + absolute_timeout policy;
             max_age_seconds := Z.quot (absolute_timeout policy) (seconds 1) |},
       with_sessions st (<[session_digest token := session]> (sessions st))).

Definition authenticate (st : SessionState) (session_token : string) (csrf_token : option string)
    (require_csrf : bool) (now : DateTime) : result unit AdminAuthError * SessionState :=
  let token_digest := session_digest session_token in
  match sessions st !! token_digest with
  | None => (Err InvalidSession, st)
  | Some session =>
      if (created_at session + absolute_timeout policy <=? now)
         || (last_seen_at session + idle_timeout policy <? now)
      then (Err InvalidSession, with_sessions st (delete token_digest (sessions st)))
      else if require_csrf
              && negb (bool_decide (session_digest (default "" csrf_token) = csrf_digest session))
      then (Err InvalidCsrf, st)
      else (Ok tt, with_sessions st
              (<[token_digest := {| created_at := created_at session; last_seen_at := now;
                                    csrf_digest := csrf_digest session |}]> (sessions st)))
  end.

Definition logout (st : SessionState) (session_token : string) : SessionState :=
  with_sessions st (delete (session_digest session_token) (sessions st)).

(** The second critical section of [issue_csrf]. *)
Definition store_csrf (st : SessionState) (session_token csrf_token : string) :
    result string AdminAuthError * SessionState :=
  match sessions st !! session_digest session_token with
  | None => (Err InvalidSession, st)
  | Some session =>
      (Ok csrf_token, with_sessions st
         (<[session_digest session_token :=
              {| created_at := created_at session; last_seen_at := last_seen_at session;
                 csrf_digest := session_digest csrf_token |}]> (sessions st)))
  end.

Definition issue_csrf (st : SessionState) (session_token : string) (now : DateTime)
    (csrf_token : string) : result string AdminAuthError * SessionState :=
  match authenticate st session_token None false now with
  | (Err e, st) => (Err e, st)
  | (Ok _, st) => store_csrf st session_token csrf_token
  end.

Definition active_session_count (st : SessionState) (now : DateTime) : nat * SessionState :=
  let st := with_sessions st (retain_live now (sessions st)) in
  (size (sessions st), st).

(** ** Traces: the critical sections in the order the mutex serialises them *)

Inductive admin_op :=
| OpLogin (username password client_key : string) (now : DateTime) (token csrf_token : string)
| OpAuthenticate (token : string) (csrf : option string) (require_csrf : bool) (now : DateTime)
| OpLogout (token : string)
| OpStoreCsrf (token csrf_token : string)
| OpCount (now : DateTime).

Definition admin_step (st : SessionState) (op : admin_op) : SessionState :=
  match op with
  | OpLogin u p k now t c => (login st u p k now t c).2
  | OpAuthenticate t c r now => (authenticate st t c r now).2
  | OpLogout t => logout st t
  | OpStoreCsrf t c => (store_csrf st t c).2
  | OpCount now => (active_session_count st now).2
  end.

Definition admin_run (st : SessionState) (ops : list admin_op) : SessionState :=
  fold_left admin_step ops st.

Lemma admin_run_app (st : SessionState) (ops1 ops2 : list admin_op) :
  admin_run st (ops1 ++ ops2) = admin_run (admin_run st ops1) ops2.
Proof. apply fold_left_app. Qed.

(** ** Login and lockout *)

(** The three outcomes of a login. *)
Lemma login_locked st u p k now t c a until :
  attempts st !! k = Some a -> locked_until a = Some until -> now < until ->
  (login st u p k now t c).1 = Err RateLimited /\
  attempts (login st u p k now t c).2 !! k = Some a.
Proof.
  intros Ha Hl Hnow. unfold login. cbn. rewrite Ha. cbn. rewrite Hl. cbn.
  rewrite (proj2 (Z.ltb_lt _ _) Hnow). cbn. by rewrite lookup_insert_eq.
Qed.

Lemma login_attempts_other st u p k now t c k' :
  k' <> k -> attempts (login st u p k now t c).2 !! k' = attempts st !! k'.
Proof.
  intros Hne. unfold login. cbn.
  destruct (is_some_and _ _); [by cbn; rewrite lookup_insert_ne|].
  destruct (negb _); cbn; [by rewrite !lookup_insert_ne|].
  by rewrite lookup_delete_ne, lookup_insert_ne.
Qed.

(** Only logins touch the attempts. *)
Lemma other_ops_attempts st op :
  (forall u p k now t c, op <> OpLogin u p k now t c) ->
  attempts (admin_step st op) = attempts st.
Proof.
  destruct op; cbn; intros Hop; try done.
  - by destruct (Hop username password client_key now token csrf_token).
  - unfold authenticate. destruct (sessions st !! _); [|done].
    destruct (_ || _); [done|]. by destruct (_ && _).
  - unfold store_csrf. by destruct (sessions st !! _).
Qed.

(** The password checks a client gets: logins that are not refused up front. *)
Definition failed_login (st : SessionState) (client : string) (op : admin_op) : bool :=
  match op with
  | OpLogin u p k now t c =>
      bool_decide (k = client)
      && match (login st u p k now t c).1 with Err InvalidCredentials => true | _ => false end
  | _ => false
  end.

Fixpoint failed_logins (st : SessionState) (client : string) (ops : list admin_op) : nat :=
  match ops with
  | [] => O
  | op :: rest => ((if failed_login st client op then 1 else 0)
                   + failed_logins (admin_step st op) client rest)%nat
  end.

(** The client guesses: every login of its own in the window is with credentials
    that do not match, and falls in [start, start + lockout_duration). *)
Definition guessing (client : string) (start : DateTime) (op : admin_op) : Prop :=
  match op with
  | OpLogin u p k now _ _ =>
      k = client -> credentials_match u p = false /\ start <= now < start + lockout_duration policy
  | _ => True
  end.

(** The attempts record of a guessing client: unlocked with [n] failures, or locked
    for the rest of the window. *)
Definition attempt_is (start : DateTime) (a : LoginAttempt) (n : nat) : Prop :=
  (locked_until a = None /\ failures a = Z.of_nat n /\ Z.of_nat n < max_failed_attempts policy)
  \/ (exists until, locked_until a = Some until /\ start + lockout_duration policy <= until).

Lemma guess_step st client start u p now t c a n :
  1 <= max_failed_attempts policy <= U8_MAX ->
  default {| failures := 0; locked_until := None |} (attempts st !! client) = a ->
  attempt_is start a n -> credentials_match u p = false ->
  start <= now < start + lockout_duration policy ->
  exists a', attempts (login st u p client now t c).2 !! client = Some a' /\
    (((login st u p client now t c).1 = Err RateLimited /\ attempt_is start a' n) \/
     ((login st u p client now t c).1 = Err InvalidCredentials /\
      Z.of_nat n < max_failed_attempts policy /\ attempt_is start a' (S n) )).
Proof.
  intros Hmax Ha [(Hl & Hf & Hn)|(until & Hl & Hu)] Hbad Hnow; unfold login; cbn;
    rewrite Ha, Hl; cbn; [|rewrite (proj2 (Z.ltb_lt _ _)) by lia; cbn;
      rewrite lookup_insert_eq; eexists; split; [done|]; left; split; [done|]; right; by eauto].
  rewrite Hbad. cbn. rewrite lookup_insert_eq. eexists. split; [done|]. right.
  split; [done|]. split; [done|]. rewrite Hf, Hl.
  assert (Hsat : saturating_add U8_MAX (Z.of_nat n) 1 = Z.of_nat n + 1)
    by (unfold saturating_add; lia).
  rewrite Hsat. destruct (Z.leb_spec (max_failed_attempts policy) (Z.of_nat n + 1)).
  - right. cbn. eexists. split; [done|]. lia.
  - left. cbn. split_and!; [done|lia|lia].
Qed.

Lemma guessing_bounded st client start ops n :
  1 <= max_failed_attempts policy <= U8_MAX ->
  attempt_is start (default {| failures := 0; locked_until := None |} (attempts st !! client)) n ->
  Forall (guessing client start) ops ->
  Z.of_nat n <= max_failed_attempts policy ->
  Z.of_nat (n + failed_logins st client ops) <= max_failed_attempts policy.
Proof.
  intros Hmax. revert st n. induction ops as [|op ops IH]; intros st n Ha Hg Hn; cbn; [lia|].
  apply Forall_cons in Hg as [Hop Hg].
  assert (Hsame : attempts (admin_step st op) !! client = attempts st !! client ->
    failed_login st client op = false ->
    Z.of_nat (n + ((if failed_login st client op then 1 else 0)
                   + failed_logins (admin_step st op) client ops)) <= max_failed_attempts policy).
  { intros Heq ->. apply IH; [by rewrite Heq|done|done]. }
  destruct op as [u p k now t c| | | |]; try (apply Hsame; [by rewrite other_ops_attempts|done]).
  destruct (decide (k = client)) as [->|Hk].
  2:{ apply Hsame; [by apply login_attempts_other|]. cbn. by rewrite bool_decide_eq_false_2. }
  destruct (Hop eq_refl) as [Hbad Hnow].
  destruct (guess_step st client start u p now t c _ n Hmax eq_refl Ha Hbad Hnow)
    as (a' & Ha' & [[Hr Hi]|(Hr & Hlt & Hi)]); cbn [failed_login admin_step];
    rewrite Hr, bool_decide_eq_true_2 by done; cbn [andb].
  - apply IH; [by rewrite Ha'|done|done].
  - rewrite Nat.add_assoc, Nat.add_1_r. apply IH; [by rewrite Ha'|done|lia].
Qed.

(** C14.  The lockout bounds password guessing: in any interleaving of requests,
    a client with no recorded failures whose logins all carry wrong credentials gets
    at most [max_failed_attempts] of them checked within a window as long as the
    lockout; all others are refused before the password is looked at.  Requests of
    other clients and other session operations make no difference. *)
Theorem lockout_bounds_guessing (st : SessionState) (client : string) (start : DateTime)
    (ops : list admin_op)
    (Hmax : 1 <= max_failed_attempts policy <= U8_MAX)
    (Hfresh : attempts st !! client = None)
    (Hops : Forall (guessing client start) ops) :
  Z.of_nat (failed_logins st client ops) <= max_failed_attempts policy.
Proof.
  change (failed_logins st client ops) with (0 + failed_logins st client ops)%nat.
  eapply guessing_bounded; [done| |done|lia].
  rewrite Hfresh. left. cbn. split_and!; [done|done|lia].
Qed.

(** A locked client stays locked: once its attempts record is locked until
    [until], no sequence of requests whose logins happen before that moment
    unlocks it, and every login it makes in that time is refused as rate limited,
    with the right password too. *)
Lemma locked_client_refused (st : SessionState) (client : string) (a : LoginAttempt)
    (until : DateTime) (ops : list admin_op) (u p t c : string) (now : DateTime)
    (Ha : attempts st !! client = Some a)
    (Hlocked : locked_until a = Some until)
    (Hops : Forall (fun op => match op with
                              | OpLogin _ _ k when _ _ => k = client -> when < until
                              | _ => True end) ops)
    (Hnow : now < until) :
  (login (admin_run st ops) u p client now t c).1 = Err RateLimited.
Proof.
  assert (Hkeep : attempts (admin_run st ops) !! client = Some a).
  { revert st Ha. induction Hops as [|op ops Hop _ IH]; intros st Ha; [done|].
    apply (IH (admin_step st op)).
    destruct op as [u' p' k when t' c'| | | |]; try (by rewrite other_ops_attempts).
    destruct (decide (k = client)) as [->|Hk].
    - cbn. by eapply login_locked; eauto.
    - cbn. by rewrite login_attempts_other. }
  by eapply login_locked.
Qed.

(** ** Session provenance *)

(** What one operation does to the session under a digest: it was there before with
    the same creation time, or the operation is a successful login that drew it. *)
Lemma login_Ok_credentials st u p k now t c g :
  (login st u p k now t c).1 = Ok g -> credentials_match u p = true.
Proof.
  unfold login. cbn. destruct (is_some_and _ _); [done|].
  by destruct (credentials_match u p).
Qed.

Lemma login_sessions st u p k now t c d s :
  sessions (login st u p k now t c).2 !! d = Some s ->
  (sessions st !! d = Some s \/
   (is_ok (login st u p k now t c).1 = true /\ d = session_digest t /\ created_at s = now)).
Proof.
  assert (Hret : retain_live now (sessions st) !! d = Some s -> sessions st !! d = Some s)
    by (intros [H _]%map_lookup_filter_Some; done).
  unfold login. cbn. destruct (is_some_and _ _); cbn; [by eauto|].
  destruct (credentials_match u p); cbn; [|by eauto].
  intros [[<- <-]|[_ H]]%lookup_insert_Some; [by eauto|by eauto].
Qed.

Lemma authenticate_sessions st t c r now d s :
  sessions (authenticate st t c r now).2 !! d = Some s ->
  exists s0, sessions st !! d = Some s0 /\ created_at s0 = created_at s.
Proof.
  unfold authenticate. destruct (sessions st !! session_digest t) as [s0|] eqn:E; [|by eauto].
  destruct (_ || _); cbn; [intros [_ H]%lookup_delete_Some; by eauto|].
  destruct (_ && _); [by eauto|]. cbn.
  intros [[<- <-]|[_ H]]%lookup_insert_Some; by eauto.
Qed.

Lemma store_csrf_sessions st t c d s :
  sessions (store_csrf st t c).2 !! d = Some s ->
  exists s0, sessions st !! d = Some s0 /\ created_at s0 = created_at s.
Proof.
  unfold store_csrf. destruct (sessions st !! session_digest t) as [s0|] eqn:E; [|by eauto].
  cbn. intros [[<- <-]|[_ H]]%lookup_insert_Some; by eauto.
Qed.

Definition logs_out (d : string) (op : admin_op) : Prop :=
  exists t, op = OpLogout t /\ session_digest t = d.

Lemma step_sessions st op d s :
  sessions (admin_step st op) !! d = Some s ->
  (exists s0, sessions st !! d = Some s0 /\ created_at s0 = created_at s /\ ~ logs_out d op) \/
  (exists u p k t c, op = OpLogin u p k (created_at s) t c /\ session_digest t = d /\
     is_ok (login st u p k (created_at s) t c).1 = true).
Proof.
  destruct op as [u p k now t c|t c r now|t|t c|now]; cbn.
  - intros [H|(Hok & -> & Hs)]%login_sessions.
    + left. exists s. split_and!; [done|done|]. by intros (? & [=] & _).
    + right. rewrite Hs. exists u, p, k, t, c. done.
  - intros (s0 & H & Hc)%authenticate_sessions. left. exists s0. split_and!; [done|done|].
    by intros (? & [=] & _).
  - intros [Hne H]%lookup_delete_Some. left. exists s. split_and!; [done|done|].
    by intros (? & [= <-] & Hd).
  - intros (s0 & H & Hc)%store_csrf_sessions. left. exists s0. split_and!; [done|done|].
    by intros (? & [=] & _).
  - intros [H _]%map_lookup_filter_Some. left. exists s. split_and!; [done|done|].
    by intros (? & [=] & _).
Qed.

(** Every stored session goes back to a login, with no logout since. *)
Lemma session_provenance ops d s :
  sessions (admin_run initial_state ops) !! d = Some s ->
  exists before after u p k t c,
    ops = before ++ OpLogin u p k (created_at s) t c :: after /\ session_digest t = d /\
    is_ok (login (admin_run initial_state before) u p k (created_at s) t c).1 = true /\
    Forall (fun op => ~ logs_out d op) after.
Proof.
  revert s. induction ops as [|op ops IH] using rev_ind; intros s; [done|].
  rewrite admin_run_app. cbn.
  intros [(s0 & H0 & Hc & Hlo)|(u & p & k & t & c & -> & Hd & Hok)]%step_sessions.
  - apply IH in H0 as (before & after & u & p & k & t & c & -> & Hd & Hok & Hall).
    exists before, (after ++ [op]), u, p, k, t, c. rewrite <- Hc. rewrite <- app_assoc.
    split_and!; [done|done|done|]. apply Forall_app. by repeat constructor.
  - exists ops, [], u, p, k, t, c. done.
Qed.

Lemma authenticate_Ok st t c r now st' :
  authenticate st t c r now = (Ok tt, st') ->
  exists s, sessions st !! session_digest t = Some s /\
    now < created_at s + absolute_timeout policy /\ now <= last_seen_at s + idle_timeout policy /\
    (r = true -> session_digest (default "" c) = csrf_digest s).
Proof.
  unfold authenticate. destruct (sessions st !! _) as [s|]; [|done].
  destruct (_ || _) eqn:He; [done|]. apply orb_false_iff in He as [H1%Z.leb_gt H2%Z.ltb_ge].
  destruct (_ && _) eqn:Hc; [done|]. intros _. exists s. split_and!; [done|done|done|].
  intros ->. cbn in Hc. by apply negb_false_iff, bool_decide_eq_true in Hc.
Qed.

(** C13.  Authentication soundness over every interleaving: if a session token is
    accepted, then some earlier login with matching credentials drew a token with
    that digest, the absolute timeout counted from that login has not passed, and
    the session was not logged out in between.  No sequence of operations, CSRF
    rotation included, creates, revives or extends a session beyond it. *)
Theorem accepted_session_was_granted (ops : list admin_op) (token : string)
    (csrf : option string) (require_csrf : bool) (now : DateTime) (st' : SessionState)
    (Hok : authenticate (admin_run initial_state ops) token csrf require_csrf now = (Ok tt, st')) :
  exists before after u p k login_time t c,
    ops = before ++ OpLogin u p k login_time t c :: after /\
    session_digest t = session_digest token /\
    credentials_match u p = true /\
    now < login_time + absolute_timeout policy /\
    Forall (fun op => ~ logs_out (session_digest token) op) after.
Proof.
  apply authenticate_Ok in Hok as (s & Hs & Habs & _).
  apply session_provenance in Hs as (before & after & u & p & k & t & c & -> & Hd & Hl & Hall).
  exists before, after, u, p, k, (created_at s), t, c. split_and!; [done|done| |done|done].
  destruct (login _ u p k _ t c).1 as [g|] eqn:E; [|done]. by eapply login_Ok_credentials.
Qed.

(** ** CSRF *)

(** CSRF tokens rotate: after a successful [issue_csrf] the session accepts the
    issued token for a state-changing request while it is alive, refuses every token
    with another digest (the one issued at login included) as well as a missing one,
    and a refused request changes nothing: it neither extends nor ends the session. *)
Lemma issue_csrf_rotates (st st' : SessionState) (token issued : string) (now later : DateTime)
    (Hissue : issue_csrf st token now issued = (Ok issued, st'))
    (Hlater : later <= now + idle_timeout policy)
    (Habs : forall s, sessions st !! session_digest token = Some s ->
            later < created_at s + absolute_timeout policy) :
  (authenticate st' token (Some issued) true later).1 = Ok tt /\
  (forall presented, session_digest (default "" presented) <> session_digest issued ->
     authenticate st' token presented true later = (Err InvalidCsrf, st')).
Proof.
  unfold issue_csrf in Hissue.
  destruct (authenticate st token None false now) as [[[]|e] st1] eqn:Ha; [|done].
  pose proof Ha as (s & Hs & H1 & H2 & _)%authenticate_Ok. specialize (Habs s Hs).
  unfold authenticate in Ha. rewrite Hs in Ha. cbn in Ha.
  destruct (_ || _) in Ha; [done|]. injection Ha as <-.
  unfold store_csrf in Hissue. cbn in Hissue. rewrite lookup_insert_eq in Hissue. cbn in Hissue.
  injection Hissue as <-. unfold authenticate. cbn. rewrite !lookup_insert_eq. cbn.
  rewrite (proj2 (Z.leb_gt _ _)), (proj2 (Z.ltb_ge _ _)) by lia. cbn. split.
  - by rewrite bool_decide_eq_true_2.
  - intros presented Hne. by rewrite bool_decide_eq_false_2.
Qed.
End Admin.

(** ** Examples *)

Section Witnesses.
#[local] Existing Instance simple_crypto_lib.

Definition example_manager : AdminSessionManager :=
  {| mgr_username := "admin"; mgr_password_hash := "salt$correct"; mgr_digest_key := "k";
     mgr_policy := default_policy |}.

Definition wrong_guess (n : Z) : admin_op := OpLogin "admin" "guess" "10.0.0.1" (seconds n) "t" "c".
Definition good_login : admin_op := OpLogin "admin" "correct" "10.0.0.2" (seconds 7) "tok" "csrf".
Definition guesses : list admin_op := map wrong_guess [1; 2; 3; 4; 5; 6; 7].

Lemma lockout_bounds_guessing_witness :
  Z.of_nat (failed_logins example_manager initial_state "10.0.0.1" (guesses ++ [good_login])) <= 5.
Proof.
  apply (lockout_bounds_guessing example_manager initial_state "10.0.0.1" (seconds 1)).
  - vm_compute. split; discriminate.
  - reflexivity.
  - repeat constructor; vm_compute; intuition discriminate.
Defined.

Lemma locked_client_refused_witness :
  (login example_manager (admin_run example_manager
     (admin_run example_manager initial_state guesses) [good_login; wrong_guess 9])
     "admin" "correct" "10.0.0.1" (seconds 10) "t" "c").1 = Err RateLimited.
Proof.
  apply (locked_client_refused example_manager _ "10.0.0.1"
           {| failures := 5; locked_until := Some (seconds 5 + minutes 15) |} (seconds 5 + minutes 15)).
  - vm_compute. reflexivity.
  - reflexivity.
  - repeat constructor; vm_compute; done.
  - vm_compute. reflexivity.
Defined.

Lemma accepted_session_was_granted_witness :
  exists before after u p k login_time t c,
    [good_login; wrong_guess 8] = before ++ OpLogin u p k login_time t c :: after /\
    session_digest example_manager t = session_digest example_manager "tok" /\
    credentials_match example_manager u p = true /\
    seconds 60 < login_time + hours 12 /\
    Forall (fun op => ~ logs_out example_manager (session_digest example_manager "tok") op) after.
Proof.
  eapply (accepted_session_was_granted example_manager [good_login; wrong_guess 8] "tok"
            (Some "csrf") true (seconds 60)).
  vm_compute. reflexivity.
Defined.

End Witnesses.
