(* ===== verification/Providers.v ===== *)
(** * Provider requests (src/src/providers.rs, all but the event streams)

    Building the upstream URL and the credential header of a request, and the AWS
    Signature Version 4 of Bedrock accounts.  [url::Url], the hash functions, the
    formatting of dates and the derived deserialiser of the AWS credential envelope
    are parameters.  [None] as a result is a panic (an [expect] that fails). *)
From Stdlib Require Import Sorting.Sorted.
From S2P Require Import Prelude Interfaces Models Secrets Bedrock.

Inductive ProviderKind :=
| ClaudeOauth | AnthropicApiKey | BedrockApiKey | BedrockSigV4 | AnthropicCompatible.

#[global] Instance ProviderKind_eq_dec : EqDecision ProviderKind.
Proof. solve_decision. Defined.

(** [matches!(kind, BedrockApiKey | BedrockSigV4)]. *)
Definition is_bedrock (kind : ProviderKind) : bool :=
  match kind with BedrockApiKey | BedrockSigV4 => true | _ => false end.

Record AwsCredentialEnvelope := {
  access_key_id : string;
  secret_access_key : string;
  session_token : option string;
  region : string;
  service : option string
}.

(** ** Text helpers *)

(** [s.split_whitespace()]; [current] is the word read so far, reversed. *)
Fixpoint words_from (fuel : nat) (s current : string) : list string :=
  let flush := if string_is_empty current then [] else [string_rev current] in
  match fuel with
  | O => flush
  | S fuel' =>
      match strip_any WHITESPACE s, s with
      | Some rest, _ => flush ++ words_from fuel' rest ""
      | None, String c rest => words_from fuel' rest (String c current)
      | None, "" => flush
      end
  end.
Definition split_whitespace (s : string) : list string := words_from (String.length s) s "".

Definition collapse_whitespace (value : string) : string := join " " (split_whitespace value).

Definition is_unreserved (c : ascii) : bool :=
  is_ascii_alphanumeric c || bool_decide (c ∈ ["-"; "_"; "."; "~"]%char).

(** One byte of [aws_encode]; [%] and two upper-case digits when it is reserved. *)
Definition aws_encode_byte (c : ascii) : string :=
  if is_unreserved c then String c "" else String "%" (hex_byte 65 c).

Fixpoint aws_encode (value : string) : string :=
  match value with "" => "" | String c rest => aws_encode_byte c +:+ aws_encode rest end.

Definition is_token_char (c : ascii) : bool :=
  is_ascii_alphanumeric c
  || bool_decide (c ∈ ["!"; "#"; "$"; "%"; "&"; "'"; "*"; "+"; "-"; "."; "^"; "_"; "`"; "|"; "~"]%char).

Definition valid_header_name (value : string) : bool :=
  negb (string_is_empty value) && string_all is_token_char value.

(** [sort] and [sort_unstable] for a comparison without ties between different
    elements. *)
Section Sort.
Context {A : Type} (cmp : A -> A -> comparison).
Fixpoint insert_sorted (x : A) (l : list A) : list A :=
  match l with
  | [] => [x]
  | y :: rest => match cmp x y with Gt => y :: insert_sorted x rest | _ => x :: l end
  end.
Definition sort (l : list A) : list A := foldr insert_sorted [] l.
End Sort.

Definition pair_cmp (a b : string * string) : comparison :=
  then_with (String.compare a.1 b.1) (String.compare a.2 b.2).

Definition is_identifier (value : string) : bool :=
  negb (string_is_empty value) && (byte_length value <=? 256)
  && string_all (fun c => is_ascii_alphanumeric c || bool_decide (c ∈ ["-"; "_"]%char)) value.

Definition aws_validate (c : AwsCredentialEnvelope) : result unit ProviderError :=
  if negb (is_identifier (access_key_id c))
     || string_is_empty (secret_access_key c)
     || (4096 <? byte_length (secret_access_key c))
     || negb (is_identifier (region c))
     || is_some_and (service c) (fun value => negb (is_identifier value))
  then Err InvalidAwsCredential
  else Ok tt.

Section Providers.
Context `{U : UrlLib} `{L : CryptoLib}.

Record ProviderAccount := {
  id : string;
  label : string;
  kind : ProviderKind;
  base_url : Url;
  enabled : bool;
  model_map : gmap string string;
  egress_proxies : list string;
  compatible_auth_header : option string;
  compatible_auth_prefix : option string
}.

Record PreparedProviderRequest := {
  url : Url;
  upstream_model : string;
  headers : gmap string string
}.

(** ** [prepare_request_for_stream] *)

Definition bedrock_invoke_url (base : Url) (model : string) (stream : bool) :
    result Url ProviderError :=
  if string_is_empty model then Err InvalidPath
  else ok_or (url_replace_segments (url_clear_fragment (url_clear_query base))
                ["model"; model; if stream then "invoke-with-response-stream" else "invoke"])
         InvalidPath.

(** [path_and_query.split('?').next() == Some("/v1/messages")]. *)
Definition is_messages_path (path_and_query : string) : bool :=
  bool_decide (head (split "?" path_and_query) = Some "/v1/messages").

Definition upstream_url (account : ProviderAccount) (path_and_query upstream_model : string)
    (stream : bool) : result Url ProviderError :=
  if is_bedrock (kind account) && is_messages_path path_and_query
  then bedrock_invoke_url (base_url account) upstream_model stream
  else
    let compatible := bool_decide (kind account = AnthropicCompatible) in
    let base := if compatible
                then url_set_path (base_url account)
                       (trim_end_matches "/" (url_path (base_url account)) +:+ "/")
                else base_url account in
    ok_or (url_join base (if compatible then trim_start_matches "/" path_and_query
                          else path_and_query)) InvalidPath.

(** The headers that carry the account's credential. *)
Definition credential_headers (account : ProviderAccount) (credential : string) :
    result (gmap string string) ProviderError :=
  match kind account with
  | ClaudeOauth => Ok (<["anthropic-beta" := "oauth-2025-04-20"]>
                         {["authorization" := "Bearer " +:+ credential]})
  | AnthropicApiKey => Ok {["x-api-key" := credential]}
  | BedrockApiKey => Ok {["authorization" := "Bearer " +:+ credential]}
  | BedrockSigV4 => Ok ∅
  | AnthropicCompatible =>
      let? header := ok_or (option_filter valid_header_name (compatible_auth_header account))
                       InvalidAuthenticationHeader in
      Ok {[to_ascii_lowercase header := default "" (compatible_auth_prefix account) +:+ credential]}
  end.

Definition prepare_request_for_stream (account : ProviderAccount)
    (credential path_and_query requested_model : string) (stream : bool) :
    result PreparedProviderRequest ProviderError :=
  if negb (starts_with "/" path_and_query) || starts_with "//" path_and_query then Err InvalidPath
  else
    let upstream_model := default requested_model (resolve (model_map account) requested_model) in
    let? url := upstream_url account path_and_query upstream_model stream in
    if negb (url_same_origin url (base_url account)) then Err InvalidPath
    else
      let? headers := credential_headers account credential in
      Ok {| url := url; upstream_model := upstream_model; headers := headers |}.

Definition prepare_request (account : ProviderAccount)
    (credential path_and_query requested_model : string) :
    result PreparedProviderRequest ProviderError :=
  prepare_request_for_stream account credential path_and_query requested_model false.

(** ** [finalize_request_auth] *)

Definition canonical_host (u : Url) : result string ProviderError :=
  let? host := ok_or (url_host_str u) InvalidPath in
  Ok (match url_port u with
      | Some port =>
          if negb ((bool_decide (url_scheme u = "https") && (port =? 443))
                   || (bool_decide (url_scheme u = "http") && (port =? 80)))
          then host +:+ ":" +:+ pretty port else host
      | None => host
      end).

Definition canonical_path (u : Url) : string :=
  if string_is_empty (url_path u) then "/" else url_path u.

Definition canonical_pairs (pairs : list (string * string)) : string :=
  join "&" (map (fun nv => nv.1 +:+ "=" +:+ nv.2)
    (sort pair_cmp (map (fun nv => (aws_encode nv.1, aws_encode nv.2)) pairs))).
Definition canonical_query (u : Url) : string := canonical_pairs (url_query_pairs u).

Context (parse_aws_envelope : string -> option AwsCredentialEnvelope)   (* serde_json::from_str *)
        (format_date format_amz_date : DateTime -> string).             (* %Y%m%d, %Y%m%dT%H%M%SZ *)

(** The headers that are set before signing. *)
Definition amz_headers (credential : AwsCredentialEnvelope) (host payload_hash amz_date : string)
    (headers : gmap string string) : gmap string string :=
  let headers := <["x-amz-date" := amz_date]> (<["x-amz-content-sha256" := payload_hash]>
                   (<["host" := host]> headers)) in
  match session_token credential with
  | Some token => <["x-amz-security-token" := token]> headers
  | None => headers
  end.

Definition signed_header_names (credential : AwsCredentialEnvelope)
    (headers : gmap string string) : list string :=
  sort String.compare
    (["host"; "x-amz-content-sha256"; "x-amz-date"]
     ++ (if bool_decide (is_Some (headers !! "content-type")) then ["content-type"] else [])
     ++ (if bool_decide (is_Some (session_token credential)) then ["x-amz-security-token"] else [])).

(** The loop over the signed headers; [None] when [expect] fails. *)
Fixpoint canonical_headers (names : list string) (headers : gmap string string) : option string :=
  match names with
  | [] => Some ""
  | name :: rest =>
      value ← headers !! name;
      text ← canonical_headers rest headers;
      Some (name +:+ ":" +:+ collapse_whitespace value +:+ newline +:+ text)
  end.

Definition string_to_sign (amz_date scope canonical_request : string) : string :=
  "AWS4-HMAC-SHA256" +:+ newline +:+ amz_date +:+ newline +:+ scope +:+ newline
  +:+ hex (sha256 canonical_request).

Definition signing_key (credential : AwsCredentialEnvelope) (date service : string) : string :=
  let date_key := hmac_sha256 ("AWS4" +:+ secret_access_key credential) date in
  let region_key := hmac_sha256 date_key (region credential) in
  let service_key := hmac_sha256 region_key service in
  hmac_sha256 service_key "aws4_request".

(** The value of the [authorization] header for these headers and body. *)
Definition authorization_value (credential : AwsCredentialEnvelope) (method body : string) (u : Url)
    (hdrs : gmap string string) (now : DateTime) : option string :=
  let date := format_date now in
  let amz_date := format_amz_date now in
  let service := default "bedrock" (service credential) in
  let payload_hash := hex (sha256 body) in
  let names := signed_header_names credential hdrs in
  let signed_headers := join ";" names in
  canonical ← canonical_headers names hdrs;
  let canonical_request :=
    method +:+ newline +:+ canonical_path u +:+ newline +:+ canonical_query u +:+ newline
    +:+ canonical +:+ newline +:+ signed_headers +:+ newline +:+ payload_hash in
  let scope := date +:+ "/" +:+ region credential +:+ "/" +:+ service +:+ "/aws4_request" in
  let signature := hex (hmac_sha256 (signing_key credential date service)
                          (string_to_sign amz_date scope canonical_request)) in
  Some ("AWS4-HMAC-SHA256 Credential=" +:+ access_key_id credential +:+ "/" +:+ scope
        +:+ ", SignedHeaders=" +:+ signed_headers +:+ ", Signature=" +:+ signature).

Definition finalize_request_auth (account : ProviderAccount) (credential method body : string)
    (now : DateTime) (prepared : PreparedProviderRequest) :
    option (result PreparedProviderRequest ProviderError) :=
  if negb (bool_decide (kind account = BedrockSigV4)) then Some (Ok prepared)
  else
    match parse_aws_envelope credential with
    | None => Some (Err InvalidAwsCredential)
    | Some credential =>
        let! _ := Some (aws_validate credential) in
        let! host := Some (canonical_host (url prepared)) in
        let hdrs := amz_headers credential host (hex (sha256 body)) (format_amz_date now)
                      (headers prepared) in
        authorization ← authorization_value credential method body (url prepared) hdrs now;
        Some (Ok {| url := url prepared; upstream_model := upstream_model prepared;
                    headers := <["authorization" := authorization]> hdrs |})
    end.

End Providers.

(** ** Sorting *)

Section SortTheorems.
Context {A : Type} (cmp : A -> A -> comparison) `{!TotalCmp cmp}.

Lemma insert_sorted_perm (x : A) (l : list A) : insert_sorted cmp x l ≡ₚ x :: l.
Proof.
  induction l as [|y l IH]; [done|]. cbn. destruct (cmp x y); [done|done|].
  by rewrite IH, Permutation_swap.
Qed.

Lemma sort_perm (l : list A) : sort cmp l ≡ₚ l.
Proof. induction l as [|x l IH]; [done|]. cbn. by rewrite insert_sorted_perm, IH. Qed.

Lemma insert_sorted_sorted (x : A) (l : list A) :
  StronglySorted (fun a b => cmp a b <> Gt) l ->
  StronglySorted (fun a b => cmp a b <> Gt) (insert_sorted cmp x l).
Proof.
  induction 1 as [|y l Hl IH Hall]; [by repeat constructor|]. cbn.
  assert (Hle : cmp x y <> Gt -> StronglySorted (fun a b => cmp a b <> Gt) (x :: y :: l)).
  { intros Hxy. constructor; [by constructor|]. constructor; [done|].
    eapply Forall_impl; [exact Hall|]. cbn. intros z Hz. by eapply cmp_trans. }
  destruct (cmp x y) eqn:E; [by apply Hle|by apply Hle|].
  constructor; [exact IH|]. rewrite insert_sorted_perm. constructor; [|done].
  pose proof (cmp_antisym x y) as Ha. rewrite E in Ha. cbn in Ha. by rewrite Ha.
Qed.

Lemma sort_sorted (l : list A) : StronglySorted (fun a b => cmp a b <> Gt) (sort cmp l).
Proof. induction l as [|x l IH]; [constructor|]. by apply insert_sorted_sorted. Qed.

Context (cmp_eq : forall a b, cmp a b = Eq -> a = b).

Lemma sorted_perm_unique (l1 l2 : list A) :
  StronglySorted (fun a b => cmp a b <> Gt) l1 -> StronglySorted (fun a b => cmp a b <> Gt) l2 ->
  l1 ≡ₚ l2 -> l1 = l2.
Proof.
  intros H1. revert l2. induction H1 as [|x l1 H1 IH Hx]; intros l2 H2 Hp.
  { by apply Permutation_nil_l in Hp. }
  destruct H2 as [|y l2 H2 Hy]; [by apply Permutation_nil_r in Hp|].
  assert (x = y) as ->.
  { assert (Hxin : x ∈ y :: l2) by (rewrite <- Hp; set_solver).
    assert (Hyin : y ∈ x :: l1) by (rewrite Hp; set_solver).
    apply elem_of_cons in Hxin as [->|Hxin]; [done|]. apply elem_of_cons in Hyin as [->|Hyin]; [done|].
    rewrite Forall_forall in Hx, Hy. specialize (Hx y Hyin). specialize (Hy x Hxin).
    apply cmp_eq. rewrite cmp_antisym in Hy. by destruct (cmp x y). }
  f_equal. apply IH; [done|]. by apply Permutation_cons_inv in Hp.
Qed.

(** Sorting forgets exactly the order. *)
Lemma sort_eq_iff (l1 l2 : list A) : sort cmp l1 = sort cmp l2 <-> l1 ≡ₚ l2.
Proof.
  split.
  - intros H. by rewrite <- (sort_perm l1), H, sort_perm.
  - intros H. apply sorted_perm_unique; [apply sort_sorted..|]. by rewrite !sort_perm.
Qed.
End SortTheorems.

#[global] Instance pair_cmp_total : TotalCmp pair_cmp.
Proof.
  unfold pair_cmp. apply (then_with_total (fun a b => String.compare a.1 b.1)
                            (fun a b => String.compare a.2 b.2)).
Qed.

Lemma pair_cmp_Eq (a b : string * string) : pair_cmp a b = Eq -> a = b.
Proof.
  unfold pair_cmp. rewrite then_with_Eq. destruct a, b. cbn.
  by intros [->%String.compare_eq_iff ->%String.compare_eq_iff].
Qed.

(** ** Percent encoding *)

Definition is_upper_hex (c : ascii) : bool := is_ascii_digit c || in_range 65 70 c.

Definition upper_hex_value (c : ascii) : Z :=
  if is_ascii_digit c then byte_of c - 48 else byte_of c - 55.

(** The inverse of [aws_encode]. *)
Fixpoint percent_decode (s : string) : string :=
  match s with
  | String "%" (String a (String b rest)) =>
      String (ascii_of_N (Z.to_N (16 * upper_hex_value a + upper_hex_value b))) (percent_decode rest)
  | String c rest => String c (percent_decode rest)
  | "" => ""
  end.

Lemma aws_encode_byte_decode (c : ascii) (rest : string) :
  percent_decode (aws_encode_byte c +:+ rest) = String c (percent_decode rest).
Proof. destruct c as [[] [] [] [] [] [] [] []]; reflexivity. Qed.

Lemma aws_encode_decode (s : string) : percent_decode (aws_encode s) = s.
Proof. induction s as [|c s IH]; [done|]. cbn [aws_encode]. by rewrite aws_encode_byte_decode, IH. Qed.

#[global] Instance aws_encode_inj : Inj (=) (=) aws_encode.
Proof. intros a b H. by rewrite <- (aws_encode_decode a), <- (aws_encode_decode b), H. Qed.

Definition is_encoded_char (c : ascii) : bool := is_unreserved c || (c =? "%")%char.

Lemma aws_encode_chars (s : string) : string_all is_encoded_char (aws_encode s) = true.
Proof.
  induction s as [|c s IH]; [done|]. cbn [aws_encode]. rewrite string_all_app, IH.
  destruct c as [[] [] [] [] [] [] [] []]; reflexivity.
Qed.

Lemma string_all_free (p : ascii -> bool) (c : ascii) (s : string) :
  p c = false -> string_all p s = true -> contains_char c s = false.
Proof.
  intros Hc. induction s as [|d s IH]; [done|]. cbn. intros [Hd Hs]%andb_true_iff.
  rewrite IH by done. rewrite orb_false_r. apply Ascii.eqb_neq. intros ->. by rewrite Hd in Hc.
Qed.

Lemma aws_encode_free (c : ascii) (s : string) :
  is_encoded_char c = false -> contains_char c (aws_encode s) = false.
Proof. intros Hc. eapply string_all_free; [exact Hc|apply aws_encode_chars]. Qed.

(** ** Canonical queries *)

(** [join] and [split] are inverse when no piece contains the separator. *)
Lemma split_join (c : ascii) (l : list string) :
  l <> [] -> Forall (fun s => contains_char c s = false) l -> split c (join (String c "") l) = l.
Proof.
  intros Hne Hall. induction Hall as [|s l Hs Hall IH]; [done|].
  destruct l as [|t l]; [by apply split_no_char|].
  change (join (String c "") (s :: t :: l)) with (s +:+ String c "" +:+ join (String c "") (t :: l)).
  rewrite string_app_cons, string_app_nil_l, split_app_char by done. by rewrite IH.
Qed.

Definition query_pair (nv : string * string) : string := nv.1 +:+ "=" +:+ nv.2.
Definition encode_pair (nv : string * string) : string * string := (aws_encode nv.1, aws_encode nv.2).

Lemma encoded_pair_free (l : list (string * string)) :
  Forall (fun s => contains_char "&" s = false) (map query_pair (sort pair_cmp (map encode_pair l))).
Proof.
  apply Forall_forall. intros s (nv & -> & Hnv)%list_elem_of_fmap.
  rewrite sort_perm in Hnv. apply list_elem_of_fmap in Hnv as ([n v] & -> & _).
  unfold query_pair, encode_pair. cbn [fst snd]. rewrite !contains_char_app.
  by rewrite !aws_encode_free.
Qed.

Lemma query_pair_inj (l1 l2 : list (string * string)) :
  Forall (fun nv => contains_char "=" nv.1 = false) l1 ->
  Forall (fun nv => contains_char "=" nv.1 = false) l2 ->
  map query_pair l1 = map query_pair l2 -> l1 = l2.
Proof.
  intros H1. revert l2. induction H1 as [|[n v] l1 Hn H1 IH]; intros l2 H2 Heq.
  { by destruct l2. }
  destruct H2 as [|[n' v'] l2 Hn' H2]; [done|]. cbn in Heq. injection Heq as Hq Heq.
  f_equal; [|by apply IH]. apply (f_equal (split_once "=")) in Hq.
  unfold query_pair in Hq. cbn [fst snd] in *. change ("=" +:+ ?x) with (String "=" x) in Hq.
  rewrite !split_once_app in Hq by done. by injection Hq as -> ->.
Qed.

Lemma sorted_names_free (l : list (string * string)) :
  Forall (fun nv => contains_char "=" nv.1 = false) (sort pair_cmp (map encode_pair l)).
Proof.
  rewrite sort_perm. apply Forall_fmap, Forall_true. intros [n v]. cbn. by apply aws_encode_free.
Qed.

(** No pair gives the empty text, so an empty query is told apart. *)
Lemma join_query_pairs_empty (l : list (string * string)) :
  l <> [] -> join "&" (map query_pair l) <> "".
Proof.
  destruct l as [|[n v] l]; [done|]. intros _ H. apply (f_equal String.length) in H. revert H.
  cbn [map join]. destruct (map query_pair l); unfold query_pair; cbn [fst snd];
    rewrite !string_length_app; cbn; lia.
Qed.

Lemma join_query_pairs_inj (l1 l2 : list (string * string)) :
  Forall (fun s => contains_char "&" s = false) (map query_pair l1) ->
  Forall (fun s => contains_char "&" s = false) (map query_pair l2) ->
  join "&" (map query_pair l1) = join "&" (map query_pair l2) ->
  map query_pair l1 = map query_pair l2.
Proof.
  intros H1 H2 Heq.
  destruct (decide (l1 = [])) as [->|Hn1], (decide (l2 = [])) as [->|Hn2]; [done|..].
  - by destruct (join_query_pairs_empty l2).
  - by destruct (join_query_pairs_empty l1).
  - assert (Hne : forall l, l <> [] -> map query_pair l <> []) by (by intros []).
    rewrite <- (split_join "&" (map query_pair l1)), <- (split_join "&" (map query_pair l2)) by eauto.
    by rewrite Heq.
Qed.

Lemma encode_pairs_perm (l1 l2 : list (string * string)) :
  map encode_pair l1 ≡ₚ map encode_pair l2 -> l1 ≡ₚ l2.
Proof.
  intros H. set (decode := fun nv : string * string => (percent_decode nv.1, percent_decode nv.2)).
  assert (Hid : forall l, map decode (map encode_pair l) = l).
  { intros l. rewrite map_map. rewrite <- (map_id l) at 2. apply map_ext. intros [n v].
    unfold decode, encode_pair. cbn. by rewrite !aws_encode_decode. }
  rewrite <- (Hid l1), <- (Hid l2). by apply Permutation_map.
Qed.

(** The canonical query of the AWS signature is a canonical form: two URLs have
    the same canonical query exactly when their decoded query pairs agree up to order,
    duplicates included.  Reordering parameters never changes the signature, and no two
    different queries share one (percent encoding and the separators are
    unambiguous). *)
Lemma canonical_query_is_canonical `{U : UrlLib} (u1 u2 : Url) :
  canonical_query u1 = canonical_query u2 <-> url_query_pairs u1 ≡ₚ url_query_pairs u2.
Proof.
  unfold canonical_query, canonical_pairs.
  change (fun nv : string * string => nv.1 +:+ "=" +:+ nv.2) with query_pair.
  change (fun nv : string * string => (aws_encode nv.1, aws_encode nv.2)) with encode_pair.
  generalize (url_query_pairs u1) as l1, (url_query_pairs u2) as l2. intros l1 l2. split.
  - intros Hmap. apply join_query_pairs_inj in Hmap; [|apply encoded_pair_free..].
    apply query_pair_inj in Hmap; [|apply sorted_names_free..].
    apply (sort_eq_iff _ pair_cmp_Eq) in Hmap.
    by apply encode_pairs_perm.
  - intros Hp. f_equal. f_equal. apply (sort_eq_iff _ pair_cmp_Eq). by apply Permutation_map.
Qed.

(** ** AWS Signature Version 4 *)

Lemma canonical_headers_total (names : list string) (hdrs : gmap string string) :
  Forall (fun n => is_Some (hdrs !! n)) names -> is_Some (canonical_headers names hdrs).
Proof.
  induction 1 as [|n names [v Hv] _ [text IH]]; [done|]. cbn. rewrite Hv, IH. by eexists.
Qed.

Lemma canonical_headers_insert (names : list string) (hdrs : gmap string string) (n v : string) :
  n ∉ names -> canonical_headers names (<[n := v]> hdrs) = canonical_headers names hdrs.
Proof.
  induction names as [|n' names IH]; [done|]. intros Hn. cbn.
  rewrite lookup_insert_ne, IH by set_solver. done.
Qed.

(** The headers a signature may cover. *)
Lemma signed_header_names_elem (c : AwsCredentialEnvelope) (hdrs : gmap string string) (n : string) :
  n ∈ signed_header_names c hdrs <->
  n ∈ ["host"; "x-amz-content-sha256"; "x-amz-date"] \/
  (n = "content-type" /\ is_Some (hdrs !! "content-type")) \/
  (n = "x-amz-security-token" /\ is_Some (session_token c)).
Proof.
  unfold signed_header_names. rewrite sort_perm, !elem_of_app.
  do 2 case_bool_decide; set_solver.
Qed.

Lemma signed_header_names_auth (c : AwsCredentialEnvelope) (hdrs : gmap string string) v :
  signed_header_names c (<["authorization" := v]> hdrs) = signed_header_names c hdrs.
Proof. unfold signed_header_names. by rewrite lookup_insert_ne. Qed.

Lemma authorization_not_signed (c : AwsCredentialEnvelope) (hdrs : gmap string string) :
  "authorization" ∉ signed_header_names c hdrs.
Proof. rewrite signed_header_names_elem. set_solver. Qed.

Lemma amz_headers_lookup_other c host hash date hdrs n :
  n ∉ ["host"; "x-amz-content-sha256"; "x-amz-date"; "x-amz-security-token"] ->
  amz_headers c host hash date hdrs !! n = hdrs !! n.
Proof.
  intros Hn. unfold amz_headers. destruct (session_token c);
    rewrite !lookup_insert_ne by set_solver; done.
Qed.

Lemma amz_headers_present c host hash date hdrs :
  let h := amz_headers c host hash date hdrs in
  h !! "host" = Some host /\ h !! "x-amz-content-sha256" = Some hash /\
  h !! "x-amz-date" = Some date /\
  (forall t, session_token c = Some t -> h !! "x-amz-security-token" = Some t).
Proof.
  unfold amz_headers. destruct (session_token c) as [t|]; cbn; split_and!; try intros ? [=<-];
    by simplify_map_eq.
Qed.

Lemma signed_headers_present c host hash date hdrs :
  let h := amz_headers c host hash date hdrs in
  Forall (fun n => is_Some (h !! n)) (signed_header_names c h).
Proof.
  cbn. apply Forall_forall. intros n Hn. apply signed_header_names_elem in Hn.
  destruct (amz_headers_present c host hash date hdrs) as (H1 & H2 & H3 & H4).
  destruct Hn as [Hn|[[-> Hn]|[-> [t Ht]]]]; [|done|by erewrite H4].
  repeat (apply elem_of_cons in Hn as [->|Hn]; [by eexists|]). set_solver.
Qed.

Section SigV4.
Context `{U : UrlLib} `{L : CryptoLib}.
Context (parse_aws_envelope : string -> option AwsCredentialEnvelope)
        (format_date format_amz_date : DateTime -> string).

Abbreviation finalize := (finalize_request_auth parse_aws_envelope format_date format_amz_date).
Abbreviation authorization := (authorization_value format_date format_amz_date).

(** The value does not depend on an [authorization] header already there. *)
Lemma authorization_value_insert c method body u hdrs now v :
  authorization c method body u (<["authorization" := v]> hdrs) now
  = authorization c method body u hdrs now.
Proof.
  unfold authorization_value. rewrite signed_header_names_auth.
  by rewrite canonical_headers_insert by apply authorization_not_signed.
Qed.

Lemma authorization_total c method body u host hash date hdrs now :
  is_Some (authorization c method body u (amz_headers c host hash date hdrs) now).
Proof.
  unfold authorization_value.
  destruct (canonical_headers_total _ _ (signed_headers_present c host hash date hdrs)) as [t ->].
  by eexists.
Qed.

Lemma finalize_total account credential method body now prepared :
  is_Some (finalize account credential method body now prepared).
Proof.
  unfold finalize_request_auth. destruct (negb _); [by eexists|].
  destruct (parse_aws_envelope credential) as [c|]; [|by eexists].
  destruct (aws_validate c); [|by eexists].
  destruct (canonical_host (url prepared)) as [host|]; [|by eexists].
  destruct (authorization_total c method body (url prepared) host (hex (sha256 body))
              (format_amz_date now) (headers prepared) now) as [v ->]. by eexists.
Qed.

(** Only the signature's own headers are touched, and the URL is kept. *)
Lemma finalize_frame account credential method body now prepared p' :
  finalize account credential method body now prepared = Some (Ok p') ->
  url p' = url prepared /\
  (kind account <> BedrockSigV4 -> headers p' = headers prepared) /\
  (forall n, n ∉ ["host"; "x-amz-content-sha256"; "x-amz-date"; "x-amz-security-token";
                  "authorization"] -> headers p' !! n = headers prepared !! n).
Proof.
  unfold finalize_request_auth. case_bool_decide as Hk; cbn [negb]; [|by intros [= <-]].
  destruct (parse_aws_envelope credential) as [c|]; [|done].
  destruct (aws_validate c); [|done]. destruct (canonical_host (url prepared)) as [host|]; [|done].
  destruct (authorization_value _ _ _ _ _ _ _ _) as [v|]; [|done]. intros [= <-].
  split_and!; [done|done|]. intros n Hn. cbn [headers].
  rewrite lookup_insert_ne by set_solver. apply amz_headers_lookup_other. set_solver.
Qed.

End SigV4.

(** ** The signature as AWS defines it

    Signature Version 4 written from its published description, without the code's
    helpers: what a service recomputes from a request it receives. *)

Definition aws_unreserved : string :=
  "ABCDEFGHIJKLMNOPQRSTUVWXYZabcdefghijklmnopqrstuvwxyz0123456789-._~".

Definition hex_table : list ascii := list_ascii_of_string "0123456789ABCDEF".

(** URI encoding: all bytes but the unreserved characters and those of [keep] as [%XY]. *)
Definition uri_encode_char (keep : string) (c : ascii) : list ascii :=
  if contains_char c (aws_unreserved +:+ keep) then [c]
  else ["%"%char; default "0"%char (hex_table !! Z.to_nat (byte_of c / 16));
        default "0"%char (hex_table !! Z.to_nat (byte_of c mod 16))].

Definition uri_encode (keep s : string) : string :=
  string_of_list_ascii (concat (map (uri_encode_char keep) (list_ascii_of_string s))).

(** The canonical URI: the path, encoded segment by segment. *)
Definition aws_canonical_uri (path : string) : string :=
  uri_encode "/" (match path with "" => "/" | _ => path end).

(** [query] lists the encoded parameters, sorted by name and then by value. *)
Definition aws_canonical_query (pairs : list (string * string)) (query : string) : Prop :=
  exists l, l ≡ₚ map (fun nv => (uri_encode "" nv.1, uri_encode "" nv.2)) pairs /\
    StronglySorted (fun a b => String.compare a.1 b.1 = Lt \/ (a.1 = b.1 /\ String.compare a.2 b.2 <> Gt)) l /\
    query = join "&" (map (fun nv => nv.1 +:+ "=" +:+ nv.2) l).

(** The [Host] of a URL: its host, with the port unless it is the scheme's own. *)
Definition host_header `{U : UrlLib} (u : Url) (text : string) : Prop :=
  exists host, url_host_str u = Some host /\
    ((url_port u = None /\ text = host) \/
     exists port, url_port u = Some port /\
       text = if bool_decide ((url_scheme u, port) ∈ [("https", 443); ("http", 80)]) then host
              else host +:+ ":" +:+ pretty port).

Section Reference.
Context `{U : UrlLib} `{L : CryptoLib}.

Definition aws_scope (c : AwsCredentialEnvelope) (date : string) : list string :=
  [date; region c; default "bedrock" (service c); "aws4_request"].

(** The text that is signed. *)
Definition aws_string_to_sign (c : AwsCredentialEnvelope) (date amz_date method query body : string) (u : Url)
    (signed : list (string * string)) : string :=
  join newline
    ["AWS4-HMAC-SHA256"; amz_date; join "/" (aws_scope c date);
     hex (sha256 (join newline
       ([method; aws_canonical_uri (url_path u); query]
        ++ map (fun nv => nv.1 +:+ ":" +:+ join " " (split_whitespace nv.2)) signed
        ++ [""; join ";" signed.*1; hex (sha256 body)])))].

(** The key: the secret, refined by the parts of the scope in order. *)
Definition aws_key (c : AwsCredentialEnvelope) (date : string) : string :=
  fold_left hmac_sha256 (aws_scope c date) ("AWS4" +:+ secret_access_key c).

(** A request as it is sent carries a valid signature of the credential. *)
Record aws_signed (c : AwsCredentialEnvelope) (date amz_date method body : string) (u : Url)
    (hdrs : gmap string string) : Prop := {
  as_date : hdrs !! "x-amz-date" = Some amz_date;
  as_payload : hdrs !! "x-amz-content-sha256" = Some (hex (sha256 body));
  as_host : exists host, hdrs !! "host" = Some host /\ host_header u host;
  as_token : hdrs !! "x-amz-security-token" = session_token c;
  as_signature : exists query signed,
    aws_canonical_query (url_query_pairs u) query /\
    (* the signed headers: sorted by name, each as it is sent *)
    StronglySorted (fun a b => String.compare a b = Lt) signed.*1 /\
    (forall n v, (n, v) ∈ signed <-> hdrs !! n = Some v /\
       n ∈ ["content-type"; "host"; "x-amz-content-sha256"; "x-amz-date"; "x-amz-security-token"]) /\
    hdrs !! "authorization" = Some
      ("AWS4-HMAC-SHA256 Credential=" +:+ join "/" (access_key_id c :: aws_scope c date)
       +:+ ", SignedHeaders=" +:+ join ";" signed.*1
       +:+ ", Signature=" +:+ hex (hmac_sha256 (aws_key c date)
             (aws_string_to_sign c date amz_date method query body u signed)))
}.
End Reference.

(** ** The code computes that signature *)

Lemma uri_encode_cons (keep : string) (c : ascii) (s : string) :
  uri_encode keep (String c s) = uri_encode keep (String c "") +:+ uri_encode keep s.
Proof.
  unfold uri_encode. cbn [list_ascii_of_string map concat]. rewrite app_nil_r.
  generalize (concat (map (uri_encode_char keep) (list_ascii_of_string s))) as rest. intros rest.
  induction (uri_encode_char keep c) as [|x l IH]; [done|]. cbn. by rewrite IH, string_app_cons.
Qed.

Lemma uri_encode_aws (s : string) : uri_encode "" s = aws_encode s.
Proof.
  induction s as [|c s IH]; [done|]. rewrite uri_encode_cons, IH. cbn [aws_encode]. f_equal.
  destruct c as [[] [] [] [] [] [] [] []]; reflexivity.
Qed.

(** A path of unreserved characters and slashes is its own canonical URI. *)
Definition plain_path (path : string) : bool :=
  string_all (fun c => contains_char c (aws_unreserved +:+ "/")) path.

Lemma plain_path_canonical (path : string) :
  plain_path path = true -> aws_canonical_uri path = if string_is_empty path then "/" else path.
Proof.
  assert (Hplain : plain_path path = true -> uri_encode "/" path = path).
  { induction path as [|c path IH]; [done|]. cbn [plain_path string_all]. intros [Hc Hp]%andb_true_iff.
    rewrite uri_encode_cons, (IH Hp). unfold uri_encode, uri_encode_char. cbn [list_ascii_of_string map concat].
    by rewrite Hc. }
  intros Hp. unfold aws_canonical_uri. by destruct path; [|apply Hplain].
Qed.

Lemma StronglySorted_weaken {A} (R S : A -> A -> Prop) (l : list A) :
  (forall a b, R a b -> S a b) -> StronglySorted R l -> StronglySorted S l.
Proof. intros HRS. induction 1 as [|x l _ IH Hx]; constructor; [done|]. by eapply Forall_impl; [|apply HRS]. Qed.

Lemma canonical_pairs_aws (pairs : list (string * string)) :
  aws_canonical_query pairs (canonical_pairs pairs).
Proof.
  exists (sort pair_cmp (map encode_pair pairs)). split_and!; [| |done].
  - rewrite sort_perm. rewrite (map_ext encode_pair (fun nv => (uri_encode "" nv.1, uri_encode "" nv.2))); [done|].
    intros [n v]. by rewrite !uri_encode_aws.
  - eapply StronglySorted_weaken; [|apply sort_sorted; exact _]. unfold pair_cmp, then_with.
    intros a b. destruct (String.compare a.1 b.1) eqn:E; intros H; [|by left|done].
    right. split; [by apply String.compare_eq_iff|done].
Qed.

Lemma join_cons_ne sep (x : string) (l : list string) :
  l <> [] -> join sep (x :: l) = x +:+ sep +:+ join sep l.
Proof. intros Hne. rewrite join_cons. by destruct l. Qed.

Section Signing.
Context `{U : UrlLib} `{L : CryptoLib}.

Lemma canonical_host_header (u : Url) :
  match canonical_host u with
  | Ok host => host_header u host
  | Err e => e = InvalidPath /\ url_host_str u = None
  end.
Proof.
  unfold canonical_host. destruct (url_host_str u) as [host|] eqn:Hh; cbn [ok_or]; [|done].
  exists host. split; [done|]. destruct (url_port u) as [port|]; [right|by left]. exists port. split; [done|].
  destruct (bool_decide (url_scheme u = "https") && (port =? 443)) eqn:H1; cbn [orb negb].
  { apply andb_true_iff in H1 as [->%bool_decide_eq_true ->%Z.eqb_eq]. by rewrite bool_decide_true by set_solver. }
  destruct (bool_decide (url_scheme u = "http") && (port =? 80)) eqn:H2; cbn [orb negb].
  { apply andb_true_iff in H2 as [->%bool_decide_eq_true ->%Z.eqb_eq]. by rewrite bool_decide_true by set_solver. }
  rewrite bool_decide_false; [done|]. rewrite !elem_of_cons, elem_of_nil.
  intros [[= E ->]|[[= E ->]|[]]]; rewrite E in *; done.
Qed.

(** The signed headers with the values they are sent with. *)
Definition signed_values (hdrs : gmap string string) (names : list string) : list (string * string) :=
  map (fun n => (n, default "" (hdrs !! n))) names.

Lemma signed_values_names hdrs names : (signed_values hdrs names).*1 = names.
Proof. unfold signed_values. induction names; cbn; by f_equal. Qed.

Lemma signed_values_elem hdrs names n v :
  Forall (fun n => is_Some (hdrs !! n)) names ->
  (n, v) ∈ signed_values hdrs names <-> n ∈ names /\ hdrs !! n = Some v.
Proof.
  intros Hall. rewrite Forall_forall in Hall. unfold signed_values. rewrite list_elem_of_fmap. split.
  - intros (m & [= -> ->] & Hm). destruct (Hall m Hm) as [w Hw]. by rewrite Hw.
  - intros [Hn Hv]. exists n. by rewrite Hv.
Qed.

Lemma canonical_headers_lines hdrs names text (rest : list string) :
  canonical_headers names hdrs = Some text ->
  join newline (map (fun nv => nv.1 +:+ ":" +:+ join " " (split_whitespace nv.2)) (signed_values hdrs names)
                ++ "" :: rest)
  = text +:+ join newline ("" :: rest).
Proof.
  revert text. induction names as [|n names IH]; intros text; [by intros [= <-]|]. cbn [canonical_headers].
  intros (v & Hv & (t & Ht & [= <-])%bind_Some)%bind_Some. cbn [signed_values map app].
  fold (signed_values hdrs names). rewrite join_cons_ne by (by destruct (map _ _)). rewrite (IH t Ht), Hv. cbn [fst snd default]. unfold collapse_whitespace. by rewrite !string_app_assoc.
Qed.

Lemma signed_names_sorted c hdrs :
  StronglySorted (fun a b => String.compare a b = Lt) (signed_header_names c hdrs).
Proof.
  unfold signed_header_names. do 2 case_bool_decide; cbn -[String.compare]; repeat constructor.
Qed.

Context (parse_aws_envelope : string -> option AwsCredentialEnvelope)
        (format_date format_amz_date : DateTime -> string).

Abbreviation finalize := (finalize_request_auth parse_aws_envelope format_date format_amz_date).

Lemma authorization_value_aws c method body u hdrs now v :
  plain_path (url_path u) = true ->
  authorization_value format_date format_amz_date c method body u hdrs now = Some v ->
  let date := format_date now in
  let signed := signed_values hdrs (signed_header_names c hdrs) in
  v = "AWS4-HMAC-SHA256 Credential=" +:+ join "/" (access_key_id c :: aws_scope c date)
      +:+ ", SignedHeaders=" +:+ join ";" signed.*1
      +:+ ", Signature=" +:+ hex (hmac_sha256 (aws_key c date)
            (aws_string_to_sign c date (format_amz_date now) method (canonical_query u) body u signed)).
Proof.
  intros Hpath. unfold authorization_value. intros (text & Ht & [= <-])%bind_Some.
  cbv zeta. rewrite signed_values_names. unfold aws_string_to_sign. rewrite signed_values_names.
  set (names := signed_header_names c hdrs) in *.
  assert (Hreq : forall lines, lines = map (fun nv => nv.1 +:+ ":" +:+ join " " (split_whitespace nv.2))
                                         (signed_values hdrs names) ->
    join newline ([method; aws_canonical_uri (url_path u); canonical_query u] ++ lines
                  ++ [""; join ";" names; hex (sha256 body)])
    = method +:+ newline +:+ canonical_path u +:+ newline +:+ canonical_query u +:+ newline
      +:+ text +:+ newline +:+ join ";" names +:+ newline +:+ hex (sha256 body)).
  { intros lines Hl. cbn [app]. rewrite !join_cons_ne by (by destruct lines). rewrite Hl.
    rewrite (canonical_headers_lines hdrs _ text _ Ht), plain_path_canonical by done.
    reflexivity. }
  rewrite (Hreq _ eq_refl). unfold aws_scope, string_to_sign. cbn [join].
  change "/aws4_request" with ("/" +:+ "aws4_request"). by rewrite !string_app_assoc.
Qed.

Lemma amz_headers_token c host hash date hdrs :
  hdrs !! "x-amz-security-token" = None ->
  amz_headers c host hash date hdrs !! "x-amz-security-token" = session_token c.
Proof. intros Hnone. unfold amz_headers. destruct (session_token c); by simplify_map_eq. Qed.

(** The names the code signs are the ones present among those AWS expects. *)
Lemma signed_header_names_present c host hash date hdrs n :
  hdrs !! "x-amz-security-token" = None ->
  let h := amz_headers c host hash date hdrs in
  n ∈ signed_header_names c h <-> is_Some (h !! n) /\
    n ∈ ["content-type"; "host"; "x-amz-content-sha256"; "x-amz-date"; "x-amz-security-token"].
Proof.
  intros Htok h. apply (amz_headers_token c host hash date) in Htok. fold h in Htok.
  pose proof (amz_headers_present c host hash date hdrs) as (H1 & H2 & H3 & _). fold h in H1, H2, H3.
  rewrite signed_header_names_elem, <- Htok. split.
  - intros [Hn|[[-> Hn]|[-> Hn]]]; [|by split; [|left]|by split; [|set_solver]].
    repeat (apply elem_of_cons in Hn as [->|Hn]; [split; [by eexists|set_solver]|]). set_solver.
  - intros [Hv Hn]. repeat (apply elem_of_cons in Hn as [->|Hn]; [set_solver|]). by apply elem_of_nil in Hn.
Qed.

(** C37.  A signed Bedrock request carries a valid AWS Signature Version 4, as AWS
    defines it: finalisation never panics; it succeeds exactly when the credential
    parses and is valid and the URL has a host, and then the request as it is sent
    (URL, headers, body) passes the service's recomputation: host, date, payload hash
    and session token headers, the canonical request with its encoded path and sorted
    query, the sorted signed headers with the values sent, the string to sign, the key
    derived from date, region and service in that order, and the text of the
    [authorization] header.  Other headers and the URL are untouched.  The path must be
    made of unreserved characters and slashes: the code does not encode it. *)
Theorem sigv4_signature_verifies (account : ProviderAccount) (credential method body : string)
    (now : DateTime) (prepared : PreparedProviderRequest)
    (Hkind : kind account = BedrockSigV4)
    (Htoken : headers prepared !! "x-amz-security-token" = None)
    (Hpath : plain_path (url_path (url prepared)) = true) :
  exists r, finalize account credential method body now prepared = Some r /\
  match r with
  | Ok p' => exists c, parse_aws_envelope credential = Some c /\ aws_validate c = Ok tt /\
      url p' = url prepared /\ upstream_model p' = upstream_model prepared /\
      aws_signed c (format_date now) (format_amz_date now) method body (url p') (headers p') /\
      (forall n, n ∉ ["host"; "x-amz-content-sha256"; "x-amz-date"; "x-amz-security-token";
                      "authorization"] -> headers p' !! n = headers prepared !! n)
  | Err InvalidAwsCredential =>
      forall c, parse_aws_envelope credential = Some c -> aws_validate c <> Ok tt
  | Err e => e = InvalidPath /\ url_host_str (url prepared) = None
  end.
Proof.
  unfold finalize_request_auth. rewrite bool_decide_eq_true_2 by done. cbn [negb].
  destruct (parse_aws_envelope credential) as [c|]; [|by eexists].
  destruct (aws_validate c) as [[]|e] eqn:Hval.
  2:{ eexists. split; [reflexivity|]. assert (e = InvalidAwsCredential) as ->
        by (unfold aws_validate in Hval; destruct (_ || _) in Hval; congruence). congruence. }
  pose proof (canonical_host_header (url prepared)) as Hhost.
  destruct (canonical_host (url prepared)) as [host|e]; [|destruct Hhost as [-> ?]; by eexists].
  set (hdrs := amz_headers c host _ _ _).
  pose proof (fun n => signed_header_names_present c host (hex (sha256 body)) (format_amz_date now) _ n Htoken) as Hnames.
  pose proof (signed_headers_present c host (hex (sha256 body)) (format_amz_date now) (headers prepared)) as Hall.
  destruct (authorization_total format_date format_amz_date c method body (url prepared) host (hex (sha256 body))
              (format_amz_date now) (headers prepared) now) as [v Hv]. fold hdrs in Hv, Hall, Hnames.
  rewrite Hv. eexists. split; [reflexivity|]. exists c. cbn [url upstream_model headers].
  destruct (amz_headers_present c host (hex (sha256 body)) (format_amz_date now) (headers prepared)) as (H1 & H2 & H3 & _).
  split_and!; [done..| |intros n Hn; rewrite lookup_insert_ne by set_solver; apply amz_headers_lookup_other; set_solver].
  split; [by rewrite lookup_insert_ne..| |rewrite lookup_insert_ne by done; by apply amz_headers_token|].
  - exists host. by rewrite lookup_insert_ne.
  - exists (canonical_query (url prepared)), (signed_values hdrs (signed_header_names c hdrs)).
    split_and!; [apply canonical_pairs_aws|rewrite signed_values_names; apply signed_names_sorted| |].
    + intros n w. rewrite signed_values_elem, Hnames by done. split.
      * intros [[_ Hn] Hw]. rewrite lookup_insert_ne by set_solver. done.
      * intros [Hw Hn]. rewrite lookup_insert_ne in Hw by set_solver. by rewrite Hw.
    + rewrite lookup_insert_eq. f_equal. by apply (authorization_value_aws c method body (url prepared) hdrs now v).
Qed.
End Signing.

(** A model identifier with a colon: the canonical path of the code is not the
    canonical URI of AWS. *)
Lemma colon_path_not_canonical `{U : UrlLib} (u : Url) :
  url_path u = "/model/anthropic.opus-v1:0/invoke" -> canonical_path u <> aws_canonical_uri (url_path u).
Proof. unfold canonical_path. intros ->. by vm_compute. Qed.

(** ** Examples *)

Section Witnesses.
#[local] Existing Instance simple_url_lib.
#[local] Existing Instance simple_crypto_lib.

Definition example_envelope : AwsCredentialEnvelope :=
  {| access_key_id := "AKID"; secret_access_key := "secret"; session_token := Some "st";
     region := "eu-west-1"; service := None |}.

Definition bedrock_url : simple_url :=
  {| su_scheme := "https"; su_username := ""; su_password := None;
     su_host := "bedrock.example"; su_port := None; su_path := "/"; su_query := None |}.

Definition bedrock_account : ProviderAccount :=
  {| id := "b1"; label := "Bedrock"; kind := BedrockSigV4; base_url := bedrock_url;
     enabled := true; model_map := {["opus" := "anthropic.opus-v1"]}; egress_proxies := [];
     compatible_auth_header := None; compatible_auth_prefix := None |}.

Definition bedrock_prepared : PreparedProviderRequest :=
  {| url := with_path bedrock_url "/model/anthropic.opus-v1/invoke" None;
     upstream_model := "anthropic.opus-v1"; headers := {["content-type" := "application/json"]} |}.

Example bedrock_prepares :
  match prepare_request bedrock_account "ignored" "/v1/messages" "claude-opus-4" with
  | Ok p => bool_decide (su_path (url p) = "/model/anthropic.opus-v1/invoke")
            && bool_decide (upstream_model p = "anthropic.opus-v1")
  | Err _ => false
  end = true.
Proof. vm_compute. reflexivity. Qed.

Lemma sigv4_signature_verifies_witness :
  exists p', finalize_request_auth (fun _ => Some example_envelope) (fun _ => "20260101")
    (fun _ => "20260101T000000Z") bedrock_account "{}" "POST" "body" 0 bedrock_prepared = Some (Ok p') /\
    aws_signed example_envelope "20260101" "20260101T000000Z" "POST" "body" (url p') (headers p').
Proof.
  destruct (sigv4_signature_verifies (fun _ => Some example_envelope) (fun _ => "20260101")
    (fun _ => "20260101T000000Z") bedrock_account "{}" "POST" "body" 0 bedrock_prepared eq_refl eq_refl eq_refl)
    as (r & Hr & Hok).
  assert (Hsome : match finalize_request_auth (fun _ => Some example_envelope) (fun _ => "20260101")
    (fun _ => "20260101T000000Z") bedrock_account "{}" "POST" "body" 0 bedrock_prepared with
    Some (Ok _) => true | _ => false end = true) by (vm_compute; reflexivity).
  rewrite Hr in Hsome. destruct r as [p'|e]; [|discriminate].
  exists p'. split; [exact Hr|]. destruct Hok as (c & [= <-] & _ & _ & _ & Hsigned & _). exact Hsigned.
Defined.
End Witnesses.
