(* ===== verification/DataPlane.v ===== *)
(** * The data plane (src/src/data_plane.rs)

    The request handler, its header allowlists, token and session extraction, status
    classification and the outbound transport with its per-account proxy chains.

    [handle] is an effectful program: a tree of effects ([prog]) whose answers come
    from the environment, so that other requests and administrative changes can
    happen between any two effects.  [None] as a result is a panic. *)
From stdpp Require Import relations.
From S2P Require Import Prelude Interfaces Models Routing Auth Egress Bedrock Secrets Providers.

(** ** Header and status helpers *)

Inductive DataPlaneError :=
| DpUnauthorized
| CredentialStoreUnavailable
| BadRequest (message : string)
| NoCapacity
| UpstreamUnavailable.

Definition dp_status (e : DataPlaneError) : Z :=
  match e with
  | DpUnauthorized => 401
  | CredentialStoreUnavailable | NoCapacity => 503
  | BadRequest _ => 400
  | UpstreamUnavailable => 502
  end.

Definition request_header_allowed (name : string) : bool :=
  bool_decide (name ∈ ["accept"; "content-type"; "anthropic-version"; "anthropic-beta"; "user-agent"])
  || starts_with "x-stainless-" name.

Definition response_header_allowed (name : string) : bool :=
  bool_decide (name ∈ ["content-type"; "content-length"; "cache-control"; "retry-after";
                       "request-id"; "x-request-id"])
  || starts_with "anthropic-ratelimit-" name.

Definition is_session_char (c : ascii) : bool :=
  is_ascii_alphanumeric c || bool_decide (c ∈ ["."; "_"; ":"; "-"]%char).

Section Headers.
Context `{H : HeaderLib}.

(** [.map(|v| v.to_str()).transpose()]: absent, text, or not text. *)
Definition header_text_of {E} (m : HeaderMap) (name : string) (e : E) : result (option string) E :=
  match hm_get m name with
  | None => Ok None
  | Some v => match hv_to_str v with Some s => Ok (Some s) | None => Err e end
  end.

Definition bearer_token (value : string) : option string :=
  match split_once " " value with
  | None => None
  | Some (scheme, token) =>
      if eq_ignore_ascii_case scheme "bearer" && negb (string_is_empty (trim token))
      then Some (trim token) else None
  end.

Definition presented_token (headers : HeaderMap) : result (option string) DataPlaneError :=
  let? api_key := header_text_of headers "x-api-key" DpUnauthorized in
  let api_key := option_filter (fun v => negb (string_is_empty v)) (trim <$> api_key) in
  let? authorization := header_text_of headers "authorization" DpUnauthorized in
  let bearer := authorization ≫= bearer_token in
  match api_key, bearer with
  | Some a, Some b => if bool_decide (a = b) then Ok (Some a) else Err DpUnauthorized
  | _, _ => Ok (option_or api_key bearer)
  end.

Record ProxyRequest := {
  req_method : string;
  path_and_query : string;
  session_from_path : option string;
  req_headers : HeaderMap;
  req_body : string
}.

Definition session_valid (value : string) : bool :=
  negb (string_is_empty value) && (byte_length value <=? 256) && string_all is_session_char value.

Definition session_id (request : ProxyRequest) : result (option string) DataPlaneError :=
  let? header := header_text_of (req_headers request) "x-llmap-session"
                   (BadRequest "invalid session header") in
  match session_from_path request, header with
  | Some p, Some h =>
      if negb (bool_decide (p = h))
      then Err (BadRequest "path and header session identifiers disagree")
      else if session_valid p then Ok (Some p)
      else Err (BadRequest "session identifiers must be 1-256 URL-safe characters")
  | path, header =>
      match option_or path header with
      | None => Ok None
      | Some value => if session_valid value then Ok (Some value)
                      else Err (BadRequest "session identifiers must be 1-256 URL-safe characters")
      end
  end.

(** The loop over the incoming headers; [entry(..).or_insert_with(..)] keeps a value
    that is already there. *)
Fixpoint copy_headers (incoming : list (string * HeaderValue)) (outgoing : gmap string string) :
    result (gmap string string) DataPlaneError :=
  match incoming with
  | [] => Ok outgoing
  | (name, value) :: rest =>
      if request_header_allowed name then
        match hv_to_str value with
        | None => Err (BadRequest ("header " +:+ name +:+ " is not valid text"))
        | Some text =>
            copy_headers rest (match outgoing !! name with
                               | Some _ => outgoing
                               | None => <[name := text]> outgoing
                               end)
        end
      else copy_headers rest outgoing
  end.

Definition copy_safe_request_headers (incoming : HeaderMap) (outgoing : gmap string string) :
    result (gmap string string) DataPlaneError := copy_headers (hm_iter incoming) outgoing.

Definition safe_response_headers (incoming : HeaderMap) : HeaderMap :=
  fold_left (fun out nv => if response_header_allowed nv.1 then hm_append out nv.1 nv.2 else out)
    (hm_iter incoming) hm_empty.

Definition retry_after (headers : HeaderMap) (fallback_seconds : Z) : Duration :=
  seconds (default fallback_seconds
    (option_filter (fun s => (1 <=? s) && (s <=? 3600))
       ((hm_get headers "retry-after" ≫= hv_to_str) ≫= parse_i64))).

Definition classify_status (status : Z) (headers : HeaderMap) (now : DateTime) : UpstreamOutcome :=
  if (status =? 401) || (status =? 403) then Unauthorized
  else if status =? 429 then RateLimited (now + retry_after headers 60)
  else if status =? 529 then Overloaded (now + retry_after headers 30)
  else if (500 <=? status) && (status <=? 599) then TransientFailure
  else Success.
End Headers.

(** ** JSON bodies: [Value::Object] is an ordered map *)

Definition value_set (key : string) (v : Value) (fields : list (string * Value)) :
    list (string * Value) :=
  map (fun kv => if bool_decide (kv.1 = key) then (kv.1, v) else kv) fields.

Definition object_remove (key : string) (fields : list (string * Value)) : list (string * Value) :=
  List.filter (fun kv => negb (bool_decide (kv.1 = key))) fields.

(** Insertion at the key's place in the order of the map. *)
Fixpoint object_insert (key : string) (v : Value) (fields : list (string * Value)) :
    list (string * Value) :=
  match fields with
  | [] => [(key, v)]
  | (k, w) :: rest => match String.compare key k with
                      | Lt => (key, v) :: fields
                      | Eq => (k, v) :: rest
                      | Gt => (k, w) :: object_insert key v rest
                      end
  end.

(** [entry(key).or_insert_with(..)]. *)
Definition object_entry_or_insert (key : string) (v : Value) (fields : list (string * Value)) :
    list (string * Value) :=
  match field key fields with Some _ => fields | None => object_insert key v fields end.

(** ** Effects *)

Inductive RepositoryError := RepoUnavailable | RepoNotFound | RepoInvalidData.

Record ProxyAuditRecord := {
  occurred_at : DateTime;
  actor : string;
  audit_account_id : option string;
  audit_provider : option string;
  audit_model : option string;
  session_fingerprint : option string;
  audit_status : Z;
  audit_outcome : string;
  latency_ms : Z
}.

Inductive metric := RequestsTotal | AuthenticationFailuresTotal | UpstreamFailuresTotal | ResponsesTotal.

Record MetricsSnapshot := {
  requests_total : Z;
  authentication_failures_total : Z;
  upstream_failures_total : Z;
  responses_total : Z
}.

(** [fetch_add(1)] on one counter. *)
Definition count_metric (m : MetricsSnapshot) (c : metric) : MetricsSnapshot :=
  let bump which n := match which with true => wrapping_add_u64 n 1 | false => n end in
  let '(a, b, u, r) := match c with
    | RequestsTotal => (true, false, false, false)
    | AuthenticationFailuresTotal => (false, true, false, false)
    | UpstreamFailuresTotal => (false, false, true, false)
    | ResponsesTotal => (false, false, false, true)
    end in
  {| requests_total := bump a (requests_total m);
     authentication_failures_total := bump b (authentication_failures_total m);
     upstream_failures_total := bump u (upstream_failures_total m);
     responses_total := bump r (responses_total m) |}.

Section Programs.
Context `{U : UrlLib} `{H : HeaderLib}.

Record UpstreamRequest := {
  up_account_id : string;
  up_method : string;
  up_url : Url;
  up_body : string;
  up_egress_proxies : list string;
  up_headers : gmap string string
}.

(** A body is what the provider sends, or its translation. *)
Inductive Body :=
| RawBody (items : list stream_item)
| TranslatedBody (items : option (list (result string io_error))).

Record UpstreamResponse := { resp_status : Z; resp_headers : HeaderMap; resp_body : Body }.
Record ProxyResponse := { proxy_status : Z; proxy_headers : HeaderMap; proxy_body : Body }.

Inductive TransportError := TransportFailed.

Inductive effect :=
| ECount (c : metric)
| ENow
| EElapsed
| ESnapshot (now : DateTime)
| ELoad (aid : string)
| EAudit (record : ProxyAuditRecord)
| EChoose (request : RouteRequest) (now : DateTime)
| EStart (aid : string)
| ERecord (aid : string) (outcome : UpstreamOutcome)
| ESend (request : UpstreamRequest).

Definition answer (e : effect) : Type :=
  match e with
  | ECount _ => unit
  | ENow => DateTime
  | EElapsed => Z
  | ESnapshot _ => result CredentialSnapshot RepositoryError
  | ELoad _ => result (ProviderAccount * string) RepositoryError
  | EAudit _ => result unit RepositoryError
  | EChoose _ _ => result RouteSelection RouteError
  | EStart _ | ERecord _ _ => result unit RouteError
  | ESend _ => result UpstreamResponse TransportError
  end.

Inductive prog (A : Type) : Type :=
| Ret (a : A)
| Do (e : effect) (k : answer e -> prog A).
Arguments Ret {A} a.
Arguments Do {A} e k.

(** ** [DataPlane::handle] *)

Record DataPlane := {
  auth_mode : AuthMode;
  authenticator : Authenticator;
  max_request_bytes : Z
}.

Definition outcome_name (o : UpstreamOutcome) : string :=
  match o with
  | Success => "success"
  | Unauthorized => "upstream_unauthorized"
  | RateLimited _ => "rate_limited"
  | Overloaded _ => "overloaded"
  | TransientFailure => "transient_failure"
  end.

End Programs.
Arguments Ret {U H A} a.
Arguments Do {U H A} e k.

(** [perform x := e in k]: the effect [e] answers [x].
    [attempt x := r in k]: [?] on a result inside a handler. *)
Notation "'perform' x ':=' e 'in' k" := (Do e (fun x => k))
  (at level 10, x name, e at level 200, k at level 200,
   format "'[v' 'perform'  x  ':='  e  'in' '/' k ']'").
Notation "'attempt' x ':=' r 'in' k" :=
  (match r with Ok x => k | Err err => Ret (Some (Err err)) end)
  (at level 10, x name, r at level 200, k at level 200,
   format "'[v' 'attempt'  x  ':='  r  'in' '/' k ']'").

Section Handler.
Context `{U : UrlLib} `{H : HeaderLib} `{L : CryptoLib} `{J : JsonLib}.
Context (crc32 : bytes -> Z) (base64_decode : string -> option bytes)
        (parse_aws_envelope : string -> option AwsCredentialEnvelope)
        (format_date format_amz_date : DateTime -> string).

(** The end of a handler: [Some] of the returned [Result], [None] for a panic. *)
Abbreviation handler := (prog (option (result ProxyResponse DataPlaneError))).

(** What the handler knows once the client is authenticated and the request parsed. *)
Record request_context := {
  ctx_now : DateTime;
  ctx_decision : AuthDecision;
  ctx_session : option string;
  ctx_json : option Value;
  ctx_model : string;
  ctx_stream : bool
}.

Definition client_actor (d : AuthDecision) : string :=
  match matched_account_id d with Some aid => "client:" +:+ aid | None => "client:anonymous" end.

Definition audit_record (dp : DataPlane) (c : request_context) (account provider : string)
    (status : Z) (outcome : string) (elapsed : Z) : ProxyAuditRecord :=
  {| occurred_at := ctx_now c;
     actor := client_actor (ctx_decision c);
     audit_account_id := Some account;
     audit_provider := Some provider;
     audit_model := if string_is_empty (ctx_model c) then None else Some (ctx_model c);
     session_fingerprint := metadata_fingerprint hmac_sha256 (authenticator dp) <$> ctx_session c;
     audit_status := status;
     audit_outcome := outcome;
     latency_ms := elapsed |}.

(** The body that is sent: a Bedrock message without [model] and [stream] and with a
    version, another JSON body with its model renamed, anything else as it came. *)
Definition upstream_body (account : ProviderAccount) (request : ProxyRequest)
    (json : option Value) (upstream_model : string) : result string DataPlaneError :=
  match json with
  | None => Ok (req_body request)
  | Some value =>
      if is_bedrock (kind account) && is_messages_path (path_and_query request) then
        match value with
        | VObject fields =>
            Ok (json_print (VObject
              (object_entry_or_insert "anthropic_version" (VString "bedrock-2023-05-31")
                 (object_remove "stream" (object_remove "model" fields)))))
        | _ => Err (BadRequest "messages body must be a JSON object")
        end
      else Ok (json_print match value with
                          | VObject fields => VObject (value_set "model" (VString upstream_model) fields)
                          | other => other
                          end)
  end.

(** [translate_bedrock_eventstream] with the header changes around it. *)
Definition translate_response (account : ProviderAccount) (stream : bool) (up : UpstreamResponse) :
    UpstreamResponse :=
  if stream && is_bedrock (kind account) && (200 <=? resp_status up) && (resp_status up <=? 299)
  then {| resp_status := resp_status up;
          resp_headers := hm_insert (hm_remove (resp_headers up) "content-length") "content-type"
                            (hv_from_static "text/event-stream; charset=utf-8");
          resp_body := match resp_body up with
                       | RawBody items =>
                           TranslatedBody (translate_bedrock_eventstream crc32 base64_decode items)
                       | other => other
                       end |}
  else up.

(** After a response: classification, accounting, audit, reply. *)
Definition respond (dp : DataPlane) (c : request_context) (account : ProviderAccount)
    (selection : RouteSelection) (upstream : UpstreamResponse) : handler :=
  let upstream := translate_response account (ctx_stream c) upstream in
  let outcome := classify_status (resp_status upstream) (resp_headers upstream) (ctx_now c) in
  perform recorded := ERecord (id account) outcome in
  attempt _ := map_err (fun _ => NoCapacity) recorded in
  perform _ := ECount ResponsesTotal in
  perform elapsed := EElapsed in
  perform _ := EAudit (audit_record dp c (id account) (sel_provider selection)
                         (resp_status upstream) (outcome_name outcome) elapsed) in
  Ret (Some (Ok {| proxy_status := resp_status upstream;
                   proxy_headers := safe_response_headers (resp_headers upstream);
                   proxy_body := resp_body upstream |})).

(** The upstream call itself. *)
Definition dispatch (dp : DataPlane) (c : request_context) (account : ProviderAccount)
    (selection : RouteSelection) (upstream_request : UpstreamRequest) : handler :=
  perform started := EStart (id account) in
  attempt _ := map_err (fun _ => NoCapacity) started in
  perform sent := ESend upstream_request in
  match sent with
  | Ok upstream => respond dp c account selection upstream
  | Err _ =>
      perform _ := ERecord (id account) TransientFailure in
      perform _ := ECount UpstreamFailuresTotal in
      perform elapsed := EElapsed in
      perform _ := EAudit (audit_record dp c (id account) (sel_provider selection)
                             502 "transport_failure" elapsed) in
      Ret (Some (Err UpstreamUnavailable))
  end.

Definition load_error (e : RepositoryError) : DataPlaneError :=
  match e with
  | RepoUnavailable => CredentialStoreUnavailable
  | RepoNotFound | RepoInvalidData => NoCapacity
  end.

(** The upstream request, from the account and the client's request. *)
Definition build_upstream (c : request_context) (request : ProxyRequest) (account : ProviderAccount)
    (credential : string) : option (result UpstreamRequest DataPlaneError) :=
  let! prepared := Some (map_err (fun _ => UpstreamUnavailable)
    (prepare_request_for_stream account credential (path_and_query request) (ctx_model c)
       (ctx_stream c))) in
  let! body := Some (upstream_body account request (ctx_json c) (upstream_model prepared)) in
  let! copied := Some (copy_safe_request_headers (req_headers request) (headers prepared)) in
  let with_headers := {| url := url prepared; upstream_model := upstream_model prepared;
                         headers := copied |} in
  let! final := map_err (fun _ => UpstreamUnavailable) <$>
    finalize_request_auth parse_aws_envelope format_date format_amz_date account credential
      (req_method request) body (ctx_now c) with_headers in
  Some (Ok {| up_account_id := id account; up_method := req_method request; up_url := url final;
              up_body := body; up_egress_proxies := egress_proxies account;
              up_headers := headers final |}).

(** From routing to the upstream call. *)
Definition route (dp : DataPlane) (c : request_context) (request : ProxyRequest) : handler :=
  perform chosen := EChoose {| req_session_id := ctx_session c; req_model := ctx_model c |} (ctx_now c) in
  attempt selection := map_err (fun _ => NoCapacity) chosen in
  perform loaded := ELoad (sel_account_id selection) in
  attempt pair := map_err load_error loaded in
  match build_upstream c request pair.1 pair.2 with
  | None => Ret None
  | Some built =>
      attempt upstream_request := built in
      dispatch dp c pair.1 selection upstream_request
  end.

(** The parsed body and what is read from it. *)
Definition parse_body (request : ProxyRequest) : option Value :=
  if string_is_empty (req_body request) then None else json_parse (req_body request).
Definition requested_model (json : option Value) : string :=
  default "" ((json ≫= value_get "model") ≫= as_str).
Definition stream_requested (json : option Value) : bool :=
  default false ((json ≫= value_get "stream") ≫= as_bool).

(** After authentication. *)
Definition admitted (dp : DataPlane) (now : DateTime) (decision : AuthDecision)
    (request : ProxyRequest) : handler :=
  attempt session := session_id request in
  let json := parse_body request in
  let model := requested_model json in
  if starts_with "/v1/messages" (path_and_query request) && string_is_empty model
  then Ret (Some (Err (BadRequest "messages requests require a JSON model field")))
  else route dp {| ctx_now := now; ctx_decision := decision; ctx_session := session;
                   ctx_json := json; ctx_model := model; ctx_stream := stream_requested json |} request.

Definition map_auth_error (e : AuthError) : DataPlaneError :=
  match e with
  | AuthUnauthorized => DpUnauthorized
  | AuthStoreUnavailable => CredentialStoreUnavailable
  end.

(** The reply to a client that failed authentication. *)
Definition reject (now : DateTime) (error : AuthError) : handler :=
  perform _ := ECount AuthenticationFailuresTotal in
  perform elapsed := EElapsed in
  perform _ := EAudit {| occurred_at := now; actor := "client:unmatched"; audit_account_id := None;
                         audit_provider := None; audit_model := None; session_fingerprint := None;
                         audit_status := dp_status (map_auth_error error);
                         audit_outcome := "authentication_failed"; latency_ms := elapsed |} in
  Ret (Some (Err (map_auth_error error))).

Definition handle (dp : DataPlane) (request : ProxyRequest) : handler :=
  perform _ := ECount RequestsTotal in
  if max_request_bytes dp <? byte_length (req_body request)
  then Ret (Some (Err (BadRequest ("request body exceeds the "
                                   +:+ pretty (max_request_bytes dp) +:+ " byte limit"))))
  else
    attempt token := presented_token (req_headers request) in
    perform now := ENow in
    perform snapshot := ESnapshot now in
    attempt snapshot := map_err (fun _ => CredentialStoreUnavailable) snapshot in
    match authorize hmac_sha256 (authenticator dp) (auth_mode dp) token snapshot now with
    | Err error => reject now error
    | Ok decision =>
        if observed_failure decision
        then perform _ := ECount AuthenticationFailuresTotal in admitted dp now decision request
        else admitted dp now decision request
    end.
End Handler.

(** ** Executions

    [all_paths p hist Post]: whatever the environment answers, [p] ends with a history
    of effects and answers and a result that satisfy [Post]. *)
Section Executions.
Context `{U : UrlLib} `{H : HeaderLib}.

Definition event : Type := { e : effect & answer e }.
Definition ev (e : effect) (x : answer e) : event := existT e x.

Fixpoint all_paths {A} (p : prog A) (hist : list event) (Post : list event -> A -> Prop) : Prop :=
  match p with
  | Ret a => Post hist a
  | Do e k => forall x, all_paths (k x) (hist ++ [ev e x]) Post
  end.

Lemma all_paths_mono {A} (p : prog A) hist (P Q : list event -> A -> Prop) :
  (forall h a, hist `prefix_of` h -> P h a -> Q h a) -> all_paths p hist P -> all_paths p hist Q.
Proof.
  revert hist. induction p as [a|e k IH]; cbn; intros hist HPQ; [by apply HPQ|].
  intros Hp x. apply (IH x (hist ++ [ev e x])); [|exact (Hp x)].
  intros h a Hh. apply HPQ. etrans; [|exact Hh]. by apply prefix_app_r.
Qed.

Lemma all_paths_and {A} (p : prog A) hist (P Q : list event -> A -> Prop) :
  all_paths p hist P -> all_paths p hist Q -> all_paths p hist (fun h a => P h a /\ Q h a).
Proof. revert hist. induction p as [a|e k IH]; intros hist; cbn; [done|]. intros Hp Hq x. by apply IH. Qed.

Lemma all_paths_true {A} (p : prog A) hist : all_paths p hist (fun _ _ => True).
Proof. revert hist. induction p as [a|e k IH]; intros hist; cbn; [done|]. intros x. apply IH. Qed.

(** The environment as a function with a state: the executable reading of a program. *)
Fixpoint run {A S} (world : forall e : effect, S -> answer e * S) (p : prog A) (s : S) : A * S :=
  match p with
  | Ret a => (a, s)
  | Do e k => let '(x, s) := world e s in run world (k x) s
  end.

(** Effects only happen after [ok] holds of what has happened before. *)
Definition guarded_by (touches : effect -> bool) (ok : list event -> Prop) (hist : list event) : Prop :=
  forall before e x after, hist = before ++ ev e x :: after -> touches e = true -> ok before.

(** The router operations of an effect, atomically on the shared router; any other
    effect may be answered in any way. *)
Definition exec (r : Router) (e : effect) : answer e -> Router -> Prop :=
  match e return answer e -> Router -> Prop with
  | EChoose request now => fun x r' => (r', x) = choose r request now
  | EStart aid => fun x r' => (r', x) = start_request r aid
  | ERecord aid o => fun x r' => (r', x) = record_outcome r aid o
  | _ => fun _ r' => r' = r
  end.

(** ** Load accounting: the account whose load a program has to give back *)

Definition held_after (e : effect) : answer e -> option string -> option string :=
  match e return answer e -> option string -> option string with
  | EStart aid => fun x h => if is_ok x then Some aid else h
  | ERecord _ _ => fun _ _ => None
  | _ => fun _ h => h
  end.

(** A program that holds [h] records an outcome for the account it started, exactly
    once, before it starts another or ends. *)
Fixpoint balanced {A} (h : option string) (p : prog A) : Prop :=
  match p with
  | Ret _ => h = None
  | Do e k =>
      match e with
      | EStart _ => h = None
      | ERecord aid _ => h = Some aid
      | _ => True
      end /\ forall x, balanced (held_after e x h) (k x)
  end.
End Executions.

Section Accounting.
Context `{U : UrlLib} `{H : HeaderLib} `{L : CryptoLib} `{J : JsonLib}.
Context (crc32 : bytes -> Z) (base64_decode : string -> option bytes)
        (parse_aws_envelope : string -> option AwsCredentialEnvelope)
        (format_date format_amz_date : DateTime -> string).

Abbreviation handler := (prog (option (result ProxyResponse DataPlaneError))).
Abbreviation handle' := (handle crc32 base64_decode parse_aws_envelope format_date format_amz_date).
Abbreviation respond' := (respond crc32 base64_decode).
Abbreviation dispatch' := (dispatch crc32 base64_decode).

Lemma respond_balanced dp c account selection up :
  balanced (Some (id account)) (respond' dp c account selection up).
Proof.
  cbn. split; [done|]. intros [u|e]; cbn; [|done].
  split; [done|]. intros _. split; [done|]. intros elapsed. split; [done|]. by intros _.
Qed.

Lemma dispatch_balanced dp c account selection r :
  balanced None (dispatch' dp c account selection r).
Proof.
  unfold dispatch. cbn [balanced held_after]. split; [done|]. intros [[]|e]; cbn [map_err is_ok]; [|done].
  split; [done|]. intros [up|e]; cbn [held_after]; [apply respond_balanced|].
  cbn. repeat (split; [done|]; intros ?). done.
Qed.

(** Every path of the handler gives back exactly the load it took. *)
Lemma handle_balanced dp request : balanced None (handle' dp request).
Proof.
  assert (Hroute : forall c, balanced None (route crc32 base64_decode parse_aws_envelope format_date
                                              format_amz_date dp c request)).
  { intros c. unfold route. split; [done|]. intros [sel|e]; cbn [map_err held_after]; [|done].
    split; [done|]. intros [pair|e]; cbn [map_err held_after]; [|done].
    destruct (build_upstream _ _ _ _ _ _ _) as [[ur|e]|]; [apply dispatch_balanced|done|done]. }
  assert (Hadm : forall now d, balanced None (admitted crc32 base64_decode parse_aws_envelope
                                 format_date format_amz_date dp now d request)).
  { intros now d. unfold admitted. destruct (session_id request); [|done].
    destruct (_ && _); [done|]. apply Hroute. }
  unfold handle. split; [done|]. intros ?. cbn [held_after]. destruct (_ <? _); [done|].
  destruct (presented_token _) as [token|e]; [|done].
  split; [done|]. intros now. split; [done|]. intros [snap|e]; cbn [map_err held_after]; [|done].
  destruct (authorize _ _ _ _ _ _) as [d|e].
  - destruct (observed_failure d); [split; [done|]; intros ?|]; apply Hadm.
  - cbn. repeat (split; [done|]; intros ?). done.
Qed.

(** ** The pool of concurrent requests *)

(** [dropped]: what each cancelled request held. *)
Record pool := {
  pool_router : Router;
  threads : list (option string * handler);
  dropped : list (option string)
}.

Definition set_pool_router (s : pool) (r : Router) : pool :=
  {| pool_router := r; threads := threads s; dropped := dropped s |}.

(** A request arrives, one effect of one request happens, a request is cancelled (the
    server drops the future of the handler when its client disconnects, and the rest of
    the handler does not run), the accounts are reloaded (with the counters at zero, as
    the store's rows are), health is reset or the sessions are counted. *)
Inductive pool_step (dp : DataPlane) : pool -> pool -> Prop :=
| ps_spawn s request :
    pool_step dp s {| pool_router := pool_router s; threads := (None, handle' dp request) :: threads s;
                      dropped := dropped s |}
| ps_effect s i h e k x r' :
    threads s !! i = Some (h, Do e k) -> exec (pool_router s) e x r' ->
    pool_step dp s {| pool_router := r'; threads := <[i := (held_after e x h, k x)]> (threads s);
                      dropped := dropped s |}
| ps_drop s i h p :
    threads s !! i = Some (h, p) ->
    pool_step dp s {| pool_router := pool_router s; threads := delete i (threads s); dropped := h :: dropped s |}
| ps_reload s l :
    Forall (fun a => Routing.in_flight a = 0) l ->
    pool_step dp s (set_pool_router s (replace_accounts (pool_router s) l))
| ps_reset s aid : pool_step dp s (set_pool_router s (reset_account_health (pool_router s) aid).1)
| ps_count s now : pool_step dp s (set_pool_router s (session_count (pool_router s) now).1).

Definition pool_initial (l : list RouteAccount) : pool :=
  {| pool_router := router_new l; threads := []; dropped := [] |}.

Inductive pool_reachable (dp : DataPlane) : pool -> Prop :=
| pool_start l : Forall (fun a => Routing.in_flight a = 0) l -> pool_reachable dp (pool_initial l)
| pool_next s s' : pool_reachable dp s -> pool_step dp s s' -> pool_reachable dp s'.

(** Steps in which the account stays in the router with its [enabled] flag; a reload
    that removes it or flips the flag starts its counter afresh. *)
Definition kept_step (dp : DataPlane) (aid : string) (s s' : pool) : Prop :=
  pool_step dp s s' /\
  exists a a', Routing.accounts (pool_router s) !! aid = Some a /\
    Routing.accounts (pool_router s') !! aid = Some a' /\ Routing.enabled a' = Routing.enabled a.

(** How many requests hold load of an account. *)
Definition holders (aid : string) (ts : list (option string * handler)) : Z :=
  Z.of_nat (length (List.filter (fun t => bool_decide (t.1 = Some aid)) ts)).

Lemma holders_insert aid ts i h p h' p' :
  ts !! i = Some (h, p) ->
  holders aid (<[i := (h', p')]> ts)
  = holders aid ts - (if bool_decide (h = Some aid) then 1 else 0)
    + (if bool_decide (h' = Some aid) then 1 else 0).
Proof.
  intros Hi. rewrite insert_take_drop by (by eapply lookup_lt_Some).
  rewrite <- (take_drop_middle ts i (h, p) Hi) at 3. unfold holders.
  rewrite !List.filter_app, !length_app. cbn.
  do 2 case_bool_decide; cbn; lia.
Qed.

Lemma holders_bounds aid ts : 0 <= holders aid ts <= Z.of_nat (length ts).
Proof. unfold holders. pose proof (List.filter_length_le (fun t => bool_decide (t.1 = Some aid)) ts). lia. Qed.

Lemma holder_counted aid ts i (p : handler) :
  ts !! i = Some (Some aid, p) -> 1 <= holders aid ts.
Proof.
  intros Hi. unfold holders.
  assert (Hin : (Some aid, p) ∈ List.filter (fun t => bool_decide (t.1 = Some aid)) ts).
  { rewrite elem_of_bool_filter. split; [by eapply list_elem_of_lookup_2|]. by apply bool_decide_eq_true. }
  destruct (List.filter _ _); [set_solver|]. cbn. lia.
Qed.

(** Cancelled requests that held load of an account. *)
Definition leaked (aid : string) (d : list (option string)) : Z :=
  Z.of_nat (length (List.filter (fun h => bool_decide (h = Some aid)) d)).

(** The load requests have taken and not given back: those running, and those cancelled. *)
Definition taken (aid : string) (s : pool) : Z := holders aid (threads s) + leaked aid (dropped s).

Lemma leaked_bounds aid d : 0 <= leaked aid d <= Z.of_nat (length d).
Proof. unfold leaked. pose proof (List.filter_length_le (fun h => bool_decide (h = Some aid)) d). lia. Qed.

Lemma taken_drop aid s i h p :
  threads s !! i = Some (h, p) ->
  holders aid (delete i (threads s)) + leaked aid (h :: dropped s) = taken aid s.
Proof.
  intros Hi. unfold taken, holders, leaked. rewrite delete_take_drop.
  rewrite <- (take_drop_middle _ _ _ Hi) at 3. rewrite !List.filter_app, !length_app. cbn.
  case_bool_decide; cbn; lia.
Qed.

(** Requests that have ended hold nothing. *)
Lemma finished_hold_nothing aid (ts : list (option string * handler)) :
  Forall (fun t => balanced t.1 t.2) ts -> Forall (fun t => exists r, t.2 = Ret r) ts ->
  holders aid ts = 0.
Proof.
  unfold holders. intros Hbal Hdone. induction ts as [|[h p] ts IH]; [done|].
  apply Forall_cons in Hbal as [Hb Hbal]. apply Forall_cons in Hdone as [[r Hr] Hdone].
  cbn in *. subst p. cbn in Hb. subst h. cbn. by apply IH.
Qed.

Record pool_inv (s : pool) : Prop := {
  inv_balanced : Forall (fun t => balanced t.1 t.2) (threads s);
  inv_load : forall aid a, Routing.accounts (pool_router s) !! aid = Some a ->
    0 <= Routing.in_flight a <= taken aid s
}.

Lemma merged_load r a : Routing.in_flight a = 0 ->
  Routing.in_flight (merge_account r a) = 0 \/
  exists a0, Routing.accounts r !! Routing.id a = Some a0 /\
    Routing.in_flight (merge_account r a) = Routing.in_flight a0.
Proof.
  intros H0. unfold merge_account. destruct (Routing.accounts r !! Routing.id a) as [a0|]; cbn; [|by left].
  destruct (Bool.eqb _ _); cbn; [right; by exists a0|by left].
Qed.

(** Decide which account a thread holds before and after an effect. *)
Ltac load_cases := cbn; repeat (case_bool_decide; simplify_eq); try done; cbn.

(** What a router effect does to the loads, given what the thread holds. *)
Lemma exec_load r e x r' h aid a' :
  exec r e x r' -> Routing.accounts r' !! aid = Some a' ->
  (match e with EStart _ => h = None | ERecord b _ => h = Some b | _ => True end) ->
  exists a, Routing.accounts r !! aid = Some a /\
    let before := if bool_decide (h = Some aid) then 1 else 0 in
    let after := if bool_decide (held_after e x h = Some aid) then 1 else 0 in
    (0 <= Routing.in_flight a -> 0 <= Routing.in_flight a' <= Z.max 0 (Routing.in_flight a - before) + after).
Proof.
  intros Hexec Ha' Hh.
  assert (Hsame : Routing.accounts r' = Routing.accounts r -> held_after e x h = h ->
    exists a, Routing.accounts r !! aid = Some a /\
      let before := if bool_decide (h = Some aid) then 1 else 0 in
      let after := if bool_decide (held_after e x h = Some aid) then 1 else 0 in
      (0 <= Routing.in_flight a -> 0 <= Routing.in_flight a' <= Z.max 0 (Routing.in_flight a - before) + after)).
  { intros Heq ->. exists a'. rewrite <- Heq. split; [done|]. cbn. case_bool_decide; lia. }
  destruct e as [| | | | | |request now|b|b o|]; cbn in Hexec;
    try (apply Hsame; [by subst r'|done]).
  - apply Hsame; [|done]. pose proof (choose_accounts r request now) as Hc.
    by rewrite <- Hexec in Hc.
  - subst h. unfold start_request in Hexec.
    destruct (Routing.accounts r !! b) as [a|] eqn:E; injection Hexec as -> ->; [|by apply Hsame].
    cbn in Ha'. apply lookup_insert_Some in Ha' as [[<- <-]|[Hne Ha']].
    + exists a. split; [done|]. load_cases; unfold saturating_add, U32_MAX; lia.
    + exists a'. split; [done|]. load_cases; lia.
  - subst h. unfold record_outcome in Hexec.
    destruct (Routing.accounts r !! b) as [a|] eqn:E; injection Hexec as -> ->.
    + cbn in Ha'. apply lookup_insert_Some in Ha' as [[<- <-]|[Hne Ha']].
      * exists a. split; [done|]. destruct o; load_cases; unfold saturating_sub; lia.
      * exists a'. split; [done|]. load_cases; lia.
    + exists a'. split; [done|]. load_cases; lia.
Qed.

Lemma reload_load r l aid a :
  Forall (fun a => Routing.in_flight a = 0) l ->
  Routing.accounts (replace_accounts r l) !! aid = Some a ->
  Routing.in_flight a = 0 \/
  exists a0, Routing.accounts r !! aid = Some a0 /\ Routing.in_flight a = Routing.in_flight a0.
Proof.
  intros Hl Ha. cbn in Ha. apply collect_accounts_lookup in Ha as [Hin <-].
  apply list_elem_of_fmap in Hin as (b & -> & Hb). rewrite Forall_forall in Hl.
  rewrite merge_account_id. by apply merged_load, Hl.
Qed.

Lemma reset_load r b aid a : Routing.accounts (reset_account_health r b).1 !! aid = Some a ->
  exists a0, Routing.accounts r !! aid = Some a0 /\ Routing.in_flight a = Routing.in_flight a0.
Proof.
  unfold reset_account_health. destruct (Routing.accounts r !! b) as [a0|] eqn:E; cbn; [|by exists a].
  intros [[<- <-]|[_ Ha]]%lookup_insert_Some; [by exists a0|by exists a].
Qed.

Lemma pool_step_inv dp s s' : pool_inv s -> pool_step dp s s' -> pool_inv s'.
Proof.
  intros [Hbal Hload] Hstep.
  destruct Hstep as [s request|s i h e k x r' Hi Hexec|s i h p Hi|s l Hl|s aid|s now]; split; cbn; try done.
  - constructor; [apply handle_balanced|done].
  - apply Forall_insert; [done|]. rewrite Forall_lookup in Hbal. apply (Hbal _ _ Hi).
  - intros aid a' Ha'. rewrite Forall_lookup in Hbal. pose proof (proj1 (Hbal _ _ Hi)) as Hh.
    destruct (exec_load _ _ _ _ h aid a' Hexec Ha' Hh) as (a & Ha & Hle).
    specialize (Hload aid a Ha). unfold taken in *. cbn in Hle |- *.
    rewrite (holders_insert aid _ _ _ _ (held_after e x h) (k x) Hi). pose proof (leaked_bounds aid (dropped s)).
    assert (Hpos : (if bool_decide (h = Some aid) then 1 else 0) <= holders aid (threads s)).
    { case_bool_decide as Hd; [subst h; by eapply holder_counted|apply holders_bounds]. }
    lia.
  - by apply Forall_delete.
  - intros aid a Ha. unfold taken. cbn. rewrite (taken_drop aid s i h p Hi). by apply Hload.
  - intros aid a Ha. destruct (reload_load _ _ _ _ Hl Ha) as [->|(a0 & Ha0 & ->)]; [|by apply Hload].
    pose proof (holders_bounds aid (threads s)). pose proof (leaked_bounds aid (dropped s)). unfold taken. cbn. lia.
  - intros b a (a0 & Ha0 & ->)%reset_load. by apply Hload.
Qed.

Lemma pool_reachable_inv dp s : pool_reachable dp s -> pool_inv s.
Proof.
  induction 1 as [l Hl|s s' _ IH Hstep]; [|by eapply pool_step_inv].
  split; cbn; [done|]. intros aid a [Hin _]%collect_accounts_lookup.
  rewrite Forall_forall in Hl. rewrite (Hl a Hin). unfold taken, holders, leaked. cbn. lia.
Qed.

(** ** Exact accounting *)

(** The counter of [aid] is the load that has been taken. *)
Definition load_exact (aid : string) (s : pool) : Prop :=
  Forall (fun t => balanced t.1 t.2) (threads s) /\
  exists a, Routing.accounts (pool_router s) !! aid = Some a /\ Routing.in_flight a = taken aid s.

Lemma exec_load_exact r e x r' h aid a :
  exec r e x r' -> Routing.accounts r !! aid = Some a ->
  (match e with EStart _ => h = None | ERecord b _ => h = Some b | _ => True end) ->
  (if bool_decide (h = Some aid) then 1 else 0) <= Routing.in_flight a < U32_MAX ->
  exists a', Routing.accounts r' !! aid = Some a' /\
    Routing.in_flight a' = Routing.in_flight a - (if bool_decide (h = Some aid) then 1 else 0)
                           + (if bool_decide (held_after e x h = Some aid) then 1 else 0).
Proof.
  intros Hexec Ha Hh Hb.
  assert (Hsame : Routing.accounts r' = Routing.accounts r -> held_after e x h = h ->
    exists a', Routing.accounts r' !! aid = Some a' /\
      Routing.in_flight a' = Routing.in_flight a - (if bool_decide (h = Some aid) then 1 else 0)
                           + (if bool_decide (held_after e x h = Some aid) then 1 else 0)).
  { intros Heq ->. exists a. rewrite Heq. split; [done|]. lia. }
  destruct e as [| | | | | |request now|b|b o|]; cbn in Hexec;
    try (apply Hsame; [by subst r'|done]).
  - apply Hsame; [|done]. pose proof (choose_accounts r request now) as Hc.
    by rewrite <- Hexec in Hc.
  - subst h. unfold start_request in Hexec.
    destruct (Routing.accounts r !! b) as [a0|] eqn:E; injection Hexec as -> ->; [|by apply Hsame].
    destruct (decide (b = aid)) as [->|Hne]; cbn.
    + rewrite lookup_insert_eq. eexists. split; [done|]. replace a0 with a by congruence.
      load_cases; unfold saturating_add, U32_MAX in *; lia.
    + rewrite lookup_insert_ne by done. exists a. split; [done|]. load_cases; lia.
  - subst h. unfold record_outcome in Hexec.
    destruct (Routing.accounts r !! b) as [a0|] eqn:E; injection Hexec as -> ->;
      (destruct (decide (b = aid)) as [->|Hne]; cbn; [try congruence|]).
    + rewrite lookup_insert_eq. eexists. split; [done|]. replace a0 with a by congruence.
      revert Hb. destruct o; load_cases; unfold saturating_sub; lia.
    + rewrite lookup_insert_ne by done. exists a. split; [done|]. load_cases; lia.
    + exists a. split; [done|]. load_cases; lia.
Qed.

(** Requests that have arrived so far and not been cleared away. *)
Definition population (s : pool) : Z := Z.of_nat (length (threads s) + length (dropped s)).

Lemma population_mono dp s s' : pool_step dp s s' -> population s <= population s'.
Proof.
  unfold population. intros Hstep. destruct Hstep as [s request|s i h e k x r' Hi _|s i h p Hi|s l _|s aid|s now]; cbn; try lia.
  - rewrite length_insert. lia.
  - rewrite length_delete by by eexists. apply lookup_lt_Some in Hi. lia.
Qed.

(** A reload that keeps an account's flag keeps its counter. *)
Lemma reload_keeps_load r l aid a a' :
  Routing.accounts r !! aid = Some a -> Routing.accounts (replace_accounts r l) !! aid = Some a' ->
  Routing.enabled a' = Routing.enabled a -> Routing.in_flight a' = Routing.in_flight a.
Proof.
  intros Ha Ha' Hen. cbn in Ha'. apply collect_accounts_lookup in Ha' as [Hin Hid].
  apply list_elem_of_fmap in Hin as (b & -> & _). rewrite merge_account_enabled in Hen. rewrite merge_account_id in Hid.
  unfold merge_account. rewrite Hid, Ha. cbn. by rewrite Hen, Bool.eqb_reflx.
Qed.

Lemma kept_step_exact dp aid s s' :
  kept_step dp aid s s' -> population s' < U32_MAX -> load_exact aid s -> load_exact aid s'.
Proof.
  intros [Hstep (a & a' & Ha & Ha' & Hen)] Hpop [Hbal (a0 & Ha0 & Hload)]. simplify_eq.
  pose proof (population_mono dp s s' Hstep) as Hmono.
  pose proof (holders_bounds aid (threads s)). pose proof (leaked_bounds aid (dropped s)).
  assert (Hinv : Forall (fun t => balanced t.1 t.2) (threads s')).
  { clear -Hbal Hstep. destruct Hstep as [s request|s i h e k x r' Hi _|s i h p Hi|s l _|s b|s now]; cbn; try done.
    - constructor; [apply handle_balanced|done].
    - apply Forall_insert; [done|]. rewrite Forall_lookup in Hbal. apply (Hbal _ _ Hi).
    - by apply Forall_delete. }
  split; [done|]. exists a'. split; [done|].
  destruct Hstep as [s request|s i h e k x r' Hi Hexec|s i h p Hi|s l Hl|s b|s now]; cbn in Ha'; unfold taken in *; cbn.
  - simplify_eq. exact Hload.
  - rewrite Forall_lookup in Hbal. pose proof (Hbal _ _ Hi) as [Hh _]. unfold population in *.
    assert (Hpos : (if bool_decide (h = Some aid) then 1 else 0) <= holders aid (threads s)).
    { case_bool_decide as Hd; [subst h; by eapply holder_counted|lia]. }
    destruct (exec_load_exact _ _ _ _ h aid a Hexec Ha Hh) as (b & Hb & Hf); [lia|]. simplify_eq.
    rewrite (holders_insert aid _ _ _ _ (held_after e x h) (k x) Hi). lia.
  - simplify_eq. pose proof (taken_drop aid s i h p Hi) as Hd. unfold taken in Hd. lia.
  - rewrite (reload_keeps_load _ _ _ _ _ Ha Ha' Hen). exact Hload.
  - apply reset_load in Ha' as (a1 & Ha1 & ->). simplify_eq. exact Hload.
  - simplify_eq. exact Hload.
Qed.

Lemma kept_run_population dp aid s s' : rtc (kept_step dp aid) s s' -> population s <= population s'.
Proof. induction 1 as [|s s1 s' [Hst _] _ IH]; [lia|]. apply population_mono in Hst. lia. Qed.

Lemma kept_run_exact dp aid s s' :
  rtc (kept_step dp aid) s s' -> population s' < U32_MAX -> load_exact aid s -> load_exact aid s'.
Proof.
  intros Hrun Hpop. induction Hrun as [|s s1 s' Hst Hrun IH]; [done|]. intros Hex. apply IH; [done|].
  eapply kept_step_exact; [exact Hst| |done]. apply kept_run_population in Hrun. lia.
Qed.

Lemma initial_exact l aid a :
  Forall (fun a => Routing.in_flight a = 0) l -> Routing.accounts (pool_router (pool_initial l)) !! aid = Some a ->
  load_exact aid (pool_initial l).
Proof.
  intros Hl Ha. split; [constructor|]. exists a. split; [done|]. cbn in Ha. apply collect_accounts_lookup in Ha as [Hin _].
  rewrite Forall_forall in Hl. by rewrite (Hl a Hin).
Qed.

(** Every request has run to its end or was cancelled. *)
Definition quiet (s : pool) : Prop := Forall (fun t => exists r, t.2 = Ret r) (threads s).

(** C2.  Load accounting, with cancellation: in every interleaving of the effects of any
    number of requests with cancellations, account reloads, health resets and session
    counts, an account's in-flight counter is at most the number of requests that have
    started on it and recorded no outcome, running or cancelled; and it is exactly that
    number while the account stays in the router with its [enabled] flag and fewer than
    [u32::MAX] requests have arrived.  So when the running requests have ended the
    counter is the number of requests that were cancelled between start and outcome:
    zero if there were none, and too high by one for each of them (a request dropped
    while it waits for its provider leaks its load). *)
Theorem in_flight_accounting (dp : DataPlane) (s : pool) (aid : string) (a : RouteAccount)
    (Hreach : pool_reachable dp s)
    (Ha : Routing.accounts (pool_router s) !! aid = Some a) :
  0 <= Routing.in_flight a <= taken aid s /\
  (quiet s -> Routing.in_flight a <= leaked aid (dropped s)) /\
  (forall l, Forall (fun b => Routing.in_flight b = 0) l ->
     is_Some (Routing.accounts (router_new l) !! aid) ->
     rtc (kept_step dp aid) (pool_initial l) s -> population s < U32_MAX ->
     Routing.in_flight a = taken aid s /\ (quiet s -> Routing.in_flight a = leaked aid (dropped s))).
Proof.
  destruct (pool_reachable_inv dp s Hreach) as [Hbal Hload]. specialize (Hload aid a Ha).
  assert (Hquiet : quiet s -> taken aid s = leaked aid (dropped s)).
  { intros Hq. unfold taken. by rewrite (finished_hold_nothing aid _ Hbal Hq). }
  split; [done|]. split; [intros Hq; rewrite <- Hquiet by done; lia|].
  intros l Hl [a0 Ha0] Hrun Hpop.
  destruct (kept_run_exact dp aid _ _ Hrun Hpop (initial_exact l aid a0 Hl Ha0)) as [_ (b & Hb & Hex)]. simplify_eq.
  split; [done|]. intros Hq. by rewrite Hex, Hquiet.
Qed.
End Accounting.

(** ** What reaches a provider *)

Section Admission.
Context `{U : UrlLib} `{H : HeaderLib} `{L : CryptoLib} `{J : JsonLib}.
Context (crc32 : bytes -> Z) (base64_decode : string -> option bytes)
        (parse_aws_envelope : string -> option AwsCredentialEnvelope)
        (format_date format_amz_date : DateTime -> string).

Abbreviation handle' := (handle crc32 base64_decode parse_aws_envelope format_date format_amz_date).
Abbreviation admitted' :=
  (admitted crc32 base64_decode parse_aws_envelope format_date format_amz_date).
Abbreviation build' := (build_upstream parse_aws_envelope format_date format_amz_date).

(** Effects on accounts, their load or a provider. *)
Definition touches_account (e : effect) : bool :=
  match e with
  | ELoad _ | EChoose _ _ | EStart _ | ERecord _ _ | ESend _ => true
  | _ => false
  end.

Definition authorized_in (dp : DataPlane) (request : ProxyRequest) (hist : list event) : Prop :=
  exists token now snapshot decision,
    presented_token (req_headers request) = Ok token /\
    ev ENow now ∈ hist /\ ev (ESnapshot now) (Ok snapshot) ∈ hist /\
    authorize hmac_sha256 (authenticator dp) (auth_mode dp) token snapshot now = Ok decision /\
    (auth_mode dp = Enforce -> is_Some (matched_account_id decision)).

(** The last event of a history that ends with [ev e x], or an earlier one. *)
Lemma event_snoc (hist before after : list event) e x e' x' :
  hist ++ [ev e x] = before ++ ev e' x' :: after ->
  (before = hist /\ e' = e) \/ exists after', hist = before ++ ev e' x' :: after'.
Proof.
  intros Heq. destruct after as [|z after] using rev_ind.
  - apply app_inj_tail in Heq as [-> Hev]. apply (f_equal projT1) in Hev. by left.
  - clear IHafter. rewrite app_comm_cons, app_assoc in Heq. apply app_inj_tail in Heq as [-> _]. right. by exists after.
Qed.

Lemma guarded_snoc touches ok hist e x :
  guarded_by touches ok hist -> (touches e = true -> ok hist) ->
  guarded_by touches ok (hist ++ [ev e x]).
Proof.
  intros Hg He before e' x' after [[-> ->]|[after' Hh]]%event_snoc Ht; [by apply He|by eapply Hg].
Qed.

(** Once the condition holds it keeps guarding whatever follows. *)
Lemma guarded_rest {A} (p : prog A) touches ok hist :
  (forall h h', ok h -> ok (h ++ h')) -> ok hist -> guarded_by touches ok hist ->
  all_paths p hist (fun h _ => guarded_by touches ok h).
Proof.
  intros Hmono. revert hist. induction p as [a|e k IH]; cbn; intros hist Hok Hg; [done|].
  intros x. apply IH; [by apply Hmono|by apply guarded_snoc].
Qed.

Lemma guarded_nil touches ok : guarded_by touches ok [].
Proof. intros before e x after Heq. by destruct before. Qed.

Lemma enforce_matches (a : Authenticator) token snapshot now d :
  authorize hmac_sha256 a Enforce token snapshot now = Ok d -> is_Some (matched_account_id d).
Proof.
  cbn. unfold check_snapshot. destruct snapshot; [|done].
  destruct (matching_account _ _ _ _ _); [|done]. intros [= <-]. by eexists.
Qed.

Lemma handle_guarded (dp : DataPlane) (request : ProxyRequest) :
  all_paths (handle' dp request) []
    (fun hist _ => guarded_by touches_account (authorized_in dp request) hist).
Proof.
  unfold handle. cbn [all_paths]. intros []. destruct (_ <? _).
  { apply guarded_snoc; [apply guarded_nil|done]. }
  destruct (presented_token _) as [token|e] eqn:Htok; [|by apply guarded_snoc; [apply guarded_nil|]].
  cbn [all_paths]. intros now [snap|e]; cbn [map_err].
  2:{ do 3 (apply guarded_snoc; [|done]). apply guarded_nil. }
  set (hist := (([] ++ [_]) ++ [_]) ++ [_]).
  assert (Hg : guarded_by touches_account (authorized_in dp request) hist)
    by (do 3 (apply guarded_snoc; [|done]); apply guarded_nil).
  destruct (authorize _ _ _ _ _ _) as [d|e] eqn:Hauth.
  - assert (Hmono : forall h h', authorized_in dp request h -> authorized_in dp request (h ++ h')).
    { intros h h' (t & n & s & d' & H1 & H2 & H3). exists t, n, s, d'. set_solver. }
    assert (Hok : authorized_in dp request hist).
    { exists token, now, snap, d. split_and!; [done|set_solver|set_solver|done|].
      intros Hm. rewrite Hm in Hauth. by eapply enforce_matches. }
    destruct (observed_failure d); by apply guarded_rest.
  - unfold reject. cbn [all_paths]. intros [] elapsed audit. by do 3 (apply guarded_snoc; [|done]).
Qed.

(** C3.  Nothing happens for an unauthenticated client: on every execution of the
    handler, whatever the store, the router and other requests do, every routing
    decision, account load, load-counter change and upstream request comes after a
    credential snapshot, taken at the request's own reading of the clock, against which
    the presented token was authorised at that time, in enforce mode as the credential of
    a configured account. *)
Theorem accounts_touched_only_after_authorization (dp : DataPlane) (request : ProxyRequest) :
  all_paths (handle' dp request) []
    (fun hist _ => guarded_by touches_account (authorized_in dp request) hist).
Proof. apply handle_guarded. Qed.

(** The handler never panics. *)
Lemma build_total c request account credential : is_Some (build' c request account credential).
Proof.
  unfold build_upstream. destruct (prepare_request_for_stream _ _ _ _ _) as [p|]; cbn [map_err]; [|by eexists].
  destruct (upstream_body _ _ _ _); [|by eexists]. destruct (copy_safe_request_headers _ _); [|by eexists].
  match goal with |- context [finalize_request_auth ?f ?d ?z ?a ?c ?m ?b ?n ?p] =>
    destruct (finalize_total f d z a c m b n p) as [[p'|e] ->] end; cbn; by eexists.
Qed.

(** ** One request upstream for one request of a client *)

Definition is_send (e : effect) : bool := match e with ESend _ => true | _ => false end.
Definition is_audit (e : effect) : bool := match e with EAudit _ => true | _ => false end.

Definition tally (f : effect -> bool) (hist : list event) : nat :=
  length (List.filter (fun v => f (projT1 v)) hist).

Lemma tally_snoc f hist e x : tally f (hist ++ [ev e x]) = (tally f hist + if f e then 1 else 0)%nat.
Proof. unfold tally. rewrite List.filter_app, length_app. cbn. by destruct (f e). Qed.

(** What a client may conclude from its reply. *)
Record served_once (hist : list event) (out : option (result ProxyResponse DataPlaneError)) : Prop := {
  so_returns : out <> None;
  so_effects : (length hist <= 12)%nat;
  so_sends : (tally is_send hist <= 1)%nat;
  so_audits : (tally is_audit hist <= 1)%nat;
  so_ok : forall response, out = Some (Ok response) ->
    (exists request up, ev (ESend request) (Ok up) ∈ hist /\ proxy_status response = resp_status up) /\
    (exists record x, ev (EAudit record) x ∈ hist /\ audit_status record = proxy_status response);
  so_unsent : forall error, out = Some (Err error) ->
    error <> NoCapacity -> error <> UpstreamUnavailable -> tally is_send hist = 0%nat
}.

(** A history before anything was sent or audited. *)
Definition unsent (n : nat) (hist : list event) : Prop :=
  (length hist <= n)%nat /\ tally is_send hist = 0%nat /\ tally is_audit hist = 0%nat.

Lemma unsent_snoc n hist e x :
  unsent n hist -> is_send e = false -> is_audit e = false -> unsent (S n) (hist ++ [ev e x]).
Proof. intros (Hn & Hs & Ha) He He'. unfold unsent. rewrite length_app, !tally_snoc, He, He'. cbn. lia. Qed.

Lemma unsent_error n hist error : unsent n hist -> (n <= 12)%nat -> served_once hist (Some (Err error)).
Proof. intros (Hn & Hs & Ha) Hle. split; try done; try lia. Qed.

(** Lengths and tallies of a history that has grown event by event. *)
Ltac tallies := unfold unsent in *; rewrite ?length_app, ?tally_snoc; cbn [is_send is_audit length]; lia.

Lemma translate_status account stream up : resp_status (translate_response crc32 base64_decode account stream up) = resp_status up.
Proof. unfold translate_response. by destruct (_ && _). Qed.

Lemma dispatch_once dp c account selection request hist :
  unsent 6 hist -> all_paths (dispatch crc32 base64_decode dp c account selection request) hist served_once.
Proof.
  intros Hu. unfold dispatch. cbn [all_paths]. intros [[]|e]; cbn [map_err].
  2:{ apply (unsent_error 7); [by apply unsent_snoc|lia]. }
  cbn [all_paths]. intros [up|e].
  - unfold respond. cbn [all_paths]. intros [[]|e]; cbn [map_err all_paths].
    2:{ split; [done|tallies|tallies|tallies|done|]. by intros ? [= <-]. }
    intros [] elapsed audit. split; [done|tallies|tallies|tallies| |done].
    intros response [= <-]. cbn [proxy_status]. split.
    + exists request, up. split; [set_solver|apply translate_status].
    + eexists (audit_record dp c (id account) (sel_provider selection) _ _ elapsed), audit.
      split; [apply elem_of_app; right; apply list_elem_of_singleton; reflexivity|]. reflexivity.
  - cbn [all_paths]. intros recorded [] elapsed audit. split; [done|tallies|tallies|tallies|done|].
    by intros ? [= <-].
Qed.

(** C6.  No request is replayed: on every execution of the handler, whatever the store, the
    router and the provider answer, at most one request goes to a provider and at most
    one audit record is written, within twelve effects and without a panic; so transport
    errors, rate limits and overloads are never followed by a retry on the same or
    another account.  A client that is given a response has the status of the one
    provider that was asked, which is also the audited one; a client that is refused (bad
    request, authentication, credential state) knows that nothing was sent. *)
Theorem requests_are_never_replayed (dp : DataPlane) (request : ProxyRequest) :
  all_paths (handle' dp request) [] served_once.
Proof.
  assert (Hroute : forall c hist, unsent 4 hist ->
    all_paths (route crc32 base64_decode parse_aws_envelope format_date format_amz_date dp c request) hist served_once).
  { intros c hist Hu. unfold route. cbn [all_paths]. intros [sel|e]; cbn [map_err all_paths].
    2:{ apply (unsent_error 5); [by apply unsent_snoc|lia]. }
    intros [pair|e]; cbn [map_err all_paths].
    2:{ apply (unsent_error 6); [by do 2 (apply unsent_snoc; [|done|done])|lia]. }
    destruct (build_total c request pair.1 pair.2) as [[ur|e] ->].
    - apply dispatch_once. by do 2 (apply unsent_snoc; [|done|done]).
    - apply (unsent_error 6); [by do 2 (apply unsent_snoc; [|done|done])|lia]. }
  assert (Hadm : forall now d hist, unsent 4 hist ->
    all_paths (admitted crc32 base64_decode parse_aws_envelope format_date format_amz_date dp now d request) hist served_once).
  { intros now d hist Hu. unfold admitted. destruct (session_id request); [|by apply (unsent_error 4); [|lia]].
    destruct (_ && _); [by apply (unsent_error 4); [|lia]|by apply Hroute]. }
  assert (Hnil : unsent 0 []) by by unfold unsent.
  unfold handle. cbn [all_paths]. intros []. destruct (_ <? _).
  { apply (unsent_error 1); [by apply unsent_snoc|lia]. }
  destruct (presented_token _) as [token|e]; [|apply (unsent_error 1); [by apply unsent_snoc|lia]].
  cbn [all_paths]. intros now [snap|e]; cbn [map_err].
  2:{ apply (unsent_error 3); [by do 3 (apply unsent_snoc; [|done|done])|lia]. }
  match goal with |- all_paths _ ?h _ => assert (Hu : unsent 3 h) by by do 3 (apply unsent_snoc; [|done|done]) end.
  destruct (authorize _ _ _ _ _ _) as [d|e].
  - destruct (observed_failure d); [|apply Hadm; unfold unsent in *; lia].
    cbn [all_paths]. intros []. by apply Hadm, unsent_snoc.
  - unfold reject. cbn [all_paths]. intros [] elapsed audit. split; [done|tallies|tallies|tallies|done|].
    intros ? [= <-] _ _. tallies.
Qed.

(** ** The upstream request *)

Definition sigv4_headers : list string :=
  ["host"; "x-amz-content-sha256"; "x-amz-date"; "x-amz-security-token"; "authorization"].

(** A header the client sent, on the allowlist. *)
Definition from_client (request : ProxyRequest) (n v : string) : Prop :=
  request_header_allowed n = true /\
  exists hv, (n, hv) ∈ hm_iter (req_headers request) /\ hv_to_str hv = Some v.

Record upstream_safe (request : ProxyRequest) (account : ProviderAccount) (credential : string)
    (r : UpstreamRequest) : Prop := {
  safe_account : up_account_id r = id account;
  safe_origin : url_same_origin (up_url r) (base_url account) = true;
  safe_egress : up_egress_proxies r = egress_proxies account;
  safe_headers : exists creds, credential_headers account credential = Ok creds /\
    (forall n v, up_headers r !! n = Some v ->
       creds !! n = Some v \/ from_client request n v \/
       (kind account = BedrockSigV4 /\ n ∈ sigv4_headers)) /\
    (forall n v, creds !! n = Some v -> up_headers r !! n = Some v)
}.

Lemma copy_headers_spec (incoming : list (string * HeaderValue)) (out out' : gmap string string) :
  copy_headers incoming out = Ok out' ->
  (forall n v, out' !! n = Some v -> out !! n = Some v \/
     (request_header_allowed n = true /\ exists hv, (n, hv) ∈ incoming /\ hv_to_str hv = Some v)) /\
  (forall n v, out !! n = Some v -> out' !! n = Some v).
Proof.
  revert out. induction incoming as [|[n0 v0] incoming IH]; intros out; cbn; [intros [= <-]; eauto|].
  destruct (request_header_allowed n0) eqn:Hal.
  - destruct (hv_to_str v0) as [t|] eqn:Ht; [|done]. intros [H1 H2]%IH.
    destruct (out !! n0) as [w|] eqn:E; [split; [|done]; intros n v Hn; destruct (H1 n v Hn); set_solver|].
    split; intros n v Hn.
    + destruct (H1 n v Hn) as [Hi|(Ha & hv & Hin & Hs)]; [|set_solver].
      apply lookup_insert_Some in Hi as [[<- <-]|[_ Hi]]; [|by left].
      right. split; [done|]. exists v0. set_solver.
    + apply H2. rewrite lookup_insert_ne; [done|]. intros ->. congruence.
  - intros [H1 H2]%IH. split; [|done]. intros n v Hn. destruct (H1 n v Hn); set_solver.
Qed.

Lemma prepare_spec account credential path model stream p :
  prepare_request_for_stream account credential path model stream = Ok p ->
  url_same_origin (url p) (base_url account) = true /\
  credential_headers account credential = Ok (headers p).
Proof.
  unfold prepare_request_for_stream. destruct (_ || _); [done|].
  destruct (upstream_url _ _ _ _) as [u|]; [|done].
  destruct (url_same_origin u _) eqn:Ho; [|done]. cbn.
  destruct (credential_headers _ _) as [h|]; [|done]. by intros [= <-].
Qed.

Lemma build_upstream_safe c request account credential r :
  build' c request account credential = Some (Ok r) -> upstream_safe request account credential r.
Proof.
  unfold build_upstream. destruct (prepare_request_for_stream _ _ _ _ _) as [p|] eqn:Hp; [|done].
  apply prepare_spec in Hp as [Horigin Hcreds]. cbn [map_err].
  destruct (upstream_body _ _ _ _) as [body|]; [|done].
  destruct (copy_safe_request_headers _ _) as [copied|] eqn:Hcopy; [|done].
  apply copy_headers_spec in Hcopy as [Hc1 Hc2].
  destruct (finalize_request_auth _ _ _ _ _ _ _ _ _) as [[p'|e]|] eqn:Hfin; [|done|done].
  apply finalize_frame in Hfin as (Hurl & Hsame & Hframe). cbn. intros [= <-].
  split; cbn; [done|by rewrite Hurl|done|]. exists (headers p). split; [done|].
  cbn in Hsame, Hframe. destruct (decide (kind account = BedrockSigV4)) as [Hk|Hk].
  - assert (Hempty : headers p = ∅) by (unfold credential_headers in Hcreds; rewrite Hk in Hcreds; by injection Hcreds).
    rewrite Hempty in *. split; [|by intros n v; rewrite lookup_empty].
    intros n v Hn. destruct (decide (n ∈ sigv4_headers)) as [Hs|Hs]; [by auto|].
    rewrite Hframe in Hn by exact Hs. destruct (Hc1 n v Hn) as [Hx|Hx]; [by left|right; by left].
  - rewrite (Hsame Hk). split; [|done]. intros n v Hn.
    destruct (Hc1 n v Hn) as [Hx|Hx]; [by left|right; by left].
Qed.

(** Every upstream request of a history is safe for an account loaded before it. *)
Definition sends_safe (request : ProxyRequest) (hist : list event) : Prop :=
  forall before r x after, hist = before ++ ev (ESend r) x :: after -> exists aid account credential,
    ev (ELoad aid) (Ok (account, credential)) ∈ before /\ upstream_safe request account credential r.

Lemma sends_safe_snoc request hist e x :
  sends_safe request hist ->
  (forall r, e = ESend r -> exists aid account credential,
     ev (ELoad aid) (Ok (account, credential)) ∈ hist /\ upstream_safe request account credential r) ->
  sends_safe request (hist ++ [ev e x]).
Proof.
  intros Hs He before r x' after [[-> <-]|[after' Hh]]%event_snoc; [by apply He|by eapply Hs].
Qed.

(** Extend a history by one effect that is not an upstream request. *)
Ltac quiet_step := apply sends_safe_snoc; [|by intros ? [=]].

Definition final_safe (request : ProxyRequest) (hist : list event)
    (out : option (result ProxyResponse DataPlaneError)) : Prop :=
  out <> None /\ sends_safe request hist.

Lemma dispatch_safe dp c request aid account credential selection r hist :
  sends_safe request hist ->
  ev (ELoad aid) (Ok (account, credential)) ∈ hist ->
  upstream_safe request account credential r ->
  all_paths (dispatch crc32 base64_decode dp c account selection r) hist (final_safe request).
Proof.
  intros Hs Hl Hu. unfold dispatch. cbn [all_paths]. intros started.
  assert (Hs1 : sends_safe request (hist ++ [ev (EStart (id account)) started])) by (by quiet_step).
  destruct started as [[]|e]; cbn [map_err]; [|done]. cbn [all_paths]. intros sent.
  assert (Hs2 : sends_safe request ((hist ++ [ev (EStart (id account)) (Ok tt)]) ++ [ev (ESend r) sent])).
  { apply sends_safe_snoc; [done|]. intros r' [= <-]. exists aid, account, credential. set_solver. }
  destruct sent as [up|e].
  - unfold respond. cbn [all_paths]. intros [[]|e]; cbn [map_err all_paths];
      [intros [] elapsed audit|]; (split; [done|]); repeat quiet_step; done.
  - cbn [all_paths]. intros recorded [] elapsed audit. split; [done|]. repeat quiet_step. done.
Qed.

Lemma route_safe dp c request hist :
  sends_safe request hist ->
  all_paths (route crc32 base64_decode parse_aws_envelope format_date format_amz_date dp c request) hist
    (final_safe request).
Proof.
  intros Hs. unfold route. cbn [all_paths]. intros [sel|e]; cbn [map_err all_paths];
    [|by split; [done|quiet_step]].
  intros [[account credential]|e]; cbn [map_err all_paths]; [|by split; [done|do 2 quiet_step]].
  cbn [fst snd]. destruct (build_total c request account credential) as [[r|e] Hb]; rewrite Hb.
  - apply (dispatch_safe dp c request (sel_account_id sel) account credential); [by do 2 quiet_step|set_solver|].
    by eapply build_upstream_safe.
  - cbn [all_paths]. split; [done|]. by do 2 quiet_step.
Qed.

Lemma handle_safe (dp : DataPlane) (request : ProxyRequest) :
  all_paths (handle' dp request) [] (final_safe request).
Proof.
  assert (Hnil : sends_safe request []) by (intros before r x after Heq; by destruct before).
  assert (Hadm : forall now d hist, sends_safe request hist ->
    all_paths (admitted' dp now d request) hist (final_safe request)).
  { intros now d hist Hs. unfold admitted. destruct (session_id request); [|by split].
    destruct (_ && _); [by split|]. by apply route_safe. }
  unfold handle. cbn [all_paths]. intros []. destruct (_ <? _); [by split; [done|quiet_step]|].
  destruct (presented_token _) as [token|e]; [|by split; [done|quiet_step]].
  cbn [all_paths]. intros now [snap|e]; cbn [map_err]; [|by split; [done|do 3 quiet_step]].
  destruct (authorize _ _ _ _ _ _) as [d|e].
  - destruct (observed_failure d); [cbn [all_paths]; intros []|]; apply Hadm; by repeat quiet_step.
  - unfold reject. cbn [all_paths]. intros [] elapsed audit. split; [done|]. by repeat quiet_step.
Qed.

(** C4.  Client credentials never leave the proxy and account credentials never go
    elsewhere: on every execution of the handler, each upstream request is for an
    account that was loaded in it, goes to the origin configured for that account,
    and carries only that account's credential headers, unchanged, the signature
    headers of a signing account, and allowlisted client headers, which inbound
    credentials, cookies and hop headers are not: an inbound [authorization],
    [x-api-key] or [cookie] is never forwarded, and a client header never replaces a
    credential header.  The handler never panics. *)
Theorem upstream_requests_are_safe (dp : DataPlane) (request : ProxyRequest) :
  all_paths (handle' dp request) [] (final_safe request) /\
  Forall (fun n => request_header_allowed n = false)
    ["authorization"; "x-api-key"; "cookie"; "x-llmap-session"; "host"; "x-amz-date"].
Proof. split; [apply handle_safe|by repeat constructor]. Qed.

End Admission.

(** ** Classification and response headers *)

Section Responses.
Context `{H : HeaderLib}.

(** The [Retry-After] of a response is missing, or a number of seconds the proxy follows
    (1 to 3600).  What it does with other values is in [long_retry_after_ignored]. *)
Definition usable_retry (h : HeaderMap) (requested : option Z) : Prop :=
  match requested with
  | None => hm_get h "retry-after" = None
  | Some n => (hm_get h "retry-after" ≫= hv_to_str) ≫= parse_i64 = Some n /\ 1 <= n <= 3600
  end.

Lemma usable_retry_after h requested fallback :
  usable_retry h requested -> retry_after h fallback = seconds (default fallback requested).
Proof.
  unfold retry_after, usable_retry. destruct requested as [n|]; [|by intros ->].
  intros [-> Hn]. cbn. by rewrite (proj2 (Z.leb_le _ _)), (proj2 (Z.leb_le _ _)) by lia.
Qed.

(** The effects of docs/operations.md on the account that answered: unhealthy, depleted
    until a time, only unbound from its sessions, or none. *)
Inductive health_effect := MarkedUnhealthy | DepletedUntil (t : DateTime) | SessionsCleared | Unaffected.

Definition documented_effect (status : Z) (requested : option Z) (now : DateTime) (effect : health_effect) : Prop :=
  match effect with
  | MarkedUnhealthy => status = 401 \/ status = 403
  | DepletedUntil t => (status = 429 /\ t = now + seconds (default 60 requested)) \/
                       (status = 529 /\ t = now + seconds (default 30 requested))
  | SessionsCleared => 500 <= status <= 599 /\ status <> 529
  | Unaffected => ~ (500 <= status <= 599) /\ status <> 401 /\ status <> 403 /\ status <> 429
  end.

(** Before and after, as the account and the sessions show it. *)
Definition has_effect (effect : health_effect) (aid : string) (r r' : Router) (a a' : RouteAccount) : Prop :=
  healthy a' = match effect with MarkedUnhealthy => false | _ => healthy a end /\
  depleted_until a' = match effect with DepletedUntil t => Some t | _ => depleted_until a end /\
  (forall s b, Routing.sessions r' !! s = Some b <->
     Routing.sessions r !! s = Some b /\ (effect = Unaffected \/ account_id b <> aid)) /\
  (forall other, other <> aid -> Routing.accounts r' !! other = Routing.accounts r !! other).

(** The classification of a documented effect. *)
Definition outcome_of (status : Z) (effect : health_effect) : UpstreamOutcome :=
  match effect with
  | MarkedUnhealthy => Unauthorized
  | DepletedUntil t => if status =? 429 then RateLimited t else Overloaded t
  | SessionsCleared => TransientFailure
  | Unaffected => Success
  end.

Lemma classify_documented status h now requested :
  usable_retry h requested ->
  exists effect, documented_effect status requested now effect /\ classify_status status h now = outcome_of status effect.
Proof.
  intros Hr. unfold classify_status, outcome_of. rewrite !(usable_retry_after h requested) by done.
  destruct (Z.eqb_spec status 401); [exists MarkedUnhealthy; cbn; auto|].
  destruct (Z.eqb_spec status 403); [exists MarkedUnhealthy; cbn; auto|]. cbn [orb].
  destruct (Z.eqb_spec status 429); [eexists (DepletedUntil _); split; [by left|done]|].
  destruct (Z.eqb_spec status 529); [eexists (DepletedUntil _); split; [by right|done]|].
  destruct (Z.leb_spec 500 status), (Z.leb_spec status 599); cbn [andb];
    [exists SessionsCleared|exists Unaffected|exists Unaffected|exists Unaffected]; (split; [cbn; lia|done]).
Qed.

Lemma record_documented r aid a status effect :
  Routing.accounts r !! aid = Some a ->
  exists a' r', record_outcome r aid (outcome_of status effect) = (r', Ok tt) /\
    Routing.accounts r' !! aid = Some a' /\ has_effect effect aid r r' a a'.
Proof.
  intros Ha. unfold record_outcome, outcome_of. rewrite Ha.
  assert (Hother : forall x other, other <> aid -> <[aid := x]> (Routing.accounts r) !! other = Routing.accounts r !! other)
    by (intros; by rewrite lookup_insert_ne).
  destruct effect as [|t| |]; [|destruct (status =? 429)| |]; eexists _, _; (split; [reflexivity|]); cbn;
    (split; [by rewrite lookup_insert_eq|]); (split_and!; [done|done| |by apply Hother]);
    intros s b; cbn; rewrite ?evict_lookup; intuition congruence.
Qed.

(** C38.  What an upstream response does to its account is what docs/operations.md says: 401
    and 403 mark it unhealthy, 429 and 529 deplete it until the time [Retry-After] asks
    for, or 60 and 30 seconds later when the header is missing, other 5xx only clear
    its sticky sessions, and every other status changes neither its health nor a session;
    the first three also clear its sessions; other accounts and their sessions are not
    touched.  The header is followed when it is a number from 1 to 3600. *)
Theorem response_has_documented_effect (r : Router) (aid : string) (a : RouteAccount) (status : Z)
    (h : HeaderMap) (now : DateTime) (requested : option Z)
    (Ha : Routing.accounts r !! aid = Some a)
    (Hretry : usable_retry h requested) :
  exists effect a' r', documented_effect status requested now effect /\
    record_outcome r aid (classify_status status h now) = (r', Ok tt) /\
    Routing.accounts r' !! aid = Some a' /\ has_effect effect aid r r' a a'.
Proof.
  destruct (classify_documented status h now requested Hretry) as (effect & Hdoc & ->).
  destruct (record_documented r aid a status effect Ha) as (a' & r' & Hrun & Ha' & Heff). by exists effect, a', r'.
Qed.

(** A longer [Retry-After] than an hour, or one given as a date, is replaced by the
    fallback instead of being followed. *)
Lemma long_retry_after_ignored (h : HeaderMap) (now : DateTime) :
  (forall n, (hm_get h "retry-after" ≫= hv_to_str) ≫= parse_i64 = Some n -> 3600 < n) ->
  classify_status 429 h now = RateLimited (now + seconds 60) /\ classify_status 529 h now = Overloaded (now + seconds 30).
Proof.
  intros Hn. unfold classify_status, retry_after. cbn [Z.eqb Pos.eqb].
  destruct ((hm_get h "retry-after" ≫= hv_to_str) ≫= parse_i64) as [n|]; [|done].
  specialize (Hn n eq_refl). cbn. rewrite (proj2 (Z.leb_gt n 3600)), andb_false_r by lia. done.
Qed.

Lemma fold_safe_headers `{!HeaderLaws H} (l : list (string * HeaderValue)) (out : HeaderMap) n v :
  (n, v) ∈ hm_iter (fold_left (fun out nv => if response_header_allowed nv.1
                                             then hm_append out nv.1 nv.2 else out) l out) <->
  (n, v) ∈ hm_iter out \/ ((n, v) ∈ l /\ response_header_allowed n = true).
Proof.
  revert out. induction l as [|[n0 v0] l IH]; intros out; cbn [fold_left]; [set_solver|].
  rewrite IH. cbn [fst snd]. destruct (response_header_allowed n0) eqn:E.
  - rewrite hm_iter_append, elem_of_cons. naive_solver.
  - rewrite elem_of_cons. split; [intros [?|[? ?]]; auto|].
    intros [?|[[[= -> ->]|?] ?]]; [by left|congruence|by right].
Qed.

(** The client sees exactly the allowlisted headers of the provider's response,
    all of their values and no others: cookies, server identity and authentication
    challenges of the provider stay inside. *)
Lemma response_headers_exactly_allowlisted `{!HeaderLaws H} (incoming : HeaderMap)
    (n : string) (v : HeaderValue) :
  (n, v) ∈ hm_iter (safe_response_headers incoming) <->
  (n, v) ∈ hm_iter incoming /\ response_header_allowed n = true.
Proof.
  unfold safe_response_headers. rewrite fold_safe_headers, hm_iter_empty. set_solver.
Qed.

End Responses.

(** ** Examples *)

Section Witnesses.
#[local] Existing Instance simple_url_lib.
#[local] Existing Instance simple_header_lib.
#[local] Existing Instance simple_header_laws.
#[local] Existing Instance simple_crypto_lib.
#[local] Existing Instance simple_json_lib.

Definition no_envelope (_ : string) : option AwsCredentialEnvelope := None.
Definition no_date (_ : DateTime) : string := "".
Definition sample_handle :=
  handle crc32_ieee (fun _ => None) no_envelope no_date no_date.

Definition sample_dp : DataPlane :=
  {| auth_mode := Enforce; authenticator := {| digest_key := "key" |}; max_request_bytes := 1000 |}.

Definition sample_route (load : Z) : RouteAccount :=
  {| Routing.id := "a"; provider := "anthropic"; Routing.enabled := true; healthy := true;
     in_flight := load; utilization_basis_points := 0; models := ∅; depleted_until := None |}.

Definition sample_account : ProviderAccount :=
  {| id := "a"; label := "A"; kind := AnthropicApiKey; base_url := bedrock_url; enabled := true;
     model_map := ∅; egress_proxies := []; compatible_auth_header := None;
     compatible_auth_prefix := None |}.

Definition sample_request : ProxyRequest :=
  {| req_method := "POST"; path_and_query := "/v1/messages"; session_from_path := None;
     req_headers := [("authorization", "Bearer token"); ("cookie", "secret"); ("accept", "*/*")];
     req_body := simple_print (VObject [("model", VString "claude")]) |}.

(** An environment with one account whose credential is ["token"], and a provider
    that echoes the headers it got. *)
Definition sample_world (e : effect) (r : Router) : answer e * Router :=
  match e return answer e * Router with
  | ECount _ => (tt, r)
  | ENow => (0, r)
  | EElapsed => (0, r)
  | ESnapshot _ =>
      (Ok (Available [credential_active hmac_sha256 {| digest_key := "key" |} "a" "token"]), r)
  | ELoad _ => (Ok (sample_account, "provider-key"), r)
  | EAudit _ => (Ok tt, r)
  | EChoose request now => let '(r, x) := choose r request now in (x, r)
  | EStart aid => let '(r, x) := start_request r aid in (x, r)
  | ERecord aid o => let '(r, x) := record_outcome r aid o in (x, r)
  | ESend request => (Ok {| resp_status := 200; resp_headers := map_to_list (up_headers request);
                            resp_body := RawBody [] |}, r)
  end.

(** The handler end to end: the provider sees its own key and the allowlisted header
    only, and the response passes the response allowlist. *)
Example sample_request_served :
  match (run sample_world (sample_handle sample_dp sample_request) (router_new [sample_route 0])).1 with
  | Some (Ok response) => bool_decide (proxy_status response = 200)
                          && bool_decide (proxy_headers response = [])
  | _ => false
  end = true.
Proof. vm_compute. reflexivity. Qed.

(** One effect of the newest request, answered by [sample_world]. *)
Definition advance_newest (s : pool) : pool :=
  match threads s with
  | (h, Do e k) :: rest =>
      let '(x, r) := sample_world e (pool_router s) in
      {| pool_router := r; threads := (held_after e x h, k x) :: rest; dropped := dropped s |}
  | _ => s
  end.

Definition arrive (s : pool) : pool :=
  {| pool_router := pool_router s; threads := (None, sample_handle sample_dp sample_request) :: threads s;
     dropped := dropped s |}.
Definition drop_newest (s : pool) : pool :=
  match threads s with
  | (h, p) :: rest => {| pool_router := pool_router s; threads := rest; dropped := h :: dropped s |}
  | [] => s
  end.

Abbreviation sample_kept :=
  (kept_step crc32_ieee (fun _ => None) no_envelope no_date no_date sample_dp "a").

Lemma sample_world_exec e r : exec r e (sample_world e r).1 (sample_world e r).2.
Proof.
  destruct e; cbn; try done.
  - by destruct (choose _ _ _).
  - by destruct (start_request _ _).
  - by destruct (record_outcome _ _ _).
Qed.

(** Runs of the sample pool in which account "a" is there, as the account it was. *)
Definition enabled_in (s : pool) : bool := is_some_and (Routing.accounts (pool_router s) !! "a") Routing.enabled.

Lemma sample_kept_intro s s' :
  pool_step crc32_ieee (fun _ => None) no_envelope no_date no_date sample_dp s s' ->
  enabled_in s = true -> enabled_in s' = true -> sample_kept s s'.
Proof.
  intros Hst. unfold enabled_in, is_some_and. intros Hs Hs'. split; [done|].
  destruct (Routing.accounts (pool_router s) !! "a") as [a|]; [|done].
  destruct (Routing.accounts (pool_router s') !! "a") as [a'|]; [|done]. exists a, a'. split_and!; congruence.
Qed.

Fixpoint all_enabled (fs : list (pool -> pool)) (s : pool) : bool :=
  enabled_in s && match fs with [] => true | f :: rest => all_enabled rest (f s) end.
Definition perform_all (fs : list (pool -> pool)) (s : pool) : pool := fold_left (fun s f => f s) fs s.

Lemma sample_run fs s :
  Forall (fun f => f = arrive \/ f = drop_newest \/ f = advance_newest) fs ->
  all_enabled fs s = true -> rtc sample_kept s (perform_all fs s).
Proof.
  revert s. induction fs as [|f fs IH]; intros s Hfs Hen; [apply rtc_refl|].
  apply Forall_cons in Hfs as [Hf Hfs]. cbn in Hen. apply andb_prop in Hen as [Hs Hen].
  etrans; [|by apply IH].
  assert (Hnext : enabled_in (f s) = true) by (destruct fs; cbn in Hen; by apply andb_prop in Hen as [? _]).
  assert (Hstep : f s = s \/ pool_step crc32_ieee (fun _ => None) no_envelope no_date no_date sample_dp s (f s)).
  { destruct Hf as [->|[->| ->]].
    - right. apply ps_spawn.
    - unfold drop_newest. destruct (threads s) as [|[h p] rest] eqn:Ht; [by left|right].
      replace rest with (delete 0%nat (threads s)) by by rewrite Ht.
      apply (ps_drop _ _ _ _ _ _ s 0 h p). by rewrite Ht.
    - unfold advance_newest. destruct (threads s) as [|[h [r|e k]] rest] eqn:Ht; [by left|by left|right].
      pose proof (sample_world_exec e (pool_router s)) as Hx. destruct (sample_world e (pool_router s)) as [x r].
      replace ((held_after e x h, k x) :: rest) with (<[0%nat := (held_after e x h, k x)]> (threads s))
        by by rewrite Ht.
      apply (ps_effect _ _ _ _ _ _ s 0 h e k x r); [by rewrite Ht|exact Hx]. }
  destruct Hstep as [->|Hstep]; [apply rtc_refl|]. by apply rtc_once, sample_kept_intro.
Qed.

(** A request that is cancelled while it waits for the provider, and another that waits. *)
Definition sample_script : list (pool -> pool) :=
  [arrive] ++ repeat advance_newest 6 ++ [drop_newest; arrive] ++ repeat advance_newest 6.
Definition busy_pool : pool := perform_all sample_script (pool_initial [sample_route 0]).

Example busy_pool_load :
  (in_flight <$> Routing.accounts (pool_router busy_pool) !! "a", holders "a" (threads busy_pool), dropped busy_pool)
  = (Some 2, 1, [Some "a"]).
Proof. vm_compute. reflexivity. Qed.

Lemma kept_run_reachable s s' :
  pool_reachable crc32_ieee (fun _ => None) no_envelope no_date no_date sample_dp s ->
  rtc sample_kept s s' -> pool_reachable crc32_ieee (fun _ => None) no_envelope no_date no_date sample_dp s'.
Proof. intros Hs Hrun. induction Hrun as [|s s1 s' [Hst _] _ IH]; [done|]. by eapply IH, pool_next. Qed.

Lemma busy_pool_run : rtc sample_kept (pool_initial [sample_route 0]) busy_pool.
Proof. apply sample_run; [repeat (constructor; auto)|vm_compute; reflexivity]. Qed.

Lemma in_flight_accounting_witness :
  exists a, Routing.accounts (pool_router busy_pool) !! "a" = Some a /\ in_flight a = taken "a" busy_pool /\
    taken "a" busy_pool = 2.
Proof.
  destruct (Routing.accounts (pool_router busy_pool) !! "a") as [a|] eqn:Ha.
  2:{ exfalso. vm_compute in Ha. discriminate Ha. }
  exists a. split; [reflexivity|]. split; [|vm_compute; reflexivity].
  destruct (in_flight_accounting crc32_ieee (fun _ => None) no_envelope no_date no_date sample_dp busy_pool "a" a)
    as (_ & _ & Hexact).
  - eapply kept_run_reachable; [|exact busy_pool_run]. apply pool_start. repeat constructor.
  - exact Ha.
  - apply (Hexact [sample_route 0]).
    + repeat constructor.
    + eexists. reflexivity.
    + exact busy_pool_run.
    + vm_compute. reflexivity.
Defined.

Definition plain_request : UpstreamRequest :=
  {| up_account_id := "a"; up_method := "POST"; up_url := bedrock_url; up_body := "";
     up_egress_proxies := []; up_headers := ∅ |}.

Definition provider_headers : HeaderMap := [("set-cookie", "s"); ("retry-after", "5")].

Lemma response_has_documented_effect_witness :
  exists a', Routing.accounts (record_outcome (router_new [sample_route 1]) "a"
                (classify_status 429 provider_headers 0)).1 !! "a" = Some a' /\ depleted_until a' = Some (seconds 5).
Proof.
  destruct (response_has_documented_effect (router_new [sample_route 1]) "a" (sample_route 1) 429 provider_headers 0
    (Some 5)) as (effect & a' & r' & Hdoc & Hrun & Ha' & Heff).
  - reflexivity.
  - split; [reflexivity|lia].
  - exists a'. rewrite Hrun. split; [exact Ha'|].
    destruct effect as [|t| |]; cbn in Hdoc; try lia.
    destruct Heff as (_ & Hd & _). rewrite Hd. destruct Hdoc as [[_ ->]|[Hx _]]; [reflexivity|discriminate Hx].
Defined.

Definition five : HeaderValue := "5".
End Witnesses.
