(* ===== verification/Transport.v ===== *)
(** * The outbound transport (src/src/data_plane.rs, ReqwestTransport)

    Per-account proxy chains, destination checks and the decision what is contacted.
    The HTTP client (reqwest) is a group of parameters: which proxies and headers it
    accepts, whether it can be built, and what the exchange returns; the DNS resolver
    is one too.  [None] as a result is a panic. *)
From S2P Require Import Prelude Interfaces Egress Bedrock Providers DataPlane.

Section Transport.
Context `{U : UrlLib} `{H : HeaderLib}.

Record AccountProxyChain := { sources : list string; apc_chain : @ProxyChain ProxyEndpoint }.

Abbreviation proxy_chains := (gmap string AccountProxyChain).

(** What is handed to the HTTP client: the request, the addresses its host is pinned
    to, and the proxy. *)
Record outbound := {
  ob_request : UpstreamRequest;
  ob_resolved : option (list SocketAddr);
  ob_proxy : option ProxyEndpoint
}.

Definition destination_requires_local_resolution (endpoint : ProxyEndpoint) : bool :=
  bool_decide (protocol endpoint = Socks5).

(** Parse the sources and build a fresh chain. *)
Definition build_chain (srcs : list string) : result (@ProxyChain ProxyEndpoint) TransportError :=
  let? endpoints := map_err (fun _ => TransportFailed) (collect_results endpoint_parse srcs) in
  map_err (fun _ => TransportFailed) (chain_new endpoints).

Definition selected_proxy (chains : proxy_chains) (aid : string) (srcs : list string) :
    option (result (option ProxyEndpoint) TransportError * proxy_chains) :=
  match srcs with
  | [] => Some (Ok None, delete aid chains)
  | _ =>
      let needs_rebuild := is_none_or (chains !! aid)
                             (fun existing => negb (bool_decide (sources existing = srcs))) in
      match (if needs_rebuild
             then let? chain := build_chain srcs in
                  Ok (<[aid := {| sources := srcs; apc_chain := chain |}]> chains)
             else Ok chains) with
      | Err e => Some (Err e, chains)
      | Ok chains =>
          match chains !! aid with
          | None => Some (Ok None, chains)
          | Some state => active ← chain_active (apc_chain state); Some (Ok (Some active), chains)
          end
      end
  end.

Definition record_transport_result (chains : proxy_chains) (aid : string) (success : bool) :
    option proxy_chains :=
  match chains !! aid with
  | None => Some chains
  | Some state =>
      chain ← (if success then record_success (apc_chain state) else record_failure (apc_chain state));
      Some (<[aid := {| sources := sources state; apc_chain := chain |}]> chains)
  end.

(** The critical sections other requests run while this one holds no lock. *)
Inductive chain_op :=
| OtherSelects (aid : string) (srcs : list string)
| OtherRecords (aid : string) (success : bool).

Definition run_chain_op (chains : proxy_chains) (op : chain_op) : option proxy_chains :=
  match op with
  | OtherSelects aid srcs => snd <$> selected_proxy chains aid srcs
  | OtherRecords aid success => record_transport_result chains aid success
  end.

Fixpoint run_chain_ops (chains : proxy_chains) (ops : list chain_op) : option proxy_chains :=
  match ops with
  | [] => Some chains
  | op :: rest => chains ← run_chain_op chains op; run_chain_ops chains rest
  end.

Context (lookup_host : string -> Z -> option (list SocketAddr))
        (proxy_accepted : ProxyEndpoint -> bool)                (* reqwest::Proxy::all *)
        (client_builds : outbound -> bool)                      (* ClientBuilder::build *)
        (header_name_valid header_value_valid : string -> bool) (* HeaderName, HeaderValue *)
        (exchange : outbound -> option UpstreamResponse).       (* RequestBuilder::send *)

(** The destination check: addresses when the name is resolved here. *)
Definition checked_destination (p : DestinationPolicy) (u : Url) (proxy : option ProxyEndpoint) :
    result (option (list SocketAddr)) TransportError :=
  if is_none_or proxy destination_requires_local_resolution
  then let? addresses := map_err (fun _ => TransportFailed) (resolve_authorized lookup_host p u) in
       Ok (Some addresses)
  else let? _ := map_err (fun _ => TransportFailed) (policy_authorize p u) in
       Ok None.

(** Building the client, converting the headers and sending; [during] is what others do
    to the chains while the exchange is awaited. *)
Definition exchange_with (ob : outbound) (during : list chain_op) (chains : proxy_chains) :
    option (result UpstreamResponse TransportError * proxy_chains * option outbound) :=
  let aid := up_account_id (ob_request ob) in
  if negb (is_none_or (ob_proxy ob) proxy_accepted) then Some (Err TransportFailed, chains, None)
  else if negb (client_builds ob) then
    chains ← record_transport_result chains aid false;
    Some (Err TransportFailed, chains, None)
  else if negb (forallb (fun nv => header_name_valid nv.1 && header_value_valid nv.2)
                  (map_to_list (up_headers (ob_request ob))))
  then Some (Err TransportFailed, chains, None)
  else
    chains ← run_chain_ops chains during;
    match exchange ob with
    | None =>
        chains ← record_transport_result chains aid false;
        Some (Err TransportFailed, chains, Some ob)
    | Some response =>
        chains ← record_transport_result chains aid true;
        Some (Ok response, chains, Some ob)
    end.

(** [send]: the result, the chains after it, and what was contacted, if anything.  The
    lock of the chains is held for the selection and for the recording only: [resolving]
    and [during] are what others do before and during the exchange. *)
Definition send (p : DestinationPolicy) (chains : proxy_chains) (resolving during : list chain_op)
    (request : UpstreamRequest) :
    option (result UpstreamResponse TransportError * proxy_chains * option outbound) :=
  match url_host_str (up_url request) with
  | None => Some (Err TransportFailed, chains, None)
  | Some _ =>
      '(selected, chains) ← selected_proxy chains (up_account_id request) (up_egress_proxies request);
      match selected with
      | Err e => Some (Err e, chains, None)
      | Ok proxy =>
          chains ← run_chain_ops chains resolving;
          match checked_destination p (up_url request) proxy with
          | Err e => Some (Err e, chains, None)
          | Ok resolved =>
              exchange_with {| ob_request := request; ob_resolved := resolved; ob_proxy := proxy |} during chains
          end
      end
  end.

(** ** The chains stay well formed *)

(** Every stored chain is well formed and its endpoints are its parsed sources. *)
Definition chains_wf (chains : proxy_chains) : Prop :=
  forall aid st, chains !! aid = Some st ->
    chain_wf (apc_chain st) /\ collect_results endpoint_parse (sources st) = Ok (endpoints (apc_chain st)).

Lemma chains_wf_insert chains aid st :
  chains_wf chains -> chain_wf (apc_chain st) ->
  collect_results endpoint_parse (sources st) = Ok (endpoints (apc_chain st)) ->
  chains_wf (<[aid := st]> chains).
Proof. intros Hwf H1 H2 b st' [[<- <-]|[_ Hb]]%lookup_insert_Some; [done|by apply (Hwf b)]. Qed.

Lemma build_chain_ok srcs c :
  build_chain srcs = Ok c -> chain_wf c /\ collect_results endpoint_parse srcs = Ok (endpoints c).
Proof.
  unfold build_chain. destruct (collect_results endpoint_parse srcs) as [es|] eqn:E; [|done]. cbn.
  destruct (chain_new es) as [c'|] eqn:Hc; [|done]. intros [= <-].
  split; [by eapply chain_new_wf|]. destruct es; [done|]. by injection Hc as <-.
Qed.

Lemma selected_proxy_ok chains aid srcs :
  chains_wf chains ->
  exists r chains', selected_proxy chains aid srcs = Some (r, chains') /\ chains_wf chains' /\
    forall proxy, r = Ok proxy ->
      match proxy with
      | None => srcs = []
      | Some e => exists es, collect_results endpoint_parse srcs = Ok es /\ e ∈ es
      end.
Proof.
  intros Hwf. unfold selected_proxy. destruct srcs as [|s srcs].
  { eexists _, _. split; [done|]. split; [|by intros ? [= <-]].
    intros b st [_ Hb]%lookup_delete_Some. by apply (Hwf b). }
  set (whole := s :: srcs).
  assert (Hsel : forall cs st, chains_wf cs -> cs !! aid = Some st -> sources st = whole ->
    exists (r : result (option ProxyEndpoint) TransportError) chains', (active ← chain_active (apc_chain st); Some (Ok (Some active), cs)) = Some (r, chains') /\
      chains_wf chains' /\ forall proxy : option ProxyEndpoint, r = Ok proxy ->
      match proxy with None => whole = [] | Some e => exists es, collect_results endpoint_parse whole = Ok es /\ e ∈ es end).
  { intros cs st Hcs Hst Hs. destruct (Hcs aid st Hst) as [Hc He]. rewrite Hs in He.
    destruct (chain_wf_active _ Hc) as [e Hact]. rewrite Hact. cbn. eexists _, _. split; [done|].
    split; [done|]. intros proxy [= <-]. exists (endpoints (apc_chain st)). split; [done|].
    by eapply list_elem_of_lookup_2. }
  destruct (chains !! aid) as [st|] eqn:Est; cbn -[build_chain].
  - case_bool_decide as Hs; cbn -[build_chain]; [rewrite Est; by eapply Hsel|].
    destruct (build_chain whole) as [c|e] eqn:Hb; [|by eexists _, _].
    apply build_chain_ok in Hb as [Hc He]. rewrite lookup_insert_eq.
    eapply Hsel; [by apply chains_wf_insert|by rewrite lookup_insert_eq|done].
  - destruct (build_chain whole) as [c|e] eqn:Hb; [|by eexists _, _].
    apply build_chain_ok in Hb as [Hc He]. rewrite lookup_insert_eq.
    eapply Hsel; [by apply chains_wf_insert|by rewrite lookup_insert_eq|done].
Qed.

(** A result keeps the endpoints. *)
Lemma record_result_endpoints (c c' : @ProxyChain ProxyEndpoint) (success : bool) :
  (if success then record_success c else record_failure c) = Some c' -> endpoints c' = endpoints c.
Proof.
  destruct success; unfold record_success, record_failure;
    intros H'; repeat (apply bind_Some in H' as (? & _ & H')); by injection H' as <-.
Qed.

Lemma record_transport_result_ok chains aid success :
  chains_wf chains ->
  exists chains', record_transport_result chains aid success = Some chains' /\ chains_wf chains'.
Proof.
  intros Hwf. unfold record_transport_result. destruct (chains !! aid) as [st|] eqn:E; [|by eauto].
  destruct (Hwf aid st E) as [Hc He].
  destruct (run_op_wf (apc_chain st) (if success then OpSuccess else OpFailure) Hc) as (c' & Hr & Hc').
  assert (Hrun : (if success then record_success (apc_chain st) else record_failure (apc_chain st)) = Some c')
    by (by destruct success).
  rewrite Hrun. cbn. eexists. split; [done|]. apply chains_wf_insert; [done|done|].
  cbn. by rewrite (record_result_endpoints _ _ _ Hrun).
Qed.

Lemma run_chain_ops_ok chains ops :
  chains_wf chains -> exists chains', run_chain_ops chains ops = Some chains' /\ chains_wf chains'.
Proof.
  revert chains. induction ops as [|op ops IH]; intros chains Hwf; [by eexists|]. cbn.
  assert (Hop : exists cs, run_chain_op chains op = Some cs /\ chains_wf cs).
  { destruct op as [aid srcs|aid success]; [|by apply record_transport_result_ok].
    destruct (selected_proxy_ok chains aid srcs Hwf) as (r & cs & Hr & Hcs & _). exists cs. cbn. by rewrite Hr. }
  destruct Hop as (cs & -> & Hcs). by apply IH.
Qed.

Lemma checked_destination_ok p u proxy resolved :
  checked_destination p u proxy = Ok resolved ->
  policy_authorize p u = Ok tt /\
  (is_none_or proxy destination_requires_local_resolution = true ->
     exists addresses, resolved = Some addresses /\ resolve_authorized lookup_host p u = Ok addresses).
Proof.
  unfold checked_destination. destruct (is_none_or _ _).
  - destruct (resolve_authorized _ _ _) as [addresses|] eqn:Hr; [|done]. intros [= <-]. split; [|by eauto].
    unfold resolve_authorized in Hr. by destruct (policy_authorize p u) as [[]|].
  - by destruct (policy_authorize p u) as [[]|]; intros [= <-].
Qed.

Lemma exchange_with_ok ob during chains :
  chains_wf chains ->
  exists r chains' contacted, exchange_with ob during chains = Some (r, chains', contacted) /\
    chains_wf chains' /\ (contacted = None \/ contacted = Some ob) /\
    (forall response, r = Ok response -> contacted = Some ob).
Proof.
  intros Hwf. unfold exchange_with.
  destruct (record_transport_result_ok chains (up_account_id (ob_request ob)) false Hwf) as (cb & Hb & Hcb).
  destruct (run_chain_ops_ok chains during Hwf) as (cs & Hrun & Hcs).
  destruct (record_transport_result_ok cs (up_account_id (ob_request ob)) false Hcs) as (cf & Hf & Hcf).
  destruct (record_transport_result_ok cs (up_account_id (ob_request ob)) true Hcs) as (ct & Ht & Hct).
  rewrite Hb, Hrun. cbn [mbind option_bind]. rewrite Hf, Ht.
  destruct (negb _); [by eexists _, _, _; split_and!; [done|done|left|]|].
  destruct (negb _); [by eexists _, _, _; split_and!; [done|done|left|]|].
  destruct (negb _); [by eexists _, _, _; split_and!; [done|done|left|]|].
  destruct (exchange ob); cbn; eexists _, _, _; (split_and!; [done|done|by right|done]).
Qed.

(** C15.  The transport contacts only authorised destinations: whatever the resolver,
    the HTTP client, the remote side and concurrent requests on the shared proxy chains
    (while the lock is released around the awaits) do, [send] does not panic and keeps the proxy
    chains well formed, and whenever something is contacted the destination is on the
    allowlist (and not an unsafe host unless private networks are allowed); the proxy
    is one of those configured for the account, and there is none only when none is
    configured; and if the name is resolved here the connection is pinned to resolved
    addresses none of which is unsafe. A response is only returned when something was
    contacted. *)
Theorem transport_contacts_only_authorized (p : DestinationPolicy) (chains : proxy_chains)
    (resolving during : list chain_op) (request : UpstreamRequest) (Hwf : chains_wf chains) :
  exists r chains' contacted, send p chains resolving during request = Some (r, chains', contacted) /\
    chains_wf chains' /\
    (forall response, r = Ok response -> is_Some contacted) /\
    (forall ob, contacted = Some ob ->
       ob_request ob = request /\
       policy_authorize p (up_url request) = Ok tt /\
       match ob_proxy ob with
       | None => up_egress_proxies request = []
       | Some e => exists es, collect_results endpoint_parse (up_egress_proxies request) = Ok es /\ e ∈ es
       end /\
       (is_none_or (ob_proxy ob) destination_requires_local_resolution = true ->
        exists addresses, ob_resolved ob = Some addresses /\ addresses <> [] /\
          (allow_unsafe_private_networks p = false ->
           forall address, address ∈ addresses -> is_unsafe_ip (ip address) = false))).
Proof.
  unfold send. destruct (url_host_str (up_url request)); [|by eexists _, _, _].
  destruct (selected_proxy_ok chains (up_account_id request) (up_egress_proxies request) Hwf)
    as (sel & cs1 & -> & Hcs1 & Hsel). cbn [mbind option_bind].
  destruct sel as [proxy|e]; [|by eexists _, _, _].
  destruct (run_chain_ops_ok cs1 resolving Hcs1) as (cs & -> & Hcs). cbn [mbind option_bind].
  destruct (checked_destination p (up_url request) proxy) as [resolved|e] eqn:Hd; [|by eexists _, _, _].
  apply checked_destination_ok in Hd as [Hpol Hres].
  destruct (exchange_with_ok {| ob_request := request; ob_resolved := resolved; ob_proxy := proxy |} during cs Hcs)
    as (r & cs' & contacted & -> & Hcs' & Hc & Hok).
  eexists _, _, _. split; [done|]. split; [done|]. split; [intros response ->%Hok; by eexists|].
  intros ob ->. destruct Hc as [|[= ->]]; [done|]. cbn. split_and!; [done|done|by apply Hsel|].
  intros Hlocal. destruct (Hres Hlocal) as (addresses & -> & Haddr).
  exists addresses. split; [done|].
  destruct (resolve_authorized_safe _ _ _ _ Haddr) as (host & entry & _ & _ & _ & Hne & Hsafe).
  split; [done|]. intros Hpriv. by apply Hsafe.
Qed.
End Transport.

(** ** Examples *)

Section Witnesses.
#[local] Existing Instance simple_url_lib.
#[local] Existing Instance simple_header_lib.

Lemma transport_contacts_only_authorized_witness :
  exists r chains' contacted,
    send (fun _ _ => Some [{| ip := V4 (160, 79, 104, 10); port := 443 |}]) (fun _ => true)
      (fun _ => true) (fun _ => true) (fun _ => true) (fun _ => None)
      {| allowlist := ["bedrock.example"]; allow_unsafe_private_networks := false |} ∅
      [OtherSelects "other" []] [OtherRecords "other" false] plain_request
    = Some (r, chains', contacted) /\ chains_wf chains'.
Proof.
  destruct (transport_contacts_only_authorized
    (fun _ _ => Some [{| ip := V4 (160, 79, 104, 10); port := 443 |}]) (fun _ => true)
    (fun _ => true) (fun _ => true) (fun _ => true) (fun _ => None)
    {| allowlist := ["bedrock.example"]; allow_unsafe_private_networks := false |} ∅
      [OtherSelects "other" []] [OtherRecords "other" false] plain_request)
    as (r & cs & c & Hs & Hwf & _).
  - intros aid st Hst. rewrite lookup_empty in Hst. discriminate Hst.
  - exists r, cs, c. split; [exact Hs|exact Hwf].
Defined.

(** The destination is really contacted in this example. *)
Example plain_request_contacts :
  match send (fun _ _ => Some [{| ip := V4 (160, 79, 104, 10); port := 443 |}]) (fun _ => true)
      (fun _ => true) (fun _ => true) (fun _ => true) (fun _ => None)
      {| allowlist := ["bedrock.example"]; allow_unsafe_private_networks := false |} ∅
      [OtherSelects "other" []] [OtherRecords "other" false] plain_request with
  | Some (_, _, Some ob) => ob_resolved ob
  | _ => None
  end = Some [{| ip := V4 (160, 79, 104, 10); port := 443 |}].
Proof. vm_compute. reflexivity. Qed.
End Witnesses.
