(* ===== verification/Endpoints.v ===== *)
(** * The client-facing endpoints (src/src/http_app.rs, src/src/forward_proxy.rs)

    The two ways a client request reaches [DataPlane::handle]: the reverse endpoint
    ([proxy] and its four routes, with the error responses and the metrics page) and
    the forward proxy ([ForwardProxyHandler]).  Both are effectful programs like
    [handle].  The request URI ([http::Uri]) is a class of accessors; reading a body
    may fail.  The certificate authority is in Files, the start of the listeners in
    Startup. *)
From S2P Require Import Prelude Interfaces Models Routing Auth Egress Bedrock Secrets Providers DataPlane.

(** ** http: [Uri] *)
Class UriLib := {
  Uri : Type;
  uri_authority : Uri -> option string;
  uri_path : Uri -> string;
  uri_query : Uri -> option string;
  uri_path_and_query : Uri -> option string;
  uri_to_string : Uri -> string
}.

(** An inbound request; [None] is a body that could not be read to its end. *)
Record HttpRequest `{H : HeaderLib} `{R : UriLib} := {
  hr_method : string;
  hr_uri : Uri;
  hr_headers : HeaderMap;
  hr_body : option string
}.

(** The JSON of an error reply: type, message and suggestion. *)
Record ErrorJson := { err_type : string; err_message : string; err_suggestion : string }.

Definition dp_message (e : DataPlaneError) : string :=
  match e with
  | DpUnauthorized => "client authentication failed"
  | CredentialStoreUnavailable => "credential state is unavailable"
  | BadRequest text => "request is invalid: " +:+ text
  | NoCapacity => "no eligible account is available"
  | UpstreamUnavailable => "upstream request failed"
  end.

(** [state.metrics()] in the text exposition format. *)
Definition metrics_text (m : MetricsSnapshot) : string :=
  let nl := String "010" "" in
  "# TYPE llmap_requests_total counter" +:+ nl +:+
  "llmap_requests_total " +:+ pretty (requests_total m) +:+ nl +:+
  "# TYPE llmap_authentication_failures_total counter" +:+ nl +:+
  "llmap_authentication_failures_total " +:+ pretty (authentication_failures_total m) +:+ nl +:+
  "# TYPE llmap_upstream_failures_total counter" +:+ nl +:+
  "llmap_upstream_failures_total " +:+ pretty (upstream_failures_total m) +:+ nl +:+
  "# TYPE llmap_responses_total counter" +:+ nl +:+
  "llmap_responses_total " +:+ pretty (responses_total m) +:+ nl.

Section Endpoints.
Context `{U : UrlLib} `{H : HeaderLib} `{R : UriLib} `{L : CryptoLib} `{J : JsonLib}.
Context (crc32 : bytes -> Z) (base64_decode : string -> option bytes)
        (parse_aws_envelope : string -> option AwsCredentialEnvelope)
        (format_date format_amz_date : DateTime -> string).

Abbreviation handle' := (handle crc32 base64_decode parse_aws_envelope format_date format_amz_date).

Inductive EndpointResponse :=
| FromUpstream (response : ProxyResponse)
| ErrorReply (status : Z) (json : ErrorJson).

Definition response_status (r : EndpointResponse) : Z :=
  match r with FromUpstream p => proxy_status p | ErrorReply status _ => status end.

Fixpoint prog_map {A B} (f : A -> B) (p : prog A) : prog B :=
  match p with
  | Ret a => Ret (f a)
  | Do e k => Do e (fun x => prog_map f (k x))
  end.

(** ** Reverse endpoint *)

Definition error_response (e : DataPlaneError) : EndpointResponse :=
  ErrorReply (dp_status e)
    {| err_type := match e with
                   | DpUnauthorized => "authentication_failed"
                   | CredentialStoreUnavailable => "credential_store_unavailable"
                   | BadRequest _ => "invalid_request"
                   | NoCapacity => "no_eligible_account"
                   | UpstreamUnavailable => "upstream_unavailable"
                   end;
       err_message := dp_message e;
       err_suggestion :=
         match e with
         | DpUnauthorized => "Send a current token from any active account configured on this proxy."
         | CredentialStoreUnavailable => "Retry after the proxy credential store is healthy."
         | BadRequest _ => "Correct the request and retry."
         | NoCapacity => "Retry later or enable an account that supports the requested model."
         | UpstreamUnavailable =>
             "Retry only if the client can prove the request was not already accepted."
         end |}.

(** [axum::body::to_bytes]: fails beyond the limit. *)
Definition to_bytes (body : option string) (limit : Z) : option string :=
  option_filter (fun b => byte_length b <=? limit) body.

(** The request passed on, once the body is read. *)
Definition proxy_request (session : option string) (path body : string) (request : HttpRequest) :
    ProxyRequest :=
  {| req_method := hr_method request;
     path_and_query := match uri_query (hr_uri request) with
                       | Some query => path +:+ "?" +:+ query
                       | None => path
                       end;
     session_from_path := session; req_headers := hr_headers request; req_body := body |}.

Definition proxy (dp : DataPlane) (session_from_path : option string) (path : string)
    (request : HttpRequest) : prog (option EndpointResponse) :=
  match to_bytes (hr_body request) (saturating_add U64_MAX (max_request_bytes dp) 1) with
  | None => Ret (Some (error_response
              (BadRequest "request body could not be read within the configured limit")))
  | Some body =>
      prog_map (fun out => option_map (fun r => match r with
                                                | Ok response => FromUpstream response
                                                | Err error => error_response error
                                                end) out)
        (handle' dp (proxy_request session_from_path path body request))
  end.

(** The four routes, with their path parameters. *)
Inductive reverse_route :=
| RootRoute
| V1Route (path : string)
| SessionRootRoute (session_id : string)
| SessionV1Route (session_id path : string).

Definition route_session (r : reverse_route) : option string :=
  match r with
  | RootRoute | V1Route _ => None
  | SessionRootRoute session_id | SessionV1Route session_id _ => Some session_id
  end.

Definition route_path (r : reverse_route) : string :=
  match r with
  | RootRoute | SessionRootRoute _ => "/v1"
  | V1Route path | SessionV1Route _ path => "/v1/" +:+ path
  end.

Definition reverse_endpoint (dp : DataPlane) (r : reverse_route) (request : HttpRequest) :
    prog (option EndpointResponse) := proxy dp (route_session r) (route_path r) request.

(** ** Forward proxy *)

Record ForwardProxyHandler := {
  fph_data_plane : DataPlane;
  fph_policy : DestinationPolicy;
  fph_max_request_bytes : Z
}.

(** The destination named by a request; a CONNECT names only an authority. *)
Definition forward_destination (request : HttpRequest) : option Url :=
  if bool_decide (hr_method request = "CONNECT")
  then authority ← uri_authority (hr_uri request);
       url_parse ("https://" +:+ authority +:+ "/")
  else url_parse (uri_to_string (hr_uri request)).

Definition authorize_uri (h : ForwardProxyHandler) (request : HttpRequest) : bool :=
  match forward_destination request with
  | Some destination => is_ok (policy_authorize (fph_policy h) destination)
  | None => false
  end.

Definition forward_error (status : Z) (code text : string) : EndpointResponse :=
  ErrorReply status {| err_type := code; err_message := text;
    err_suggestion := "Check client authentication, the destination allowlist, and account health before retrying." |}.

Definition forward_request (body : string) (request : HttpRequest) : ProxyRequest :=
  {| req_method := hr_method request;
     path_and_query := default "/" (uri_path_and_query (hr_uri request));
     session_from_path := None; req_headers := hr_headers request; req_body := body |}.

Definition forward_proxy (h : ForwardProxyHandler) (request : HttpRequest) :
    prog (option EndpointResponse) :=
  match hr_body request with
  | None => Ret (Some (forward_error 400 "invalid_request_body"
                         "The forward-proxy request body could not be read."))
  | Some body =>
      if fph_max_request_bytes h <? byte_length body
      then Ret (Some (forward_error 413 "request_too_large"
                        "The request exceeds the configured body limit."))
      else
        prog_map (fun out => option_map (fun r => match r with
                    | Ok response => FromUpstream response
                    | Err error => forward_error (dp_status error) "proxy_request_failed" (dp_message error)
                    end) out)
          (handle' (fph_data_plane h) (forward_request body request))
  end.

(** [RequestOrResponse]: an accepted CONNECT is handed back to the proxy library. *)
Inductive RequestOrResponse := Tunnel | Reply (response : EndpointResponse).

Definition handle_request (h : ForwardProxyHandler) (request : HttpRequest) :
    prog (option RequestOrResponse) :=
  if negb (authorize_uri h request)
  then Ret (Some (Reply (forward_error 403 "destination_denied"
                           "The requested forward-proxy destination is not allowed.")))
  else if bool_decide (hr_method request = "CONNECT") then Ret (Some Tunnel)
  else prog_map (option_map Reply) (forward_proxy h request).

(** ** Theorems *)

Lemma all_paths_map {A B} (f : A -> B) (p : prog A) hist (Post : list event -> B -> Prop) :
  all_paths (prog_map f p) hist Post <-> all_paths p hist (fun h a => Post h (f a)).
Proof.
  revert hist. induction p as [a|e k IH]; intros hist; cbn; [done|]. by split; intros Hp x; apply IH.
Qed.

(** What holds of every execution that reached the handler with [request]. *)
Definition handled_safely (dp : DataPlane) (request : ProxyRequest) (hist : list event) : Prop :=
  guarded_by touches_account (authorized_in dp request) hist /\ sends_safe request hist.

Lemma handle_handled dp request :
  all_paths (handle' dp request) [] (fun hist out => out <> None /\ handled_safely dp request hist).
Proof.
  eapply all_paths_mono; [|apply all_paths_and; [apply handle_guarded|apply handle_safe]].
  by intros hist out _ [Hg [Hout Hs]].
Qed.

(** ** Destinations *)

Lemma to_digit_nonneg radix c d : to_digit radix c = Some d -> 0 <= d.
Proof.
  unfold to_digit, is_ascii_digit, is_ascii_lowercase, is_ascii_uppercase, in_range, option_filter.
  repeat case_match; intros; simplify_eq; repeat match goal with H : _ && _ = true |- _ => apply andb_prop in H as [? ?] end; lia.
Qed.

Lemma span_digits_nonneg radix s : Forall (fun d => 0 <= d) (span_digits radix s).1.
Proof.
  induction s as [|c s IH]; cbn; [constructor|]. destruct (to_digit radix c) as [d|] eqn:Hd; [|constructor].
  destruct (span_digits radix s) as [ds after]. constructor; [by eapply to_digit_nonneg|done].
Qed.

Lemma read_number_bounds n zero max s v rest :
  read_number 10 n zero max s = Some (v, rest) -> 0 <= v <= max.
Proof.
  unfold read_number. pose proof (span_digits_nonneg 10 s) as Hd.
  destruct (span_digits 10 s) as [ds r]. cbn [fst] in Hd. destruct (_ || _); [done|]. destruct (_ && _); [done|].
  destruct (Z.ltb_spec max (fold_left (fun acc d => acc * 10 + d) ds 0)); [done|]. intros [= <- _]. split; [|lia].
  assert (Hacc : forall acc, 0 <= acc -> 0 <= fold_left (fun acc d => acc * 10 + d) ds acc); [|by apply Hacc].
  clear -Hd. induction Hd as [|d ds Hd _ IH]; intros acc Ha; cbn; [done|]. apply IH. lia.
Qed.

Lemma ipv4_octets s o : ip_from_str s = Some (V4 o) -> octets_typed o.
Proof.
  unfold ip_from_str, read_ipv4_addr, read_separator. intros Hp. repeat case_match; simplify_eq.
  all: repeat match goal with H : read_number _ _ _ _ _ = Some _ |- _ => apply read_number_bounds in H end.
  all: try done.
  all: unfold octets_typed; lia.
Qed.

(** Names and IPv4 literals of the ranges docs/forward-proxy.md denies. *)
Definition internal_host (host : string) : Prop :=
  host = "localhost" \/ (exists label, host = label +:+ ".localhost") \/
  exists o block, ip_from_str host = Some (V4 o) /\ block ∈ UNSAFE_BLOCKS /\ in_cidr o block.1 block.2 = true.

(** An IPv6 literal; [Url::host_str] gives it in brackets.  Its address is not looked at
    ([ipv6_loopback_tunnelled]). *)
Definition ipv6_literal (host : string) : Prop :=
  (exists text, host = "[" +:+ text +:+ "]") \/ exists segments, ip_from_str (policy_host host) = Some (V6 segments).

Lemma unsafe_host_internal host :
  ~ ipv6_literal host -> is_unsafe_host (policy_host host) = true <-> internal_host (policy_host host).
Proof.
  intros H6. unfold is_unsafe_host, internal_host. rewrite <- (ends_with_true ".localhost" (policy_host host)).
  destruct (bool_decide_reflect (policy_host host = "localhost")) as [|Hl]; [by split; [left|]|]. cbn [orb].
  destruct (ends_with _ _); [by split; [right; left|]|].
  destruct (ip_from_str (policy_host host)) as [[o|segments]|] eqn:Hip.
  - rewrite (unsafe_v4_blocks o) by by eapply ipv4_octets. rewrite existsb_elem. naive_solver.
  - destruct H6. right. by exists segments.
  - naive_solver.
Qed.

Lemma internal_host_unsafe host : internal_host host -> is_unsafe_host host = true.
Proof.
  unfold internal_host, is_unsafe_host. rewrite <- (ends_with_true ".localhost" host).
  destruct (bool_decide_reflect (host = "localhost")); [done|]. cbn [orb]. destruct (ends_with _ _); [done|].
  intros [?|[?|(o & block & Hip & Hb & Hin)]]; [done|done|]. rewrite Hip, (unsafe_v4_blocks o) by by eapply ipv4_octets.
  apply existsb_elem. by exists block.
Qed.

(** The host is on the allowlist and, unless private networks are allowed, no internal
    name or IPv4 literal. *)
Definition served_destination (p : DestinationPolicy) (u : Url) : Prop :=
  exists host, url_host_str u = Some host /\
    (exists entry, entry ∈ allowlist p /\ host_matches (policy_host host) entry = true) /\
    (allow_unsafe_private_networks p = true \/ ~ internal_host (policy_host host)).

Lemma authorize_uri_served h request :
  authorize_uri h request = true ->
  exists u, forward_destination request = Some u /\ served_destination (fph_policy h) u.
Proof.
  unfold authorize_uri. destruct (forward_destination request) as [u|]; [|done].
  destruct (policy_authorize (fph_policy h) u) as [[]|] eqn:Hp; [|done]. intros _. exists u. split; [done|].
  apply policy_authorize_ok in Hp as (host & Hh & Hsafe & Hentry). exists host. split_and!; [done|done|].
  destruct Hsafe as [?|Hs]; [by left|right]. intros Hi%internal_host_unsafe. congruence.
Qed.

Lemma served_authorized h request u :
  forward_destination request = Some u -> served_destination (fph_policy h) u ->
  (forall host, url_host_str u = Some host -> ~ ipv6_literal host) -> authorize_uri h request = true.
Proof.
  intros Hu (host & Hh & Hentry & Hext) H6. unfold authorize_uri. rewrite Hu.
  assert (Hok : policy_authorize (fph_policy h) u = Ok tt); [|by rewrite Hok].
  apply policy_authorize_ok. exists host. split_and!; [done| |done].
  destruct Hext as [?|Hi]; [by left|right]. apply not_true_iff_false. by rewrite unsafe_host_internal by by apply H6.
Qed.

(** A reply with the given status. *)
Definition replies (status : Z) (out : option RequestOrResponse) : Prop :=
  exists r, out = Some (Reply r) /\ response_status r = status.

Record forward_gated (h : ForwardProxyHandler) (request : HttpRequest) (hist : list event)
    (out : option RequestOrResponse) : Prop := {
  fg_returns : out <> None;
  fg_denied : (~ exists u, forward_destination request = Some u /\ served_destination (fph_policy h) u) ->
    hist = [] /\ replies 403 out;
  fg_tunnel : out = Some Tunnel -> hr_method request = "CONNECT" /\
    exists u, forward_destination request = Some u /\ served_destination (fph_policy h) u;
  fg_accepted : forall u, forward_destination request = Some u -> served_destination (fph_policy h) u ->
    (forall host, url_host_str u = Some host -> ~ ipv6_literal host) ->
    (hr_method request = "CONNECT" -> out = Some Tunnel) /\
    (forall response, out = Some (Reply response) -> hist = [] -> response_status response <> 403);
  fg_oversized : forall body, hr_body request = Some body -> fph_max_request_bytes h < byte_length body ->
    hist = [] /\ (out = Some Tunnel \/ replies 403 out \/ replies 413 out);
  fg_handled : hist <> [] -> exists u body,
    forward_destination request = Some u /\ served_destination (fph_policy h) u /\
    hr_method request <> "CONNECT" /\
    hr_body request = Some body /\ byte_length body <= fph_max_request_bytes h /\
    handled_safely (fph_data_plane h) (forward_request body request) hist
}.

Lemma handle_counts dp request :
  all_paths (handle' dp request) [] (fun hist _ => hist <> []).
Proof.
  unfold handle. cbn [all_paths]. intros []. eapply all_paths_mono; [|apply all_paths_true].
  intros hist out [rest ->] _. done.
Qed.

(** C19.  The forward proxy only serves allowed destinations: a request whose
    destination is not on the allowlist, or names an internal host (localhost and its
    subdomains, and IPv4 literals of the private, loopback, link-local, metadata,
    multicast, documentation, unspecified and broadcast ranges), is answered 403, and a
    body over the limit 413, without any effect on accounts, metrics or providers; only a
    CONNECT to a served destination is tunnelled.  Served destinations are not refused,
    IPv6 literals left aside: their address is not checked, which is recorded as a
    finding.  A request that has any effect went through the data plane's
    authentication, as on the reverse endpoint, so that accounts are only touched for an
    authorised token and client credentials are not passed on.  The handler never
    panics. *)
Theorem forward_requests_are_gated (h : ForwardProxyHandler) (request : HttpRequest) :
  all_paths (handle_request h request) [] (forward_gated h request).
Proof.
  unfold handle_request. destruct (authorize_uri h request) eqn:Hauth; cbn [negb].
  2:{ cbn. constructor; [done|by split; [|eexists]|done| | |done].
      - intros u Hu Hs H6. by rewrite (served_authorized h request u Hu Hs H6) in Hauth.
      - intros body _ _. split; [done|]. right. left. by eexists. }
  destruct (authorize_uri_served h request Hauth) as (u & Hu & Hserved).
  assert (Hdenied : forall hist out, (~ exists u, forward_destination request = Some u /\ served_destination (fph_policy h) u) ->
    hist = ([] : list event) /\ replies 403 out) by (intros ? ? Hno; destruct Hno; by exists u).
  case_bool_decide as Hm.
  { cbn. constructor; [done|apply Hdenied|by split; [|exists u]|done| |done].
    intros body _ _. split; [done|]. by left. }
  unfold forward_proxy. destruct (hr_body request) as [body|] eqn:Hbody.
  2:{ cbn. constructor; [done|apply Hdenied|done| |congruence|done].
      intros u' _ _ _. split; [done|]. by intros response [= <-]. }
  destruct (Z.ltb_spec (fph_max_request_bytes h) (byte_length body)) as [Hbig|Hfits].
  { cbn. constructor; [done|apply Hdenied|done| | |done].
    - intros u' _ _ _. split; [done|]. by intros response [= <-].
    - intros _ _ _. split; [done|]. right. right. by eexists. }
  rewrite !all_paths_map.
  eapply all_paths_mono; [|apply all_paths_and; [apply handle_handled|apply handle_counts]]. cbn.
  intros hist out _ [[Hout Hsafe] Hsome]. destruct out as [out|]; [|done]. cbn.
  constructor; [done|apply Hdenied|done|by intros u' _ _ _| |].
  - rewrite Hbody. intros b [= <-]. lia.
  - intros _. by exists u, body.
Qed.

Record reverse_gated (dp : DataPlane) (r : reverse_route) (request : HttpRequest) (hist : list event)
    (out : option EndpointResponse) : Prop := {
  rg_returns : out <> None;
  rg_oversized : forall body, hr_body request = Some body -> max_request_bytes dp < byte_length body ->
    Forall (fun e => projT1 e = ECount RequestsTotal) hist /\
    exists response, out = Some response /\ response_status response = 400;
  rg_handled : hist <> [] -> exists body, hr_body request = Some body /\
    let passed := proxy_request (route_session r) (route_path r) body request in
    starts_with "/v1" (path_and_query passed) = true /\ handled_safely dp passed hist
}.

Lemma oversized_handle dp request :
  max_request_bytes dp < byte_length (req_body request) ->
  all_paths (handle' dp request) [] (fun hist out =>
    Forall (fun e => projT1 e = ECount RequestsTotal) hist /\ exists text, out = Some (Err (BadRequest text))).
Proof.
  intros Hbig. unfold handle. cbn [all_paths]. intros []. rewrite (proj2 (Z.ltb_lt _ _) Hbig). cbn.
  split; [by repeat constructor|by eexists].
Qed.

Lemma route_path_v1 session path body request r :
  path = route_path r -> starts_with "/v1" (path_and_query (proxy_request session path body request)) = true.
Proof.
  intros ->. apply starts_with_true. cbn. destruct (uri_query (hr_uri request)), r; by eexists.
Qed.

(** The reverse endpoint: every route passes a path under [/v1] and the client's
    own session to the data plane, whose authentication guards every effect on
    accounts and providers; a body over the configured limit is answered 400 before
    credentials are even looked at, with no effect but the request count, whether the
    reader or the handler notices it.  The endpoint never panics. *)
Lemma reverse_requests_are_gated (dp : DataPlane) (r : reverse_route) (request : HttpRequest)
    (Hlimit : 0 <= max_request_bytes dp < U64_MAX) :
  all_paths (reverse_endpoint dp r request) [] (reverse_gated dp r request).
Proof.
  unfold reverse_endpoint, proxy, to_bytes, saturating_add. rewrite Z.min_r by lia.
  destruct (hr_body request) as [body|] eqn:Hbody; cbn [option_filter].
  2:{ cbn. constructor; [done|congruence|done]. }
  destruct (Z.leb_spec (byte_length body) (max_request_bytes dp + 1)) as [Hread|Hlong].
  2:{ cbn. constructor; [done| |done]. intros _ _ _. split; [constructor|]. by eexists. }
  rewrite all_paths_map. set (passed := proxy_request _ _ _ _).
  assert (Hpath : starts_with "/v1" (path_and_query passed) = true) by (by eapply route_path_v1).
  destruct (Z.ltb_spec (max_request_bytes dp) (byte_length body)) as [Hbig|Hfits].
  - eapply all_paths_mono; [|apply all_paths_and; [apply handle_handled|apply (oversized_handle dp passed Hbig)]].
    cbn. intros hist out _ [[_ Hsafe] [Hquiet [text ->]]]. constructor; [done| |].
    + intros _ _ _. split; [done|]. by eexists.
    + intros _. by exists body.
  - eapply all_paths_mono; [|apply handle_handled]. cbn. intros hist out _ [Hout Hsafe].
    destruct out as [out|]; [|done]. constructor; [done| |].
    + rewrite Hbody. intros b [= <-]. lia.
    + intros _. by exists body.
Qed.
End Endpoints.

(** ** Examples *)

Section Witnesses.
#[local] Existing Instance simple_url_lib.
#[local] Existing Instance simple_header_lib.
#[local] Existing Instance simple_crypto_lib.
#[local] Existing Instance simple_json_lib.

(** A URI as its authority, path and query. *)
#[local] Instance simple_uri_lib : UriLib := {|
  Uri := option string * string * option string;
  uri_authority := fun u => u.1.1;
  uri_path := fun u => u.1.2;
  uri_query := fun u => u.2;
  uri_path_and_query := fun u => Some (u.1.2 +:+ match u.2 with Some q => "?" +:+ q | None => "" end);
  uri_to_string := fun u => match u.1.1 with Some a => "https://" +:+ a | None => "" end +:+ u.1.2
|}.

Definition sample_plane : DataPlane :=
  {| auth_mode := Enforce; authenticator := {| digest_key := "key" |}; max_request_bytes := 32 * 1024 * 1024 |}.

Definition sample_handler : ForwardProxyHandler :=
  {| fph_data_plane := sample_plane;
     fph_policy := {| allowlist := ["api.anthropic.com"]; allow_unsafe_private_networks := false |};
     fph_max_request_bytes := 32 * 1024 * 1024 |}.

Definition request_to (method authority : string) : HttpRequest :=
  {| hr_method := method; hr_uri := (Some authority, "/v1/messages", None); hr_headers := [];
     hr_body := Some "" |}.

(** The program's first step, without its continuation. *)
Definition first_status (p : prog (option RequestOrResponse)) : option Z :=
  match p with
  | Ret (Some (Reply r)) => Some (response_status r)
  | Ret (Some Tunnel) => Some 200
  | _ => None
  end.

Definition forward_sample (method authority : string) : option Z :=
  first_status (handle_request (fun _ => 0) (fun _ => None) (fun _ => None) (fun _ => "") (fun _ => "")
                  sample_handler (request_to method authority)).

Example forward_samples :
  [forward_sample "CONNECT" "api.anthropic.com:443"; forward_sample "CONNECT" "169.254.169.254:80";
   forward_sample "POST" "evil.example.com"; forward_sample "POST" "api.anthropic.com"]
  = [Some 200; Some 403; Some 403; None].
Proof. vm_compute. reflexivity. Qed.


(** The loopback address as an IPv6 literal passes a pattern that matches it. *)
Lemma ipv6_loopback_tunnelled (u : Url) :
  url_host_str u = Some "[::1]" ->
  policy_authorize {| allowlist := ["*"]; allow_unsafe_private_networks := false |} u = Ok tt.
Proof. intros Hu. unfold policy_authorize. rewrite Hu. vm_compute. reflexivity. Qed.
End Witnesses.
