(* ===== verification/Storage.v ===== *)
(** * The account store (src/src/storage.rs)

    The SQLite tables as finite maps and every operation of [SqliteStore] on them.
    A transaction is one step that happens or, on a database error, leaves the tables
    as they were; the error is the argument [fault] of the operation (one per critical
    section).  Nonces are arguments.  serde's derived codecs, the formatting of times
    and the token endpoint's HTTP client are parameters. *)
From S2P Require Import Prelude Interfaces Models Routing Auth Egress Bedrock Secrets Providers DataPlane.

Inductive StorageError :=
| Database
| SecretFailed (e : SecretError)
| NotFound
| InvalidAccount
| BackupDestinationExists
| BackupFilesystem
| InvalidBackup.

(** ** Rows *)

Record account_row := {
  row_json : string;
  row_ciphertext : string;
  row_egress : option string
}.

Record history_row := { hist_ciphertext : string; hist_expires_at : string }.

Record AuditEvent := {
  ae_occurred_at : DateTime;
  ae_actor : string;
  ae_action : string;
  ae_account_id : option string;
  ae_provider : option string;
  ae_model : option string;
  ae_session_id : option string;
  ae_status : option Z;
  ae_outcome : string;
  ae_latency_ms : option Z
}.

(** A row of [audit_events]: the time is stored as text. *)
Record audit_row := { audit_id : Z; audit_time : string; audit_event : AuditEvent }.

Record Db := {
  provider_accounts : gmap string account_row;
  credential_history : gmap string history_row;
  audit_events : list audit_row;            (* in insertion order *)
  audit_sequence : Z                        (* AUTOINCREMENT *)
}.

Definition with_accounts (db : Db) (a : gmap string account_row) (h : gmap string history_row) : Db :=
  {| provider_accounts := a; credential_history := h; audit_events := audit_events db;
     audit_sequence := audit_sequence db |}.

Record OAuthRefreshSummary := { refreshed : nat; skipped : nat; failed : nat }.

Section Storage.
Context `{U : UrlLib} `{L : CryptoLib}.

Record PublicAccount := {
  pub_id : string;
  pub_label : string;
  pub_provider : ProviderKind;
  pub_base_url : string;
  pub_enabled : bool;
  pub_models : list string;
  pub_egress : list string;
  credential_present : bool
}.

Record OAuthCredentialEnvelope := {
  oauth_access_token : string;
  oauth_expires_at : option DateTime;
  oauth_refresh_token : option string;
  oauth_token_endpoint : option Url;
  oauth_client_id : option string;
  oauth_client_secret : option string;
  oauth_scope : option string
}.

Record OAuthTokenResponse := {
  tok_access_token : string;
  tok_expires_in : Z;                  (* u64 *)
  tok_refresh_token : option string
}.

Record OAuthRefreshRequest := {
  rr_refresh_token : string;
  rr_client_id : string;
  rr_client_secret : option string;
  rr_scope : option string
}.

Record OAuthRefreshCandidate := {
  cand_account : ProviderAccount;
  expected_ciphertext : string;
  envelope : OAuthCredentialEnvelope;
  due : bool
}.
End Storage.

(** serde's derived codecs, [to_rfc3339] and [parse_from_rfc3339]. *)
Class StoreCodec `{U : UrlLib} := {
  account_to_json : ProviderAccount -> string;
  account_from_json : string -> option ProviderAccount;
  egress_to_json : list string -> string;
  egress_from_json : string -> option (list string);
  oauth_to_json : OAuthCredentialEnvelope -> string;
  oauth_from_json : string -> option OAuthCredentialEnvelope;
  to_rfc3339 : DateTime -> string;
  parse_rfc3339 : string -> option DateTime
}.

(** Times whose year has four digits, for which RFC 3339 text is defined. *)
Definition four_digit_year (t : DateTime) : Prop :=
  seconds (-62167219200) <= t < seconds 253402300800.

(** What the store relies on: values are read back as they were written, JSON is
    UTF-8, and the text of times sorts chronologically. *)
Class StoreCodecLaws `{U : UrlLib} (C : StoreCodec) : Prop := {
  account_codec : forall a, account_from_json (account_to_json a) = Some a;
  egress_codec : forall l, egress_from_json (egress_to_json l) = Some l;
  egress_utf8 : forall l, utf8_valid (list_ascii_of_string (egress_to_json l)) = true;
  oauth_codec : forall e, oauth_from_json (oauth_to_json e) = Some e;
  oauth_utf8 : forall e, utf8_valid (list_ascii_of_string (oauth_to_json e)) = true;
  oauth_nonempty : forall e, string_is_empty (oauth_to_json e) = false;
  rfc3339_codec : forall t, four_digit_year t -> parse_rfc3339 (to_rfc3339 t) = Some t;
  rfc3339_order : forall s t, four_digit_year s -> four_digit_year t ->
    String.compare (to_rfc3339 s) (to_rfc3339 t) = Z.compare s t
}.

Section Operations.
Context `{U : UrlLib} `{L : CryptoLib} `{C : !StoreCodec} (box : SecretBox).

Definition account_aad (aid : string) : string := "account:" +:+ aid.
Definition egress_aad (aid : string) : string := "account-egress:" +:+ aid.

Definition with_egress (a : ProviderAccount) (proxies : list string) : ProviderAccount :=
  {| id := id a; label := label a; kind := kind a; base_url := base_url a; enabled := enabled a;
     model_map := model_map a; egress_proxies := proxies;
     compatible_auth_header := compatible_auth_header a;
     compatible_auth_prefix := compatible_auth_prefix a |}.

Definition with_enabled (a : ProviderAccount) (e : bool) : ProviderAccount :=
  {| id := id a; label := label a; kind := kind a; base_url := base_url a; enabled := e;
     model_map := model_map a; egress_proxies := egress_proxies a;
     compatible_auth_header := compatible_auth_header a;
     compatible_auth_prefix := compatible_auth_prefix a |}.

(** ** Encoding an account *)

(** [parse(..).expect(..).redacted_authority()] of every endpoint. *)
Fixpoint redact_all (endpoints : list string) : option (list string) :=
  match endpoints with
  | [] => Some []
  | e :: rest =>
      match endpoint_parse e with
      | Err _ => None
      | Ok parsed =>
          text ← redacted_authority parsed;
          texts ← redact_all rest;
          Some (text :: texts)
      end
  end.

Definition account_storage_values (nonce : string) (account : ProviderAccount) :
    option (result (string * string) StorageError) :=
  let! _ := Some (map_err (fun _ => InvalidAccount)
                    (collect_results endpoint_parse (egress_proxies account))) in
  let! egress := Some (map_err SecretFailed
    (encrypt box nonce (egress_to_json (egress_proxies account)) (egress_aad (id account)))) in
  redacted ← redact_all (egress_proxies account);
  Some (Ok (account_to_json (with_egress account redacted), egress)).

Definition hydrate_account_egress (account : ProviderAccount) (ciphertext : option string) :
    result ProviderAccount StorageError :=
  match option_filter (fun value => negb (string_is_empty value)) ciphertext with
  | None => Ok account
  | Some ciphertext =>
      let? plaintext := map_err SecretFailed (decrypt box ciphertext (egress_aad (id account))) in
      let? proxies := ok_or (egress_from_json plaintext) InvalidAccount in
      Ok (with_egress account proxies)
  end.

(** The access token of a stored credential, and its expiry. *)
Definition decoded_credential (k : ProviderKind) (stored : string) :
    result (string * option DateTime) unit :=
  if negb (bool_decide (k = ClaudeOauth)) || negb (starts_with "{" (trim_start stored))
  then Ok (stored, None)
  else
    let? envelope := ok_or (oauth_from_json stored) tt in
    if string_is_empty (oauth_access_token envelope) then Err tt
    else Ok (oauth_access_token envelope, oauth_expires_at envelope).

(** ** Writing accounts *)

(** The two values and the encrypted credential, computed before the lock is taken. *)
Definition encode_account (nonce1 nonce2 : string) (account : ProviderAccount) (credential : string) :
    option (result account_row StorageError) :=
  let! values := account_storage_values nonce1 account in
  let! encrypted := Some (map_err SecretFailed (encrypt box nonce2 credential (account_aad (id account)))) in
  Some (Ok {| row_json := values.1; row_ciphertext := encrypted; row_egress := Some values.2 |}).

Definition upsert_account (db : Db) (nonce1 nonce2 : string) (fault : bool)
    (account : ProviderAccount) (credential : string) : option (result unit StorageError * Db) :=
  encoded ← encode_account nonce1 nonce2 account credential;
  match encoded with
  | Err e => Some (Err e, db)
  | Ok row =>
      if fault then Some (Err Database, db)
      else Some (Ok tt, with_accounts db (<[id account := row]> (provider_accounts db))
                          (delete (id account) (credential_history db)))
  end.

Definition rotate_account_credential (db : Db) (nonce1 nonce2 : string) (fault : bool)
    (account : ProviderAccount) (credential : string) (previous_valid_until : DateTime) :
    option (result unit StorageError * Db) :=
  encoded ← encode_account nonce1 nonce2 account credential;
  match encoded with
  | Err e => Some (Err e, db)
  | Ok row =>
      if fault then Some (Err Database, db)
      else
        let history := match provider_accounts db !! id account with
          | Some previous =>
              <[id account := {| hist_ciphertext := row_ciphertext previous;
                                 hist_expires_at := to_rfc3339 previous_valid_until |}]>
                (credential_history db)
          | None => credential_history db
          end in
        Some (Ok tt, with_accounts db (<[id account := row]> (provider_accounts db)) history)
  end.

(** ** Reading accounts *)

Definition load_account (db : Db) (fault : bool) (aid : string) :
    result (ProviderAccount * string) StorageError :=
  if fault then Err Database
  else
    let? row := ok_or (provider_accounts db !! aid) NotFound in
    let? account := ok_or (account_from_json (row_json row)) InvalidAccount in
    let? account := hydrate_account_egress account (row_egress row) in
    let? secret := map_err SecretFailed (decrypt box (row_ciphertext row) (account_aad aid)) in
    let? decoded := map_err (fun _ => InvalidAccount) (decoded_credential (kind account) secret) in
    Ok (account, decoded.1).

(** [ORDER BY id] (binary collation). *)
Definition rows_by_id {A} (m : gmap string A) : list (string * A) :=
  sort (fun x y => String.compare x.1 y.1) (map_to_list m).

(** [list_accounts]: redaction of what the row's JSON holds; [None] would be a panic. *)
Definition public_egress (endpoint : string) : option string :=
  match endpoint_parse endpoint with
  | Ok parsed => redacted_authority parsed
  | Err _ => Some "[invalid proxy endpoint]"
  end.

Definition public_account (row : account_row) : option (result PublicAccount StorageError) :=
  match account_from_json (row_json row) with
  | None => Some (Err InvalidAccount)
  | Some a =>
      egress ← mapM public_egress (egress_proxies a);
      Some (Ok {| pub_id := id a; pub_label := label a; pub_provider := kind a;
                  pub_base_url := url_to_string (base_url a); pub_enabled := enabled a;
                  pub_models := sort String.compare (map_to_list (model_map a)).*1;
                  pub_egress := egress;
                  credential_present := negb (string_is_empty (row_ciphertext row)) |})
  end.

Fixpoint collect_panicking {A B E} (f : A -> option (result B E)) (l : list A) :
    option (result (list B) E) :=
  match l with
  | [] => Some (Ok [])
  | x :: rest => let! y := f x in let! ys := collect_panicking f rest in Some (Ok (y :: ys))
  end.

Definition list_accounts (db : Db) (fault : bool) : option (result (list PublicAccount) StorageError) :=
  if fault then Some (Err Database)
  else collect_panicking (fun kr => public_account kr.2) (rows_by_id (provider_accounts db)).

Definition provider_name (k : ProviderKind) : string :=
  match k with
  | ClaudeOauth => "claude_oauth"
  | AnthropicApiKey => "anthropic_api_key"
  | BedrockApiKey => "bedrock_api_key"
  | BedrockSigV4 => "bedrock_sig_v4"
  | AnthropicCompatible => "anthropic_compatible"
  end.

Definition route_account (a : PublicAccount) : RouteAccount :=
  {| Routing.id := pub_id a; provider := provider_name (pub_provider a);
     Routing.enabled := pub_enabled a; healthy := true; in_flight := 0;
     utilization_basis_points := 0; models := list_to_set (pub_models a); depleted_until := None |}.

Definition route_accounts (db : Db) (fault : bool) : option (result (list RouteAccount) StorageError) :=
  let! accounts := list_accounts db fault in
  Some (Ok (map route_account accounts)).

(** [set_account_enabled] is two critical sections: the read, and the update with the
    JSON computed from it. *)
Definition read_account_json (db : Db) (fault : bool) (aid : string) : result string StorageError :=
  if fault then Err Database
  else let? row := ok_or (provider_accounts db !! aid) NotFound in Ok (row_json row).

Definition enabled_json (json : string) (e : bool) : result string StorageError :=
  let? account := ok_or (account_from_json json) InvalidAccount in
  Ok (account_to_json (with_enabled account e)).

Definition update_account_json (db : Db) (fault : bool) (aid updated : string) :
    result unit StorageError * Db :=
  if fault then (Err Database, db)
  else (Ok tt, with_accounts db
    (alter (fun row => {| row_json := updated; row_ciphertext := row_ciphertext row;
                          row_egress := row_egress row |}) aid (provider_accounts db))
    (credential_history db)).

(** [meanwhile]: what other operations do between the two sections. *)
Definition set_account_enabled (db : Db) (fault1 fault2 : bool) (meanwhile : Db -> Db)
    (aid : string) (e : bool) : result unit StorageError * Db :=
  match (let? json := read_account_json db fault1 aid in enabled_json json e) with
  | Err err => (Err err, db)
  | Ok updated => update_account_json (meanwhile db) fault2 aid updated
  end.

(** The foreign key deletes the history row with the account. *)
Definition delete_account (db : Db) (fault : bool) (aid : string) : result unit StorageError * Db :=
  if fault then (Err Database, db)
  else match provider_accounts db !! aid with
       | None => (Err NotFound, db)
       | Some _ => (Ok tt, with_accounts db (delete aid (provider_accounts db))
                              (delete aid (credential_history db)))
       end.

(** ** The credential snapshot *)

Definition snapshot_row (a : Authenticator) (now : DateTime) (db : Db) (kr : string * account_row) :
    result AccountCredential RepositoryError :=
  let? account := ok_or (account_from_json (row_json kr.2)) RepoInvalidData in
  let aad := account_aad (id account) in
  let? secret := map_err (fun _ => RepoInvalidData) (decrypt box (row_ciphertext kr.2) aad) in
  let? decoded := map_err (fun _ => RepoInvalidData) (decoded_credential (kind account) secret) in
  let credential := with_current_expiry (credential_active hmac_sha256 a (id account) decoded.1) decoded.2 in
  let? credential :=
    match credential_history db !! kr.1 with
    | None => Ok credential
    | Some h =>
        let? expiry := ok_or (parse_rfc3339 (hist_expires_at h)) RepoInvalidData in
        if now <? expiry then
          let? previous := map_err (fun _ => RepoInvalidData) (decrypt box (hist_ciphertext h) aad) in
          let? decoded := map_err (fun _ => RepoInvalidData) (decoded_credential (kind account) previous) in
          Ok (with_previous hmac_sha256 credential a decoded.1 expiry)
        else Ok credential
    end in
  Ok (if enabled account then credential else paused credential).

Definition credential_snapshot (db : Db) (fault : bool) (a : Authenticator) (now : DateTime) :
    result CredentialSnapshot RepositoryError :=
  if fault then Err RepoUnavailable
  else let? credentials := collect_results (snapshot_row a now db) (rows_by_id (provider_accounts db)) in
       Ok (Available credentials).

Definition repository_error (e : StorageError) : RepositoryError :=
  match e with
  | NotFound => RepoNotFound
  | Database => RepoUnavailable
  | _ => RepoInvalidData
  end.

Definition repo_load_account (db : Db) (fault : bool) (aid : string) :
    result (ProviderAccount * string) RepositoryError :=
  map_err repository_error (load_account db fault aid).

(** ** Audit *)

(** SQLite integers are signed: binding a larger [u64] is an error. *)
Definition bindable (event : AuditEvent) : bool :=
  is_none_or (ae_latency_ms event) (fun ms => ms <=? I64_MAX).

Definition append_audit (db : Db) (fault : bool) (event : AuditEvent) : result unit StorageError * Db :=
  if fault || negb (bindable event) then (Err Database, db)
  else (Ok tt, {| provider_accounts := provider_accounts db; credential_history := credential_history db;
                  audit_events := audit_events db ++
                    [{| audit_id := audit_sequence db + 1; audit_time := to_rfc3339 (ae_occurred_at event);
                        audit_event := event |}];
                  audit_sequence := audit_sequence db + 1 |}).

Definition append_proxy_audit (db : Db) (fault : bool) (r : ProxyAuditRecord) :
    result unit RepositoryError * Db :=
  let '(res, db) := append_audit db fault
    {| ae_occurred_at := occurred_at r; ae_actor := actor r; ae_action := "proxy.request";
       ae_account_id := audit_account_id r; ae_provider := audit_provider r; ae_model := audit_model r;
       ae_session_id := session_fingerprint r; ae_status := Some (audit_status r);
       ae_outcome := audit_outcome r; ae_latency_ms := Some (latency_ms r) |} in
  (map_err repository_error res, db).

(** [ORDER BY occurred_at DESC, id DESC]. *)
Definition audit_cmp (a b : audit_row) : comparison :=
  then_with (CompOpp (String.compare (audit_time a) (audit_time b)))
            (CompOpp (Z.compare (audit_id a) (audit_id b))).

Definition audit_row_event (r : audit_row) : result AuditEvent StorageError :=
  let? t := ok_or (parse_rfc3339 (audit_time r)) InvalidAccount in
  let e := audit_event r in
  Ok {| ae_occurred_at := t; ae_actor := ae_actor e; ae_action := ae_action e;
        ae_account_id := ae_account_id e; ae_provider := ae_provider e; ae_model := ae_model e;
        ae_session_id := ae_session_id e; ae_status := ae_status e; ae_outcome := ae_outcome e;
        ae_latency_ms := ae_latency_ms e |}.

Definition recent_audit (db : Db) (fault : bool) (limit : Z) : result (list AuditEvent) StorageError :=
  if fault then Err Database
  else collect_results audit_row_event
         (take (Z.to_nat (Z.max 1 (Z.min 1000 limit))) (sort audit_cmp (audit_events db))).

Definition prune_audit_before (db : Db) (fault : bool) (cutoff : DateTime) :
    result nat StorageError * Db :=
  if fault then (Err Database, db)
  else
    let old r := match String.compare (audit_time r) (to_rfc3339 cutoff) with Lt => true | _ => false end in
    (Ok (length (List.filter old (audit_events db))),
     {| provider_accounts := provider_accounts db; credential_history := credential_history db;
        audit_events := List.filter (fun r => negb (old r)) (audit_events db);
        audit_sequence := audit_sequence db |}).

(** ** OAuth refresh *)

Definition oauth_endpoint_allowed (endpoint : Url) : bool :=
  is_some_and (url_host_str endpoint) (fun host =>
    existsb (fun domain => bool_decide (host = domain) || ends_with ("." +:+ domain) host)
      ["anthropic.com"; "claude.com"; "claude.ai"]).

Definition refresh_candidate (now : DateTime) (row : account_row) :
    result (option OAuthRefreshCandidate) StorageError :=
  let? account := ok_or (account_from_json (row_json row)) InvalidAccount in
  let? account := hydrate_account_egress account (row_egress row) in
  if negb (bool_decide (kind account = ClaudeOauth)) || negb (enabled account) then Ok None
  else
    let? plaintext := map_err SecretFailed (decrypt box (row_ciphertext row) (account_aad (id account))) in
    if negb (starts_with "{" (trim_start plaintext)) then Ok None
    else
      let? envelope := ok_or (oauth_from_json plaintext) InvalidAccount in
      Ok (Some {| cand_account := account; expected_ciphertext := row_ciphertext row;
                  envelope := envelope;
                  due := is_some_and (oauth_expires_at envelope) (fun e => e <=? now + minutes 5)
                         && bool_decide (is_Some (oauth_refresh_token envelope))
                         && bool_decide (is_Some (oauth_token_endpoint envelope))
                         && bool_decide (is_Some (oauth_client_id envelope)) |}).

Definition oauth_refresh_candidates (db : Db) (fault : bool) (now : DateTime) :
    result (list OAuthRefreshCandidate) StorageError :=
  if fault then Err Database
  else let? found := collect_results (fun kr => refresh_candidate now kr.2) (rows_by_id (provider_accounts db)) in
       Ok (omap (fun c => c) found).

(** The conditional update: [WHERE id = ?1 AND credential_ciphertext = ?2]. *)
Definition replace_oauth_if_current (db : Db) (nonce : string) (fault : bool)
    (candidate : OAuthRefreshCandidate) (refreshed : OAuthCredentialEnvelope)
    (previous_valid_until : DateTime) : result bool StorageError * Db :=
  let aid := id (cand_account candidate) in
  match encrypt box nonce (oauth_to_json refreshed) (account_aad aid) with
  | Err e => (Err (SecretFailed e), db)
  | Ok encrypted =>
      if fault then (Err Database, db)
      else match provider_accounts db !! aid with
           | Some row =>
               if bool_decide (row_ciphertext row = expected_ciphertext candidate) then
                 (Ok true, with_accounts db
                    (<[aid := {| row_json := row_json row; row_ciphertext := encrypted;
                                 row_egress := row_egress row |}]> (provider_accounts db))
                    (<[aid := {| hist_ciphertext := expected_ciphertext candidate;
                                 hist_expires_at := to_rfc3339 previous_valid_until |}]>
                       (credential_history db)))
               else (Ok false, db)
           | None => (Ok false, db)
           end
  end.

Context (proxy_accepted : ProxyEndpoint -> bool)       (* reqwest::Proxy::all *)
        (client_builds : bool)                         (* ClientBuilder::build *)
        (post : option ProxyEndpoint -> Url -> OAuthRefreshRequest -> option (Z * option OAuthTokenResponse)).

(** [wall] is [Utc::now()] when the response has arrived. *)
Definition refresh_oauth_candidate (candidate : OAuthRefreshCandidate) (wall : DateTime) :
    result OAuthCredentialEnvelope unit :=
  let env := envelope candidate in
  let? endpoint := ok_or (oauth_token_endpoint env) tt in
  if negb (bool_decide (url_scheme endpoint = "https")) || negb (oauth_endpoint_allowed endpoint)
  then Err tt
  else
    let? proxy := match head (egress_proxies (cand_account candidate)) with
                  | None => Ok None
                  | Some p => let? e := map_err (fun _ => tt) (endpoint_parse p) in
                              if proxy_accepted e then Ok (Some e) else Err tt
                  end in
    if negb client_builds then Err tt
    else
      let? refresh_token := ok_or (oauth_refresh_token env) tt in
      let? client_id := ok_or (oauth_client_id env) tt in
      let request := {| rr_refresh_token := refresh_token; rr_client_id := client_id;
                        rr_client_secret := oauth_client_secret env; rr_scope := oauth_scope env |} in
      let? answer := ok_or (post proxy endpoint request) tt in
      if negb ((200 <=? answer.1) && (answer.1 <=? 299)) then Err tt
      else
        let? response := ok_or answer.2 tt in
        if string_is_empty (tok_access_token response)
           || negb ((60 <=? tok_expires_in response) && (tok_expires_in response <=? 86400))
        then Err tt
        else Ok {| oauth_access_token := tok_access_token response;
                   oauth_expires_at := Some (wall + seconds (tok_expires_in response));
                   oauth_refresh_token := option_or (tok_refresh_token response) (oauth_refresh_token env);
                   oauth_token_endpoint := oauth_token_endpoint env;
                   oauth_client_id := oauth_client_id env;
                   oauth_client_secret := oauth_client_secret env;
                   oauth_scope := oauth_scope env |}.

Definition previous_validity (now : DateTime) (env : OAuthCredentialEnvelope) : DateTime :=
  Z.min (default (now + minutes 10) (oauth_expires_at env)) (now + minutes 10).

(** What happens around the [i]-th candidate: other operations during its exchange, the
    nonce, the time, and whether the database fails. *)
Record refresh_env := {
  re_meanwhile : Db -> Db;
  re_nonce : string;
  re_wall : DateTime;
  re_fault : bool
}.

Fixpoint refresh_all (db : Db) (now : DateTime) (candidates : list OAuthRefreshCandidate)
    (env : nat -> refresh_env) (i : nat) (summary : OAuthRefreshSummary) : OAuthRefreshSummary * Db :=
  match candidates with
  | [] => (summary, db)
  | c :: rest =>
      let skip := {| refreshed := refreshed summary; skipped := S (skipped summary); failed := failed summary |} in
      let fail := {| refreshed := refreshed summary; skipped := skipped summary; failed := S (failed summary) |} in
      let done := {| refreshed := S (refreshed summary); skipped := skipped summary; failed := failed summary |} in
      if negb (due c) then refresh_all db now rest env (S i) skip
      else
        let e := env i in
        let db := re_meanwhile e db in
        match refresh_oauth_candidate c (re_wall e) with
        | Err _ => refresh_all db now rest env (S i) fail
        | Ok fresh =>
            let '(res, db) := replace_oauth_if_current db (re_nonce e) (re_fault e) c fresh
                                (previous_validity now (envelope c)) in
            refresh_all db now rest env (S i)
              (match res with Ok true => done | Ok false => skip | Err _ => fail end)
        end
  end.

Definition refresh_due_oauth (db : Db) (fault : bool) (now : DateTime) (env : nat -> refresh_env) :
    OAuthRefreshSummary * Db :=
  match oauth_refresh_candidates db fault now with
  | Err _ => ({| refreshed := 0; skipped := 0; failed := 1 |}, db)
  | Ok candidates => refresh_all db now candidates env 0 {| refreshed := 0; skipped := 0; failed := 0 |}
  end.

(** [encrypt_legacy_egress_metadata]: rows without egress ciphertext are rewritten one
    by one; an error stops the loop and keeps what was done. *)
Definition is_legacy (row : account_row) : bool :=
  match row_egress row with None => true | Some c => string_is_empty c end.

Fixpoint migrate_rows (db : Db) (nonces : nat -> string) (faults : nat -> bool) (i : nat)
    (rows : list (string * account_row)) : option (result unit StorageError * Db) :=
  match rows with
  | [] => Some (Ok tt, db)
  | (aid, row) :: rest =>
      match account_from_json (row_json row) with
      | None => Some (Err InvalidAccount, db)
      | Some account =>
          values ← account_storage_values (nonces i) account;
          match values with
          | Err e => Some (Err e, db)
          | Ok values =>
              if faults i then Some (Err Database, db)
              else
                let update r := if is_legacy r
                                then {| row_json := values.1; row_ciphertext := row_ciphertext r;
                                        row_egress := Some values.2 |} else r in
                migrate_rows (with_accounts db (alter update aid (provider_accounts db)) (credential_history db))
                  nonces faults (S i) rest
          end
      end
  end.

Definition encrypt_legacy_egress_metadata (db : Db) (fault : bool) (nonces : nat -> string)
    (faults : nat -> bool) : option (result nat StorageError * Db) :=
  if fault then Some (Err Database, db)
  else
    let rows := List.filter (fun kr => is_legacy kr.2) (map_to_list (provider_accounts db)) in
    '(res, db) ← migrate_rows db nonces faults 0 rows;
    Some (match res with Ok _ => Ok (length rows) | Err e => Err e end, db).
End Operations.

(** ** Theorems *)

Section Theorems.
Context `{U : UrlLib} `{L : CryptoLib} `{!CryptoLaws L} `{C : !StoreCodec} `{!StoreCodecLaws C}.
Context (box : SecretBox).

Lemma collect_results_elem {A B E} (f : A -> result B E) (l : list A) (ys : list B) :
  collect_results f l = Ok ys -> Forall2 (fun x y => f x = Ok y) l ys.
Proof.
  revert ys. induction l as [|x l IH]; intros ys; cbn; [by intros [= <-]|].
  destruct (f x) as [y|] eqn:Hy; [|done]. destruct (collect_results f l) as [zs|]; [|done].
  intros [= <-]. constructor; [done|]. by apply IH.
Qed.

Lemma redact_all_total (l : list string) (es : list ProxyEndpoint) :
  collect_results endpoint_parse l = Ok es -> is_Some (redact_all l).
Proof.
  intros H%collect_results_elem. induction H as [|s e l es He _ [r IH]]; cbn; [by eexists|].
  rewrite He. destruct (endpoint_parse_ok _ _ He) as (_ & [h Hh] & _).
  unfold redacted_authority. rewrite Hh. cbn. rewrite IH. by eexists.
Qed.

(** [shown] is the scheme, the host (perhaps in brackets) and the port of a proxy URL, and
    nothing else of it: no user name, no password, no path. *)
Definition shows_authority (proxy shown : string) : Prop :=
  exists u host bracketed, url_parse proxy = Some u /\ url_host_str u = Some host /\
    (bracketed = host \/ bracketed = "[" +:+ host +:+ "]") /\
    shown = url_scheme u +:+ "://" +:+ bracketed +:+
            match url_port u with Some p => ":" +:+ Z_to_string p | None => "" end.

Lemma redact_all_shows (l r : list string) : redact_all l = Some r -> Forall2 shows_authority l r.
Proof.
  revert r. induction l as [|x l IH]; intros r; cbn; [intros [= <-]; constructor|].
  destruct (endpoint_parse x) as [e|] eqn:He; [|done]. apply endpoint_parse_ok in He as (Hu & [h Hh] & _).
  unfold redacted_authority. rewrite Hh. cbn. destruct (redact_all l) as [texts|]; [|done]. cbn. intros [= <-].
  constructor; [|by apply IH]. exists (endpoint_url e), h, (if contains_char ":" h then "[" +:+ h +:+ "]" else h). split_and!; [done|done| |].
  - by destruct (contains_char ":" h); [right|left].
  - destruct (url_port (endpoint_url e)); by rewrite ?string_app_nil_r.
Qed.

(** Listing never panics: an endpoint that parses has a host. *)
Lemma public_account_total (row : account_row) : is_Some (public_account row).
Proof.
  unfold public_account. destruct (account_from_json (row_json row)) as [a|]; [|by eexists].
  assert (Hm : is_Some (mapM public_egress (egress_proxies a))).
  { apply mapM_is_Some, Forall_true. intros x. cbn. unfold public_egress.
    destruct (endpoint_parse x) as [p|] eqn:Hp; [|by eexists].
    apply endpoint_parse_ok in Hp as (_ & [h Hh] & _). unfold redacted_authority. rewrite Hh. by eexists. }
  destruct Hm as [l ->]. by eexists.
Qed.

Lemma collect_panicking_total {A B E} (f : A -> option (result B E)) (l : list A) :
  (forall x, is_Some (f x)) -> is_Some (collect_panicking f l).
Proof.
  intros Hf. induction l as [|x l [r IH]]; cbn; [by eexists|].
  destruct (Hf x) as [[y|e] ->]; [|by eexists]. rewrite IH. destruct r; by eexists.
Qed.

Lemma list_accounts_total db fault : is_Some (list_accounts db fault).
Proof.
  unfold list_accounts. destruct fault; [by eexists|].
  apply collect_panicking_total. intros x. apply public_account_total.
Qed.

Lemma collect_panicking_elem {A B E} (f : A -> option (result B E)) (l : list A) ys y :
  collect_panicking f l = Some (Ok ys) -> y ∈ ys -> exists x, x ∈ l /\ f x = Some (Ok y).
Proof.
  revert ys. induction l as [|x l IH]; intros ys; cbn; [intros [= <-]; set_solver|].
  destruct (f x) as [[z|]|] eqn:Hz; [|done|done].
  destruct (collect_panicking f l) as [[zs|]|]; [|done|done]. intros [= <-].
  intros [->|Hy]%elem_of_cons; [exists x; set_solver|].
  destruct (IH zs eq_refl Hy) as (x' & Hx' & Hf). exists x'. set_solver.
Qed.

(** Encoding never panics; what it writes decodes to the account with its proxies
    redacted, and to the proxies. *)
Lemma account_storage_values_total (nonce : string) (a : ProviderAccount) :
  is_Some (account_storage_values box nonce a).
Proof.
  unfold account_storage_values.
  destruct (collect_results endpoint_parse (egress_proxies a)) as [es|] eqn:He; [|by eexists].
  cbn [map_err]. destruct (encrypt _ _ _ _); [|by eexists]. cbn [map_err].
  destruct (redact_all_total _ _ He) as [r ->]. by eexists.
Qed.

Lemma account_storage_values_ok (nonce : string) (a : ProviderAccount) (json egress : string) :
  account_storage_values box nonce a = Some (Ok (json, egress)) ->
  (exists redacted, account_from_json json = Some (with_egress a redacted)) /\
  encrypt box nonce (egress_to_json (egress_proxies a)) (egress_aad (id a)) = Ok egress.
Proof.
  unfold account_storage_values.
  destruct (collect_results endpoint_parse (egress_proxies a)); [|done].
  cbn [map_err]. destruct (encrypt _ _ _ _) as [e|] eqn:He; [|done]. cbn [map_err].
  destruct (redact_all _) as [r|]; [|done]. cbn. intros [= <- <-]. split; [|done].
  exists r. apply account_codec.
Qed.

Lemma encode_account_total n1 n2 (a : ProviderAccount) (credential : string) :
  is_Some (encode_account box n1 n2 a credential).
Proof.
  unfold encode_account. destruct (account_storage_values_total n1 a) as [[v|e] ->]; [|by eexists].
  destruct (encrypt _ _ _ _); by eexists.
Qed.

(** What a row written by [encode_account] holds. *)
Lemma encode_account_ok n1 n2 (a : ProviderAccount) (credential : string) (row : account_row) :
  String.length n1 = 24%nat -> String.length n2 = 24%nat ->
  utf8_valid (list_ascii_of_string credential) = true ->
  encode_account box n1 n2 a credential = Some (Ok row) ->
  (exists redacted, account_from_json (row_json row) = Some (with_egress a redacted)) /\
  decrypt box (row_ciphertext row) (account_aad (id a)) = Ok credential /\
  (exists e, row_egress row = Some e /\ string_is_empty e = false /\
     decrypt box e (egress_aad (id a)) = Ok (egress_to_json (egress_proxies a))).
Proof.
  intros H1 H2 Hu. unfold encode_account.
  destruct (account_storage_values box n1 a) as [[[json egress]|e]|] eqn:Hv; [|done|done].
  apply account_storage_values_ok in Hv as [Hjson Hegress].
  destruct (encrypt box n2 credential _) as [c|] eqn:Hc; [|done]. cbn. intros [= <-]. cbn.
  split; [done|]. split; [by eapply encrypt_decrypt|].
  exists egress. split; [done|]. split; [by eapply encrypt_nonempty|].
  eapply encrypt_decrypt; [exact H1|apply egress_utf8|exact Hegress].
Qed.

Lemma with_egress_back (a : ProviderAccount) (r : list string) :
  with_egress (with_egress a r) (egress_proxies a) = a.
Proof. by destruct a. Qed.

(** Loading a row that [encode_account] wrote. *)
Lemma load_encoded n1 n2 (a : ProviderAccount) (credential token : string) expiry row db :
  String.length n1 = 24%nat -> String.length n2 = 24%nat ->
  utf8_valid (list_ascii_of_string credential) = true ->
  encode_account box n1 n2 a credential = Some (Ok row) ->
  decoded_credential (kind a) credential = Ok (token, expiry) ->
  provider_accounts db !! id a = Some row ->
  load_account box db false (id a) = Ok (a, token).
Proof.
  intros H1 H2 Hu Henc Hdec Hrow.
  destruct (encode_account_ok _ _ _ _ _ H1 H2 Hu Henc) as ([r Hj] & Hc & e & He & Hne & Hd).
  unfold load_account. rewrite Hrow. cbn [ok_or]. rewrite Hj. cbn [ok_or]. rewrite He.
  unfold hydrate_account_egress, option_filter. rewrite Hne. cbn [negb].
  change (id (with_egress a r)) with (id a). rewrite Hd. cbn [map_err]. rewrite egress_codec. cbn [ok_or].
  rewrite with_egress_back, Hc. cbn [map_err]. by rewrite Hdec.
Qed.

Lemma load_account_ext db db' fault aid :
  provider_accounts db !! aid = provider_accounts db' !! aid ->
  load_account box db fault aid = load_account box db' fault aid.
Proof. intros H. unfold load_account. by rewrite H. Qed.

(** C20.  The store gives back what it was given: when [upsert_account] or
    [rotate_account_credential] succeeds, loading the account returns it with every
    field as given (its outbound proxies with their passwords, although the readable
    column holds only their redaction) and the token of the credential, and no other
    account is affected; when it fails for whatever reason the database is unchanged.
    Neither panics. *)
Theorem store_roundtrip (db : Db) (n1 n2 : string) (fault : bool) (a : ProviderAccount)
    (credential token : string) (expiry : option DateTime) (rotate : option DateTime)
    (Hn1 : String.length n1 = 24%nat) (Hn2 : String.length n2 = 24%nat)
    (Hutf8 : utf8_valid (list_ascii_of_string credential) = true)
    (Hdec : decoded_credential (kind a) credential = Ok (token, expiry)) :
  exists r db', match rotate with
    | None => upsert_account box db n1 n2 fault a credential
    | Some until => rotate_account_credential box db n1 n2 fault a credential until
    end = Some (r, db') /\
  match r with
  | Err _ => db' = db
  | Ok _ => load_account box db' false (id a) = Ok (a, token) /\
            forall aid f, aid <> id a -> load_account box db' f aid = load_account box db f aid
  end.
Proof.
  unfold upsert_account, rotate_account_credential.
  destruct (encode_account_total n1 n2 a credential) as [[row|e] Henc]; rewrite Henc; cbn;
    [|by destruct rotate; eexists _, _].
  destruct fault; [by destruct rotate; eexists _, _|].
  assert (Hload : forall h, load_account box (with_accounts db (<[id a := row]> (provider_accounts db)) h)
                              false (id a) = Ok (a, token)).
  { intros h. eapply load_encoded; [exact Hn1|exact Hn2|exact Hutf8|exact Henc|exact Hdec|].
    cbn. by rewrite lookup_insert_eq. }
  destruct rotate as [until|]; eexists _, _; (split; [reflexivity|]); (split; [apply Hload|]);
    intros aid f Hne; apply load_account_ext; cbn; by rewrite lookup_insert_ne.
Qed.

(** ** Rotation and the credential snapshot *)

Lemma rows_by_id_elem {A} (m : gmap string A) (k : string) (x : A) :
  (k, x) ∈ rows_by_id m <-> m !! k = Some x.
Proof. unfold rows_by_id. rewrite sort_perm. apply elem_of_map_to_list. Qed.

Lemma snapshot_contains (a : Authenticator) now db creds k row c :
  credential_snapshot box db false a now = Ok (Available creds) ->
  provider_accounts db !! k = Some row -> snapshot_row box a now db (k, row) = Ok c -> c ∈ creds.
Proof.
  unfold credential_snapshot. destruct (collect_results _ _) as [cs|] eqn:Hc; [|done].
  intros [= <-] Hk Hrow. apply collect_results_elem in Hc.
  apply rows_by_id_elem in Hk. apply list_elem_of_lookup in Hk as [i Hi].
  destruct (Forall2_lookup_l _ _ _ _ _ Hc Hi) as (c' & Hc' & Heq).
  apply list_elem_of_lookup. exists i. congruence.
Qed.

(** The row an entry of the snapshot comes from. *)
Lemma snapshot_elem (auth : Authenticator) now db creds c :
  credential_snapshot box db false auth now = Ok (Available creds) -> c ∈ creds ->
  exists k row, provider_accounts db !! k = Some row /\ snapshot_row box auth now db (k, row) = Ok c.
Proof.
  unfold credential_snapshot. destruct (collect_results _ _) as [cs|] eqn:Hc; [|done].
  intros [= <-] Hin. apply collect_results_elem in Hc. apply list_elem_of_lookup in Hin as [i Hi].
  destruct (Forall2_lookup_r _ _ _ _ _ Hc Hi) as ([k row] & Hk & Hrow).
  apply list_elem_of_lookup_2, rows_by_id_elem in Hk. by exists k, row.
Qed.

Lemma snapshot_total (auth : Authenticator) now db creds k row :
  credential_snapshot box db false auth now = Ok (Available creds) -> provider_accounts db !! k = Some row ->
  exists c, snapshot_row box auth now db (k, row) = Ok c /\ c ∈ creds.
Proof.
  unfold credential_snapshot. destruct (collect_results _ _) as [cs|] eqn:Hc; [|done].
  intros [= <-] Hk. apply collect_results_elem in Hc. apply rows_by_id_elem in Hk. apply list_elem_of_lookup in Hk as [i Hi].
  destruct (Forall2_lookup_l _ _ _ _ _ Hc Hi) as (c & Hc' & Heq). exists c. split; [done|]. by eapply list_elem_of_lookup_2.
Qed.

(** An entry is that of the account its row describes, and inactive when it is disabled. *)
Lemma snapshot_row_account (auth : Authenticator) now db k row c :
  snapshot_row box auth now db (k, row) = Ok c ->
  exists a x, account_from_json (row_json row) = Some a /\ cred_account_id c = id a /\
    c = if enabled a then x else paused x.
Proof.
  unfold snapshot_row. cbn [fst snd]. intros Hrow.
  destruct (account_from_json (row_json row)) as [a|]; [|done]. cbn [ok_or] in Hrow.
  destruct (decrypt _ _ _) as [secret|]; [|done]. cbn [map_err] in Hrow.
  destruct (decoded_credential _ _) as [dec|]; [|done]. cbn [map_err] in Hrow.
  match type of Hrow with (match ?m with Ok _ => _ | Err _ => _ end) = _ =>
    assert (Hm : forall x, m = Ok x -> cred_account_id x = id a); [|destruct m as [x|]; [|done]] end.
  { intros x. destruct (credential_history db !! k) as [h|]; [|by intros [= <-]].
    destruct (parse_rfc3339 _) as [ex|]; [|done]. cbn. destruct (now <? ex); [|by intros [= <-]].
    destruct (decrypt _ _ _); [|done]. cbn. destruct (decoded_credential _ _); [|done]. by intros [= <-]. }
  injection Hrow as <-. exists a, x. split_and!; [done| |done]. rewrite <- (Hm x eq_refl). by destruct (enabled a).
Qed.

(** What the snapshot says of a row written by [encode_account]. *)
Lemma snapshot_row_encoded (auth : Authenticator) now db n1 n2 a credential token expiry row :
  String.length n1 = 24%nat -> String.length n2 = 24%nat ->
  utf8_valid (list_ascii_of_string credential) = true ->
  encode_account box n1 n2 a credential = Some (Ok row) ->
  decoded_credential (kind a) credential = Ok (token, expiry) ->
  snapshot_row box auth now db (id a, row)
  = let credential := with_current_expiry (credential_active hmac_sha256 auth (id a) token) expiry in
    let? credential :=
      match credential_history db !! id a with
      | None => Ok credential
      | Some h =>
          let? expiry := ok_or (parse_rfc3339 (hist_expires_at h)) RepoInvalidData in
          if now <? expiry then
            let? previous := map_err (fun _ => RepoInvalidData)
                               (decrypt box (hist_ciphertext h) (account_aad (id a))) in
            let? decoded := map_err (fun _ => RepoInvalidData) (decoded_credential (kind a) previous) in
            Ok (with_previous hmac_sha256 credential auth decoded.1 expiry)
          else Ok credential
      end in
    Ok (if enabled a then credential else paused credential).
Proof.
  intros H1 H2 Hu Henc Hdec.
  destruct (encode_account_ok _ _ _ _ _ H1 H2 Hu Henc) as ([r Hj] & Hc & _).
  unfold snapshot_row. cbn [fst snd]. rewrite Hj. cbn [ok_or].
  change (id (with_egress a r)) with (id a). change (kind (with_egress a r)) with (kind a).
  change (enabled (with_egress a r)) with (enabled a).
  rewrite Hc. cbn [map_err]. rewrite Hdec. reflexivity.
Qed.

(** Acceptance by a snapshot entry with at most one previous version. *)
Lemma snapshot_entry_matches (auth : Authenticator) aid (en : bool) token expiry
    (prev : option (string * DateTime)) presented now :
  let base := with_current_expiry (credential_active hmac_sha256 auth aid token) expiry in
  let full := match prev with
              | Some (t, e) => with_previous hmac_sha256 base auth t e
              | None => base
              end in
  account_matches presented now (if en then full else paused full) = true <->
  en = true /\
  ((is_none_or expiry (fun t => now <? t) = true /\
    presented = authenticator_digest hmac_sha256 auth token) \/
   exists t e, prev = Some (t, e) /\ now < e /\ presented = authenticator_digest hmac_sha256 auth t).
Proof.
  destruct en, prev as [[t e]|]; unfold account_matches, version_matches; cbn;
    rewrite ?orb_false_r, ?orb_true_iff, ?andb_true_iff, ?bool_decide_eq_true, ?Z.ltb_lt; naive_solver.
Qed.

(** Rotation overlaps for exactly the time asked for: after a successful rotation the
    credential snapshot has, for that account, an entry that accepts the new token (until
    its own expiry) and the replaced one exactly while [now] is before
    [previous_valid_until], and nothing else; a disabled account accepts neither.  The
    replaced credential's own expiry plays no part. *)
Lemma rotation_overlap (db db' : Db) (n1 n2 : string) (a : ProviderAccount)
    (old new old_token new_token : string) (old_expiry new_expiry : option DateTime)
    (old_row : account_row) (until now : DateTime) (auth : Authenticator)
    (Hn1 : String.length n1 = 24%nat) (Hn2 : String.length n2 = 24%nat)
    (Hutf8 : utf8_valid (list_ascii_of_string new) = true)
    (Hrow : provider_accounts db !! id a = Some old_row)
    (Hold : decrypt box (row_ciphertext old_row) (account_aad (id a)) = Ok old)
    (Hold_token : decoded_credential (kind a) old = Ok (old_token, old_expiry))
    (Hnew_token : decoded_credential (kind a) new = Ok (new_token, new_expiry))
    (Huntil : four_digit_year until)
    (Hrotate : rotate_account_credential box db n1 n2 false a new until = Some (Ok tt, db')) :
  exists c,
    cred_account_id c = id a /\
    (forall creds, credential_snapshot box db' false auth now = Ok (Available creds) -> c ∈ creds) /\
    forall presented,
      account_matches presented now c = true <->
      enabled a = true /\
      ((is_none_or new_expiry (fun t => now <? t) = true /\
        presented = authenticator_digest hmac_sha256 auth new_token) \/
       (now < until /\ presented = authenticator_digest hmac_sha256 auth old_token)).
Proof.
  unfold rotate_account_credential in Hrotate.
  destruct (encode_account box n1 n2 a new) as [[row|e]|] eqn:Henc; [|done|done].
  cbn in Hrotate. rewrite Hrow in Hrotate. injection Hrotate as <-.
  set (db' := with_accounts _ _ _).
  pose proof (snapshot_row_encoded auth now db' n1 n2 a new new_token new_expiry row
                Hn1 Hn2 Hutf8 Henc Hnew_token) as Hsnap.
  replace (credential_history db' !! id a) with (Some {| hist_ciphertext := row_ciphertext old_row;
    hist_expires_at := to_rfc3339 until |}) in Hsnap by (cbn; by rewrite lookup_insert_eq).
  cbn [hist_expires_at hist_ciphertext] in Hsnap.
  rewrite rfc3339_codec in Hsnap by done. cbn [ok_or] in Hsnap.
  rewrite Hold in Hsnap. cbn [map_err] in Hsnap. rewrite Hold_token in Hsnap. cbn [map_err fst] in Hsnap.
  assert (Hrow' : provider_accounts db' !! id a = Some row) by (cbn; by rewrite lookup_insert_eq).
  assert (Hin : forall c creds, snapshot_row box auth now db' (id a, row) = Ok c ->
    credential_snapshot box db' false auth now = Ok (Available creds) -> c ∈ creds)
    by (intros c creds Hc Hs; by eapply snapshot_contains).
  destruct (Z.ltb_spec now until) as [Hlt|Hge]; (eexists; split;
    [|split; [intros creds; by apply Hin|intros presented]]); [by destruct (enabled a)| |by destruct (enabled a)|].
  - rewrite (snapshot_entry_matches auth (id a) (enabled a) new_token new_expiry (Some (old_token, until))).
    naive_solver.
  - rewrite (snapshot_entry_matches auth (id a) (enabled a) new_token new_expiry None).
    naive_solver lia.
Qed.

(** ** The invariant of the store *)

(** A ciphertext that decrypts, to a credential that is not empty. *)
Definition sealed (k ciphertext : string) : Prop :=
  exists secret, decrypt box ciphertext (account_aad k) = Ok secret /\ string_is_empty secret = false.

Record row_wf (k : string) (row : account_row) : Prop := {
  row_account : exists a, account_from_json (row_json row) = Some a /\ id a = k;
  row_secret : sealed k (row_ciphertext row);
  row_proxies : forall e, row_egress row = Some e -> string_is_empty e = false ->
    exists plain l, decrypt box e (egress_aad k) = Ok plain /\ egress_from_json plain = Some l
}.

Record hist_wf (k : string) (h : history_row) : Prop := {
  hist_secret : sealed k (hist_ciphertext h);
  hist_time : is_Some (parse_rfc3339 (hist_expires_at h))
}.

Record store_wf (db : Db) : Prop := {
  wf_rows : forall k row, provider_accounts db !! k = Some row -> row_wf k row;
  wf_history : forall k h, credential_history db !! k = Some h ->
    is_Some (provider_accounts db !! k) /\ hist_wf k h
}.

(** The two ways a credential is replaced: at once, or with a window in which the replaced
    one is kept. *)
Definition change_credential (db : Db) (n1 n2 : string) (a : ProviderAccount) (credential : string)
    (window : option DateTime) : option (result unit StorageError * Db) :=
  match window with
  | None => upsert_account box db n1 n2 false a credential
  | Some until => rotate_account_credential box db n1 n2 false a credential until
  end.

(** The credential that was stored before, while the window is open. *)
Definition replaced_token (db : Db) (a : ProviderAccount) (window : option DateTime) (now : DateTime) (token : string) : Prop :=
  exists until row stored expiry, window = Some until /\ now < until /\
    provider_accounts db !! id a = Some row /\ decrypt box (row_ciphertext row) (account_aad (id a)) = Ok stored /\
    decoded_credential (kind a) stored = Ok (token, expiry).

(** The tables after a change: the new row, and in the history at most the replaced one. *)
Lemma change_credential_tables db db' n1 n2 a new window :
  store_wf db -> change_credential db n1 n2 a new window = Some (Ok tt, db') ->
  exists row, encode_account box n1 n2 a new = Some (Ok row) /\
    provider_accounts db' = <[id a := row]> (provider_accounts db) /\
    forall h, credential_history db' !! id a = Some h -> exists until old, window = Some until /\
      provider_accounts db !! id a = Some old /\ hist_ciphertext h = row_ciphertext old /\
      hist_expires_at h = to_rfc3339 until.
Proof.
  intros [_ Hhist]. unfold change_credential, upsert_account, rotate_account_credential.
  destruct (encode_account box n1 n2 a new) as [[row|e]|]; [|by destruct window|by destruct window].
  destruct window as [until|]; intros [= <-]; exists row; (split; [done|]; split; [done|]); cbn; intros h Hh.
  - destruct (provider_accounts db !! id a) as [old|] eqn:Hold.
    + rewrite lookup_insert_eq in Hh. injection Hh as <-. by exists until, old.
    + destruct (Hhist _ _ Hh) as [[? Hx] _]. congruence.
  - by rewrite lookup_delete_eq in Hh.
Qed.

(** C21.  A replaced credential ends: after a credential has been replaced, every later
    snapshot accepts the new token for the account (while the account is enabled and the
    token has not expired), and for that account nothing else, with one exception: when
    the replacement kept a window, the credential that was stored just before it, and
    only before the window's end.  So the credential of an account that is replaced
    without a window is refused from the next request on, credentials from before the
    last replacement always are, and none outlives its window. *)
Theorem replaced_credential_ends (db db' : Db) (n1 n2 : string) (a : ProviderAccount)
    (new new_token : string) (new_expiry window : option DateTime) (now : DateTime) (auth : Authenticator)
    (creds : list AccountCredential)
    (Hwf : store_wf db)
    (Hn1 : String.length n1 = 24%nat) (Hn2 : String.length n2 = 24%nat)
    (Hutf8 : utf8_valid (list_ascii_of_string new) = true)
    (Hnew_token : decoded_credential (kind a) new = Ok (new_token, new_expiry))
    (Hwindow : forall until, window = Some until -> four_digit_year until)
    (Hchange : change_credential db n1 n2 a new window = Some (Ok tt, db'))
    (Hsnap : credential_snapshot box db' false auth now = Ok (Available creds)) :
  let fresh := is_none_or new_expiry (fun t => now <? t) = true in
  (exists c, c ∈ creds /\ cred_account_id c = id a /\
     (enabled a = true -> fresh -> account_matches (authenticator_digest hmac_sha256 auth new_token) now c = true)) /\
  (forall c presented, c ∈ creds -> cred_account_id c = id a -> account_matches presented now c = true ->
     enabled a = true /\
     ((fresh /\ presented = authenticator_digest hmac_sha256 auth new_token) \/
      exists token, replaced_token db a window now token /\ presented = authenticator_digest hmac_sha256 auth token)).
Proof.
  cbv zeta. destruct (change_credential_tables _ _ _ _ _ _ _ Hwf Hchange) as (row & Henc & Hacc & Hhist).
  assert (Hrow : provider_accounts db' !! id a = Some row) by (rewrite Hacc; apply lookup_insert_eq).
  destruct (encode_account_ok _ _ _ _ _ Hn1 Hn2 Hutf8 Henc) as ([r Hj] & _ & _).
  destruct (snapshot_total auth now db' creds (id a) row Hsnap Hrow) as (c0 & Hc0 & Hin0).
  assert (Hid : cred_account_id c0 = id a).
  { apply snapshot_row_account in Hc0 as (a' & x & Ha' & Hid & _). rewrite Hj in Ha'. by injection Ha' as <-. }
  assert (Hone : forall c, c ∈ creds -> cred_account_id c = id a -> c = c0).
  { intros c Hc Hcid. destruct (snapshot_elem _ _ _ _ _ Hsnap Hc) as (k & row' & Hk & Hr). rewrite Hacc in Hk.
    apply lookup_insert_Some in Hk as [[<- <-]|[Hne Hk]]; [congruence|].
    apply snapshot_row_account in Hr as (b & x & Hb & Hbid & _). destruct (wf_rows _ Hwf _ _ Hk) as [(b' & Hb' & Hk') _ _].
    congruence. }
  rewrite (snapshot_row_encoded auth now db' n1 n2 a new new_token new_expiry row Hn1 Hn2 Hutf8 Henc Hnew_token) in Hc0.
  assert (Hprev : exists prev, c0 = (let base := with_current_expiry (credential_active hmac_sha256 auth (id a) new_token) new_expiry in
      let full := match prev with Some (t, e) => with_previous hmac_sha256 base auth t e | None => base end in
      if enabled a then full else paused full) /\
    forall t e, prev = Some (t, e) -> now < e -> replaced_token db a window now t).
  { cbv zeta in Hc0. destruct (credential_history db' !! id a) as [h|] eqn:Hh; [|injection Hc0 as <-; by exists None].
    destruct (Hhist h eq_refl) as (until & old & Hw & Hold & Hct & Hexp). rewrite Hexp, rfc3339_codec in Hc0 by (by apply Hwindow).
    cbn [ok_or] in Hc0. destruct (now <? until); [|injection Hc0 as <-; by exists None]. rewrite Hct in Hc0.
    destruct (decrypt box (row_ciphertext old) _) as [s|] eqn:Hs; [|done]. cbn [map_err] in Hc0.
    destruct (decoded_credential (kind a) s) as [[t x]|] eqn:Hd; [|done]. cbn [map_err fst] in Hc0.
    injection Hc0 as <-. exists (Some (t, until)). split; [done|]. intros t' e' [= <- <-] Hlt. by exists until, old, s, x. }
  destruct Hprev as (prev & Hc & Hrep).
  pose proof (fun presented => snapshot_entry_matches auth (id a) (enabled a) new_token new_expiry prev presented now) as Hspec.
  cbv zeta in Hc, Hspec. rewrite <- Hc in Hspec. split.
  - exists c0. split_and!; [done|done|]. intros Hen Hf. apply Hspec. split; [done|]. by left.
  - intros c presented Hcin Hcid Hm. rewrite (Hone c Hcin Hcid) in Hm.
    apply Hspec in Hm as [Hen [Hn|(t & e & Hp & Hlt & Hd)]]; (split; [done|]); [by left|right]. exists t. by split; [eapply Hrep|].
Qed.

(** An update [(account, json)] that [set_account_enabled] has computed from a read and
    not yet written. *)
Definition pending_wf (p : string * string) : Prop :=
  exists a, account_from_json p.2 = Some a /\ id a = p.1.

(** A refresh candidate that has been read and not yet replaced. *)
Definition candidate_wf (c : OAuthRefreshCandidate) : Prop :=
  sealed (id (cand_account c)) (expected_ciphertext c).

Record sys := {
  sys_db : Db;
  sys_pending : list (string * string);
  sys_candidates : list OAuthRefreshCandidate
}.
Definition set_db (s : sys) (db : Db) : sys :=
  {| sys_db := db; sys_pending := sys_pending s; sys_candidates := sys_candidates s |}.

(** The critical sections of all operations, in any order and interleaving. *)
Inductive store_step : sys -> sys -> Prop :=
| st_upsert s n1 n2 fault a credential r db' :
    String.length n1 = 24%nat -> String.length n2 = 24%nat ->
    utf8_valid (list_ascii_of_string credential) = true -> string_is_empty credential = false ->
    upsert_account box (sys_db s) n1 n2 fault a credential = Some (r, db') ->
    store_step s (set_db s db')
| st_rotate s n1 n2 fault a credential until r db' :
    String.length n1 = 24%nat -> String.length n2 = 24%nat ->
    utf8_valid (list_ascii_of_string credential) = true -> string_is_empty credential = false ->
    four_digit_year until ->
    rotate_account_credential box (sys_db s) n1 n2 fault a credential until = Some (r, db') ->
    store_step s (set_db s db')
| st_delete s fault aid :
    store_step s (set_db s (delete_account (sys_db s) fault aid).2)
| st_enable_read s fault aid e updated :
    (let? json := read_account_json (sys_db s) fault aid in enabled_json json e) = Ok updated ->
    store_step s {| sys_db := sys_db s; sys_pending := (aid, updated) :: sys_pending s;
                    sys_candidates := sys_candidates s |}
| st_enable_write s fault p :
    p ∈ sys_pending s -> store_step s (set_db s (update_account_json (sys_db s) fault p.1 p.2).2)
| st_refresh_read s fault now cs :
    oauth_refresh_candidates box (sys_db s) fault now = Ok cs ->
    store_step s {| sys_db := sys_db s; sys_pending := sys_pending s;
                    sys_candidates := cs ++ sys_candidates s |}
| st_refresh_write s n fault c fresh until :
    c ∈ sys_candidates s -> String.length n = 24%nat -> four_digit_year until ->
    store_step s (set_db s (replace_oauth_if_current box (sys_db s) n fault c fresh until).2)
| st_audit s fault event :
    store_step s (set_db s (append_audit (sys_db s) fault event).2)
| st_prune s fault cutoff :
    store_step s (set_db s (prune_audit_before (sys_db s) fault cutoff).2).

Inductive store_reachable : sys -> Prop :=
| store_start db : store_wf db ->
    store_reachable {| sys_db := db; sys_pending := []; sys_candidates := [] |}
| store_next s s' : store_reachable s -> store_step s s' -> store_reachable s'.

Record sys_wf (s : sys) : Prop := {
  sys_store : store_wf (sys_db s);
  sys_pending_wf : Forall pending_wf (sys_pending s);
  sys_candidates_wf : Forall candidate_wf (sys_candidates s)
}.

Lemma encoded_row_wf n1 n2 a credential row :
  String.length n1 = 24%nat -> String.length n2 = 24%nat ->
  utf8_valid (list_ascii_of_string credential) = true -> string_is_empty credential = false ->
  encode_account box n1 n2 a credential = Some (Ok row) -> row_wf (id a) row.
Proof.
  intros H1 H2 Hu Hne0 Henc.
  destruct (encode_account_ok _ _ _ _ _ H1 H2 Hu Henc) as ([r Hj] & Hc & e & He & Hne & Hd).
  split; [by eexists|by exists credential|]. intros e' He' _. rewrite He in He'. injection He' as <-.
  exists (egress_to_json (egress_proxies a)), (egress_proxies a). split; [done|apply egress_codec].
Qed.

(** Writing a row, with the history of that account kept, replaced or removed. *)
Lemma store_wf_insert db k row h :
  store_wf db -> row_wf k row ->
  (forall k' h', h !! k' = Some h' -> credential_history db !! k' = Some h' \/ (k' = k /\ hist_wf k h')) ->
  store_wf (with_accounts db (<[k := row]> (provider_accounts db)) h).
Proof.
  intros [Hr Hh] Hrow Hhist. split; cbn.
  - intros k' row' [[<- <-]|[_ Hk']]%lookup_insert_Some; [done|by apply Hr].
  - intros k' h' Hk'. destruct (Hhist k' h' Hk') as [Hold|[-> Hnew]].
    + destruct (Hh k' h' Hold) as [Hsome Hwf]. split; [|done].
      destruct (decide (k' = k)) as [->|Hne]; [by rewrite lookup_insert_eq; eexists|].
      by rewrite lookup_insert_ne.
    + split; [by rewrite lookup_insert_eq; eexists|done].
Qed.

Lemma upsert_wf db n1 n2 fault a credential r db' :
  String.length n1 = 24%nat -> String.length n2 = 24%nat ->
  utf8_valid (list_ascii_of_string credential) = true -> string_is_empty credential = false -> store_wf db ->
  upsert_account box db n1 n2 fault a credential = Some (r, db') -> store_wf db'.
Proof.
  intros H1 H2 Hu Hne Hwf. unfold upsert_account.
  destruct (encode_account box n1 n2 a credential) as [[row|e]|] eqn:Henc; [|by intros [= <- <-]|done].
  cbn. destruct fault; intros [= <- <-]; [done|].
  apply store_wf_insert; [done|by apply (encoded_row_wf n1 n2 a credential)|].
  intros k' h' [_ Hk']%lookup_delete_Some. by left.
Qed.

Lemma rotate_wf db n1 n2 fault a credential until r db' :
  String.length n1 = 24%nat -> String.length n2 = 24%nat ->
  utf8_valid (list_ascii_of_string credential) = true -> string_is_empty credential = false ->
  four_digit_year until -> store_wf db ->
  rotate_account_credential box db n1 n2 fault a credential until = Some (r, db') -> store_wf db'.
Proof.
  intros H1 H2 Hu Hne Hy Hwf. unfold rotate_account_credential.
  destruct (encode_account box n1 n2 a credential) as [[row|e]|] eqn:Henc; [|by intros [= <- <-]|done].
  cbn. destruct fault; intros [= <- <-]; [done|].
  apply store_wf_insert; [done|by apply (encoded_row_wf n1 n2 a credential)|]. intros k' h'.
  destruct (provider_accounts db !! id a) as [prev|] eqn:Hp; [|by left].
  intros [[<- <-]|[_ Hk']]%lookup_insert_Some; [right|by left]. split; [done|]. split; cbn.
  - apply (row_secret _ _ (wf_rows _ Hwf _ _ Hp)).
  - by rewrite rfc3339_codec.
Qed.

Lemma delete_wf db fault aid : store_wf db -> store_wf (delete_account db fault aid).2.
Proof.
  intros Hwf. unfold delete_account. destruct fault; [done|].
  destruct (provider_accounts db !! aid) eqn:E; [|done]. destruct Hwf as [Hr Hh]. split; cbn.
  - intros k row [_ Hk]%lookup_delete_Some. by apply Hr.
  - intros k h [Hne Hk]%lookup_delete_Some. destruct (Hh k h Hk) as [Hs Hw].
    split; [by rewrite lookup_delete_ne|done].
Qed.

Lemma update_json_wf db fault p :
  store_wf db -> pending_wf p -> store_wf (update_account_json db fault p.1 p.2).2.
Proof.
  intros Hwf Hp. unfold update_account_json. destruct fault; [done|]. destruct Hwf as [Hr Hh]. split; cbn.
  - intros k row [(Hk & row0 & Hrow0 & ->)|[_ Hk]]%lookup_alter_Some; [subst k|by apply Hr].
    destruct (Hr _ _ Hrow0) as [_ Hs He]. by split.
  - intros k h Hk. destruct (Hh k h Hk) as [Hs Hw]. split; [|done].
    destruct (decide (k = p.1)) as [->|Hne]; [|by rewrite lookup_alter_ne].
    rewrite lookup_alter_eq. destruct Hs as [x ->]. by eexists.
Qed.

Lemma refresh_write_wf db n fault c fresh until :
  String.length n = 24%nat -> four_digit_year until -> candidate_wf c -> store_wf db ->
  store_wf (replace_oauth_if_current box db n fault c fresh until).2.
Proof.
  intros Hn Hy Hc Hwf. unfold replace_oauth_if_current.
  destruct (encrypt box n (oauth_to_json fresh) _) as [enc|] eqn:He; [|done].
  destruct fault; [done|]. destruct (provider_accounts db !! _) as [row|] eqn:Hrow; [|done].
  case_bool_decide as Heq; [|done]. cbn. destruct (wf_rows _ Hwf _ _ Hrow) as [Ha Hs Hp].
  apply store_wf_insert; [done| |].
  - split; cbn; [done| |done]. exists (oauth_to_json fresh).
    split; [eapply encrypt_decrypt; [exact Hn|apply oauth_utf8|exact He]|apply oauth_nonempty].
  - intros k' h' [[<- <-]|[_ Hk']]%lookup_insert_Some; [right|by left].
    split; [done|]. split; cbn; [exact Hc|]. by rewrite rfc3339_codec.
Qed.

Lemma hydrate_id a c a' : hydrate_account_egress box a c = Ok a' -> id a' = id a /\ kind a' = kind a.
Proof.
  unfold hydrate_account_egress. destruct (option_filter _ c); [|by intros [= <-]].
  destruct (decrypt _ _ _); [|done]. cbn. destruct (egress_from_json _); [|done]. by intros [= <-].
Qed.

Lemma candidates_wf db fault now cs :
  store_wf db -> oauth_refresh_candidates box db fault now = Ok cs -> Forall candidate_wf cs.
Proof.
  intros Hwf. unfold oauth_refresh_candidates. destruct fault; [done|].
  destruct (collect_results _ _) as [found|] eqn:Hf; [|done]. intros [= <-].
  apply Forall_forall. intros c (o & Ho & ->)%list_elem_of_omap.
  apply collect_results_elem in Hf. apply list_elem_of_lookup in Ho as [i Hi].
  destruct (Forall2_lookup_r _ _ _ _ _ Hf Hi) as ([k row] & Hk & Hrow). cbn in Hrow.
  apply list_elem_of_lookup_2, rows_by_id_elem in Hk.
  destruct (wf_rows _ Hwf _ _ Hk) as [(a & Ha & Hid) (secret & Hs & Hne) _].
  unfold refresh_candidate in Hrow. rewrite Ha in Hrow. cbn in Hrow.
  destruct (hydrate_account_egress box a (row_egress row)) as [a'|] eqn:Hh; [|done].
  apply hydrate_id in Hh as [Hid' _]. destruct (_ || _); [done|].
  destruct (decrypt _ _ _); [|done]. cbn in Hrow. destruct (negb _); [done|].
  destruct (oauth_from_json _); [|done]. injection Hrow as <-.
  exists secret. cbn. by rewrite Hid', Hid.
Qed.

Lemma store_step_wf s s' : sys_wf s -> store_step s s' -> sys_wf s'.
Proof.
  intros [Hwf Hp Hc] Hstep.
  destruct Hstep as [s n1 n2 fault a credential r db' Hn1 Hn2 Hu Hne Hop
    |s n1 n2 fault a credential until r db' Hn1 Hn2 Hu Hne Hy Hop|s fault aid|s fault aid e updated Hread
    |s fault p Hin|s fault now cs Hcs|s n fault c fresh until Hin Hn Hy|s fault event|s fault cutoff];
    (split; cbn; [|try done..]); try done.
  - by eapply (upsert_wf _ n1 n2).
  - by eapply (rotate_wf _ n1 n2).
  - by apply delete_wf.
  - constructor; [|done]. unfold read_account_json, enabled_json in Hread. destruct fault; [done|].
    destruct (provider_accounts (sys_db s) !! aid) as [row|] eqn:E; [|done]. cbn in Hread.
    destruct (wf_rows _ Hwf _ _ E) as [(a & Ha & Hid) _ _]. rewrite Ha in Hread. cbn in Hread.
    injection Hread as <-. exists (with_enabled a e). split; [apply account_codec|done].
  - apply update_json_wf; [done|]. rewrite Forall_forall in Hp. by apply Hp.
  - apply Forall_app. split; [by eapply candidates_wf|done].
  - apply refresh_write_wf; try done. rewrite Forall_forall in Hc. by apply Hc.
  - unfold append_audit. destruct (fault || _); [done|]. by destruct Hwf; split.
  - unfold prune_audit_before. destruct fault; [done|]. by destruct Hwf; split.
Qed.

Lemma store_reachable_wf s : store_reachable s -> sys_wf s.
Proof. induction 1 as [db Hwf|s s' _ IH Hst]; [by split|by eapply store_step_wf]. Qed.

(** C22.  The store stays readable in every interleaving: from a well-formed database, any
    sequence of the critical sections of all operations (the two halves of enabling and
    of refreshing interleaved with anything, database errors anywhere) keeps every row
    decodable under its own identifier and every kept previous credential attached to
    an existing account.  So loading an account that exists never fails with a missing
    account, an authentication failure of the cipher or a corrupt row; it can only report
    a stored OAuth document that is malformed or has no access token. *)
Theorem store_stays_readable (s : sys) (aid : string)
    (Hreach : store_reachable s) :
  (forall h, credential_history (sys_db s) !! aid = Some h -> is_Some (provider_accounts (sys_db s) !! aid)) /\
  (forall row, provider_accounts (sys_db s) !! aid = Some row ->
   exists account secret, id account = aid /\
     decrypt box (row_ciphertext row) (account_aad aid) = Ok secret /\
     load_account box (sys_db s) false aid
     = match decoded_credential (kind account) secret with
       | Ok decoded => Ok (account, decoded.1)
       | Err _ => Err InvalidAccount
       end).
Proof.
  destruct (store_reachable_wf s Hreach) as [[Hr Hh] _ _]. split.
  - intros h Hk. by destruct (Hh aid h Hk).
  - intros row Hk. destruct (Hr aid row Hk) as [(a & Ha & Hid) (secret & Hs & _) Hp].
    assert (Hhyd : exists a', hydrate_account_egress box a (row_egress row) = Ok a' /\ id a' = aid).
    { unfold hydrate_account_egress. destruct (row_egress row) as [e|] eqn:He; cbn [option_filter]; [|by eauto].
      destruct (string_is_empty e) eqn:Hne; cbn [negb]; [by eauto|].
      destruct (Hp e eq_refl Hne) as (plain & l & Hd & Hl). rewrite Hid, Hd. cbn. rewrite Hl. cbn.
      by exists (with_egress a l). }
    destruct Hhyd as (a' & Hhyd & Hid'). exists a', secret. split; [done|]. split; [done|].
    unfold load_account. rewrite Hk. cbn [ok_or]. rewrite Ha. cbn [ok_or]. rewrite Hhyd, Hs. cbn [map_err].
    by destruct (decoded_credential (kind a') secret).
Qed.

(** ** Refresh against concurrent changes *)

(** C25.  A background refresh never overwrites an administrator's change: if, after the
    candidate was read, the account's credential was rotated, replaced or the account
    deleted (so that the stored ciphertext is no longer the one that was read), the
    write changes nothing and reports so.  If the ciphertext is unchanged the write
    replaces exactly it, keeps the replaced one as the previous credential, until the
    earlier of its own expiry and ten minutes from now, and leaves every other row and
    column alone. *)
Theorem refresh_never_overwrites (db : Db) (nonce : string) (fault : bool)
    (c : OAuthRefreshCandidate) (fresh : OAuthCredentialEnvelope) (now : DateTime) :
  let aid := id (cand_account c) in
  let until := previous_validity now (envelope c) in
  let '(r, db') := replace_oauth_if_current box db nonce fault c fresh until in
  (until <= now + minutes 10 /\ forall t, oauth_expires_at (envelope c) = Some t -> until <= t) /\
  (row_ciphertext <$> provider_accounts db !! aid <> Some (expected_ciphertext c) -> db' = db /\ r <> Ok true) /\
  (r = Ok true ->
     exists row enc, provider_accounts db !! aid = Some row /\ row_ciphertext row = expected_ciphertext c /\
       encrypt box nonce (oauth_to_json fresh) (account_aad aid) = Ok enc /\
       provider_accounts db' = <[aid := {| row_json := row_json row; row_ciphertext := enc;
                                           row_egress := row_egress row |}]> (provider_accounts db) /\
       credential_history db' = <[aid := {| hist_ciphertext := expected_ciphertext c;
                                            hist_expires_at := to_rfc3339 until |}]> (credential_history db)).
Proof.
  cbn zeta. destruct (replace_oauth_if_current _ _ _ _ _ _ _) as [r db'] eqn:Hr. split.
  { unfold previous_validity. split; [lia|]. intros t ->. cbn. lia. }
  unfold replace_oauth_if_current in Hr.
  destruct (encrypt box nonce _ _) as [enc|e]; [|injection Hr as <- <-; by split].
  destruct fault; [injection Hr as <- <-; by split|].
  destruct (provider_accounts db !! id (cand_account c)) as [row|] eqn:E; [|injection Hr as <- <-; by split].
  case_bool_decide as Heq; injection Hr as <- <-; [|by split]. split.
  - cbn. intros Hne. by destruct Hne; rewrite Heq.
  - intros _. by exists row, enc.
Qed.

(** [set_account_enabled] writes the metadata it read before: when another request
    replaces the account between its two critical sections, the row ends with the
    older metadata (base URL and model map included) beside the newer credential and
    proxies. *)
Lemma toggle_overwrites_concurrent_update db (meanwhile : Db -> Db) aid e row a new :
  provider_accounts db !! aid = Some row -> account_from_json (row_json row) = Some a ->
  provider_accounts (meanwhile db) !! aid = Some new ->
  exists db', set_account_enabled db false false meanwhile aid e = (Ok tt, db') /\
    provider_accounts db' !! aid = Some {| row_json := account_to_json (with_enabled a e);
      row_ciphertext := row_ciphertext new; row_egress := row_egress new |}.
Proof.
  intros Hrow Ha Hnew. unfold set_account_enabled, read_account_json, enabled_json, update_account_json.
  rewrite Hrow. cbn. rewrite Ha. cbn. eexists. split; [reflexivity|]. cbn. by rewrite lookup_alter_eq, Hnew.
Qed.
End Theorems.

(** ** A concrete codec for examples

    A value's code is the binary numeral of its number in an enumeration of its type;
    times are fixed-width big-endian numbers. *)
Fixpoint bits (p : positive) : string :=
  match p with
  | xH => ""
  | xO q => String "0" (bits q)
  | xI q => String "1" (bits q)
  end.
Fixpoint of_bits (s : string) : positive :=
  match s with
  | "" => xH
  | String c rest => if (c =? "0")%char then xO (of_bits rest) else xI (of_bits rest)
  end.

Lemma of_bits_bits (p : positive) : of_bits (bits p) = p.
Proof. induction p as [p IH|p IH|]; cbn; by rewrite ?IH. Qed.

Definition to_text {A} `{Countable A} (x : A) : string := bits (encode x).
Definition from_text {A} `{Countable A} (s : string) : option A := decode (of_bits s).

Lemma text_codec {A} `{Countable A} (x : A) : from_text (to_text x) = Some x.
Proof. unfold from_text, to_text. by rewrite of_bits_bits, decode_encode. Qed.

Lemma utf8_ascii_fuel (fuel : nat) (l : bytes) :
  Forall (fun c => byte_of c < 128) l -> (length l <= fuel)%nat -> utf8_valid_fuel fuel l = true.
Proof.
  revert l. induction fuel as [|fuel IH]; intros [|c l] Hl Hf; cbn in *; try done; [lia|].
  apply Forall_cons in Hl as [Hc Hl]. unfold utf8_take, utf8_tail_ranges.
  rewrite (proj2 (Z.ltb_lt _ _) Hc). cbn [andb match_ranges Nat.eqb length]. rewrite drop_0. apply IH; [done|lia].
Qed.

Lemma text_ascii {A} `{Countable A} (x : A) :
  Forall (fun c => byte_of c < 128) (list_ascii_of_string (to_text x)).
Proof. unfold to_text. generalize (encode x). induction p as [p IH|p IH|]; cbn; constructor; done. Qed.

Lemma text_utf8 {A} `{Countable A} (x : A) :
  utf8_valid (list_ascii_of_string (to_text x)) = true.
Proof. by apply utf8_ascii_fuel; [apply text_ascii|]. Qed.

(** Fixed-width big-endian text: [k] bytes. *)
Fixpoint be_text (k : nat) (n : Z) : string :=
  match k with
  | O => ""
  | S k' => String (ascii_of_N (Z.to_N (n / 256 ^ Z.of_nat k'))) (be_text k' (n mod 256 ^ Z.of_nat k'))
  end.
Fixpoint of_be_text (s : string) : Z :=
  match s with
  | "" => 0
  | String c rest => byte_of c * 256 ^ Z.of_nat (String.length rest) + of_be_text rest
  end.

Lemma be_text_length (k : nat) (n : Z) : String.length (be_text k n) = k.
Proof. revert n. induction k as [|k IH]; intros n; cbn; [done|]. by rewrite IH. Qed.

Lemma be_text_digit (k : nat) (n : Z) :
  0 <= n < 256 ^ Z.of_nat (S k) ->
  byte_of (ascii_of_N (Z.to_N (n / 256 ^ Z.of_nat k))) = n / 256 ^ Z.of_nat k /\
  0 <= n mod 256 ^ Z.of_nat k < 256 ^ Z.of_nat k.
Proof.
  intros Hn. rewrite Nat2Z.inj_succ, Z.pow_succ_r in Hn by lia.
  assert (0 < 256 ^ Z.of_nat k) by (apply Z.pow_pos_nonneg; lia).
  assert (0 <= n / 256 ^ Z.of_nat k < 256).
  { split; [apply Z.div_pos; lia|apply Z.div_lt_upper_bound; lia]. }
  split; [|apply Z.mod_pos_bound; lia]. rewrite byte_of_ascii_of_N by lia. lia.
Qed.

Lemma of_be_text_be (k : nat) (n : Z) : 0 <= n < 256 ^ Z.of_nat k -> of_be_text (be_text k n) = n.
Proof.
  revert n. induction k as [|k IH]; intros n Hn; cbn [be_text of_be_text]; [cbn in *; lia|].
  destruct (be_text_digit k n Hn) as [Hd Hm]. rewrite Hd, be_text_length, IH by done.
  assert (0 < 256 ^ Z.of_nat k) by (apply Z.pow_pos_nonneg; lia).
  rewrite (Z.div_mod n (256 ^ Z.of_nat k)) at 3; [lia|lia].
Qed.

Lemma ascii_compare_byte (a b : ascii) : Ascii.compare a b = Z.compare (byte_of a) (byte_of b).
Proof. unfold Ascii.compare, byte_of. symmetry. apply N2Z.inj_compare. Qed.

Lemma be_text_order (k : nat) (m n : Z) :
  0 <= m < 256 ^ Z.of_nat k -> 0 <= n < 256 ^ Z.of_nat k ->
  String.compare (be_text k m) (be_text k n) = Z.compare m n.
Proof.
  revert m n. induction k as [|k IH]; intros m n Hm Hn.
  { cbn in *. assert (m = n) as -> by lia. by rewrite Z.compare_refl. }
  cbn [be_text String.compare].
  destruct (be_text_digit k m Hm) as [Hdm Hmm], (be_text_digit k n Hn) as [Hdn Hmn].
  rewrite ascii_compare_byte, Hdm, Hdn, IH by done.
  assert (Hp : 0 < 256 ^ Z.of_nat k) by (apply Z.pow_pos_nonneg; lia).
  pose proof (Z.div_mod m (256 ^ Z.of_nat k) ltac:(lia)) as Em.
  pose proof (Z.div_mod n (256 ^ Z.of_nat k) ltac:(lia)) as En.
  destruct (Z.compare_spec (m / 256 ^ Z.of_nat k) (n / 256 ^ Z.of_nat k)) as [E|E|E].
  - rewrite E in Em. destruct (Z.compare_spec (m mod 256 ^ Z.of_nat k) (n mod 256 ^ Z.of_nat k));
      symmetry; [apply Z.compare_eq_iff|apply Z.compare_lt_iff|apply Z.compare_gt_iff]; lia.
  - symmetry. apply Z.compare_lt_iff. nia.
  - symmetry. apply Z.compare_gt_iff. nia.
Qed.

Section Witnesses.
#[local] Existing Instance simple_url_lib.
#[local] Existing Instance simple_crypto_lib.
#[local] Existing Instance simple_crypto_laws.

#[local] Instance simple_url_countable : Countable simple_url.
Proof.
  refine (inj_countable'
    (fun u => (su_scheme u, su_username u, su_password u, su_host u, su_port u, su_path u, su_query u))
    (fun '(a, b, c, d, e, f, g) => {| su_scheme := a; su_username := b; su_password := c; su_host := d;
                                      su_port := e; su_path := f; su_query := g |}) _).
  by intros [].
Defined.

Definition kind_code (k : ProviderKind) : nat :=
  match k with ClaudeOauth => 0 | AnthropicApiKey => 1 | BedrockApiKey => 2 | BedrockSigV4 => 3
  | AnthropicCompatible => 4 end%nat.
Definition code_kind (n : nat) : ProviderKind :=
  match n with 0 => ClaudeOauth | 1 => AnthropicApiKey | 2 => BedrockApiKey | 3 => BedrockSigV4
  | _ => AnthropicCompatible end%nat.

(** The account as a tuple of countable values. *)
Definition account_tuple (a : ProviderAccount) :
    string * string * nat * simple_url * bool * list (string * string) * list string
    * option string * option string :=
  (id a, label a, kind_code (kind a), base_url a, enabled a, map_to_list (model_map a),
   egress_proxies a, compatible_auth_header a, compatible_auth_prefix a).
Definition tuple_account (t : string * string * nat * simple_url * bool * list (string * string)
    * list string * option string * option string) : ProviderAccount :=
  let '(i, l, k, b, e, m, p, h, x) := t in
  {| id := i; label := l; kind := code_kind k; base_url := (b : Url (UrlLib := simple_url_lib));
     enabled := e; model_map := list_to_map m; egress_proxies := p; compatible_auth_header := h;
     compatible_auth_prefix := x |}.

Lemma tuple_account_back (a : ProviderAccount) : tuple_account (account_tuple a) = a.
Proof. destruct a as [i l k b e m p h x]. cbn. rewrite list_to_map_to_list. by destruct k. Qed.

Definition oauth_tuple (e : OAuthCredentialEnvelope) :
    string * option Z * option string * option simple_url * option string * option string * option string :=
  (oauth_access_token e, oauth_expires_at e, oauth_refresh_token e, oauth_token_endpoint e,
   oauth_client_id e, oauth_client_secret e, oauth_scope e).
Definition tuple_oauth (t : string * option Z * option string * option simple_url * option string
    * option string * option string) : OAuthCredentialEnvelope :=
  let '(a, b, c, d, e, f, g) := t in
  {| oauth_access_token := a; oauth_expires_at := b; oauth_refresh_token := c;
     oauth_token_endpoint := (d : option (Url (UrlLib := simple_url_lib))); oauth_client_id := e;
     oauth_client_secret := f; oauth_scope := g |}.

(** Times are shifted to be positive. *)
Definition time_offset : Z := seconds 62167219200.

#[local] Instance sample_codec : StoreCodec := {|
  account_to_json := fun a => to_text (account_tuple a);
  account_from_json := fun s => tuple_account <$> from_text s;
  egress_to_json := to_text;
  egress_from_json := from_text;
  oauth_to_json := fun e => "{" +:+ to_text (oauth_tuple e);
  oauth_from_json := fun s => tuple_oauth <$> (strip_prefix "{" s ≫= from_text);
  to_rfc3339 := fun t => be_text 10 (t + time_offset);
  parse_rfc3339 := fun s => Some (of_be_text s - time_offset)
|}.

#[local] Instance sample_codec_laws : StoreCodecLaws sample_codec.
Proof.
  assert (Hr : forall t, four_digit_year t -> 0 <= t + time_offset < 256 ^ Z.of_nat 10)
    by (unfold four_digit_year, time_offset, seconds; lia).
  split.
  - intros a. change (tuple_account <$> from_text (to_text (account_tuple a)) = Some a).
    rewrite text_codec. change (Some (tuple_account (account_tuple a)) = Some a).
    by rewrite tuple_account_back.
  - intros l. apply text_codec.
  - intros l. apply text_utf8.
  - intros e. change (tuple_oauth <$> from_text (to_text (oauth_tuple e)) = Some e).
    rewrite text_codec. by destruct e.
  - intros e. change (utf8_valid ("{"%char :: list_ascii_of_string (to_text (oauth_tuple e))) = true).
    apply utf8_ascii_fuel; [constructor; [done|apply text_ascii]|done].
  - done.
  - intros t Ht. cbn -[be_text]. rewrite of_be_text_be by auto. f_equal. lia.
  - intros s t Hs Ht. cbn -[be_text]. rewrite be_text_order by auto.
    destruct (Z.compare_spec s t); [apply Z.compare_eq_iff|apply Z.compare_lt_iff|apply Z.compare_gt_iff]; lia.
Qed.

Definition sample_box : SecretBox := {| box_key := "master" |}.
Definition nonce_a : string := "aaaaaaaaaaaaaaaaaaaaaaaa".
Definition nonce_b : string := "bbbbbbbbbbbbbbbbbbbbbbbb".
Definition empty_db : Db :=
  {| provider_accounts := ∅; credential_history := ∅; audit_events := []; audit_sequence := 0 |}.

Definition stored_account : ProviderAccount :=
  {| id := "a"; label := "A"; kind := AnthropicApiKey; base_url := bedrock_url; enabled := true;
     model_map := {["opus" := "up"]}; egress_proxies := ["http://user:pw@proxy.example:8080"];
     compatible_auth_header := None; compatible_auth_prefix := None |}.

(** One upsert into the empty database succeeds. *)
Example sample_upsert_succeeds :
  match upsert_account sample_box empty_db nonce_a nonce_b false stored_account "sk-old" with
  | Some (Ok _, db) => is_ok (load_account sample_box db false "a")
  | _ => false
  end = true.
Proof. vm_compute. reflexivity. Qed.

Lemma store_roundtrip_witness :
  exists r db', upsert_account sample_box empty_db nonce_a nonce_b false stored_account "sk-old" = Some (r, db') /\
    match r with
    | Err _ => db' = empty_db
    | Ok _ => load_account sample_box db' false "a" = Ok (stored_account, "sk-old") /\
              forall aid f, aid <> "a" -> load_account sample_box db' f aid = load_account sample_box empty_db f aid
    end.
Proof.
  exact (store_roundtrip sample_box empty_db nonce_a nonce_b false stored_account "sk-old" "sk-old" None None
           eq_refl eq_refl eq_refl eq_refl).
Defined.

(** The row the upsert writes, and the database with it. *)
Definition old_row : account_row :=
  match encode_account sample_box nonce_a nonce_b stored_account "sk-old" with
  | Some (Ok row) => row
  | _ => {| row_json := ""; row_ciphertext := ""; row_egress := None |}
  end.
Definition old_db : Db := with_accounts empty_db {["a" := old_row]} ∅.

Lemma empty_db_wf : store_wf sample_box empty_db.
Proof. split; intros k x Hx; cbn in Hx; rewrite lookup_empty in Hx; discriminate Hx. Qed.

Lemma old_db_wf : store_wf sample_box old_db.
Proof.
  apply (store_wf_insert sample_box empty_db "a" old_row ∅).
  - apply empty_db_wf.
  - apply (encoded_row_wf sample_box nonce_a nonce_b stored_account "sk-old"); reflexivity.
  - intros k h Hk. rewrite lookup_empty in Hk. discriminate Hk.
Qed.

(** The replaced key of the sample account at the end of its window. *)
Lemma replaced_credential_ends_witness :
  exists db' creds, change_credential sample_box old_db nonce_b nonce_a stored_account "sk-new" (Some (minutes 10))
      = Some (Ok tt, db') /\
    credential_snapshot sample_box db' false {| digest_key := "k" |} (minutes 10) = Ok (Available creds) /\
    forall c, c ∈ creds -> cred_account_id c = "a" ->
      account_matches (authenticator_digest hmac_sha256 {| digest_key := "k" |} "sk-old") (minutes 10) c = false.
Proof.
  assert (Hok : match change_credential sample_box old_db nonce_b nonce_a stored_account "sk-new" (Some (minutes 10)) with
                | Some (Ok _, db') =>
                    match credential_snapshot sample_box db' false {| digest_key := "k" |} (minutes 10) with
                    | Ok (Available _) => true
                    | _ => false
                    end
                | _ => false
                end = true) by (vm_compute; reflexivity).
  destruct (change_credential sample_box old_db nonce_b nonce_a stored_account "sk-new" (Some (minutes 10)))
    as [[[[]|err] db']|] eqn:Hch; [|discriminate Hok|discriminate Hok].
  destruct (credential_snapshot sample_box db' false {| digest_key := "k" |} (minutes 10)) as [[creds|]|err] eqn:Hs;
    [|discriminate Hok|discriminate Hok].
  exists db', creds. split; [reflexivity|]. split; [exact Hs|]. intros c Hc Hid.
  destruct (replaced_credential_ends sample_box old_db db' nonce_b nonce_a stored_account "sk-new" "sk-new" None
    (Some (minutes 10)) (minutes 10) {| digest_key := "k" |} creds) as [_ Honly].
  - exact old_db_wf.
  - reflexivity.
  - reflexivity.
  - reflexivity.
  - reflexivity.
  - intros t [= <-]. split; vm_compute; [discriminate|reflexivity].
  - exact Hch.
  - exact Hs.
  - destruct (account_matches _ _ c) eqn:Hm; [|reflexivity]. exfalso.
    destruct (Honly c _ Hc Hid Hm) as [_ [[_ Hd]|(t & (until & row & s & x & [= <-] & Hlt & _) & _)]].
    + assert (Hne : bool_decide (authenticator_digest hmac_sha256 {| digest_key := "k" |} "sk-old"
        = authenticator_digest hmac_sha256 {| digest_key := "k" |} "sk-new") = false) by (vm_compute; reflexivity).
      apply bool_decide_eq_false in Hne. exact (Hne Hd).
    + lia.
Defined.

Lemma store_stays_readable_witness :
  exists r db', upsert_account sample_box empty_db nonce_a nonce_b false stored_account "sk-old" = Some (r, db') /\
    forall row, provider_accounts db' !! "a" = Some row -> exists secret,
      decrypt sample_box (row_ciphertext row) (account_aad "a") = Ok secret.
Proof.
  destruct (upsert_account sample_box empty_db nonce_a nonce_b false stored_account "sk-old")
    as [[r db']|] eqn:Hup.
  2:{ exfalso. assert (Hx : match upsert_account sample_box empty_db nonce_a nonce_b false stored_account "sk-old"
        with Some _ => true | None => false end = true) by (vm_compute; reflexivity).
      rewrite Hup in Hx. discriminate Hx. }
  exists r, db'. split; [reflexivity|].
  set (s0 := {| sys_db := empty_db; sys_pending := []; sys_candidates := [] |}).
  destruct (store_stays_readable sample_box (set_db s0 db') "a") as [_ Hload].
  - apply (store_next sample_box s0).
    + apply store_start. apply empty_db_wf.
    + eapply (st_upsert sample_box s0 nonce_a nonce_b); [reflexivity|reflexivity| | |exact Hup]; reflexivity.
  - intros row Hrow. destruct (Hload row Hrow) as (account & secret & _ & Hs & _). exists secret. exact Hs.
Defined.

Definition sample_envelope : OAuthCredentialEnvelope :=
  {| oauth_access_token := "t"; oauth_expires_at := None; oauth_refresh_token := None;
     oauth_token_endpoint := None; oauth_client_id := None; oauth_client_secret := None; oauth_scope := None |}.

(** A refresh that lost the race against a rotation changes nothing. *)
Example refresh_loses_race :
  (replace_oauth_if_current sample_box old_db nonce_a false
     {| cand_account := stored_account; expected_ciphertext := "stale"; envelope := sample_envelope; due := true |}
     sample_envelope 0).1 = Ok false.
Proof. vm_compute. reflexivity. Qed.
End Witnesses.
