(* ===== verification/AuditLog.v ===== *)
(** * The audit log (src/src/storage.rs, append_audit to prune_audit_before)

    The rows of [audit_events] keep their types and their order: identifiers grow and
    are never reused, times are stored as text that sorts chronologically.  So the
    newest events are what [recent_audit] shows, and pruning removes exactly the
    events before the cutoff. *)
From Stdlib Require Import Sorting.Sorted.
From S2P Require Import Prelude Interfaces Models Routing Auth Egress Bedrock Secrets Providers DataPlane Storage.

(** ** Types of the columns *)

(** The values a Rust caller can pass: [u16] status, [u64] latency, and a time whose
    year has four digits. *)
Record event_typed (e : AuditEvent) : Prop := {
  et_time : four_digit_year (ae_occurred_at e);
  et_status : forall s, ae_status e = Some s -> 0 <= s <= U16_MAX;
  et_latency : forall ms, ae_latency_ms e = Some ms -> 0 <= ms <= U64_MAX
}.

Section AuditLog.
Context `{U : UrlLib} `{C : !StoreCodec} `{!StoreCodecLaws C}.

(** A stored row: typed, with its latency in the range of the column and its time as
    text. *)
Record audit_row_wf (r : audit_row) : Prop := {
  ar_typed : event_typed (audit_event r);
  ar_latency : forall ms, ae_latency_ms (audit_event r) = Some ms -> ms <= I64_MAX;
  ar_time : audit_time r = to_rfc3339 (ae_occurred_at (audit_event r))
}.

Record audit_wf (db : Db) : Prop := {
  aw_rows : Forall audit_row_wf (audit_events db);
  aw_order : StronglySorted (fun a b => audit_id a < audit_id b) (audit_events db);
  aw_sequence : Forall (fun r => audit_id r <= audit_sequence db) (audit_events db)
}.

(** ** Preservation *)

Lemma StronglySorted_snoc {A} (R : A -> A -> Prop) (l : list A) (x : A) :
  StronglySorted R l -> Forall (fun y => R y x) l -> StronglySorted R (l ++ [x]).
Proof.
  induction 1 as [|y l Hl IH Hy]; intros Hx; cbn; [by repeat constructor|].
  apply Forall_cons in Hx as [Hyx Hx]. constructor; [by apply IH|].
  apply Forall_app. split; [done|by constructor].
Qed.

Lemma StronglySorted_filter {A} (R : A -> A -> Prop) (p : A -> bool) (l : list A) :
  StronglySorted R l -> StronglySorted R (List.filter p l).
Proof.
  induction 1 as [|y l Hl IH Hy]; cbn; [constructor|]. destruct (p y); [|done].
  constructor; [done|]. apply Forall_forall. intros z [Hz _]%elem_of_bool_filter.
  rewrite Forall_forall in Hy. by apply Hy.
Qed.

Lemma Forall_bool_filter {A} (P : A -> Prop) (p : A -> bool) (l : list A) :
  Forall P l -> Forall P (List.filter p l).
Proof. rewrite !Forall_forall. intros HP x [Hx _]%elem_of_bool_filter. by apply HP. Qed.

Lemma append_audit_wf db fault event :
  audit_wf db -> event_typed event -> audit_wf (append_audit db fault event).2.
Proof.
  intros [Hrows Hord Hseq] He. unfold append_audit. destruct fault; [done|].
  destruct (bindable event) eqn:Hb; [|done]. cbn. split; cbn.
  - apply Forall_app. split; [done|]. constructor; [|done]. split; [done| |done].
    intros ms Hms. cbn in Hms. unfold bindable in Hb. rewrite Hms in Hb. by apply Z.leb_le.
  - apply StronglySorted_snoc; [done|]. eapply Forall_impl; [exact Hseq|]. cbn. lia.
  - apply Forall_app. split; [|by constructor; [cbn; lia|]].
    eapply Forall_impl; [exact Hseq|]. cbn. lia.
Qed.

Definition proxy_event (r : ProxyAuditRecord) : AuditEvent :=
  {| ae_occurred_at := occurred_at r; ae_actor := actor r; ae_action := "proxy.request";
     ae_account_id := audit_account_id r; ae_provider := audit_provider r; ae_model := audit_model r;
     ae_session_id := session_fingerprint r; ae_status := Some (audit_status r);
     ae_outcome := audit_outcome r; ae_latency_ms := Some (latency_ms r) |}.

Lemma append_proxy_audit_wf db fault r :
  audit_wf db -> event_typed (proxy_event r) -> audit_wf (append_proxy_audit db fault r).2.
Proof.
  intros Hwf Ht. pose proof (append_audit_wf db fault _ Hwf Ht) as Happ.
  unfold append_proxy_audit. fold (proxy_event r). by destruct (append_audit db fault (proxy_event r)).
Qed.

Lemma prune_audit_wf db fault cutoff : audit_wf db -> audit_wf (prune_audit_before db fault cutoff).2.
Proof.
  intros [Hrows Hord Hseq]. unfold prune_audit_before. destruct fault; [done|].
  split; cbn; [by apply Forall_bool_filter|by apply StronglySorted_filter|by apply Forall_bool_filter].
Qed.

(** ** Reading *)

(** [a] is shown before [b]: it happened later, or at the same time and was recorded
    later. *)
Definition newer (a b : audit_row) : Prop :=
  let t r := ae_occurred_at (audit_event r) in
  t b < t a \/ (t a = t b /\ audit_id b < audit_id a).

Lemma CompOpp_not_Gt c : CompOpp c <> Gt <-> c <> Lt.
Proof. by destruct c. Qed.

#[local] Instance flip_total {A} (cmp : A -> A -> comparison) `{!TotalCmp cmp} :
  TotalCmp (fun x y => CompOpp (cmp x y)).
Proof.
  split.
  - intros a b c. rewrite <- !cmp_antisym. intros H1 H2. by eapply cmp_trans.
  - intros a b. by rewrite cmp_antisym.
Qed.

#[local] Instance audit_cmp_total : TotalCmp audit_cmp.
Proof. unfold audit_cmp. apply _. Qed.

Lemma audit_cmp_newer a b :
  audit_row_wf a -> audit_row_wf b -> audit_id a <> audit_id b -> audit_cmp a b <> Gt -> newer a b.
Proof.
  intros [[Ha _ _] _ Hta] [[Hb _ _] _ Htb] Hid. unfold audit_cmp, newer.
  rewrite Hta, Htb, rfc3339_order by done. cbn.
  destruct (Z.compare_spec (ae_occurred_at (audit_event a)) (ae_occurred_at (audit_event b))); cbn;
    [|done|auto].
  rewrite CompOpp_not_Gt, Z.compare_lt_iff. intros Hge. right. split; [done|lia].
Qed.

Lemma audit_row_event_ok r : audit_row_wf r -> audit_row_event r = Ok (audit_event r).
Proof.
  intros [[Ht _ _] _ Htime]. unfold audit_row_event. rewrite Htime, rfc3339_codec by done.
  by destruct (audit_event r).
Qed.

Lemma collect_results_ok {A B E} (f : A -> result B E) (g : A -> B) (l : list A) :
  Forall (fun x => f x = Ok (g x)) l -> collect_results f l = Ok (map g l).
Proof. induction 1 as [|x l Hx _ IH]; cbn; [done|]. by rewrite Hx, IH. Qed.

(** Sorting rows with distinct identifiers orders them strictly. *)
Lemma sorted_newer (l : list audit_row) :
  Forall audit_row_wf l -> NoDup (map audit_id l) -> StronglySorted (fun a b => audit_cmp a b <> Gt) l ->
  StronglySorted newer l.
Proof.
  intros Hwf Hnd Hs. induction Hs as [|a l Hs IH Ha]; [constructor|].
  apply Forall_cons in Hwf as [Hwa Hwf]. apply NoDup_cons in Hnd as [Hnew Hnd].
  constructor; [by apply IH|]. rewrite Forall_forall in Ha, Hwf |- *. intros b Hb.
  apply audit_cmp_newer; [done|by apply Hwf| |by apply Ha].
  intros Heq. apply Hnew. rewrite Heq. by apply list_elem_of_fmap_2.
Qed.

Lemma StronglySorted_split {A} (R : A -> A -> Prop) (n : nat) (l : list A) :
  StronglySorted R l -> StronglySorted R (take n l) /\
  (forall x y, x ∈ take n l -> y ∈ drop n l -> R x y).
Proof.
  intros Hs. revert n. induction Hs as [|a l Hs IH Ha]; intros [|n]; cbn;
    [split; [constructor|set_solver]..|]. destruct (IH n) as [Ht Hd].
  rewrite Forall_forall in Ha. split.
  - constructor; [done|]. apply Forall_forall. intros x Hx. apply Ha. by eapply elem_of_take in Hx as (? & ? & ?); eapply list_elem_of_lookup_2.
  - intros x y [->|Hx]%elem_of_cons Hy; [|by apply Hd]. apply Ha.
    rewrite <- (take_drop n l). apply elem_of_app. by right.
Qed.

Lemma audit_ids_NoDup db : audit_wf db -> NoDup (map audit_id (audit_events db)).
Proof.
  intros [_ Hord _]. induction Hord as [|a l Hl IH Ha]; cbn; constructor; [|done].
  intros (b & Heq & Hb)%list_elem_of_fmap. rewrite Forall_forall in Ha. specialize (Ha b Hb). lia.
Qed.

(** [limit.clamp(1, 1_000)]. *)
Definition shown_count (limit : Z) : nat := Z.to_nat (Z.max 1 (Z.min 1000 limit)).

(** C40.  The audit view shows the newest events: for a log whose rows are typed,
    [recent_audit] succeeds and returns [limit] events (1 to 1000, or all if there are
    fewer) exactly as they were recorded, newest first with ties by insertion, and every
    event it leaves out is older than all it returns. *)
Theorem recent_audit_newest_first (db : Db) (limit : Z) (Hwf : audit_wf db) :
  exists shown hidden, recent_audit db false limit = Ok (map audit_event shown) /\
    shown ++ hidden ≡ₚ audit_events db /\
    length shown = Nat.min (shown_count limit) (length (audit_events db)) /\
    StronglySorted newer shown /\
    (forall x y, x ∈ shown -> y ∈ hidden -> newer x y).
Proof.
  set (sorted := sort audit_cmp (audit_events db)).
  assert (Hperm : sorted ≡ₚ audit_events db) by apply sort_perm.
  assert (Hnewer : StronglySorted newer sorted).
  { apply sorted_newer; [by rewrite Hperm; apply aw_rows| |apply sort_sorted, _].
    rewrite Hperm. by apply audit_ids_NoDup. }
  apply (StronglySorted_split _ (shown_count limit)) in Hnewer as [Hshown Hcut].
  exists (take (shown_count limit) sorted), (drop (shown_count limit) sorted). split_and!.
  - unfold recent_audit. fold (shown_count limit) sorted. apply collect_results_ok.
    apply Forall_take. rewrite Hperm. eapply Forall_impl; [by apply aw_rows|]. apply audit_row_event_ok.
  - by rewrite take_drop.
  - by rewrite length_take, Hperm.
  - done.
  - done.
Qed.

(** Pruning removes exactly the events before the cutoff, and counts them. *)
Lemma prune_audit_spec db cutoff :
  audit_wf db -> four_digit_year cutoff ->
  let old r := ae_occurred_at (audit_event r) <? cutoff in
  exists db', prune_audit_before db false cutoff = (Ok (length (List.filter old (audit_events db))), db') /\
    audit_events db' = List.filter (fun r => negb (old r)) (audit_events db) /\
    provider_accounts db' = provider_accounts db /\ credential_history db' = credential_history db.
Proof.
  intros Hwf Hcut old.
  assert (Hold : forall r, r ∈ audit_events db ->
    match String.compare (audit_time r) (to_rfc3339 cutoff) with Lt => true | _ => false end = old r).
  { intros r Hr. pose proof (aw_rows _ Hwf) as Hrows. rewrite Forall_forall in Hrows.
    destruct (Hrows r Hr) as [[Ht _ _] _ Htime]. rewrite Htime, rfc3339_order by done.
    unfold old, Z.ltb. by destruct (_ ?= _). }
  exists (prune_audit_before db false cutoff).2. split_and!; [|cbn|done|done].
  - apply (f_equal2 pair); [|reflexivity]. do 2 f_equal. apply filter_ext_in. intros r Hr%list_elem_of_In. by apply Hold.
  - apply filter_ext_in. intros r Hr%list_elem_of_In. by rewrite Hold.
Qed.
End AuditLog.

(** ** Examples *)

Section Witnesses.
#[local] Existing Instance simple_url_lib.
#[local] Existing Instance simple_crypto_lib.
#[local] Existing Instance sample_codec.
#[local] Existing Instance sample_codec_laws.

Definition event_at (now : DateTime) (action : string) : AuditEvent :=
  {| ae_occurred_at := now; ae_actor := "admin"; ae_action := action; ae_account_id := None;
     ae_provider := None; ae_model := None; ae_session_id := None; ae_status := Some 204;
     ae_outcome := "success"; ae_latency_ms := None |}.

Definition two_events : Db :=
  (append_audit (append_audit empty_db false (event_at (seconds 9) "late")).2 false
     (event_at (seconds 3) "early")).2.

Lemma event_at_typed t action : four_digit_year t -> event_typed (event_at t action).
Proof. intros Ht. split; cbn; [done|intros s [= <-]; unfold U16_MAX; lia|done]. Qed.

Lemma two_events_wf : audit_wf two_events.
Proof.
  apply append_audit_wf; [apply append_audit_wf; [by repeat constructor|]|]; apply event_at_typed;
    unfold four_digit_year, seconds; lia.
Qed.

(** Newest first, although it was recorded first. *)
Example recent_order :
  match recent_audit two_events false 10 with Ok l => map ae_action l | Err _ => [] end = ["late"; "early"].
Proof. vm_compute. reflexivity. Qed.

(** A latency that does not fit the column is refused. *)
Example unbindable_latency :
  (append_proxy_audit empty_db false {| occurred_at := 0; actor := "c"; audit_account_id := None;
     audit_provider := None; audit_model := None; session_fingerprint := None; audit_status := 200;
     audit_outcome := "success"; latency_ms := U64_MAX |}).1 = Err RepoUnavailable.
Proof. vm_compute. reflexivity. Qed.

Lemma recent_audit_newest_first_witness :
  exists shown hidden, recent_audit two_events false 1 = Ok (map audit_event shown) /\
    shown ++ hidden ≡ₚ audit_events two_events /\ length shown = 1%nat.
Proof.
  destruct (recent_audit_newest_first two_events 1 two_events_wf) as (shown & hidden & Hr & Hp & Hl & _).
  exists shown, hidden. split; [exact Hr|]. split; [exact Hp|]. rewrite Hl. reflexivity.
Defined.
End Witnesses.
