(* ===== verification/StoreOpen.v ===== *)
(** * Opening the store (src/src/storage.rs, SqliteStore::open)

    The schema steps and the migration of rows written before proxies were encrypted.
    A database file is its tables, each of which may be missing; a statement either
    takes effect or fails ([fails k] for the [k]-th), and an error ends the opening
    with what was done so far.  SQLite itself (pragmas, checkpoints, [VACUUM]) only
    contributes its errors. *)
From Stdlib Require Import Sorting.Sorted.
From S2P Require Import Prelude Interfaces Models Routing Auth Egress Bedrock Secrets Providers DataPlane Storage AuditLog.

(** ** Database files *)

Record DbFile := {
  f_versions : option (gset Z);                                (* schema_migrations *)
  f_accounts : option (bool * gmap string account_row);        (* with egress_ciphertext? *)
  f_audit : option (list audit_row * Z);
  f_history : option (gmap string history_row)
}.

(** A file that does not exist or is empty. *)
Definition empty_file : DbFile :=
  {| f_versions := None; f_accounts := None; f_audit := None; f_history := None |}.

(** The rows of the account table; without the column no row has a ciphertext. *)
Definition table_rows (t : bool * gmap string account_row) : gmap string account_row :=
  if t.1 then t.2
  else (fun r => {| row_json := row_json r; row_ciphertext := row_ciphertext r; row_egress := None |}) <$> t.2.

(** The tables; a missing one has no rows. *)
Definition file_db (f : DbFile) : Db :=
  {| provider_accounts := default ∅ (table_rows <$> f_accounts f);
     credential_history := default ∅ (f_history f);
     audit_events := default [] (fst <$> f_audit f);
     audit_sequence := default 0 (snd <$> f_audit f) |}.

Definition with_tables (f : DbFile) (db : Db) : DbFile :=
  {| f_versions := f_versions f; f_accounts := Some (true, provider_accounts db);
     f_audit := Some (audit_events db, audit_sequence db);
     f_history := Some (credential_history db) |}.

(** ** Statements *)

Definition create_migrations (f : DbFile) : DbFile :=
  {| f_versions := Some (default ∅ (f_versions f)); f_accounts := f_accounts f; f_audit := f_audit f;
     f_history := f_history f |}.
Definition create_accounts (f : DbFile) : DbFile :=
  {| f_versions := f_versions f; f_accounts := Some (default (true, ∅) (f_accounts f));
     f_audit := f_audit f; f_history := f_history f |}.
Definition create_audit (f : DbFile) : DbFile :=
  {| f_versions := f_versions f; f_accounts := f_accounts f;
     f_audit := Some (default ([], 0) (f_audit f)); f_history := f_history f |}.
Definition create_history (f : DbFile) : DbFile :=
  {| f_versions := f_versions f; f_accounts := f_accounts f; f_audit := f_audit f;
     f_history := Some (default ∅ (f_history f)) |}.
Definition insert_version (v : Z) (f : DbFile) : DbFile :=
  {| f_versions := Some ({[v]} ∪ default ∅ (f_versions f)); f_accounts := f_accounts f;
     f_audit := f_audit f; f_history := f_history f |}.

(** [ALTER TABLE provider_accounts ADD COLUMN egress_ciphertext]: null in every row. *)
Definition add_egress_column (f : DbFile) : DbFile :=
  {| f_versions := f_versions f;
     f_accounts := (fun t => (true, table_rows t)) <$> f_accounts f;
     f_audit := f_audit f; f_history := f_history f |}.

Definition has_egress_ciphertext (f : DbFile) : bool := is_some_and (f_accounts f) fst.

Fixpoint execute_batch (fails : nat -> bool) (k : nat) (statements : list (DbFile -> DbFile)) (f : DbFile) :
    result unit StorageError * DbFile :=
  match statements with
  | [] => (Ok tt, f)
  | statement :: rest =>
      if fails k then (Err Database, f) else execute_batch fails (S k) rest (statement f)
  end.

(** Opening and the four pragmas, then the schema batch (the index has no rows of its
    own), in the order of the source. *)
Definition schema_batch : list (DbFile -> DbFile) :=
  replicate 5 (fun f => f) ++
  [create_migrations; create_accounts; create_audit; create_history; (fun f => f);
   insert_version 1; insert_version 2; insert_version 3].

(** [table_info], [ADD COLUMN] when it is missing, and version 4. *)
Definition column_batch (f : DbFile) : list (DbFile -> DbFile) :=
  [(fun f => f)] ++ (if has_egress_ciphertext f then [] else [add_egress_column]) ++ [insert_version 4].

Section Open.
Context `{U : UrlLib} `{L : CryptoLib} `{C : !StoreCodec} (box : SecretBox).

(** [legacy]: the error of the query for legacy rows; [row_faults]: of their updates;
    [vacuum]: of the final checkpoint, which runs only after a migration. *)
Record open_env := {
  oe_fails : nat -> bool;
  oe_legacy : bool;
  oe_row_faults : nat -> bool;
  oe_nonces : nat -> string;
  oe_vacuum : bool
}.

Definition open_store (f : DbFile) (e : open_env) : option (result Db StorageError * DbFile) :=
  let '(res, f) := execute_batch (oe_fails e) 0 schema_batch f in
  match res with
  | Err err => Some (Err err, f)
  | Ok _ =>
      let '(res, f) := execute_batch (oe_fails e) (length schema_batch) (column_batch f) f in
      match res with
      | Err err => Some (Err err, f)
      | Ok _ =>
          '(res, db) ← encrypt_legacy_egress_metadata box (file_db f) (oe_legacy e) (oe_nonces e)
                         (oe_row_faults e);
          let f := with_tables f db in
          Some (match res with
                | Err err => Err err
                | Ok migrated => if (0 <? migrated)%nat && oe_vacuum e then Err Database else Ok db
                end, f)
      end
  end.
End Open.

(** ** The migration of a row *)

Section Theorems.
Context `{U : UrlLib} `{L : CryptoLib} `{!CryptoLaws L} `{C : !StoreCodec} `{!StoreCodecLaws C}.
Context (box : SecretBox).

(** The readable column of an encrypted row: proxies without their userinfo. *)
Record encrypted_from (row row' : account_row) : Prop := {
  ef_legacy : is_legacy row = true;
  ef_done : is_legacy row' = false;
  ef_secret : row_ciphertext row' = row_ciphertext row;
  ef_account : exists a redacted e, account_from_json (row_json row) = Some a /\
    redact_all (egress_proxies a) = Some redacted /\
    row_json row' = account_to_json (with_egress a redacted) /\
    row_egress row' = Some e /\ decrypt box e (egress_aad (id a)) = Ok (egress_to_json (egress_proxies a))
}.

Definition kept_or_encrypted (row row' : account_row) : Prop := row' = row \/ encrypted_from row row'.

(** Loading does not see the difference. *)
Lemma kept_or_encrypted_loads db db' aid :
  option_relation kept_or_encrypted (fun _ => False) (fun _ => False)
    (provider_accounts db !! aid) (provider_accounts db' !! aid) ->
  load_account box db' false aid = load_account box db false aid.
Proof.
  unfold load_account. destruct (provider_accounts db !! aid) as [row|], (provider_accounts db' !! aid) as [row'|];
    cbn [option_relation]; try done.
  intros [->|[Hleg Hdone Hsec (a & red & e & Ha & Hr & Ha' & He & Hd)]]; [done|]. cbn [ok_or].
  rewrite Ha, Ha', account_codec, Hsec. cbn [ok_or]. unfold hydrate_account_egress. rewrite He.
  unfold is_legacy in Hleg, Hdone. rewrite He in Hdone. cbn [option_filter]. rewrite Hdone. cbn [negb].
  change (id (with_egress a red)) with (id a). rewrite Hd. cbn [map_err]. rewrite egress_codec. cbn [ok_or].
  rewrite with_egress_back. destruct (row_egress row) as [c|]; cbn [option_filter]; [|done]. by rewrite Hleg.
Qed.

(** What one update writes. *)
Lemma encrypted_row nonce row a json egress :
  String.length nonce = 24%nat -> is_legacy row = true -> account_from_json (row_json row) = Some a ->
  account_storage_values box nonce a = Some (Ok (json, egress)) ->
  encrypted_from row {| row_json := json; row_ciphertext := row_ciphertext row; row_egress := Some egress |}.
Proof.
  intros Hn Hleg Ha Hv. pose proof Hv as Hv'. apply account_storage_values_ok in Hv' as [_ Henc].
  unfold account_storage_values in Hv. destruct (collect_results _ _); [|done]. cbn [map_err] in Hv.
  rewrite Henc in Hv. cbn [map_err] in Hv.
  destruct (redact_all (egress_proxies a)) as [red|] eqn:Hred; [|done]. cbn in Hv. injection Hv as <-.
  split; cbn; [done|by eapply encrypt_nonempty|done|].
  exists a, red, egress. split_and!; [done|done|done|done|].
  eapply encrypt_decrypt; [exact Hn|apply egress_utf8|exact Henc].
Qed.

(** ** The migration loop *)

(** All rows of [m] are as before or encrypted in [m']. *)
Definition rows_kept (m m' : gmap string account_row) : Prop :=
  forall k, option_relation kept_or_encrypted (fun _ => False) (fun _ => False) (m !! k) (m' !! k).

Lemma rows_kept_refl m : rows_kept m m.
Proof. intros k. destruct (m !! k); cbn; [by left|done]. Qed.

(** Rewriting one legacy row. *)
Lemma rows_kept_update m m' aid row row' :
  m !! aid = Some row -> encrypted_from row row' -> rows_kept (<[aid := row']> m) m' -> rows_kept m m'.
Proof.
  intros Hrow Henc Hk k. specialize (Hk k). destruct (decide (k = aid)) as [->|Hne].
  - rewrite lookup_insert_eq in Hk. rewrite Hrow. destruct (m' !! aid) as [r|]; cbn in *; [|done].
    destruct Hk as [->|[Hleg _ _ _]]; [by right|]. by rewrite (ef_done _ _ Henc) in Hleg.
  - by rewrite lookup_insert_ne in Hk.
Qed.

Lemma migrate_rows_spec nonces faults i rows db res db' :
  (forall k, String.length (nonces k) = 24%nat) -> NoDup rows.*1 ->
  (forall aid row, (aid, row) ∈ rows -> provider_accounts db !! aid = Some row /\ is_legacy row = true) ->
  migrate_rows box db nonces faults i rows = Some (res, db') ->
  rows_kept (provider_accounts db) (provider_accounts db') /\
  credential_history db' = credential_history db /\ audit_events db' = audit_events db /\
  audit_sequence db' = audit_sequence db /\
  (res = Ok tt -> forall aid row, (aid, row) ∈ rows ->
     exists row', provider_accounts db' !! aid = Some row' /\ encrypted_from row row').
Proof.
  intros Hn. revert i db. induction rows as [|[aid row] rows IH]; intros i db Hnd Hrows; cbn [migrate_rows].
  { intros [= <- <-]. split_and!; [apply rows_kept_refl|done|done|done|]. intros _ ? ? []%elem_of_nil. }
  destruct (Hrows aid row) as [Hrow Hleg]; [by left|].
  destruct (account_from_json (row_json row)) as [a|] eqn:Ha.
  2:{ intros [= <- <-]. split_and!; [apply rows_kept_refl|done..]. }
  destruct (account_storage_values_total box (nonces i) a) as [[[json egress]|err] Hv]; rewrite Hv; cbn.
  2:{ intros [= <- <-]. split_and!; [apply rows_kept_refl|done..]. }
  destruct (faults i). { intros [= <- <-]. split_and!; [apply rows_kept_refl|done..]. }
  intros Hrun. apply NoDup_cons in Hnd as [Hnew Hnd].
  pose proof (encrypted_row _ _ _ _ _ (Hn i) Hleg Ha Hv) as Henc.
  set (row' := {| row_json := json; row_ciphertext := row_ciphertext row; row_egress := Some egress |}) in *.
  assert (Halter : alter (fun r => if is_legacy r then {| row_json := json; row_ciphertext := row_ciphertext r;
                     row_egress := Some egress |} else r) aid (provider_accounts db)
                   = <[aid := row']> (provider_accounts db)).
  { apply map_eq. intros k. destruct (decide (k = aid)) as [->|Hne].
    - by rewrite lookup_alter_eq, lookup_insert_eq, Hrow; cbn; rewrite Hleg.
    - by rewrite lookup_alter_ne, lookup_insert_ne. }
  rewrite Halter in Hrun. apply IH in Hrun; [|done|].
  2:{ intros k r Hk. cbn. rewrite lookup_insert_ne; [by apply Hrows; right|].
      intros <-. apply Hnew. apply list_elem_of_fmap. by exists (aid, r). }
  destruct Hrun as (Hk & Hh & Hev & Hseq & Hall). cbn in *.
  split_and!; [by eapply rows_kept_update|done|done|done|].
  intros Hok k r [[= -> ->]|Hin]%elem_of_cons; [|by apply Hall].
  specialize (Hk aid). rewrite lookup_insert_eq in Hk.
  destruct (provider_accounts db' !! aid) as [r'|]; cbn in Hk; [|done]. exists r'. split; [done|].
  destruct Hk as [->|[Hbad _ _ _]]; [done|]. by rewrite (ef_done _ _ Henc) in Hbad.
Qed.

(** ** The schema steps *)

Definition current_versions : gset Z := {[1; 2; 3; 4]}.

(** All tables, the column and the versions are there. *)
Record schema_current (f : DbFile) : Prop := {
  sc_versions : exists vs, f_versions f = Some vs /\ current_versions ⊆ vs;
  sc_accounts : exists rows, f_accounts f = Some (true, rows);
  sc_audit : is_Some (f_audit f);
  sc_history : is_Some (f_history f)
}.

Definition keeps_rows (statement : DbFile -> DbFile) : Prop := forall f, file_db (statement f) = file_db f.

(** A batch, whether it fails or not, keeps the rows; if it succeeds all of it was done. *)
Lemma execute_batch_spec fails k statements f :
  Forall keeps_rows statements ->
  file_db (execute_batch fails k statements f).2 = file_db f /\
  ((execute_batch fails k statements f).1 = Ok tt ->
     (execute_batch fails k statements f).2 = fold_left (fun f s => s f) statements f).
Proof.
  revert k f. induction statements as [|s rest IH]; intros k f; cbn; [done|].
  intros [Hs Hrest]%Forall_cons. destruct (fails k); [done|].
  destruct (IH (S k) (s f) Hrest) as [Hdb Hall]. by rewrite Hdb.
Qed.

Lemma execute_batch_healthy k statements f :
  execute_batch (fun _ => false) k statements f = (Ok tt, fold_left (fun f s => s f) statements f).
Proof. revert k f. induction statements as [|s rest IH]; intros k f; cbn; [done|by rewrite IH]. Qed.

Lemma schema_batch_keeps : Forall keeps_rows schema_batch.
Proof.
  repeat constructor; intros [vs [[[] rows]|] [[]|] hs]; try reflexivity;
    unfold file_db; cbn; by destruct hs.
Qed.

Lemma column_batch_keeps f : Forall keeps_rows (column_batch f).
Proof.
  unfold column_batch. destruct (has_egress_ciphertext f); cbn; repeat constructor;
    intros [vs [[[] rows]|] aud hs]; reflexivity.
Qed.

(** After both batches the schema is current. *)
Lemma batches_current f :
  let f1 := fold_left (fun f s => s f) schema_batch f in
  schema_current (fold_left (fun f s => s f) (column_batch f1) f1).
Proof.
  intros f1. unfold column_batch, has_egress_ciphertext.
  destruct f as [vs [[[] rows]|] aud hs]; subst f1; cbn;
    (split; cbn; [eexists; split; [reflexivity|unfold current_versions; set_solver]|by eexists..]).
Qed.

(** On a current schema they do nothing. *)
Lemma insert_version_present f v :
  schema_current f -> v ∈ current_versions -> insert_version v f = f.
Proof.
  intros [(vs & Hvs & Hsub) _ _ _] Hv. destruct f as [vs' acc aud hs]. cbn in *. subst vs'.
  unfold insert_version. cbn. do 2 f_equal. set_solver.
Qed.

Lemma batches_idle f :
  schema_current f -> fold_left (fun f s => s f) schema_batch f = f /\
  fold_left (fun f s => s f) (column_batch f) f = f.
Proof.
  intros Hf. pose proof Hf as [(vs & Hvs & _) [rows Hrows] [au Hau] [hs Hhs]].
  assert (Hmake : create_history (create_audit (create_accounts (create_migrations f))) = f)
    by (destruct f; cbn in *; by subst).
  split; unfold column_batch, has_egress_ciphertext; [|rewrite Hrows]; cbn [app fold_left is_some_and fst];
    [unfold schema_batch; cbn [replicate app fold_left]; rewrite Hmake|];
    by rewrite ?(insert_version_present f) by (done || (unfold current_versions; set_solver)).
Qed.

Lemma with_tables_idle f : schema_current f -> with_tables f (file_db f) = f.
Proof. intros [_ [rows Hr] [[l n] Ha] [hs Hh]]. destruct f; cbn in *; subst. reflexivity. Qed.

Lemma with_tables_db f db : file_db (with_tables f db) = db.
Proof. by destruct db. Qed.

Lemma with_tables_current f db : schema_current f -> schema_current (with_tables f db).
Proof. intros [Hv _ _ _]. split; cbn; [done|by eexists..]. Qed.

(** ** Opening *)

(** The rows whose egress is still in the clear. *)
Definition legacy_rows (db : Db) : list (string * account_row) :=
  List.filter (fun kr => is_legacy kr.2) (map_to_list (provider_accounts db)).

Lemma legacy_rows_spec db aid row :
  (aid, row) ∈ legacy_rows db <-> provider_accounts db !! aid = Some row /\ is_legacy row = true.
Proof.
  unfold legacy_rows. rewrite list_elem_of_In, filter_In, <- list_elem_of_In, elem_of_map_to_list. done.
Qed.

Lemma legacy_rows_NoDup db : NoDup (legacy_rows db).*1.
Proof.
  unfold legacy_rows. generalize (NoDup_fst_map_to_list (provider_accounts db)).
  induction (map_to_list (provider_accounts db)) as [|[k r] l IH]; cbn; [done|].
  intros [Hk Hl]%NoDup_cons. destruct (is_legacy r); cbn; [|by apply IH].
  constructor; [|by apply IH]. intros [x [-> Hin]]%list_elem_of_fmap. apply Hk.
  apply list_elem_of_fmap. exists x. split; [done|].
  by apply list_elem_of_In, filter_In, proj1, list_elem_of_In in Hin.
Qed.

Lemma migrate_rows_total nonces faults i rows db : is_Some (migrate_rows box db nonces faults i rows).
Proof.
  revert i db. induction rows as [|[aid row] rows IH]; intros i db; cbn [migrate_rows]; [by eexists|].
  destruct (account_from_json _) as [a|]; [|by eexists].
  destruct (account_storage_values_total box (nonces i) a) as [[v|e] ->]; cbn; [|by eexists].
  destruct (faults i); [by eexists|apply IH].
Qed.

(** What the migration of the legacy rows does. *)
Lemma encrypt_legacy_spec db fault nonces faults :
  (forall k, String.length (nonces k) = 24%nat) ->
  exists res db', encrypt_legacy_egress_metadata box db fault nonces faults = Some (res, db') /\
    rows_kept (provider_accounts db) (provider_accounts db') /\
    credential_history db' = credential_history db /\ audit_events db' = audit_events db /\
    audit_sequence db' = audit_sequence db /\
    (is_ok res = true -> legacy_rows db' = []).
Proof.
  intros Hn. unfold encrypt_legacy_egress_metadata. destruct fault.
  { eexists _, _. split; [done|]. by split_and!; [apply rows_kept_refl|..]. }
  fold (legacy_rows db). destruct (migrate_rows_total nonces faults 0 (legacy_rows db) db) as [[res db'] Hm].
  rewrite Hm. cbn. eexists _, db'. split; [done|].
  apply migrate_rows_spec in Hm; [|done|apply legacy_rows_NoDup|intros ??; by rewrite legacy_rows_spec].
  destruct Hm as (Hk & Hh & He & Hs & Hall). split_and!; [done..|]. destruct res as [[]|]; [|done]. intros _.
  destruct (legacy_rows db') as [|[k row'] l] eqn:Hl; [done|exfalso].
  assert (Hin : (k, row') ∈ legacy_rows db') by (rewrite Hl; by left).
  apply legacy_rows_spec in Hin as [Hrow' Hleg']. specialize (Hk k). rewrite Hrow' in Hk.
  destruct (provider_accounts db !! k) as [row|] eqn:Hrow; cbn in Hk; [|done].
  destruct Hk as [->|[_ Hdone _ _]]; [|by rewrite Hdone in Hleg'].
  destruct (Hall eq_refl k row) as (r & Hr & [_ Hdone _ _]); [by apply legacy_rows_spec|].
  rewrite Hrow' in Hr. injection Hr as <-. by rewrite Hdone in Hleg'.
Qed.

Lemma encrypt_legacy_idle db fault nonces faults :
  legacy_rows db = [] -> encrypt_legacy_egress_metadata box db fault nonces faults =
    Some (if fault then Err Database else Ok 0%nat, db).
Proof.
  intros Hl. unfold encrypt_legacy_egress_metadata. destruct fault; [done|]. fold (legacy_rows db).
  by rewrite Hl.
Qed.

(** The migrated rows are well formed when the old ones were. *)
Lemma rows_kept_wf db db' :
  rows_kept (provider_accounts db) (provider_accounts db') ->
  credential_history db' = credential_history db -> store_wf box db -> store_wf box db'.
Proof.
  intros Hk Hh [Hr Hw]. split.
  - intros k row' Hrow'. specialize (Hk k). rewrite Hrow' in Hk.
    destruct (provider_accounts db !! k) as [row|] eqn:Hrow; cbn in Hk; [|done].
    destruct (Hr k row Hrow) as [(a & Ha & <-) Hs Hp]. destruct Hk as [->|[_ _ Hsec Hacc]]; [by split; [exists a|..]|].
    destruct Hacc as (a' & red & e & Ha' & _ & Hj & He & Hd). rewrite Ha in Ha'. injection Ha' as <-.
    split; [rewrite Hj, account_codec; by eexists|by rewrite Hsec|]. intros e' He' _. rewrite He in He'. injection He' as <-.
    exists (egress_to_json (egress_proxies a)), (egress_proxies a). split; [done|apply egress_codec].
  - intros k h. rewrite Hh. intros Hkh. destruct (Hw k h Hkh) as [Hs Hwf]. split; [|done].
    specialize (Hk k). destruct Hs as [row Hrow]. rewrite Hrow in Hk.
    destruct (provider_accounts db' !! k); cbn in Hk; [by eexists|done].
Qed.

(** What opening does to the file, in terms of the tables. *)
Lemma open_store_spec f e :
  (forall k, String.length (oe_nonces e k) = 24%nat) ->
  exists res f', open_store box f e = Some (res, f') /\
    rows_kept (provider_accounts (file_db f)) (provider_accounts (file_db f')) /\
    credential_history (file_db f') = credential_history (file_db f) /\
    audit_events (file_db f') = audit_events (file_db f) /\
    audit_sequence (file_db f') = audit_sequence (file_db f) /\
    (forall db, res = Ok db -> db = file_db f' /\ schema_current f' /\ legacy_rows db = []).
Proof.
  intros Hn. unfold open_store.
  destruct (execute_batch_spec (oe_fails e) 0 schema_batch f schema_batch_keeps) as [Hdb1 Hall1].
  destruct (execute_batch (oe_fails e) 0 schema_batch f) as [[[]|err] f1]; cbn in Hdb1, Hall1.
  2:{ exists (Err err), f1. rewrite Hdb1. by split_and!; [|apply rows_kept_refl|..]. }
  specialize (Hall1 eq_refl).
  destruct (execute_batch_spec (oe_fails e) (length schema_batch) (column_batch f1) f1 (column_batch_keeps f1))
    as [Hdb2 Hall2].
  destruct (execute_batch (oe_fails e) _ (column_batch f1) f1) as [[[]|err] f2]; cbn in Hdb2, Hall2.
  2:{ exists (Err err), f2. rewrite Hdb2, Hdb1. by split_and!; [|apply rows_kept_refl|..]. }
  specialize (Hall2 eq_refl).
  destruct (encrypt_legacy_spec (file_db f2) (oe_legacy e) (oe_nonces e) (oe_row_faults e) Hn)
    as (res & db' & -> & Hk & Hh & He & Hs & Hdone).
  cbn [mbind option_bind]. eexists _, _. split; [reflexivity|].
  rewrite with_tables_db. rewrite Hdb2, Hdb1 in Hk, Hh, He, Hs. split_and!; [done..|].
  intros db. destruct res as [m|]; [|done]. destruct (_ && _); [done|]. intros [= <-].
  split_and!; [done| |by apply Hdone]. apply with_tables_current. subst f2 f1. apply batches_current.
Qed.

Definition no_faults (e : open_env) : Prop :=
  oe_fails e = (fun _ => false) /\ oe_legacy e = false.

(** Opening a file that is current and has no legacy rows does nothing to it. *)
Lemma reopen_idle f e :
  schema_current f -> legacy_rows (file_db f) = [] -> no_faults e ->
  open_store box f e = Some (Ok (file_db f), f).
Proof.
  intros Hcur Hleg [Hf Hl]. unfold open_store. rewrite Hf, execute_batch_healthy.
  destruct (batches_idle f Hcur) as [-> Hcol]. rewrite execute_batch_healthy, Hcol, encrypt_legacy_idle by done.
  rewrite Hl. cbn. by rewrite with_tables_idle.
Qed.

(** The readable text of a row written by the migration: the JSON of the account it had,
    with every proxy reduced to scheme, host and port. *)
Definition readable_without_secrets (row row' : account_row) : Prop :=
  exists a shown, account_from_json (row_json row) = Some a /\ Forall2 shows_authority (egress_proxies a) shown /\
    row_json row' = account_to_json (with_egress a shown).

(** C10.  Opening a database file never panics, and whichever statement fails it loses
    nothing: every account loads from the file as it did before, and the credential
    history and the audit log are unchanged.  When it succeeds, the returned store is
    the file's tables; every row has its proxies in the ciphertext column, and each row
    that did not have them there before now shows of its proxies only scheme, host and
    port, no user name and no password; the schema is the current one, and a later
    opening without faults succeeds and leaves the file as it is. *)
Theorem open_migrates_without_loss (f : DbFile) (e : open_env) :
  (forall k, String.length (oe_nonces e k) = 24%nat) ->
  exists res f', open_store box f e = Some (res, f') /\
    (forall aid, load_account box (file_db f') false aid = load_account box (file_db f) false aid) /\
    credential_history (file_db f') = credential_history (file_db f) /\
    audit_events (file_db f') = audit_events (file_db f) /\
    (forall db, res = Ok db ->
       db = file_db f' /\ schema_current f' /\
       (forall aid row', provider_accounts db !! aid = Some row' -> is_legacy row' = false /\
          exists row, provider_accounts (file_db f) !! aid = Some row /\
            (if is_legacy row then readable_without_secrets row row' else row' = row)) /\
       (forall again, no_faults again -> open_store box f' again = Some (Ok db, f'))).
Proof.
  intros Hn. destruct (open_store_spec f e Hn) as (res & f' & Hopen & Hk & Hh & He & _ & Hok).
  exists res, f'. split_and!; [done| |done|done|].
  { intros aid. apply kept_or_encrypted_loads. apply Hk. }
  intros db Hres. destruct (Hok db Hres) as (-> & Hcur & Hleg). split_and!; [done|done| |].
  - intros aid row' Hrow'. assert (Hnew : is_legacy row' = false).
    { destruct (is_legacy row') eqn:El; [|done].
      assert (Hin : (aid, row') ∈ legacy_rows (file_db f')) by by apply legacy_rows_spec.
      rewrite Hleg in Hin. by apply elem_of_nil in Hin. }
    split; [done|]. specialize (Hk aid). rewrite Hrow' in Hk.
    destruct (provider_accounts (file_db f) !! aid) as [row|]; cbn in Hk; [|done]. exists row. split; [done|].
    destruct Hk as [->|[Hold _ _ (a & shown & c & Ha & Hred & Hj & _)]]; [by rewrite Hnew|]. rewrite Hold.
    exists a, shown. split_and!; [done|by apply redact_all_shows|done].
  - intros again Hagain. by apply reopen_idle.
Qed.
End Theorems.

(** ** Examples *)

Section Witnesses.
#[local] Existing Instance simple_url_lib.
#[local] Existing Instance simple_crypto_lib.
#[local] Existing Instance simple_crypto_laws.
#[local] Existing Instance sample_codec.
#[local] Existing Instance sample_codec_laws.

(** A version-3 file: one account, proxies with their password in the clear. *)
Definition version_3 : DbFile :=
  {| f_versions := Some {[1; 2; 3]};
     f_accounts := Some (false, {["a" := {| row_json := account_to_json stored_account;
                                            row_ciphertext := row_ciphertext old_row; row_egress := None |}]});
     f_audit := Some ([], 0); f_history := Some ∅ |}.

Definition quiet_open : open_env :=
  {| oe_fails := fun _ => false; oe_legacy := false; oe_row_faults := fun _ => false;
     oe_nonces := fun _ => nonce_a; oe_vacuum := false |}.

(** Opening it encrypts the proxies; the account loads as before. *)
Example version_3_upgrades :
  match open_store sample_box version_3 quiet_open with
  | Some (Ok db, f') => (bool_decide (legacy_rows db = []), is_ok (load_account sample_box db false "a"),
                         has_egress_ciphertext f')
  | _ => (false, false, false)
  end = (true, true, true).
Proof. vm_compute. reflexivity. Qed.

(** A file that does not exist yet becomes an empty current database. *)
Example fresh_file_opens :
  match open_store sample_box empty_file quiet_open with
  | Some (Ok db, f') => (length (map_to_list (provider_accounts db)), has_egress_ciphertext f')
  | _ => (1%nat, false)
  end = (0%nat, true).
Proof. vm_compute. reflexivity. Qed.

Lemma open_migrates_without_loss_witness :
  exists res f', open_store sample_box version_3 quiet_open = Some (res, f') /\
    load_account sample_box (file_db f') false "a" = load_account sample_box (file_db version_3) false "a".
Proof.
  destruct (open_migrates_without_loss sample_box version_3 quiet_open (fun _ => eq_refl))
    as (res & f' & Hopen & Hload & _).
  exists res, f'. split; [exact Hopen|exact (Hload "a")].
Defined.
End Witnesses.
