(* ===== verification/Files.v ===== *)
(** * Files (src/src/forward_proxy.rs, src/src/storage.rs, src/src/main.rs)

    The files the program reads and writes: the certificate authority of the forward
    proxy, the database and its backups.  A file is its contents and its mode, under
    the path the program uses for it; directories and links are the operating system's.
    Every operating-system call may fail, and a failed write leaves what was written. *)
From Stdlib Require Import Sorting.Sorted.
From S2P Require Import Prelude Interfaces Models Routing Auth Egress Bedrock Secrets Providers DataPlane Storage AuditLog StoreOpen.

(** ** The file system *)

Inductive content :=
| TextFile (bytes : string)
| DbContent (f : DbFile).

Record file := { file_content : content; file_mode : Z }.

Abbreviation Files := (gmap string file).

(** [let$ x, fs := e in k]: [?] on a call that also changes the files. *)
Notation "'let$' x ',' fs ':=' e 'in' k" :=
  (match e with (Ok x, fs) => k | (Err err, fs) => (Err err, fs) end)
  (at level 10, x name, fs name, e at level 200, k at level 200,
   format "'[v' 'let$'  x ,  fs  ':='  e  'in' '/' k ']'").

(** The mode of a created file: the requested one less the process's mask. *)
Definition created_mode (umask requested : Z) : Z := Z.ldiff requested umask.

(** The octal modes 0600 and 0644. *)
Definition mode_0600 : Z := 384.
Definition mode_0644 : Z := 420.
(** Permissions of the group and of others: 0077. *)
Definition mode_shared : Z := 63.

(** [Path::components] of a relative or absolute path, without the root: repeated
    separators and inner [.] do not count. *)
Definition components (path : string) : list string :=
  let parts := List.filter (fun p => negb (string_is_empty p)) (split "/" path) in
  match parts with
  | [] => []
  | first :: rest =>
      let rest := List.filter (fun p => negb (bool_decide (p = "."))) rest in
      if bool_decide (first = ".") && starts_with "/" path then rest else first :: rest
  end.

(** [Path::parent], as its components and whether it starts at the root. *)
Definition parent (path : string) : option (bool * list string) :=
  match components path with
  | [] => None
  | parts => Some (starts_with "/" path, removelast parts)
  end.

(** The directory [create_dir_all] is called for, if any. *)
Definition parent_to_create (path : string) : option (bool * list string) :=
  match parent path with
  | Some (false, []) | None => None
  | dir => dir
  end.

(** How a write of a new file ends. *)
Inductive write_fault :=
| NoFault
| OpenFault
| WriteFault (written : nat)
| SyncFault.

Class SqliteFormat := {
  db_text : DbFile -> option string       (* a database file read as UTF-8 text *)
}.

(** ** The certificate authority *)

Inductive ForwardProxyError :=
| AlreadyExists
| Certificate
| Io
| InvalidAddress
| ProxyFailed.

Inductive DnType := CommonName | OrganizationName.
Inductive IsCa := UnconstrainedCa.
Inductive KeyUsagePurpose := KeyCertSign | CrlSign | DigitalSignature.

Record CertificateParams := {
  distinguished_name : list (DnType * string);
  is_ca : IsCa;
  key_usages : list KeyUsagePurpose
}.

Definition ca_params : CertificateParams :=
  {| distinguished_name := [(CommonName, "LLM Multiaccount Proxy Local Root"); (OrganizationName, "Triform")];
     is_ca := UnconstrainedCa;
     key_usages := [KeyCertSign; CrlSign; DigitalSignature] |}.

(** rcgen. *)
Class CertLib := {
  KeyPair : Type;
  Signed : Type;
  Issuer : Type;
  serialize_pem : KeyPair -> string;
  key_from_pem : string -> option KeyPair;
  self_signed : CertificateParams -> KeyPair -> option Signed;
  cert_pem : Signed -> string;
  from_ca_cert_pem : string -> KeyPair -> option Issuer
}.

Class CertLaws (T : CertLib) : Prop := {
  key_pem_roundtrip : forall k, key_from_pem (serialize_pem k) = Some k;
  key_pem_text : forall k, utf8_valid (list_ascii_of_string (serialize_pem k)) = true;
  cert_pem_text : forall c, utf8_valid (list_ascii_of_string (cert_pem c)) = true;
  cert_pem_roundtrip : forall p k c, self_signed p k = Some c -> is_Some (from_ca_cert_pem (cert_pem c) k)
}.

Section Operations.
Context `{Q : SqliteFormat} `{T : CertLib}.

(** [Path::exists] is false when the file cannot be examined. *)
Definition path_exists (stat_fails : string -> bool) (fs : Files) (path : string) : bool :=
  negb (stat_fails path) && bool_decide (is_Some (fs !! path)).

(** [std::fs::read_to_string]. *)
Definition read_to_string (fails : string -> bool) (fs : Files) (path : string) : option string :=
  if fails path then None
  else match file_content <$> fs !! path with
       | None => None
       | Some (TextFile bytes) => from_utf8 (list_ascii_of_string bytes)
       | Some (DbContent f) => db_text f
       end.

Definition create_parent (mkdir_fails : string -> bool) (path : string) : result unit ForwardProxyError :=
  match parent_to_create path with
  | Some _ => if mkdir_fails path then Err Io else Ok tt
  | None => Ok tt
  end.

Definition write_new (umask : Z) (fault : write_fault) (fs : Files) (path contents : string) (private : bool) :
    result unit ForwardProxyError * Files :=
  let mode := created_mode umask (if private then mode_0600 else mode_0644) in
  let created bytes := <[path := {| file_content := TextFile bytes; file_mode := mode |}]> fs in
  match fs !! path, fault with
  | Some _, _ | _, OpenFault => (Err Io, fs)
  | None, WriteFault n => (Err Io, created (String.substring 0 n contents))
  | None, SyncFault => (Err Io, created contents)
  | None, NoFault => (Ok tt, created contents)
  end.

(** What the operating system and the key generator contribute. *)
Record ca_env := {
  ca_stat_fails : string -> bool;
  ca_mkdir_fails : string -> bool;
  ca_generated : option KeyPair;
  ca_key_fault : write_fault;
  ca_cert_fault : write_fault;
  ca_remove_fails : bool;
  ca_umask : Z
}.

Definition generate_ca (e : ca_env) (fs : Files) (cert_path key_path : string) :
    result unit ForwardProxyError * Files :=
  if path_exists (ca_stat_fails e) fs cert_path || path_exists (ca_stat_fails e) fs key_path
  then (Err AlreadyExists, fs)
  else
    let$ _, fs := (create_parent (ca_mkdir_fails e) cert_path, fs) in
    let$ _, fs := (create_parent (ca_mkdir_fails e) key_path, fs) in
    let$ signing_key, fs := (ok_or (ca_generated e) Certificate, fs) in
    let$ certificate, fs := (ok_or (self_signed ca_params signing_key) Certificate, fs) in
    let$ _, fs := write_new (ca_umask e) (ca_key_fault e) fs key_path (serialize_pem signing_key) true in
    match write_new (ca_umask e) (ca_cert_fault e) fs cert_path (cert_pem certificate) false with
    | (Err error, fs) => (Err error, if ca_remove_fails e then fs else delete key_path fs)
    | (Ok _, fs) => (Ok tt, fs)
    end.

Definition load_ca (read_fails : string -> bool) (fs : Files) (cert_path key_path : string) :
    result Issuer ForwardProxyError :=
  let? cert := ok_or (read_to_string read_fails fs cert_path) Io in
  let? key := ok_or (read_to_string read_fails fs key_path) Io in
  let? key_pair := ok_or (key_from_pem key) Certificate in
  ok_or (from_ca_cert_pem cert key_pair) Certificate.

(** ** Databases *)

(** What SQLite and the operating system contribute to a backup: [bk_copied] is
    [Some partial] when the copy fails with [partial] written. *)
Record backup_env := {
  bk_open_fails : bool;
  bk_umask : Z;
  bk_connect_fails : bool;
  bk_start_fails : bool;
  bk_copy_fails : option DbFile;
  bk_integrity : option string;
  bk_remove_fails : bool
}.

(** The closure of [backup_to]: [created] is the file it writes. *)
Definition copy_database (e : backup_env) (source : DbFile) (created : DbFile) :
    result unit StorageError * DbFile :=
  if bk_connect_fails e || bk_start_fails e then (Err Database, created)
  else match bk_copy_fails e with
       | Some partial => (Err Database, partial)
       | None =>
           (match bk_integrity e with
            | None => Err Database
            | Some integrity => if bool_decide (integrity = "ok") then Ok tt else Err InvalidBackup
            end, source)
       end.

Definition backup_to (e : backup_env) (source : DbFile) (fs : Files) (destination : string) :
    result unit StorageError * Files :=
  if bk_open_fails e then (Err BackupFilesystem, fs)
  else if bool_decide (is_Some (fs !! destination)) then (Err BackupDestinationExists, fs)
  else
    let '(result, written) := copy_database e source empty_file in
    let fs := <[destination := {| file_content := DbContent written;
                                  file_mode := created_mode (bk_umask e) mode_0600 |}]> fs in
    (result, if negb (is_ok result) && negb (bk_remove_fails e) then delete destination fs else fs).

Context `{U : UrlLib} `{L : CryptoLib} `{C : !StoreCodec}.

(** [SqliteStore::open] on a path: a file that is not there is created once the
    connection is open, an empty file is an empty database, other text is not one. *)
Definition open_path (box : SecretBox) (umask : Z) (e : open_env) (fs : Files) (path : string) :
    option (result Db StorageError * Files) :=
  let on f mode :=
    '(res, f) ← open_store box f e;
    Some (res, <[path := {| file_content := DbContent f; file_mode := mode |}]> fs) in
  match fs !! path with
  | Some {| file_content := DbContent f; file_mode := mode |} => on f mode
  | Some {| file_content := TextFile bytes; file_mode := mode |} =>
      if string_is_empty bytes then on empty_file mode else Some (Err Database, fs)
  | None => if oe_fails e 0 then Some (Err Database, fs) else on empty_file (created_mode umask mode_0644)
  end.
End Operations.

(** ** Theorems *)

Section Theorems.
Context `{Q : SqliteFormat} `{T : CertLib}.

(** A file written by [write_new], with some of its contents. *)
Definition created_file (umask : Z) (private : bool) (bytes : string) : file :=
  {| file_content := TextFile bytes; file_mode := created_mode umask (if private then mode_0600 else mode_0644) |}.

Lemma write_new_cases umask fault fs path contents private r fs' :
  write_new umask fault fs path contents private = (r, fs') ->
  match r with
  | Ok _ => fs !! path = None /\ fs' = <[path := created_file umask private contents]> fs
  | Err e => e = Io /\ (fs' = fs \/ (fs !! path = None /\ exists bytes,
               fs' = <[path := created_file umask private bytes]> fs))
  end.
Proof.
  unfold write_new. destruct (fs !! path) eqn:E; [intros [= <- <-]; by auto|].
  destruct fault; intros [= <- <-]; (split; [done|]); eauto.
Qed.

Lemma delete_created (fs : Files) path f : fs !! path = None -> delete path (<[path := f]> fs) = fs.
Proof. intros Hn. by rewrite delete_insert_eq, delete_id. Qed.

(** The four outcomes of [generate_ca]: done; nothing changed; a part of the key
    file; a part of the certificate, with or without the key. *)
Inductive ca_outcome (e : ca_env) (fs : Files) (cert_path key_path : string) :
    result unit ForwardProxyError -> Files -> Prop :=
| ca_done k c :
    ca_generated e = Some k -> self_signed ca_params k = Some c ->
    fs !! key_path = None -> fs !! cert_path = None -> cert_path <> key_path ->
    ca_outcome e fs cert_path key_path (Ok tt)
      (<[cert_path := created_file (ca_umask e) false (cert_pem c)]>
        (<[key_path := created_file (ca_umask e) true (serialize_pem k)]> fs))
| ca_unchanged err : ca_outcome e fs cert_path key_path (Err err) fs
| ca_key_left bytes :
    fs !! key_path = None ->
    ca_outcome e fs cert_path key_path (Err Io) (<[key_path := created_file (ca_umask e) true bytes]> fs)
| ca_cert_left bytes (kept : option file) :
    fs !! key_path = None -> fs !! cert_path = None -> cert_path <> key_path ->
    ca_outcome e fs cert_path key_path (Err Io)
      (partial_alter (fun _ => kept) key_path (<[cert_path := created_file (ca_umask e) false bytes]> fs)).

Lemma generate_ca_outcome e fs cert_path key_path :
  ca_outcome e fs cert_path key_path (generate_ca e fs cert_path key_path).1
    (generate_ca e fs cert_path key_path).2.
Proof.
  unfold generate_ca. destruct (_ || _); [constructor|].
  destruct (create_parent _ cert_path); [|constructor]. destruct (create_parent _ key_path); [|constructor].
  destruct (ca_generated e) as [k|] eqn:Hk; cbn [ok_or]; [|constructor].
  destruct (self_signed ca_params k) as [c|] eqn:Hc; cbn [ok_or]; [|constructor].
  destruct (write_new _ _ fs key_path _ _) as [[[]|err] fs1] eqn:Hw1; apply write_new_cases in Hw1.
  2:{ destruct Hw1 as [-> [->|(Hn & bytes & ->)]]; by constructor. }
  destruct Hw1 as [Hkey ->].
  destruct (write_new _ _ _ cert_path _ _) as [[[]|err] fs2] eqn:Hw2; apply write_new_cases in Hw2; cbn.
  - destruct Hw2 as [Hcert ->].
    apply lookup_insert_None in Hcert as [Hcert Hne]. by apply (ca_done _ _ _ _ k c).
  - destruct Hw2 as [-> [->|(Hcert & bytes & ->)]]; destruct (ca_remove_fails e).
    + by constructor.
    + rewrite delete_created by done. constructor.
    + apply lookup_insert_None in Hcert as [Hcert Hne].
      rewrite insert_insert_ne by done. by apply ca_cert_left.
    + apply lookup_insert_None in Hcert as [Hcert Hne]. rewrite insert_insert_ne by done.
      rewrite delete_insert_eq. by apply (ca_cert_left e fs cert_path key_path bytes None).
Qed.

(** No mask can open a private file to others. *)
Lemma private_mode umask : Z.land (created_mode umask mode_0600) mode_shared = 0.
Proof.
  unfold created_mode. rewrite Z.ldiff_land, <- Z.land_assoc, (Z.land_comm (Z.lnot _)), Z.land_assoc.
  change (Z.land mode_0600 mode_shared) with 0. apply Z.land_0_l.
Qed.

Lemma exists_now (fs : Files) path f : fs !! path = Some f -> path_exists (fun _ => false) fs path = true.
Proof. intros Hf. unfold path_exists. by rewrite Hf. Qed.

Lemma generate_ca_refuses e fs cert_path key_path :
  ca_stat_fails e = (fun _ => false) -> is_Some (fs !! cert_path) \/ is_Some (fs !! key_path) ->
  generate_ca e fs cert_path key_path = (Err AlreadyExists, fs).
Proof.
  intros Hs Hx. unfold generate_ca. rewrite Hs.
  destruct Hx as [[f Hf]|[f Hf]]; by rewrite (exists_now fs _ f Hf), ?orb_true_r.
Qed.

Lemma generate_ca_frame e fs cert_path key_path :
  let fs' := (generate_ca e fs cert_path key_path).2 in
  (forall path f, fs !! path = Some f -> fs' !! path = Some f) /\
  (forall path, path ∉ [cert_path; key_path] -> fs' !! path = fs !! path).
Proof.
  cbn zeta. destruct (generate_ca_outcome e fs cert_path key_path)
    as [k c Hk Hc Hkey Hcert Hne|err|bytes Hkey|bytes kept Hkey Hcert Hne]; [|done|..]; split;
    [intros path f Hf|intros path Hp|intros path f Hf|intros path Hp|intros path f Hf|intros path Hp];
    rewrite ?lookup_partial_alter_ne, ?lookup_insert_ne by (set_solver || (intros <-; congruence)); done.
Qed.

(** C24.  Creating the certificate authority never touches a file that exists: whatever
    fails, and even when the existence checks could not see the file, every file keeps
    its contents and mode.  When it succeeds both files are new, the group and others
    have no access to the key, the two paths differ, and loading the authority from
    them yields an issuer for the generated key. *)
Theorem ca_init_never_overwrites `{!CertLaws T} (e : ca_env) (fs fs' : Files) (cert_path key_path : string)
    (r : result unit ForwardProxyError)
    (Hrun : generate_ca e fs cert_path key_path = (r, fs')) :
  (forall path f, fs !! path = Some f -> fs' !! path = Some f) /\
  (r = Ok tt -> exists k c key_file issuer,
     ca_generated e = Some k /\ self_signed ca_params k = Some c /\ cert_path <> key_path /\
     fs !! cert_path = None /\ fs !! key_path = None /\
     fs' !! key_path = Some key_file /\ Z.land (file_mode key_file) mode_shared = 0 /\
     from_ca_cert_pem (cert_pem c) k = Some issuer /\
     load_ca (fun _ => false) fs' cert_path key_path = Ok issuer).
Proof.
  pose proof (generate_ca_frame e fs cert_path key_path) as [Hkeep _].
  pose proof (generate_ca_outcome e fs cert_path key_path) as Hout.
  rewrite Hrun in Hkeep, Hout. cbn in Hkeep, Hout. split; [exact Hkeep|].
  destruct Hout as [k c Hk Hc Hkey Hcert Hne| | |]; [|done..]. intros _.
  destruct (cert_pem_roundtrip _ _ _ Hc) as [issuer Hi].
  exists k, c, (created_file (ca_umask e) true (serialize_pem k)), issuer.
  rewrite lookup_insert_ne, lookup_insert_eq by done. split_and!; try done.
  { cbn [file_mode created_file]. apply private_mode. }
  unfold load_ca, read_to_string. rewrite lookup_insert_eq, lookup_insert_ne, lookup_insert_eq by done. cbn.
  unfold from_utf8. rewrite cert_pem_text, key_pem_text. cbn [ok_or].
  rewrite !string_of_list_ascii_of_string, key_pem_roundtrip. cbn [ok_or]. by rewrite Hi.
Qed.

(** A failed creation of the certificate authority either changed nothing, or left a
    part of a file that was not there before, under the path of the key or of the
    certificate; in the second case every later creation at these paths is refused as
    already existing and changes nothing, until the file is removed by hand. *)
Lemma ca_init_failure_residue (e : ca_env) (fs fs' : Files) (cert_path key_path : string)
    (err : ForwardProxyError)
    (Hrun : generate_ca e fs cert_path key_path = (Err err, fs')) :
  fs' = fs \/
  ((exists path, path ∈ [cert_path; key_path] /\ fs !! path = None /\ is_Some (fs' !! path)) /\
   (forall path, path ∉ [cert_path; key_path] -> fs' !! path = fs !! path) /\
   forall again, ca_stat_fails again = (fun _ => false) ->
     generate_ca again fs' cert_path key_path = (Err AlreadyExists, fs')).
Proof.
  pose proof (generate_ca_outcome e fs cert_path key_path) as Hout. rewrite Hrun in Hout. cbn in Hout.
  clear Hrun. remember (Err err) as r eqn:Hr.
  destruct Hout as [|err'|bytes Hkey|bytes kept Hkey Hcert Hne]; [done|by left|right..].
  - split_and!.
    + exists key_path. rewrite lookup_insert_eq. split; [set_solver|by eauto].
    + intros path Hp. rewrite lookup_insert_ne by set_solver. done.
    + intros again Ha. apply generate_ca_refuses; [done|]. right. rewrite lookup_insert_eq. by eexists.
  - assert (Hin : is_Some (partial_alter (fun _ => kept) key_path
      (<[cert_path := created_file (ca_umask e) false bytes]> fs) !! cert_path)).
    { rewrite lookup_partial_alter_ne, lookup_insert_eq by done. by eexists. }
    split_and!.
    + exists cert_path. split; [set_solver|done].
    + intros path Hp. rewrite lookup_partial_alter_ne, lookup_insert_ne by set_solver. done.
    + intros again Ha. apply generate_ca_refuses; [done|]. by left.
Qed.

(** ** Databases and backups *)

Context `{U : UrlLib} `{L : CryptoLib} `{!CryptoLaws L} `{C : !StoreCodec} `{!StoreCodecLaws C}.

Lemma backup_frame e source fs destination :
  let fs' := (backup_to e source fs destination).2 in
  (forall path, path <> destination -> fs' !! path = fs !! path) /\
  (is_Some (fs !! destination) -> fs' = fs).
Proof.
  cbn zeta. unfold backup_to. destruct (bk_open_fails e); [done|]. case_bool_decide as Hex; [done|].
  destruct (copy_database e source empty_file) as [res written]. cbn [snd]. split; [|done].
  intros path Hne. destruct (_ && _); by rewrite ?lookup_delete_ne, ?lookup_insert_ne by done.
Qed.

(** C23.  A backup is all or nothing: an existing destination is refused and no other file
    changes.  When it succeeds, the destination is a new file that only the owner can
    read, its integrity was confirmed, and opening it with any key gives exactly the
    tables of the source; when it fails, no file is left behind unless the file system
    refuses to remove it. *)
Theorem backup_all_or_nothing (e : backup_env) (source : DbFile) (fs fs' : Files) (destination : string)
    (r : result unit StorageError)
    (Hrun : backup_to e source fs destination = (r, fs')) :
  (forall path, path <> destination -> fs' !! path = fs !! path) /\
  (is_Some (fs !! destination) -> is_ok r = false /\ fs' = fs) /\
  match r with
  | Err _ => bk_remove_fails e = false -> fs' = fs
  | Ok _ => fs !! destination = None /\ bk_integrity e = Some "ok" /\
      (exists f, fs' !! destination = Some f /\ Z.land (file_mode f) mode_shared = 0) /\
      (schema_current source -> legacy_rows (file_db source) = [] ->
       forall box umask again, no_faults again ->
         open_path box umask again fs' destination = Some (Ok (file_db source), fs'))
  end.
Proof.
  pose proof (backup_frame e source fs destination) as [Hframe _]. rewrite Hrun in Hframe.
  split; [exact Hframe|]. clear Hframe.
  unfold backup_to in Hrun. destruct (bk_open_fails e); [injection Hrun as <- <-; by split_and!|].
  case_bool_decide as Hex; [injection Hrun as <- <-; by split_and!|].
  assert (Hnone : fs !! destination = None) by by apply eq_None_not_Some.
  destruct (copy_database e source empty_file) as [res written] eqn:Hcopy. injection Hrun as <- <-.
  set (f := {| file_content := DbContent written; file_mode := _ |}). split; [done|].
  destruct res as [[]|err]; cbn; [|intros ->; by apply delete_created].
  unfold copy_database in Hcopy. destruct (_ || _); [done|]. destruct (bk_copy_fails e); [done|].
  destruct (bk_integrity e) as [text|]; [|done]. case_bool_decide; [|done]. injection Hcopy as <-. subst text.
  split_and!; [done|done| |].
  - exists f. rewrite lookup_insert_eq. split; [done|apply private_mode].
  - intros Hcur Hleg box umask again Hagain. unfold open_path. rewrite lookup_insert_eq. cbn.
    rewrite reopen_idle by done. cbn. by rewrite insert_insert_eq.
Qed.
End Theorems.

(** ** Examples *)

Section Witnesses.

#[local] Existing Instance simple_url_lib.
#[local] Existing Instance simple_crypto_lib.
#[local] Existing Instance simple_crypto_laws.
#[local] Existing Instance sample_codec.
#[local] Existing Instance sample_codec_laws.

(** A library with two keys, whose certificates name their key. *)
#[local] Instance two_key_lib : CertLib := {|
  KeyPair := bool;
  Signed := bool;
  Issuer := bool;
  serialize_pem := fun k => if k then "KEY 1" else "KEY 0";
  key_from_pem := fun s => if bool_decide (s = "KEY 1") then Some true
                           else if bool_decide (s = "KEY 0") then Some false else None;
  self_signed := fun _ k => Some k;
  cert_pem := fun c => if c then "CERT 1" else "CERT 0";
  from_ca_cert_pem := fun s k => if bool_decide (s = if k then "CERT 1" else "CERT 0") then Some k else None
|}.

#[local] Instance two_key_laws : CertLaws two_key_lib.
Proof.
  split; [by intros []|by intros []|by intros []|]. intros p [] c [= <-]; by eexists.
Qed.

#[local] Instance opaque_databases : SqliteFormat := {| db_text := fun _ => None |}.

Definition sample_ca_env (key_fault cert_fault : write_fault) : ca_env :=
  {| ca_stat_fails := fun _ => false; ca_mkdir_fails := fun _ => false; ca_generated := Some true;
     ca_key_fault := key_fault; ca_cert_fault := cert_fault; ca_remove_fails := false; ca_umask := 18 |}.

(** The modes of the created files under the mask 0022, and the authority read back. *)
Example ca_created :
  let '(r, fs) := generate_ca (sample_ca_env NoFault NoFault) ∅ "state/ca.pem" "state/key.pem" in
  (is_ok r, file_mode <$> fs !! "state/key.pem", file_mode <$> fs !! "state/ca.pem",
   load_ca (fun _ => false) fs "state/ca.pem" "state/key.pem")
  = (true, Some mode_0600, Some mode_0644, Ok true).
Proof. vm_compute. reflexivity. Qed.

Example parents :
  map parent_to_create ["ca.pem"; "state/ca.pem"; "./ca.pem"; "/ca.pem"; "/"; "a//b/."]
  = [None; Some (false, ["state"]); Some (false, ["."]); Some (true, []); None; Some (false, ["a"])].
Proof. reflexivity. Qed.

Lemma ca_init_never_overwrites_witness :
  exists fs, generate_ca (sample_ca_env NoFault NoFault) ∅ "ca.pem" "key.pem" = (Ok tt, fs) /\
    exists key_file, fs !! "key.pem" = Some key_file /\ Z.land (file_mode key_file) mode_shared = 0.
Proof.
  destruct (generate_ca (sample_ca_env NoFault NoFault) ∅ "ca.pem" "key.pem") as [r fs] eqn:Hrun.
  assert (Hr : (generate_ca (sample_ca_env NoFault NoFault) ∅ "ca.pem" "key.pem").1 = Ok tt) by (vm_compute; reflexivity).
  rewrite Hrun in Hr. cbn in Hr. subst r. exists fs. split; [reflexivity|].
  destruct (ca_init_never_overwrites _ _ _ _ _ _ Hrun) as [_ Hok].
  destruct (Hok eq_refl) as (k & c & f & i & _ & _ & _ & _ & _ & Hf & Hm & _).
  exists f. split; [exact Hf|exact Hm].
Defined.

Lemma ca_init_failure_residue_witness :
  let '(r, fs) := generate_ca (sample_ca_env (WriteFault 0) NoFault) ∅ "ca.pem" "key.pem" in
  r = Err Io /\
  (fs = ∅ \/ generate_ca (sample_ca_env NoFault NoFault) fs "ca.pem" "key.pem" = (Err AlreadyExists, fs)).
Proof.
  destruct (generate_ca (sample_ca_env (WriteFault 0) NoFault) ∅ "ca.pem" "key.pem") as [r fs] eqn:Hrun.
  assert (Hr : (generate_ca (sample_ca_env (WriteFault 0) NoFault) ∅ "ca.pem" "key.pem").1 = Err Io) by (vm_compute; reflexivity).
  rewrite Hrun in Hr. cbn in Hr. subst r. split; [reflexivity|].
  destruct (ca_init_failure_residue _ _ _ _ _ _ Hrun) as [->|(_ & _ & Hagain)]; [left; reflexivity|right].
  apply Hagain. reflexivity.
Defined.

Definition sample_backup_env : backup_env :=
  {| bk_open_fails := false; bk_umask := 18; bk_connect_fails := false; bk_start_fails := false;
     bk_copy_fails := None; bk_integrity := Some "ok"; bk_remove_fails := false |}.

Lemma backup_all_or_nothing_witness :
  let '(r, fs) := backup_to sample_backup_env empty_file ∅ "backup.db" in
  r = Ok tt /\ exists f, fs !! "backup.db" = Some f /\ Z.land (file_mode f) mode_shared = 0.
Proof.
  destruct (backup_to sample_backup_env empty_file ∅ "backup.db") as [r fs] eqn:Hrun.
  destruct (backup_all_or_nothing _ _ _ _ _ _ Hrun) as (_ & _ & Hok).
  assert (Hr : (backup_to sample_backup_env empty_file ∅ "backup.db").1 = Ok tt) by (vm_compute; reflexivity).
  rewrite Hrun in Hr. cbn in Hr. subst r. split; [reflexivity|]. apply Hok.
Defined.
End Witnesses.
