(* ===== verification/HttpApp.v ===== *)
(** * The control plane's HTTP handlers (src/src/http_app.rs)

    Cookie sessions, CSRF gating and the account operations, each handler as a
    function of the shared state: the store's tables, the administrator sessions and
    the router.  What varies per request (the clock, random tokens and nonces, database
    errors) is the record [env]; the [k]-th use of the clock in a handler is
    [env_now k].  [None] as a result is a panic.  A handler runs here without
    interruption; ControlPlane takes its critical sections apart. *)
From S2P Require Import Prelude Interfaces Models Routing Auth Egress Bedrock Secrets Providers DataPlane Storage Admin.

Inductive AdminSessionRejection := RejectUnauthorized | RejectInvalidCsrf.

(** The text of an error: fixed, or the display of an error value. *)
Inductive message :=
| Text (s : string)
| StorageText (e : StorageError)
| DataPlaneText (e : DataPlaneError).

Definition egress_error_text (e : EgressError) : string :=
  match e with
  | UnsupportedProxyScheme => "unsupported proxy scheme"
  | MissingProxyHost => "proxy endpoint requires a host"
  | DestinationNotAllowed => "destination is not allowlisted"
  | UnsafeDestination => "private, loopback, link-local, and metadata destinations are denied"
  | EmptyProxyChain => "the proxy chain has no configured endpoint"
  | UnknownProxyIndex => "proxy index does not exist"
  | ResolutionFailed => "destination DNS resolution failed or returned no addresses"
  end.

Record AdminRuntimeConfig := {
  rt_auth_mode : AuthMode;
  auth_mode_locked : bool;
  secure_cookies : bool
}.

(** The parts of a request that come from outside the handler. *)
Record env := {
  env_now : nat -> DateTime;
  env_fault : nat -> bool;
  env_nonce : nat -> string;
  env_token : nat -> string
}.

Section HttpApp.
Context `{U : UrlLib} `{L : CryptoLib} `{C : !StoreCodec} `{H : HeaderLib}.
Context (box : SecretBox) (manager : AdminSessionManager) (runtime : AdminRuntimeConfig)
        (header_value_valid : string -> bool).      (* HeaderValue::from_str *)

Record AdminState := {
  st_db : Db;
  st_sessions : SessionState;
  st_router : Router
}.

Definition with_db (st : AdminState) (db : Db) : AdminState :=
  {| st_db := db; st_sessions := st_sessions st; st_router := st_router st |}.
Definition with_session_state (st : AdminState) (s : SessionState) : AdminState :=
  {| st_db := st_db st; st_sessions := s; st_router := st_router st |}.
Definition with_router (st : AdminState) (r : Router) : AdminState :=
  {| st_db := st_db st; st_sessions := st_sessions st; st_router := r |}.

Inductive response_body :=
| ErrorBody (code : string) (text : message) (suggestion : string)
| AccountsBody (accounts : list PublicAccount)
| AuditBody (events : list AuditEvent)
| SessionBody (csrf : string) (mode : AuthMode) (locked : bool) (active sticky : nat)
| IdBody (account : string)
| OkBody
| EmptyBody
| DashboardBody
| RedirectBody (location : string).

Record Response := {
  rsp_status : Z;
  rsp_body : response_body;
  rsp_cookie : option string
}.

Definition plain (status : Z) (body : response_body) : Response :=
  {| rsp_status := status; rsp_body := body; rsp_cookie := None |}.

Definition api_error (status : Z) (code : string) (text : message) (suggestion : string) : Response :=
  plain status (ErrorBody code text suggestion).

Definition unauthorized_admin : Response :=
  api_error 401 "admin_session_required" (Text "An active administrator session is required.")
    "Sign in through /admin/login and retry.".

Definition rejection_response (r : AdminSessionRejection) : Response :=
  match r with
  | RejectUnauthorized => unauthorized_admin
  | RejectInvalidCsrf =>
      api_error 403 "invalid_csrf"
        (Text "The administrator request did not include the current CSRF token.")
        "Reload the control plane and retry the operation."
  end.

Definition storage_error (e : StorageError) : Response :=
  match e with
  | NotFound => api_error 404 "account_not_found" (StorageText e)
                  "Refresh the account list and retry with an existing account."
  | _ => api_error 503 "storage_unavailable" (StorageText e)
           "Retry after the encrypted SQLite store is healthy."
  end.

Definition data_plane_error (e : DataPlaneError) : Response :=
  api_error (dp_status e) "routing_state_unavailable" (DataPlaneText e)
    "Retry after the in-memory routing state has refreshed.".

(** ** Sessions *)

(** [filter_map(split_once('=')).find_map(name)]. *)
Fixpoint find_cookie (name : string) (parts : list string) : option string :=
  match parts with
  | [] => None
  | part :: rest =>
      match split_once "=" (trim part) with
      | Some (cookie_name, value) =>
          if bool_decide (cookie_name = name) then Some value else find_cookie name rest
      | None => find_cookie name rest
      end
  end.

Definition cookie_value (headers : HeaderMap) (name : string) : option string :=
  (hm_get headers "cookie" ≫= hv_to_str) ≫= fun text => find_cookie name (split ";" text).

Definition authenticated_session (st : AdminState) (headers : HeaderMap) (require_csrf : bool)
    (now : DateTime) : result string AdminSessionRejection * AdminState :=
  match cookie_value headers ADMIN_SESSION_COOKIE with
  | None => (Err RejectUnauthorized, st)
  | Some session =>
      let csrf := hm_get headers "x-llmap-csrf" ≫= hv_to_str in
      let '(res, sessions) := authenticate manager (st_sessions st) session csrf require_csrf now in
      (match res with
       | Ok _ => Ok session
       | Err InvalidCsrf => Err RejectInvalidCsrf
       | Err _ => Err RejectUnauthorized
       end, with_session_state st sessions)
  end.

Definition admin_dashboard (st : AdminState) (e : env) (headers : HeaderMap) : Response * AdminState :=
  let '(res, st) := authenticated_session st headers false (env_now e 0) in
  (match res with
   | Ok _ => plain 200 DashboardBody
   | Err _ => plain 303 (RedirectBody "/admin/login")
   end, st).

(** [client_key] is the peer's address. *)
Definition admin_login_api (st : AdminState) (e : env) (client_key username password : string) :
    Response * AdminState :=
  let '(res, sessions) := login manager (st_sessions st) username password client_key (env_now e 0)
                            (env_token e 0) (env_token e 1) in
  let st := with_session_state st sessions in
  match res with
  | Ok grant =>
      let cookie := grant_cookie grant (secure_cookies runtime) in
      (if header_value_valid cookie
       then {| rsp_status := 200; rsp_body := OkBody; rsp_cookie := Some cookie |}
       else api_error 500 "session_creation_failed" (Text "Administrator session could not be created.")
              "Retry the login. If this persists, restart llmap and inspect metadata-only logs.", st)
  | Err RateLimited =>
      (api_error 429 "login_rate_limited" (Text "Too many failed administrator login attempts.")
         "Wait for the lockout period before trying again.", st)
  | Err _ =>
      (api_error 401 "invalid_admin_credentials" (Text "Administrator credentials were not accepted.")
         "Verify the configured administrator username and bootstrap password.", st)
  end.

Definition admin_logout_api (st : AdminState) (e : env) (headers : HeaderMap) : Response * AdminState :=
  let '(res, st) := authenticated_session st headers true (env_now e 0) in
  match res with
  | Err rejection => (rejection_response rejection, st)
  | Ok session =>
      let cookie := "llmap_admin_session=; Path=/admin; Max-Age=0; HttpOnly; SameSite=Strict"
                    +:+ (if secure_cookies runtime then "; Secure" else "") in
      ({| rsp_status := 204; rsp_body := EmptyBody;
          rsp_cookie := if header_value_valid cookie then Some cookie else None |},
       with_session_state st (logout manager (st_sessions st) session))
  end.

Definition admin_session_api (st : AdminState) (e : env) (headers : HeaderMap) : Response * AdminState :=
  let '(res, st) := authenticated_session st headers false (env_now e 0) in
  match res with
  | Err rejection => (rejection_response rejection, st)
  | Ok session =>
      let '(res, sessions) := issue_csrf manager (st_sessions st) session (env_now e 1) (env_token e 0) in
      let st := with_session_state st sessions in
      match res with
      | Err _ => (unauthorized_admin, st)
      | Ok csrf =>
          let '(active, sessions) := active_session_count manager (st_sessions st) (env_now e 2) in
          let '(router, sticky) := session_count (st_router st) (env_now e 3) in
          (plain 200 (SessionBody csrf (rt_auth_mode runtime) (auth_mode_locked runtime) active sticky),
           with_router (with_session_state st sessions) router)
      end
  end.

(** ** Accounts *)

Definition refresh_routes (st : AdminState) (fault : bool) :
    option (result unit StorageError * AdminState) :=
  routes ← route_accounts (st_db st) fault;
  Some (match routes with
        | Err e => (Err e, st)
        | Ok routes => (Ok tt, with_router st (replace_accounts (st_router st) routes))
        end).

Definition admin_accounts_api (st : AdminState) (e : env) (headers : HeaderMap) :
    option (Response * AdminState) :=
  let '(res, st) := authenticated_session st headers false (env_now e 0) in
  match res with
  | Err rejection => Some (rejection_response rejection, st)
  | Ok _ =>
      listed ← list_accounts (st_db st) (env_fault e 0);
      Some (match listed with Ok accounts => plain 200 (AccountsBody accounts)
                            | Err e => storage_error e end, st)
  end.

Definition admin_audit_api (st : AdminState) (e : env) (headers : HeaderMap) : Response * AdminState :=
  let '(res, st) := authenticated_session st headers false (env_now e 0) in
  (match res with
   | Err rejection => rejection_response rejection
   | Ok _ => match recent_audit (st_db st) (env_fault e 0) 200 with
             | Ok events => plain 200 (AuditBody events)
             | Err err => storage_error err
             end
   end, st).

(** [AccountInput] is an account and its credential. *)
Definition validate_account_input (a : ProviderAccount) (credential : string) : result unit string :=
  let valid_id := negb (string_is_empty (id a)) && (byte_length (id a) <=? 64)
    && string_all (fun c => is_ascii_alphanumeric c || bool_decide (c ∈ ["-"; "_"]%char)) (id a) in
  if negb valid_id then Err "Account id must be 1-64 letters, digits, hyphens, or underscores."
  else if string_is_empty (trim (label a)) || (80 <? byte_length (label a))
  then Err "Account display name must be 1-80 characters."
  else if negb (bool_decide (url_scheme (base_url a) = "https"))
       || negb (bool_decide (is_Some (url_host_str (base_url a))))
       || negb (string_is_empty (url_username (base_url a)))
       || bool_decide (is_Some (url_password (base_url a)))
  then Err "Provider base URL must be HTTPS and must not contain userinfo."
  else if string_is_empty credential || (32 * 1024 <? byte_length credential)
  then Err "Credential must be present and no larger than 32 KiB."
  else let? _ := map_err (fun err => "Residential proxy endpoint is invalid: " +:+ egress_error_text err +:+ ".")
                   (collect_results endpoint_parse (egress_proxies a)) in
       Ok tt.

Definition admin_event (now : DateTime) (action : string) (aid : string) (prov : option string)
    (status : Z) : AuditEvent :=
  {| ae_occurred_at := now; ae_actor := "admin"; ae_action := action; ae_account_id := Some aid;
     ae_provider := prov; ae_model := None; ae_session_id := None; ae_status := Some status;
     ae_outcome := "success"; ae_latency_ms := None |}.

(** [let _ = append_audit(..)]: an error is ignored. *)
Definition audited (st : AdminState) (fault : bool) (event : AuditEvent) : AdminState :=
  with_db st (append_audit (st_db st) fault event).2.

(** Store a credential: OAuth accounts that exist keep the previous one for ten minutes. *)
Definition store_credential (db : Db) (e : env) (keep_previous : bool) (a : ProviderAccount)
    (credential : string) : option (result unit StorageError * Db) :=
  if keep_previous
  then rotate_account_credential box db (env_nonce e 0) (env_nonce e 1) (env_fault e 1) a credential
         (env_now e 1 + minutes 10)
  else upsert_account box db (env_nonce e 0) (env_nonce e 1) (env_fault e 1) a credential.

Definition dp_reset_account_health (st : AdminState) (aid : string) :
    result unit DataPlaneError * AdminState :=
  let '(router, res) := reset_account_health (st_router st) aid in
  (map_err (fun _ => NoCapacity) res, with_router st router).

(** [admin_create_account_api] after authentication. *)
Definition create_account (st : AdminState) (e : env) (account : ProviderAccount) (credential : string) :
    option (Response * AdminState) :=
  match validate_account_input account credential with
  | Err text => Some (api_error 400 "invalid_account" (Text text)
      "Correct the account fields and retry. Credentials and proxy userinfo are write-only.", st)
  | Ok _ =>
      let keep := bool_decide (kind account = ClaudeOauth)
                  && is_ok (load_account box (st_db st) (env_fault e 0) (id account)) in
      '(res, db) ← store_credential (st_db st) e keep account credential;
      let st := with_db st db in
      match res with
      | Err err => Some (storage_error err, st)
      | Ok _ =>
          let st := audited st (env_fault e 2) (admin_event (env_now e 2) "account.upsert" (id account)
                      (Some (provider_name (kind account))) 201) in
          '(res, st) ← refresh_routes st (env_fault e 3);
          match res with
          | Err err => Some (storage_error err, st)
          | Ok _ =>
              let '(res, st) := dp_reset_account_health st (id account) in
              Some (match res with
                    | Err err => data_plane_error err
                    | Ok _ => plain 201 (IdBody (id account))
                    end, st)
          end
      end
  end.

Definition admin_create_account_api (st : AdminState) (e : env) (headers : HeaderMap)
    (account : ProviderAccount) (credential : string) : option (Response * AdminState) :=
  let '(res, st) := authenticated_session st headers true (env_now e 0) in
  match res with
  | Err rejection => Some (rejection_response rejection, st)
  | Ok _ => create_account st e account credential
  end.

(** [admin_rotate_account_credential_api] after authentication. *)
Definition rotate_credential (st : AdminState) (e : env) (aid credential : string) :
    option (Response * AdminState) :=
  if string_is_empty credential || (32 * 1024 <? byte_length credential)
  then Some (api_error 400 "invalid_credential"
               (Text "Credential must be present and no larger than 32 KiB.")
               "Paste the complete provider credential or OAuth envelope and retry.", st)
  else
    match load_account box (st_db st) (env_fault e 0) aid with
    | Err err => Some (storage_error err, st)
    | Ok (account, _) =>
        '(res, db) ← store_credential (st_db st) e (bool_decide (kind account = ClaudeOauth))
                       account credential;
        let st := with_db st db in
        match res with
        | Err err => Some (storage_error err, st)
        | Ok _ =>
            let '(res, st) := dp_reset_account_health st aid in
            Some (match res with
                  | Err err => (data_plane_error err, st)
                  | Ok _ => (plain 204 EmptyBody,
                      audited st (env_fault e 2) (admin_event (env_now e 2) "account.credential.rotate" aid
                        (Some (provider_name (kind account))) 204))
                  end)
        end
    end.

Definition admin_rotate_account_credential_api (st : AdminState) (e : env) (headers : HeaderMap)
    (aid credential : string) : option (Response * AdminState) :=
  let '(res, st) := authenticated_session st headers true (env_now e 0) in
  match res with
  | Err rejection => Some (rejection_response rejection, st)
  | Ok _ => rotate_credential st e aid credential
  end.

(** The end shared by pausing, resuming and deleting: audit, reload, reply. *)
Definition finish_change (st : AdminState) (e : env) (action aid : string) :
    option (Response * AdminState) :=
  let st := audited st (env_fault e 2) (admin_event (env_now e 2) action aid None 204) in
  '(res, st) ← refresh_routes st (env_fault e 3);
  Some (match res with Err err => storage_error err | Ok _ => plain 204 EmptyBody end, st).

Definition admin_set_account_enabled_api (st : AdminState) (e : env) (headers : HeaderMap)
    (aid : string) (value : bool) : option (Response * AdminState) :=
  let '(res, st) := authenticated_session st headers true (env_now e 0) in
  match res with
  | Err rejection => Some (rejection_response rejection, st)
  | Ok _ =>
      let '(res, db) := set_account_enabled (st_db st) (env_fault e 0) (env_fault e 1) (fun db => db) aid value in
      let st := with_db st db in
      match res with
      | Err err => Some (storage_error err, st)
      | Ok _ => finish_change st e (if value then "account.resume" else "account.pause") aid
      end
  end.

Definition admin_delete_account_api (st : AdminState) (e : env) (headers : HeaderMap) (aid : string) :
    option (Response * AdminState) :=
  let '(res, st) := authenticated_session st headers true (env_now e 0) in
  match res with
  | Err rejection => Some (rejection_response rejection, st)
  | Ok _ =>
      let '(res, db) := delete_account (st_db st) (env_fault e 0) aid in
      let st := with_db st db in
      match res with
      | Err err => Some (storage_error err, st)
      | Ok _ => finish_change st e "account.delete" aid
      end
  end.

(** ** All requests of the control plane *)

Inductive admin_request :=
| ReqDashboard
| ReqLogin (client_key username password : string)
| ReqLogout
| ReqSession
| ReqAccounts
| ReqCreate (account : ProviderAccount) (credential : string)
| ReqRotate (aid credential : string)
| ReqEnabled (aid : string) (value : bool)
| ReqDelete (aid : string)
| ReqAudit.

(** One request, without interruption by others. *)
Definition admin_handle (st : AdminState) (e : env) (headers : HeaderMap) (r : admin_request) :
    option (Response * AdminState) :=
  match r with
  | ReqDashboard => Some (admin_dashboard st e headers)
  | ReqLogin k u p => Some (admin_login_api st e k u p)
  | ReqLogout => Some (admin_logout_api st e headers)
  | ReqSession => Some (admin_session_api st e headers)
  | ReqAccounts => admin_accounts_api st e headers
  | ReqCreate a c => admin_create_account_api st e headers a c
  | ReqRotate aid c => admin_rotate_account_credential_api st e headers aid c
  | ReqEnabled aid v => admin_set_account_enabled_api st e headers aid v
  | ReqDelete aid => admin_delete_account_api st e headers aid
  | ReqAudit => Some (admin_audit_api st e headers)
  end.
End HttpApp.

Section Theorems.
Context `{U : UrlLib} `{L : CryptoLib} `{C : !StoreCodec} `{H : HeaderLib}.
Context (box : SecretBox) (manager : AdminSessionManager) (runtime : AdminRuntimeConfig)
        (header_value_valid : string -> bool).

(** ** No panics *)

Lemma refresh_routes_total st fault : is_Some (refresh_routes st fault).
Proof.
  unfold refresh_routes, route_accounts. destruct (list_accounts_total (st_db st) fault) as [[r|e] ->];
    by eexists.
Qed.

Lemma store_credential_total db e keep a credential : is_Some (store_credential box db e keep a credential).
Proof.
  unfold store_credential, rotate_account_credential, upsert_account.
  destruct (encode_account_total box (env_nonce e 0) (env_nonce e 1) a credential) as [[row|err] ->];
    destruct keep; cbn; try (by eexists); destruct (env_fault e 1); by eexists.
Qed.

Lemma finish_change_total st e action aid : is_Some (finish_change st e action aid).
Proof.
  unfold finish_change. destruct (refresh_routes_total
    (audited st (env_fault e 2) (admin_event (env_now e 2) action aid None 204)) (env_fault e 3)) as [[r s] ->].
  by eexists.
Qed.

(** ** Authentication gates every change *)

(** The session presented with the request is alive, and its CSRF token was sent. *)
Definition csrf_session (st : AdminState) (headers : HeaderMap) (now : DateTime) : Prop :=
  exists token s, cookie_value headers ADMIN_SESSION_COOKIE = Some token /\
    Admin.sessions (st_sessions st) !! session_digest manager token = Some s /\
    now < created_at s + absolute_timeout (mgr_policy manager) /\
    now <= Admin.last_seen_at s + idle_timeout (mgr_policy manager) /\
    session_digest manager (default "" (hm_get headers "x-llmap-csrf" ≫= hv_to_str)) = csrf_digest s.

(** Nothing an account consists of has changed. *)
Definition accounts_untouched (st st' : AdminState) : Prop :=
  st_db st' = st_db st /\ Routing.accounts (st_router st') = Routing.accounts (st_router st).

Lemma authenticated_session_frame st headers require now res st' :
  authenticated_session manager st headers require now = (res, st') ->
  st_db st' = st_db st /\ st_router st' = st_router st /\
  (require = true -> is_ok res = true -> csrf_session st headers now).
Proof.
  unfold authenticated_session. destruct (cookie_value _ _) as [token|] eqn:Hc; [|by intros [= <- <-]].
  destruct (authenticate manager _ _ _ _ _) as [r s] eqn:Ha. intros [= <- <-].
  split; [done|]. split; [done|]. intros -> Hok. destruct r as [[]|[]]; try done.
  apply authenticate_Ok in Ha as (s0 & Hs & H1 & H2 & H3). exists token, s0. split_and!; [done|done|done|done|by apply H3].
Qed.

(** The requests that are there to change accounts. *)
Definition changes_accounts (r : admin_request) : bool :=
  match r with ReqCreate _ _ | ReqRotate _ _ | ReqEnabled _ _ | ReqDelete _ => true | _ => false end.

(** A handler that first authenticates with CSRF: everything after is guarded. *)
Lemma gated st e headers r (k : string -> AdminState -> option (Response * AdminState)) :
  changes_accounts r = true -> (forall t s, is_Some (k t s)) ->
  exists rsp st', (let '(res, s) := authenticated_session manager st headers true (env_now e 0) in
    match res with
    | Err rejection => Some (rejection_response rejection, s)
    | Ok t => k t s
    end) = Some (rsp, st') /\ (accounts_untouched st st' \/ (changes_accounts r = true /\ csrf_session st headers (env_now e 0))).
Proof.
  intros Hc Hk. destruct (authenticated_session manager st headers true (env_now e 0)) as [res s] eqn:Ha.
  pose proof (authenticated_session_frame _ _ _ _ _ _ Ha) as (Hdb & Hr & Hs).
  destruct res as [t|rej].
  - destruct (Hk t s) as [[rsp st'] ->]. exists rsp, st'. split; [done|]. right. split; [done|]. by apply Hs.
  - eexists _, _. split; [done|]. left. split; [done|]. by rewrite Hr.
Qed.

Lemma create_account_total st e a credential : is_Some (create_account box st e a credential).
Proof.
  unfold create_account. destruct (validate_account_input a credential); [|by eexists]. cbn zeta.
  destruct (store_credential_total (st_db st) e (bool_decide (kind a = ClaudeOauth)
    && is_ok (load_account box (st_db st) (env_fault e 0) (id a))) a credential) as [[r db] ->]. cbn.
  destruct r; [|by eexists].
  match goal with |- context [refresh_routes ?s ?f] =>
    destruct (refresh_routes_total s f) as [[r2 s2] ->] end. cbn.
  destruct r2; [|by eexists]. destruct (dp_reset_account_health s2 (id a)) as [[]]; by eexists.
Qed.

Lemma rotate_credential_total st e aid credential : is_Some (rotate_credential box st e aid credential).
Proof.
  unfold rotate_credential. destruct (_ || _); [by eexists|].
  destruct (load_account _ _ _ _) as [[a tok]|]; [|by eexists].
  destruct (store_credential_total (st_db st) e (bool_decide (kind a = ClaudeOauth)) a credential)
    as [[res db] ->]. cbn.
  destruct res; [|by eexists]. destruct (dp_reset_account_health _ _) as [[]]; by eexists.
Qed.

(** Every change goes through an authenticated session with its CSRF token: for any
    request to the control plane, in any state and whatever the clock, the random
    source and the database do, the handler returns without a panic, and either the
    store and the routed accounts are exactly as before or the request is one of the four
    changes and carried the cookie of a live session together with that session's
    current CSRF token. *)
Lemma changes_require_csrf_session (st : AdminState) (e : env) (headers : HeaderMap)
    (r : admin_request) :
  exists rsp st', admin_handle box manager runtime header_value_valid st e headers r = Some (rsp, st') /\
    (accounts_untouched st st' \/ (changes_accounts r = true /\ csrf_session st headers (env_now e 0))).
Proof.
  assert (Hkeep : forall require res s,
    authenticated_session manager st headers require (env_now e 0) = (res, s) -> accounts_untouched st s).
  { intros require res s (Hdb & Hr & _)%authenticated_session_frame. split; [done|]. by rewrite Hr. }
  destruct r as [|k u p| | | |a c|aid c|aid v|aid|]; cbn.
  - unfold admin_dashboard. destruct (authenticated_session _ _ _ _ _) as [[] s] eqn:Ha;
      eexists _, _; (split; [done|]); left; by eapply Hkeep.
  - unfold admin_login_api. destruct (login _ _ _ _ _ _ _ _) as [[g|[]] s]; eexists _, _; (split; [done|]); by left.
  - unfold admin_logout_api. destruct (authenticated_session _ _ _ _ _) as [[] s] eqn:Ha;
      eexists _, _; (split; [done|]); left; by apply Hkeep in Ha.
  - unfold admin_session_api. destruct (authenticated_session _ _ _ _ _) as [[t|] s] eqn:Ha; apply Hkeep in Ha;
      [|by eexists _, _; (split; [done|]); left].
    destruct (issue_csrf _ _ _ _ _) as [[csrf|] ss]; [|by eexists _, _; (split; [done|]); left].
    eexists _, _; (split; [reflexivity|]); by left.
  - unfold admin_accounts_api. destruct (authenticated_session _ _ _ _ _) as [[t|] s] eqn:Ha; apply Hkeep in Ha;
      [|by eexists _, _; (split; [done|]); left].
    destruct (list_accounts_total (st_db s) (env_fault e 0)) as [l ->].
    eexists _, _; (split; [reflexivity|]); by left.
  - apply (gated st e headers (ReqCreate a c) (fun _ s => create_account box s e a c)); [done|]. intros t s. apply create_account_total.
  - apply (gated st e headers (ReqRotate aid c) (fun _ s => rotate_credential box s e aid c)); [done|]. intros t s.
    apply rotate_credential_total.
  - apply (gated st e headers (ReqEnabled aid v)); [done|]. intros t s. destruct (set_account_enabled _ _ _ _ _ _) as [[] db]; [|by eexists].
    apply finish_change_total.
  - apply (gated st e headers (ReqDelete aid)); [done|]. intros t s. destruct (delete_account _ _ _) as [[] db]; [|by eexists].
    apply finish_change_total.
  - unfold admin_audit_api. destruct (authenticated_session _ _ _ _ _) as [[t|] s] eqn:Ha;
      eexists _, _; (split; [done|]); left; by eapply Hkeep.
Qed.

(** ** What pausing and deleting leave in the store and in the routes *)

Context `{!CryptoLaws L} `{!StoreCodecLaws C}.

(** Every stored account that carries the identifier is disabled. *)
Definition all_disabled (aid : string) (db : Db) : Prop :=
  forall k row a, provider_accounts db !! k = Some row -> account_from_json (row_json row) = Some a ->
    id a = aid -> enabled a = false.

Lemma disable_all_disabled db f1 f2 aid db' :
  store_wf box db -> set_account_enabled db f1 f2 (fun d => d) aid false = (Ok tt, db') ->
  all_disabled aid db'.
Proof.
  intros [Hrows _]. unfold set_account_enabled, read_account_json, enabled_json. destruct f1; [done|].
  destruct (provider_accounts db !! aid) as [row|] eqn:E; [|done]. cbn.
  destruct (account_from_json (row_json row)) as [a|] eqn:Ea; [|done]. cbn.
  unfold update_account_json. destruct f2; [done|]. intros [= <-] k row' a' Hk Ha' Hid. cbn in Hk.
  destruct (decide (k = aid)) as [->|Hne].
  - rewrite lookup_alter_eq, E in Hk. injection Hk as <-. cbn in Ha'.
    rewrite account_codec in Ha'. by injection Ha' as <-.
  - rewrite lookup_alter_ne in Hk by done. destruct (Hrows _ _ Hk) as [(b & Hb & Hbid) _ _].
    exfalso. apply Hne. congruence.
Qed.

Lemma delete_all_disabled db f aid db' :
  store_wf box db -> delete_account db f aid = (Ok tt, db') -> all_disabled aid db'.
Proof.
  intros [Hrows _]. unfold delete_account. destruct f; [done|].
  destruct (provider_accounts db !! aid); [|done]. intros [= <-] k row' a' Hk Ha' Hid. cbn in Hk.
  apply lookup_delete_Some in Hk as [Hne Hk]. destruct (Hrows _ _ Hk) as [(b & Hb & Hbid) _ _].
  exfalso. apply Hne. congruence.
Qed.

Lemma routes_typed_disabled db fault routes aid :
  all_disabled aid db -> route_accounts db fault = Some (Ok routes) ->
  Forall account_typed routes /\ forall a, a ∈ routes -> Routing.id a = aid -> Routing.enabled a = false.
Proof.
  intros Hdis. unfold route_accounts, list_accounts. destruct fault; [done|].
  destruct (collect_panicking _ _) as [[pubs|]|] eqn:Hc; [|done|done]. intros [= <-]. split.
  - apply Forall_fmap, Forall_true. intros x. unfold account_typed, U32_MAX, U16_MAX. cbn. lia.
  - intros a (pub & -> & Hpub)%list_elem_of_fmap. cbn. intros Hid.
    destruct (collect_panicking_elem _ _ _ _ Hc Hpub) as ([k row] & Hk & Hrow). cbn in Hrow.
    apply rows_by_id_elem in Hk. unfold public_account in Hrow.
    destruct (account_from_json (row_json row)) as [acc|] eqn:Ha; [|done].
    destruct (mapM public_egress _) as [eg|]; [|done]. injection Hrow as <-. cbn in *. by eapply Hdis.
Qed.

(** A disabled account's credentials are refused by the snapshot. *)
Lemma snapshot_refuses_disabled db aid auth now creds c d :
  all_disabled aid db -> credential_snapshot box db false auth now = Ok (Available creds) ->
  c ∈ creds -> cred_account_id c = aid -> account_matches d now c = false.
Proof.
  intros Hdis Hsnap Hin Hid. destruct (snapshot_elem _ _ _ _ _ _ Hsnap Hin) as (k & row & Hk & Hrow).
  apply snapshot_row_account in Hrow as (a & x & Ha & Hid' & ->).
  by rewrite (Hdis k row a Hk Ha) by congruence.
Qed.

Lemma finish_change_ok st e action aid rsp st' :
  finish_change st e action aid = Some (rsp, st') -> rsp_status rsp = 204 ->
  provider_accounts (st_db st') = provider_accounts (st_db st) /\
  credential_history (st_db st') = credential_history (st_db st) /\
  exists routes, route_accounts (st_db st') (env_fault e 3) = Some (Ok routes) /\
    st_router st' = replace_accounts (st_router st) routes.
Proof.
  unfold finish_change, refresh_routes, audited.
  destruct (route_accounts _ _) as [[routes|err]|] eqn:Hr; cbn; [| |done].
  - intros [= <- <-] _. cbn. unfold append_audit in *. destruct (env_fault e 2 || _); cbn in *; by eauto.
  - intros [= <- <-]. by destruct err.
Qed.

End Theorems.

(** ** Cookies *)

Lemma find_cookie_first (name value : string) (rest : list string) :
  trim (name +:+ "=" +:+ value) = name +:+ "=" +:+ value -> contains_char "=" name = false ->
  find_cookie name ((name +:+ "=" +:+ value) :: rest) = Some value.
Proof.
  intros Htrim Hname. cbn [find_cookie]. rewrite Htrim.
  change ("=" +:+ value) with (String "=" value). rewrite split_once_app by done.
  by rewrite bool_decide_eq_true_2.
Qed.

(** ** Examples *)

Section Witnesses.
#[local] Existing Instance simple_url_lib.
#[local] Existing Instance simple_header_lib.
#[local] Existing Instance simple_crypto_lib.
#[local] Existing Instance simple_crypto_laws.
#[local] Existing Instance sample_codec.
#[local] Existing Instance sample_codec_laws.

Definition sample_runtime : AdminRuntimeConfig :=
  {| rt_auth_mode := Enforce; auth_mode_locked := false; secure_cookies := true |}.

Definition sample_headers : HeaderMap :=
  [("cookie", "theme=dark; llmap_admin_session=tok"); ("x-llmap-csrf", "csrf")].

Definition sample_env : env :=
  {| env_now := fun _ => seconds 60; env_fault := fun _ => false;
     env_nonce := fun _ => nonce_a; env_token := fun _ => "fresh" |}.

Definition sample_state : AdminState :=
  {| st_db := old_db;
     st_sessions := {| attempts := ∅;
       Admin.sessions := {[session_digest example_manager "tok" :=
         {| created_at := 0; Admin.last_seen_at := seconds 30;
            csrf_digest := session_digest example_manager "csrf" |}]} |};
     st_router := router_new [] |}.

Definition pause_sample : option (Response * AdminState) :=
  admin_handle sample_box example_manager sample_runtime (fun _ => true) sample_state sample_env
    sample_headers (ReqEnabled "a" false).

(** The request is accepted and changes the store. *)
Example pause_sample_confirmed : (rsp_status <$> (fst <$> pause_sample)) = Some 204.
Proof. vm_compute. reflexivity. Qed.

(** Without the CSRF header it is refused. *)
Example pause_without_csrf :
  (fun p : Response * AdminState => rsp_status p.1) <$>
    admin_handle sample_box example_manager sample_runtime (fun _ => true) sample_state sample_env
      [("cookie", "llmap_admin_session=tok")] (ReqEnabled "a" false) = Some 403.
Proof. vm_compute. reflexivity. Qed.
End Witnesses.
