(* ===== verification/Routes.v ===== *)
(** * The route table of the service (src/src/http_app.rs)

    [application_router] as data: every path pattern with its methods and handler.
    axum's path matching and extractors are operations of a class; what axum documents
    of them are its laws.  The table leaves nothing to axum's priority rules: no path
    matches two of its patterns, so every lawful matching finds the same handler.  An
    [application] request is then either answered (a page, the control plane of HttpApp)
    or handed to the reverse endpoint of Endpoints. *)
From S2P Require Import Prelude Interfaces Models Routing Auth Egress Bedrock Secrets Providers DataPlane Endpoints Storage Admin HttpApp.

(** ** Patterns *)

Inductive segment := Literal (text : string) | Capture | CaptureRest.

(** A segment [{name}] captures a segment, [{*name}] the rest of the path. *)
Definition parse_segment (s : string) : segment :=
  if starts_with "{*" s then CaptureRest else if starts_with "{" s then Capture else Literal s.

(** The captures of a path; none of them is empty. *)
Fixpoint match_segments (p : list segment) (path : list string) : option (list string) :=
  match p, path with
  | [], [] => Some []
  | Literal text :: p, s :: path => if bool_decide (s = text) then match_segments p path else None
  | Capture :: p, s :: path => if string_is_empty s then None else cons s <$> match_segments p path
  | CaptureRest :: _, s :: path => let rest := join "/" (s :: path) in if string_is_empty rest then None else Some [rest]
  | _, _ => None
  end.

Definition segments_of (pattern : string) : list segment := map parse_segment (split "/" pattern).

Definition match_pattern (pattern path : string) : option (list string) :=
  match_segments (segments_of pattern) (split "/" path).

(** ** axum *)

Section Axum.
Context `{U : UrlLib} `{H : HeaderLib}.

(** Path matching, percent-decoding of a captured segment ([None] when the result is not
    UTF-8), and the JSON bodies of the four input types, with axum's status when the body
    is refused. *)
Class AxumLib := {
  ax_match : list string -> string -> option (string * list string);
  ax_decode : string -> option string;
  json_login_input : HeaderMap -> option string -> result (string * string) Z;
  json_account_input : HeaderMap -> option string -> result (ProviderAccount * string) Z;
  json_credential_input : HeaderMap -> option string -> result string Z;
  json_enabled_input : HeaderMap -> option string -> result bool Z
}.

(** A match is a route that matches, and one is found when there is one.  Which of
    several is not said. *)
Class AxumLaws (A : AxumLib) : Prop := {
  ax_match_sound : forall routes path pattern params,
    ax_match routes path = Some (pattern, params) ->
    pattern ∈ routes /\ match_pattern pattern path = Some params;
  ax_match_complete : forall routes path pattern,
    pattern ∈ routes -> is_Some (match_pattern pattern path) -> is_Some (ax_match routes path)
}.
End Axum.

(** ** The table *)

Inductive Endpoint :=
| Health | Ready | Metrics
| ProxyRoot | ProxyV1 | ProxySessionRoot | ProxySessionV1
| AdminRedirect | AdminDashboard | AdminLogin
| AdminLoginApi | AdminLogoutApi | AdminSessionApi | AdminAccountsApi | AdminCreateAccountApi
| AdminDeleteAccountApi | AdminSetAccountEnabledApi | AdminRotateAccountCredentialApi | AdminAuditApi.

#[global] Instance Endpoint_eq_dec : EqDecision Endpoint.
Proof. solve_decision. Defined.

(** [MethodRouter]: a handler of a method, or of every method. *)
Inductive MethodRouter :=
| Any (handler : Endpoint)
| On (handlers : list (string * Endpoint)).

(** [get] also answers HEAD. *)
Definition get (h : Endpoint) : MethodRouter := On [("GET", h); ("HEAD", h)].
Definition post (h : Endpoint) : MethodRouter := On [("POST", h)].
Definition put (h : Endpoint) : MethodRouter := On [("PUT", h)].
Definition delete_route (h : Endpoint) : MethodRouter := On [("DELETE", h)].

(** [MethodRouter::post] on a router of other methods. *)
Definition also (a b : MethodRouter) : MethodRouter :=
  match a, b with On l, On l' => On (l ++ l') | _, _ => a end.

Definition table := list (string * MethodRouter).

Definition router : table := [
  ("/health", get Health);
  ("/ready", get Ready);
  ("/metrics", get Metrics);
  ("/v1", Any ProxyRoot);
  ("/v1/{*path}", Any ProxyV1);
  ("/session/{session_id}/v1", Any ProxySessionRoot);
  ("/session/{session_id}/v1/{*path}", Any ProxySessionV1)
].

Definition admin_router : table := [
  ("/admin", get AdminRedirect);
  ("/admin/", get AdminDashboard);
  ("/admin/login", get AdminLogin);
  ("/admin/api/v1/login", post AdminLoginApi);
  ("/admin/api/v1/logout", post AdminLogoutApi);
  ("/admin/api/v1/session", get AdminSessionApi);
  ("/admin/api/v1/accounts", also (get AdminAccountsApi) (post AdminCreateAccountApi));
  ("/admin/api/v1/accounts/{account_id}", delete_route AdminDeleteAccountApi);
  ("/admin/api/v1/accounts/{account_id}/enabled", put AdminSetAccountEnabledApi);
  ("/admin/api/v1/accounts/{account_id}/credential", put AdminRotateAccountCredentialApi);
  ("/admin/api/v1/audit", get AdminAuditApi)
].

Definition application_router : table := router ++ admin_router.

Definition route_of (t : table) (pattern : string) : option MethodRouter :=
  snd <$> List.find (fun r => bool_decide (r.1 = pattern)) t.

Definition method_handler (m : MethodRouter) (method : string) : option Endpoint :=
  match m with
  | Any h => Some h
  | On l => snd <$> List.find (fun r => bool_decide (r.1 = method)) l
  end.

(** What axum makes of a request line: a handler with its captures, or 404 or 405. *)
Inductive dispatched := Handler (h : Endpoint) (params : list string) | NoRoute | WrongMethod.

Definition dispatch_on (found : option (string * list string)) (method : string) : dispatched :=
  match found with
  | None => NoRoute
  | Some (pattern, params) =>
      match route_of application_router pattern ≫= fun m => method_handler m method with
      | Some h => Handler h params
      | None => WrongMethod
      end
  end.

(** ** The application *)

Section Application.
Context `{U : UrlLib} `{H : HeaderLib} `{R : UriLib} `{L : CryptoLib} `{J : JsonLib} `{C : !StoreCodec}
        `{A : !AxumLib}.
Context (crc32 : bytes -> Z) (base64_decode : string -> option bytes)
        (parse_aws_envelope : string -> option AwsCredentialEnvelope)
        (format_date format_amz_date : DateTime -> string).
Context (box : SecretBox) (manager : AdminSessionManager) (runtime : AdminRuntimeConfig)
        (header_value_valid : string -> bool) (dp : DataPlane).
(** [CARGO_PKG_VERSION] and [LLMAP_BUILD_SHA] of the build. *)
Context (build_version : string) (build_commit : option string).

Abbreviation reverse := (reverse_endpoint crc32 base64_decode parse_aws_envelope format_date format_amz_date).

Definition route_request (method path : string) : dispatched :=
  dispatch_on (ax_match (application_router.*1) path) method.

(** The replies that come from no handler state. *)
Inductive page :=
| HealthPage (version : string) (commit : option string)
| ReadyPage
| MetricsPage (text : string)
| LoginPage
| RedirectPage (location : string).

Inductive AppReply :=
| PageReply (status : Z) (body : page)
| AdminReply (response : Response)
| Refused (status : Z).

Inductive served :=
| Answered (reply : AppReply) (st : AdminState)
| Forwarded (program : prog (option EndpointResponse)).

(** The extractors of a control-plane handler, in the order of its arguments;
    [Path<String>] needs exactly one capture. *)
Definition admin_extract (h : Endpoint) (peer : string) (headers : HeaderMap) (body : option string)
    (params : list string) : result admin_request Z :=
  let path := match params with [account_id] => Ok account_id | _ => Err 500 end in
  match h with
  | AdminDashboard => Ok ReqDashboard
  | AdminLoginApi => let? input := json_login_input headers body in Ok (ReqLogin peer input.1 input.2)
  | AdminLogoutApi => Ok ReqLogout
  | AdminSessionApi => Ok ReqSession
  | AdminAccountsApi => Ok ReqAccounts
  | AdminCreateAccountApi => let? input := json_account_input headers body in Ok (ReqCreate input.1 input.2)
  | AdminDeleteAccountApi => let? account_id := path in Ok (ReqDelete account_id)
  | AdminSetAccountEnabledApi =>
      let? account_id := path in let? enabled := json_enabled_input headers body in Ok (ReqEnabled account_id enabled)
  | AdminRotateAccountCredentialApi =>
      let? account_id := path in let? credential := json_credential_input headers body in
      Ok (ReqRotate account_id credential)
  | AdminAuditApi => Ok ReqAudit
  | _ => Err 404
  end.

(** A handler with its decoded captures. *)
Definition run_endpoint (st : AdminState) (e : env) (m : MetricsSnapshot) (peer : string)
    (request : HttpRequest) (h : Endpoint) (params : list string) : option served :=
  match h, params with
  | Health, _ => Some (Answered (PageReply 200 (HealthPage build_version build_commit)) st)
  | Ready, _ => Some (Answered (PageReply 200 ReadyPage) st)
  | Metrics, _ => Some (Answered (PageReply 200 (MetricsPage (metrics_text m))) st)
  | AdminRedirect, _ => Some (Answered (PageReply 308 (RedirectPage "/admin/")) st)
  | AdminLogin, _ => Some (Answered (PageReply 200 LoginPage) st)
  | ProxyRoot, _ => Some (Forwarded (reverse dp RootRoute request))
  | ProxyV1, [path] => Some (Forwarded (reverse dp (V1Route path) request))
  | ProxySessionRoot, [session_id] => Some (Forwarded (reverse dp (SessionRootRoute session_id) request))
  | ProxySessionV1, [session_id; path] => Some (Forwarded (reverse dp (SessionV1Route session_id path) request))
  | (ProxyV1 | ProxySessionRoot | ProxySessionV1), _ => Some (Answered (Refused 500) st)
  | _, _ =>
      match admin_extract h peer (hr_headers request) (hr_body request) params with
      | Err status => Some (Answered (Refused status) st)
      | Ok r =>
          '(rsp, st') ← admin_handle box manager runtime header_value_valid st e (hr_headers request) r;
          Some (Answered (AdminReply rsp) st')
      end
  end.

(** The whole service on its reverse socket; [peer] is the address of the client. *)
Definition application (st : AdminState) (e : env) (m : MetricsSnapshot) (peer : string)
    (request : HttpRequest) : option served :=
  match route_request (hr_method request) (uri_path (hr_uri request)) with
  | NoRoute => Some (Answered (Refused 404) st)
  | WrongMethod => Some (Answered (Refused 405) st)
  | Handler h params =>
      match mapM ax_decode params with
      | None => Some (Answered (Refused 400) st)
      | Some params => run_endpoint st e m peer request h params
      end
  end.
End Application.

(** ** Matching *)

(** The path a pattern's captures come from. *)
Fixpoint fill (p : list segment) (params : list string) : list string :=
  match p, params with
  | Literal text :: p, _ => text :: fill p params
  | Capture :: p, x :: params => x :: fill p params
  | CaptureRest :: _, x :: _ => [x]
  | _, _ => []
  end.

(** A pattern as long as its fillings: the captures are as many as the pattern has. *)
Fixpoint captures (p : list segment) : nat :=
  match p with
  | [] => 0
  | Literal _ :: p => captures p
  | Capture :: p => S (captures p)
  | CaptureRest :: _ => 1
  end.

Lemma match_fill p : forall path params, match_segments p path = Some params ->
  join "/" (fill p params) = join "/" path /\ (fill p params = [] <-> path = []) /\ length params = captures p.
Proof.
  assert (Hjoin : forall x (l l' : list string), join "/" l = join "/" l' -> (l = [] <-> l' = []) ->
    join "/" (x :: l) = join "/" (x :: l')).
  { intros x l l' Hj Hn. rewrite !join_cons. destruct l, l'; [done|naive_solver..|by rewrite Hj]. }
  induction p as [|[text| |] p IH]; intros [|s path] params Hm; cbn [match_segments] in Hm; simplify_eq; [done|..].
  - case_bool_decide as Hs; [|done]. subst s. destruct (IH _ _ Hm) as (Hj & Hn & Hl). split_and!; [by apply Hjoin|done..].
  - destruct (string_is_empty s); [done|]. apply fmap_Some in Hm as (params' & Hm & ->).
    destruct (IH _ _ Hm) as (Hj & Hn & Hl). split_and!; [by apply Hjoin|done|cbn; by f_equal].
  - destruct (string_is_empty _); [done|]. injection Hm as <-. done.
Qed.

(** Captures of single segments. *)
Fixpoint single_captures (p : list segment) : nat :=
  match p with
  | Literal _ :: p => single_captures p
  | Capture :: p => S (single_captures p)
  | _ => 0
  end.

Lemma match_captured p : forall path params, match_segments p path = Some params ->
  Forall (fun x => x ∈ path /\ x <> "") (take (single_captures p) params).
Proof.
  induction p as [|[text| |] p IH]; intros [|s path] params Hm; cbn [match_segments] in Hm; simplify_eq; [constructor|..].
  - case_bool_decide; [|done]. eapply Forall_impl; [by apply IH|]. set_solver.
  - destruct (string_is_empty s) eqn:Hs; [done|]. apply fmap_Some in Hm as (params' & Hm & ->).
    constructor; [split; [by left|by intros ->]|]. eapply Forall_impl; [by apply IH|]. set_solver.
  - constructor.
Qed.

(** A segment of a path. *)
Definition one_segment (x : string) : Prop := x <> "" /\ contains_char "/" x = false.

Lemma match_pattern_inv pattern path params : match_pattern pattern path = Some params ->
  path = join "/" (fill (segments_of pattern) params) /\ length params = captures (segments_of pattern) /\
  Forall one_segment (take (single_captures (segments_of pattern)) params).
Proof.
  unfold match_pattern. intros Hm. destruct (match_fill _ _ _ Hm) as (Hj & _ & Hl). apply match_captured in Hm.
  split_and!; [by rewrite Hj, join_split|done|]. eapply Forall_impl; [exact Hm|]. intros x [Hx Hne]. split; [done|].
  pose proof (split_pieces "/" path) as Hs. rewrite Forall_forall in Hs. by apply Hs.
Qed.

(** Can one path match both? *)
Fixpoint overlap (p q : list segment) : bool :=
  match p, q with
  | [], [] => true
  | Literal a :: p, Literal b :: q => bool_decide (a = b) && overlap p q
  | Literal a :: p, Capture :: q | Capture :: p, Literal a :: q => negb (string_is_empty a) && overlap p q
  | Capture :: p, Capture :: q => overlap p q
  | CaptureRest :: _, _ :: _ | _ :: _, CaptureRest :: _ => true
  | _, _ => false
  end.

Lemma match_overlap p : forall q path x y,
  match_segments p path = Some x -> match_segments q path = Some y -> overlap p q = true.
Proof.
  induction p as [|a p IH]; intros [|b q] [|s path] x y Hp Hq; try (by destruct a); try (by destruct b); try done.
  destruct a as [text| |], b as [text'| |]; cbn in Hp, Hq |- *; try done.
  - repeat case_bool_decide; try done; [|congruence]. eapply IH; [exact Hp|exact Hq].
  - case_bool_decide; [|done]. subst. destruct (string_is_empty text); [done|]. apply fmap_Some in Hq as (? & Hq & _).
    eapply IH; [exact Hp|exact Hq].
  - case_bool_decide; [|done]. subst. destruct (string_is_empty text'); [done|]. apply fmap_Some in Hp as (? & Hp & _).
    eapply IH; [exact Hp|exact Hq].
  - destruct (string_is_empty s); [done|]. apply fmap_Some in Hp as (? & Hp & _). apply fmap_Some in Hq as (? & Hq & _).
    eapply IH; [exact Hp|exact Hq].
Qed.

(** No path matches two patterns of the table: merging the two routers cannot fail, and
    no rule of priority is needed. *)
Lemma routes_disjoint path p q x y :
  p ∈ application_router.*1 -> q ∈ application_router.*1 ->
  match_pattern p path = Some x -> match_pattern q path = Some y -> p = q.
Proof.
  assert (Hall : forallb (fun p => forallb (fun q => bool_decide (p = q) || negb (overlap (segments_of p) (segments_of q)))
    (application_router.*1)) (application_router.*1) = true) by (vm_compute; reflexivity).
  intros Hp Hq Hx Hy. rewrite forallb_forall in Hall. apply list_elem_of_In in Hp, Hq. specialize (Hall _ Hp).
  cbn beta in Hall. rewrite forallb_forall in Hall. specialize (Hall _ Hq). cbn beta in Hall.
  apply orb_true_iff in Hall as [Heq|Hno]; [by apply bool_decide_eq_true in Heq|].
  by rewrite (match_overlap _ _ _ _ _ Hx Hy) in Hno.
Qed.

(** The reference: the first pattern of the table that matches. *)
Fixpoint first_match (patterns : list string) (path : string) : option (string * list string) :=
  match patterns with
  | [] => None
  | p :: rest => match match_pattern p path with Some params => Some (p, params) | None => first_match rest path end
  end.

Lemma first_match_Some patterns path p params :
  first_match patterns path = Some (p, params) -> p ∈ patterns /\ match_pattern p path = Some params.
Proof.
  induction patterns as [|q rest IH]; cbn; [done|]. destruct (match_pattern q path) as [x|] eqn:Hq.
  - intros [= <- <-]. split; [by left|done].
  - intros [Hin Hm]%IH. split; [by right|done].
Qed.

Lemma first_match_complete patterns path p :
  p ∈ patterns -> is_Some (match_pattern p path) -> is_Some (first_match patterns path).
Proof.
  induction 1 as [p rest|p q rest _ IH]; cbn; intros Hm; [destruct Hm as [x ->]; by eexists|].
  destruct (match_pattern q path); [by eexists|by apply IH].
Qed.

Section Theorems.
Context `{U : UrlLib} `{H : HeaderLib} `{R : UriLib} `{L : CryptoLib} `{J : JsonLib} `{C : !StoreCodec}
        `{A : !AxumLib} `{!AxumLaws A}.

(** Whatever priority axum gives its routes, requests reach the same handlers. *)
Lemma dispatch_is_determined (method path : string) :
  route_request method path = dispatch_on (first_match (application_router.*1) path) method.
Proof.
  unfold route_request. f_equal. destruct (ax_match _ path) as [[p params]|] eqn:Ha.
  - apply ax_match_sound in Ha as [Hp Hm]. symmetry.
    destruct (first_match_complete _ path p Hp) as [[q x] Hq]; [by eexists|]. rewrite Hq.
    apply first_match_Some in Hq as [Hq Hx]. pose proof (routes_disjoint path p q _ _ Hp Hq Hm Hx) as <-. congruence.
  - destruct (first_match _ path) as [[p params]|] eqn:Hf; [|done]. apply first_match_Some in Hf as [Hp Hm].
    destruct (ax_match_complete (application_router.*1) path p Hp) as [x Hx]; [by eexists|]. congruence.
Qed.

Lemma dispatch_inv method path h params : route_request method path = Handler h params ->
  exists pattern m, (pattern, m) ∈ application_router /\ match_pattern pattern path = Some params /\
    method_handler m method = Some h.
Proof.
  rewrite dispatch_is_determined. unfold dispatch_on, route_of.
  destruct (first_match _ path) as [[p x]|] eqn:Hf; [|done]. apply first_match_Some in Hf as [_ Hm].
  destruct (List.find _ application_router) as [[q m]|] eqn:Hfind; [|done]. cbn.
  apply List.find_some in Hfind as [Hin Hq]. cbn in Hq. apply bool_decide_eq_true in Hq as ->.
  destruct (method_handler m method) as [h'|] eqn:Hh; [|done]. intros [= -> ->].
  exists p, m. split_and!; [by apply list_elem_of_In|done|done].
Qed.

(** The requests of docs/api.md that change accounts. *)
Definition changing_request (method path : string) : Prop :=
  (method = "POST" /\ path = "/admin/api/v1/accounts") \/
  exists id, one_segment id /\
    ((method = "DELETE" /\ path = "/admin/api/v1/accounts/" +:+ id) \/
     (method = "PUT" /\ (path = "/admin/api/v1/accounts/" +:+ id +:+ "/enabled" \/
                         path = "/admin/api/v1/accounts/" +:+ id +:+ "/credential"))).

Definition changes_endpoint (h : Endpoint) : bool :=
  match h with
  | AdminCreateAccountApi | AdminDeleteAccountApi | AdminSetAccountEnabledApi | AdminRotateAccountCredentialApi => true
  | _ => false
  end.

(** The row of the table for a handler: one goal for each that the handler may have. *)
Ltac by_table Hin Hh :=
  unfold application_router, router, admin_router in Hin; cbn [app] in Hin;
  repeat (apply elem_of_cons in Hin as [[= -> ->]|Hin]); cbn in Hh; repeat case_bool_decide; simplify_eq/=;
  [..|by apply elem_of_nil in Hin].
(** The captures of a row, by their number. *)
Ltac by_captures Hlen Hseg :=
  repeat (match type of Hlen with length ?l = _ => is_var l; destruct l; simplify_eq/= end);
  decompose_Forall_hyps.

Lemma changing_dispatch method path h params :
  changes_endpoint h = true -> route_request method path = Handler h params -> changing_request method path.
Proof.
  intros Hc (pattern & m & Hin & (Hpath & Hlen & Hseg)%match_pattern_inv & Hh)%dispatch_inv. by_table Hin Hh.
  - left. done.
  - right. by_captures Hlen Hseg. eexists. split; [eassumption|]. left. done.
  - right. by_captures Hlen Hseg. eexists. split; [eassumption|]. right. split; [done|]. left. reflexivity.
  - right. by_captures Hlen Hseg. eexists. split; [eassumption|]. right. split; [done|]. right. reflexivity.
Qed.

(** The paths that are proxied, and the route with its decoded captures. *)
Definition proxied_request (path : string) (r : reverse_route) : Prop :=
  match r with
  | RootRoute => path = "/v1"
  | V1Route p => exists rest, path = "/v1/" +:+ rest /\ ax_decode rest = Some p
  | SessionRootRoute s => exists id, one_segment id /\ path = "/session/" +:+ id +:+ "/v1" /\ ax_decode id = Some s
  | SessionV1Route s p => exists id rest, one_segment id /\ path = "/session/" +:+ id +:+ "/v1/" +:+ rest /\
      ax_decode id = Some s /\ ax_decode rest = Some p
  end.

Definition endpoint_route (h : Endpoint) (params : list string) : option reverse_route :=
  match h, params with
  | ProxyRoot, _ => Some RootRoute
  | ProxyV1, [path] => Some (V1Route path)
  | ProxySessionRoot, [session_id] => Some (SessionRootRoute session_id)
  | ProxySessionV1, [session_id; path] => Some (SessionV1Route session_id path)
  | _, _ => None
  end.

Lemma proxied_dispatch method path h params params' r :
  route_request method path = Handler h params -> mapM ax_decode params = Some params' ->
  endpoint_route h params' = Some r -> proxied_request path r.
Proof.
  intros (pattern & m & Hin & (Hpath & Hlen & Hseg)%match_pattern_inv & Hh)%dispatch_inv Hd Hr.
  apply mapM_Some in Hd. by_table Hin Hh; by_captures Hlen Hseg; decompose_Forall_hyps; simplify_eq/=; [done|..].
  - by eexists.
  - by eexists.
  - by eexists _, _.
Qed.

Context (crc32 : bytes -> Z) (base64_decode : string -> option bytes)
        (parse_aws_envelope : string -> option AwsCredentialEnvelope)
        (format_date format_amz_date : DateTime -> string).
Context (box : SecretBox) (manager : AdminSessionManager) (runtime : AdminRuntimeConfig)
        (header_value_valid : string -> bool) (dp : DataPlane).
Context (build_version : string) (build_commit : option string).

Abbreviation reverse := (reverse_endpoint crc32 base64_decode parse_aws_envelope format_date format_amz_date).
Abbreviation run := (run_endpoint crc32 base64_decode parse_aws_envelope format_date format_amz_date box manager
  runtime header_value_valid dp build_version build_commit).
Abbreviation serve_request := (application crc32 base64_decode parse_aws_envelope format_date format_amz_date box
  manager runtime header_value_valid dp build_version build_commit).

(** An answer changes accounts only by one of the four changing handlers in a session
    that allows it; what is forwarded is the handler's own route. *)
Definition endpoint_ok (st : AdminState) (e : env) (request : HttpRequest) (h : Endpoint) (params : list string)
    (out : served) : Prop :=
  match out with
  | Answered _ st' => accounts_untouched st st' \/
      (changes_endpoint h = true /\ csrf_session manager st (hr_headers request) (env_now e 0))
  | Forwarded program => exists r, endpoint_route h params = Some r /\ program = reverse dp r request
  end.

Lemma admin_extract_changes h peer headers body params r :
  admin_extract h peer headers body params = Ok r -> changes_accounts r = changes_endpoint h.
Proof. unfold admin_extract. intros Hr. destruct h; repeat case_match; by simplify_eq. Qed.

Lemma admin_endpoint_ok st e request h params r :
  changes_accounts r = changes_endpoint h ->
  exists out,
    ('(rsp, st') ← admin_handle box manager runtime header_value_valid st e (hr_headers request) r;
     Some (Answered (AdminReply rsp) st')) = Some out /\ endpoint_ok st e request h params out.
Proof.
  intros Hr. destruct (changes_require_csrf_session box manager runtime header_value_valid st e (hr_headers request) r)
    as (rsp & st' & -> & Hst). rewrite Hr in Hst. by eexists.
Qed.

Lemma run_endpoint_ok st e m peer request h params :
  exists out, run st e m peer request h params = Some out /\ endpoint_ok st e request h params out.
Proof.
  assert (Hstay : forall reply, exists out, Some (Answered reply st) = Some out /\ endpoint_ok st e request h params out).
  { intros reply. eexists. split; [done|]. by left. }
  unfold run_endpoint. destruct h; try apply Hstay; repeat (case_match; try apply Hstay);
    first [by eapply admin_endpoint_ok, admin_extract_changes | eexists; split; [done|]; by eexists].
Qed.

(** What the service does with a request, on every branch. *)
Record application_gated (st : AdminState) (e : env) (request : HttpRequest) (out : served) : Prop := {
  ag_changes : forall reply st', out = Answered reply st' -> accounts_untouched st st' \/
    (csrf_session manager st (hr_headers request) (env_now e 0) /\
     changing_request (hr_method request) (uri_path (hr_uri request)));
  ag_forwarded : forall program, out = Forwarded program -> exists r,
    proxied_request (uri_path (hr_uri request)) r /\ program = reverse dp r request /\
    all_paths program [] (reverse_gated dp r request)
}.

(** C17.  The service from the request line on: whatever order of preference the HTTP
    library gives its routes, every request is answered or forwarded without a panic.
    The store and the routed accounts change only for the POST, PUT and DELETE requests
    on [/admin/api/v1/accounts] that docs/api.md lists, and only with the cookie of a
    live administrator session and its current CSRF token; so no GET and no request to
    another path changes an account.  What is proxied are the paths [/v1] and
    [/session/<id>/v1] and those below them, with the decoded path and session, and in
    every execution authentication comes before any effect on accounts and providers. *)
Theorem application_is_gated (st : AdminState) (e : env) (m : MetricsSnapshot) (peer : string)
    (request : HttpRequest) (Hlimit : 0 <= max_request_bytes dp < U64_MAX) :
  exists out, serve_request st e m peer request = Some out /\ application_gated st e request out.
Proof.
  assert (Hrefused : forall status, application_gated st e request (Answered (Refused status) st)).
  { intros status. split; [|done]. intros _ _ [= _ <-]. by left. }
  unfold application. destruct (route_request _ _) as [h params| |] eqn:Hd; [|by eexists..].
  destruct (mapM ax_decode params) as [params'|] eqn:Hp; [|by eexists].
  destruct (run_endpoint_ok st e m peer request h params') as (out & Hout & Hok). exists out. split; [exact Hout|].
  split.
  - intros reply st' ->. destruct Hok as [Hsame|[Hc Hs]]; [by left|]. right. split; [done|]. by eapply changing_dispatch.
  - intros program ->. destruct Hok as (r & Hr & ->). exists r. split_and!; [by eapply proxied_dispatch|done|].
    by apply reverse_requests_are_gated.
Qed.
End Theorems.

(** ** Examples *)

Section Witnesses.
#[local] Existing Instance simple_url_lib.
#[local] Existing Instance simple_header_lib.
#[local] Existing Instance simple_crypto_lib.
#[local] Existing Instance simple_json_lib.
#[local] Existing Instance simple_uri_lib.
#[local] Existing Instance sample_codec.

(** Percent-decoding of the octets the examples use. *)
Fixpoint simple_decode (s : string) : string :=
  match s with
  | String "%" (String "2" (String "F" rest)) => String "/" (simple_decode rest)
  | String "%" (String "3" (String "F" rest)) => String "?" (simple_decode rest)
  | String c rest => String c (simple_decode rest)
  | "" => ""
  end.

#[local] Instance simple_axum : AxumLib := {|
  ax_match := first_match;
  ax_decode := fun s => Some (simple_decode s);
  json_login_input := fun _ _ => Err 415;
  json_account_input := fun _ _ => Err 415;
  json_credential_input := fun _ body => ok_or body 400;
  json_enabled_input := fun _ body => match body with Some "true" => Ok true | Some "false" => Ok false | _ => Err 422 end
|}.

#[local] Instance simple_axum_laws : AxumLaws simple_axum.
Proof. split; [apply first_match_Some|apply first_match_complete]. Qed.

Definition route_to (method path : string) : dispatched := route_request (A := simple_axum) method path.

(** The documented requests reach their handlers; others are 404 or 405. *)
Example documented_routes :
  [route_to "GET" "/health"; route_to "POST" "/v1/messages"; route_to "PUT" "/session/s1/v1/messages/count_tokens";
   route_to "GET" "/admin/"; route_to "POST" "/admin/api/v1/accounts"; route_to "GET" "/admin/api/v1/accounts";
   route_to "DELETE" "/admin/api/v1/accounts/a"; route_to "PUT" "/admin/api/v1/accounts/a/enabled";
   route_to "GET" "/admin/api/v1/accounts/a"; route_to "POST" "/v1/"; route_to "GET" "/session//v1"]
  = [Handler Health []; Handler ProxyV1 ["messages"]; Handler ProxySessionV1 ["s1"; "messages/count_tokens"];
     Handler AdminDashboard []; Handler AdminCreateAccountApi []; Handler AdminAccountsApi [];
     Handler AdminDeleteAccountApi ["a"]; Handler AdminSetAccountEnabledApi ["a"];
     WrongMethod; NoRoute; NoRoute].
Proof. vm_compute. reflexivity. Qed.

(** The path that is passed on is the decoded one: an escaped slash becomes a separator
    and an escaped question mark starts a query. *)
Definition passed_path (path : string) : option string :=
  match route_to "POST" path with
  | Handler h params => params' ← mapM ax_decode params; route_path <$> endpoint_route h params'
  | _ => None
  end.

Example escaped_path_is_decoded :
  [passed_path "/v1/files/a%2Fb"; passed_path "/v1/messages%3Fbeta=true"]
  = [Some "/v1/files/a/b"; Some "/v1/messages?beta=true"].
Proof. vm_compute. reflexivity. Qed.

Abbreviation sample_application := (application (A := simple_axum) crc32_ieee (fun _ => None) (fun _ => None)
  (fun _ => "") (fun _ => "") sample_box example_manager sample_runtime (fun _ => true) sample_plane "0.1.0" None).

(** An administrator pauses account "a". *)
Definition pause_request (method : string) : HttpRequest :=
  {| hr_method := method; hr_uri := (None, "/admin/api/v1/accounts/a/enabled", None); hr_headers := sample_headers;
     hr_body := Some "false" |}.

Definition no_metrics : MetricsSnapshot :=
  {| requests_total := 0; authentication_failures_total := 0; upstream_failures_total := 0; responses_total := 0 |}.

Definition answered_status (out : option served) : option Z :=
  match out with
  | Some (Answered (AdminReply r) _) => Some (rsp_status r)
  | Some (Answered (PageReply status _ | Refused status) _) => Some status
  | _ => None
  end.

Example pause_over_http :
  (answered_status (sample_application sample_state sample_env no_metrics "127.0.0.1" (pause_request "PUT")),
   answered_status (sample_application sample_state sample_env no_metrics "127.0.0.1" (pause_request "POST")))
  = (Some 204, Some 405).
Proof. vm_compute. reflexivity. Qed.

Lemma application_is_gated_witness :
  exists out, sample_application sample_state sample_env no_metrics "127.0.0.1" (pause_request "PUT") = Some out /\
    forall program, out <> Forwarded program.
Proof.
  destruct (application_is_gated (A := simple_axum) crc32_ieee (fun _ => None) (fun _ => None) (fun _ => "") (fun _ => "")
    sample_box example_manager sample_runtime (fun _ => true) sample_plane "0.1.0" None sample_state sample_env
    no_metrics "127.0.0.1" (pause_request "PUT")) as (out & Hrun & [_ Hforward]).
  - split; vm_compute; [discriminate|reflexivity].
  - exists out. split; [exact Hrun|]. intros program Hout.
    pose proof pause_over_http as Hs. rewrite Hrun, Hout in Hs. discriminate Hs.
Defined.
End Witnesses.
