(* ===== verification/Config.v ===== *)
(** * Configuration (src/src/config.rs)

    The TOML configuration with its defaults, the environment override of the
    authentication mode, and validation.  The TOML deserialiser is a parameter that
    yields the fields as written ([None] for one that is absent); serde's [default]
    attributes are [with_defaults].  [SocketAddr::from_str] of the standard library is
    modelled. *)
From S2P Require Import Prelude Interfaces Auth Egress.

(** ** std::net: socket addresses *)

Definition read_port (s : string) : option (Z * string) :=
  strip_prefix ":" s ≫= read_number 10 (String.length s) true U16_MAX.

(** [read_scope_id().unwrap_or(0)]. *)
Definition read_scope_id (s : string) : Z * string :=
  default (0, s) (strip_prefix "%" s ≫= read_number 10 (String.length s) true U32_MAX).

Definition read_socket_addr_v4 (s : string) : option ((SocketAddr * Z) * string) :=
  '(octets, s) ← read_ipv4_addr s;
  '(p, s) ← read_port s;
  Some (({| ip := V4 octets; port := p |}, 0), s).

Definition read_socket_addr_v6 (s : string) : option ((SocketAddr * Z) * string) :=
  s ← strip_prefix "[" s;
  '(segments, s) ← read_ipv6_addr s;
  let '(scope_id, s) := read_scope_id s in
  s ← strip_prefix "]" s;
  '(p, s) ← read_port s;
  Some (({| ip := V6 segments; port := p |}, scope_id), s).

(** The address and the scope of an IPv6 address; the whole text must be consumed. *)
Definition socket_addr_from_str (s : string) : option (SocketAddr * Z) :=
  '(address, rest) ← option_or (read_socket_addr_v4 s) (read_socket_addr_v6 s);
  if string_is_empty rest then Some address else None.

Example socket_addr_v4 :
  socket_addr_from_str "127.0.0.1:8080" = Some ({| ip := V4 (127, 0, 0, 1); port := 8080 |}, 0).
Proof. reflexivity. Qed.
Example socket_addr_v6 :
  socket_addr_from_str "[fe80::1%3]:80"
  = Some ({| ip := V6 [65152; 0; 0; 0; 0; 0; 0; 1]; port := 80 |}, 3).
Proof. reflexivity. Qed.
Example socket_addr_rejects :
  map socket_addr_from_str ["localhost:80"; "127.0.0.1"; "127.0.0.1:65536"; "::1:80"; "127.0.0.1:80 "]
  = [None; None; None; None; None].
Proof. reflexivity. Qed.

(** ** Data *)

Record ServerConfig := {
  server_bind : string;
  server_max_request_bytes : Z;                       (* usize *)
  allowed_upstream_hosts : list string
}.

Record ForwardProxyConfig := {
  forward_enabled : bool;
  forward_bind : string;
  ca_cert_path : string;
  ca_key_path : string;
  forward_allowed_hosts : list string
}.

Record AuthConfig := { config_mode : AuthMode; mode_locked_by_environment : bool }.

Record StorageConfig := { database_path : string; master_key_env : string }.

Record AdminConfig := {
  config_username : string;
  bootstrap_password_env : string;
  config_secure_cookies : bool
}.

Record TelemetryConfig := { audit_retention_days : Z }.   (* u16 *)

Record Config := {
  server : ServerConfig;
  forward_proxy : ForwardProxyConfig;
  auth : AuthConfig;
  storage : StorageConfig;
  admin : AdminConfig;
  telemetry : TelemetryConfig
}.

Inductive ConfigError := ParseError (text : string) | Invalid (text : string).

(** ** Defaults *)

Definition default_max_request_bytes : Z := 32 * 1024 * 1024.
Definition default_forward_bind : string := "127.0.0.1:8081".
Definition default_ca_cert_path : string := "state/llmap-ca.pem".
Definition default_ca_key_path : string := "state/llmap-ca-key.pem".
Definition default_allowed_hosts : list string :=
  ["api.anthropic.com"; "bedrock-runtime.*.amazonaws.com"].
Definition default_secure_cookies : bool := true.
Definition default_audit_retention_days : Z := 30.

(** A [forward_proxy] table as written, and a whole file. *)
Record ForwardProxyTable := {
  raw_enabled : option bool;
  raw_bind : option string;
  raw_ca_cert_path : option string;
  raw_ca_key_path : option string;
  raw_allowed_hosts : option (list string)
}.

Record ConfigTable := {
  raw_server_bind : string;
  raw_max_request_bytes : option Z;
  raw_upstream_hosts : option (list string);
  raw_forward_proxy : option ForwardProxyTable;
  raw_mode : AuthMode;
  raw_storage : StorageConfig;
  raw_username : string;
  raw_password_env : string;
  raw_secure_cookies : option bool;
  raw_telemetry : option (option Z)
}.

Definition default_forward_proxy : ForwardProxyConfig :=
  {| forward_enabled := false; forward_bind := default_forward_bind;
     ca_cert_path := default_ca_cert_path; ca_key_path := default_ca_key_path;
     forward_allowed_hosts := default_allowed_hosts |}.

Definition forward_with_defaults (t : ForwardProxyTable) : ForwardProxyConfig :=
  {| forward_enabled := default false (raw_enabled t);
     forward_bind := default default_forward_bind (raw_bind t);
     ca_cert_path := default default_ca_cert_path (raw_ca_cert_path t);
     ca_key_path := default default_ca_key_path (raw_ca_key_path t);
     forward_allowed_hosts := default default_allowed_hosts (raw_allowed_hosts t) |}.

Definition with_defaults (t : ConfigTable) : Config :=
  {| server := {| server_bind := raw_server_bind t;
                  server_max_request_bytes := default default_max_request_bytes (raw_max_request_bytes t);
                  allowed_upstream_hosts := default default_allowed_hosts (raw_upstream_hosts t) |};
     forward_proxy := match raw_forward_proxy t with
                      | Some table => forward_with_defaults table
                      | None => default_forward_proxy
                      end;
     auth := {| config_mode := raw_mode t; mode_locked_by_environment := false |};
     storage := raw_storage t;
     admin := {| config_username := raw_username t; bootstrap_password_env := raw_password_env t;
                 config_secure_cookies := default default_secure_cookies (raw_secure_cookies t) |};
     telemetry := {| audit_retention_days :=
                       match raw_telemetry t with
                       | Some days => default default_audit_retention_days days
                       | None => default_audit_retention_days
                       end |} |}.

(** ** Validation *)

Definition require_value (field value : string) : result unit ConfigError :=
  if string_is_empty (trim value) then Err (Invalid (field +:+ " cannot be empty")) else Ok tt.

Definition env_name_char (index : nat) (c : ascii) : bool :=
  is_ascii_uppercase c || (c =? "_")%char || (is_ascii_digit c && (0 <? index)%nat).

Definition require_env_name (field value : string) : result unit ConfigError :=
  let? _ := require_value field value in
  if negb (forallb (fun b => b) (imap env_name_char (list_ascii_of_string value)))
  then Err (Invalid (field +:+ " must name an uppercase environment variable"))
  else Ok tt.

(** [host.trim().is_empty() || host.contains('/') || host.contains(':')] *)
Definition bad_host (host : string) : bool :=
  string_is_empty (trim host) || contains_char "/" host || contains_char ":" host.

Definition require (ok : bool) (text : string) : result unit ConfigError :=
  if ok then Ok tt else Err (Invalid text).

Definition require_hosts (hosts : list string) (text : string) : result unit ConfigError :=
  require (negb (bool_decide (hosts = []) || existsb bad_host hosts)) text.

Definition require_socket_addr (s text : string) : result unit ConfigError :=
  require (bool_decide (is_Some (socket_addr_from_str s))) text.

Definition validate_forward_proxy (c : Config) : result unit ConfigError :=
  let f := forward_proxy c in
  let? _ := require_socket_addr (forward_bind f) "forward_proxy.bind must be an IP socket address" in
  let? _ := require (negb (bool_decide (forward_bind f = server_bind (server c))))
              "server.bind and forward_proxy.bind must be different" in
  let? _ := require_value "forward_proxy.ca_cert_path" (ca_cert_path f) in
  let? _ := require_value "forward_proxy.ca_key_path" (ca_key_path f) in
  require_hosts (forward_allowed_hosts f)
    "forward_proxy.allowed_hosts must contain DNS host names without ports".

Definition validate (c : Config) : result unit ConfigError :=
  let s := server c in
  let? _ := require_socket_addr (server_bind s) "server.bind must be an IP socket address" in
  let? _ := require (negb ((server_max_request_bytes s =? 0)
                           || (256 * 1024 * 1024 <? server_max_request_bytes s)))
              "server.max_request_bytes must be between 1 and 268435456" in
  let? _ := require_hosts (allowed_upstream_hosts s)
              "server.allowed_upstream_hosts must contain DNS host names without ports" in
  let? _ := if forward_enabled (forward_proxy c) then validate_forward_proxy c else Ok tt in
  let? _ := require_value "storage.database_path" (database_path (storage c)) in
  let? _ := require_env_name "storage.master_key_env" (master_key_env (storage c)) in
  let? _ := require_value "admin.username" (config_username (admin c)) in
  let? _ := require_env_name "admin.bootstrap_password_env" (bootstrap_password_env (admin c)) in
  let? _ := require (negb (bool_decide (master_key_env (storage c) = bootstrap_password_env (admin c))))
              "master key and admin password must use different environment variables" in
  require (negb ((audit_retention_days (telemetry c) =? 0)
                 || (365 <? audit_retention_days (telemetry c))))
    "telemetry.audit_retention_days must be between 1 and 365".

Definition parse_mode (mode : string) : option AuthMode :=
  let mode := to_ascii_lowercase (trim mode) in
  if bool_decide (mode = "off") then Some Off
  else if bool_decide (mode = "observe") then Some Observe
  else if bool_decide (mode = "enforce") then Some Enforce
  else None.

Definition with_mode (c : Config) (mode : AuthMode) : Config :=
  {| server := server c; forward_proxy := forward_proxy c;
     auth := {| config_mode := mode; mode_locked_by_environment := true |};
     storage := storage c; admin := admin c; telemetry := telemetry c |}.

Section FromToml.
Context (toml_from_str : string -> result ConfigTable string).

Definition from_toml_with_env (source : string) (environment : gmap string string) :
    result Config ConfigError :=
  let? table := map_err ParseError (toml_from_str source) in
  let config := with_defaults table in
  let? config := match environment !! "LLMAP_AUTH_MODE" with
                 | None => Ok config
                 | Some mode =>
                     let? mode := ok_or (parse_mode mode)
                                    (Invalid "LLMAP_AUTH_MODE must be off, observe, or enforce") in
                     Ok (with_mode config mode)
                 end in
  let? _ := validate config in
  Ok config.
End FromToml.

(** ** What an accepted configuration guarantees *)

(** [[A-Z_][A-Z0-9_]*]. *)
Definition is_env_name (s : string) : Prop :=
  exists c rest, s = String c rest /\ (is_ascii_uppercase c = true \/ c = "_"%char) /\
    forall d, d ∈ list_ascii_of_string rest ->
      is_ascii_uppercase d = true \/ d = "_"%char \/ is_ascii_digit d = true.

Definition is_blank (s : string) : Prop := trim s = "".

(** A host pattern: not blank, no port, no path. *)
Definition is_host_pattern (s : string) : Prop :=
  ~ is_blank s /\ "/"%char ∉ list_ascii_of_string s /\ ":"%char ∉ list_ascii_of_string s.

Definition are_host_patterns (l : list string) : Prop := l <> [] /\ Forall is_host_pattern l.

Definition is_socket_addr (s : string) : Prop := exists a, socket_addr_from_str s = Some a.

Record forward_valid (c : Config) : Prop := {
  fv_bind : is_socket_addr (forward_bind (forward_proxy c));
  fv_differs : forward_bind (forward_proxy c) <> server_bind (server c);
  fv_cert : ~ is_blank (ca_cert_path (forward_proxy c));
  fv_key : ~ is_blank (ca_key_path (forward_proxy c));
  fv_hosts : are_host_patterns (forward_allowed_hosts (forward_proxy c))
}.

Record config_valid (c : Config) : Prop := {
  cv_bind : is_socket_addr (server_bind (server c));
  cv_limit : 1 <= server_max_request_bytes (server c) <= 268435456;
  cv_hosts : are_host_patterns (allowed_upstream_hosts (server c));
  cv_forward : forward_enabled (forward_proxy c) = true -> forward_valid c;
  cv_database : ~ is_blank (database_path (storage c));
  cv_master_key : is_env_name (master_key_env (storage c));
  cv_username : ~ is_blank (config_username (admin c));
  cv_password : is_env_name (bootstrap_password_env (admin c));
  cv_secrets_differ : master_key_env (storage c) <> bootstrap_password_env (admin c);
  cv_retention : 1 <= audit_retention_days (telemetry c) <= 365
}.

(** The integers fit the fields' types. *)
Definition table_typed (t : ConfigTable) : Prop :=
  (forall n, raw_max_request_bytes t = Some n -> 0 <= n) /\
  (forall n, raw_telemetry t = Some (Some n) -> 0 <= n <= U16_MAX).

Definition config_typed (c : Config) : Prop :=
  0 <= server_max_request_bytes (server c) /\ 0 <= audit_retention_days (telemetry c).

Lemma with_defaults_typed t : table_typed t -> config_typed (with_defaults t).
Proof.
  intros [Hmax Hdays]. unfold config_typed, default_max_request_bytes, default_audit_retention_days. cbn. split.
  - destruct (raw_max_request_bytes t) as [n|]; cbn; [by apply Hmax|done].
  - destruct (raw_telemetry t) as [[n|]|]; cbn; [by apply (Hdays n)|done|done].
Qed.

(** Sequencing of checks. *)
Lemma seq_Ok {T E} (a : result unit E) (k : result T E) (x : T) :
  (let? _ := a in k) = Ok x <-> a = Ok tt /\ k = Ok x.
Proof. destruct a as [[]|]; split; [done|by intros []|done|by intros []]. Qed.

Lemma require_Ok ok text : require ok text = Ok tt <-> ok = true.
Proof. by destruct ok. Qed.

Lemma require_value_Ok field v : require_value field v = Ok tt <-> ~ is_blank v.
Proof. unfold require_value, is_blank. by destruct (trim v). Qed.

Lemma require_socket_addr_Ok s text : require_socket_addr s text = Ok tt <-> is_socket_addr s.
Proof. unfold require_socket_addr. by rewrite require_Ok, bool_decide_eq_true. Qed.

Lemma contains_char_elem c s : contains_char c s = true <-> c ∈ list_ascii_of_string s.
Proof.
  induction s as [|d s IH]; cbn; [set_solver|].
  rewrite orb_true_iff, IH, elem_of_cons, Ascii.eqb_eq. naive_solver.
Qed.

Lemma bad_host_false h : bad_host h = false <-> is_host_pattern h.
Proof.
  unfold bad_host, is_host_pattern, is_blank. rewrite !orb_false_iff, <- !contains_char_elem, <- !not_true_iff_false.
  destruct (trim h); naive_solver.
Qed.

Lemma require_hosts_Ok hosts text : require_hosts hosts text = Ok tt <-> are_host_patterns hosts.
Proof.
  unfold require_hosts, are_host_patterns. rewrite require_Ok, negb_true_iff, orb_false_iff, bool_decide_eq_false.
  assert (Hall : existsb bad_host hosts = false <-> Forall is_host_pattern hosts); [|by rewrite Hall].
  rewrite <- not_true_iff_false, existsb_elem, Forall_forall.
  setoid_rewrite <- bad_host_false. setoid_rewrite <- not_true_iff_false. naive_solver.
Qed.

Lemma env_name_chars (n : nat) (l : list ascii) :
  forallb (fun b => b) (imap (fun i => env_name_char (S n + i)) l) = true <->
  forall d, d ∈ l -> is_ascii_uppercase d = true \/ d = "_"%char \/ is_ascii_digit d = true.
Proof.
  revert n. induction l as [|c l IH]; intros n; cbn [imap forallb]; [by set_solver|].
  rewrite andb_true_iff.
  rewrite (imap_ext _ (fun i => env_name_char (S (S n) + i)) l) by (intros; cbn; f_equal; lia).
  rewrite IH. unfold env_name_char at 1. rewrite andb_true_r, !orb_true_iff, Ascii.eqb_eq, Logic.or_assoc. split.
  - intros [Hc Hl] d [->|Hd]%elem_of_cons; [done|by apply Hl].
  - intros Hall. split; [apply Hall; by left|]. intros d Hd. apply Hall. by right.
Qed.

(** An environment name is not blank: its first character is not whitespace. *)
Lemma env_char_not_blank (c : ascii) (rest : string) :
  is_ascii_uppercase c = true \/ c = "_"%char -> ~ is_blank (String c rest).
Proof.
  intros Hc Hblank. destruct (trim_removes (String c rest)) as (pre & post & Hs & Hpre & Hpost).
  rewrite Hblank in Hs. cbn in Hs.
  assert (Hall : string_all whitespace_byte (String c rest) = true) by (rewrite Hs, string_all_app; by rewrite Hpre).
  cbn [string_all] in Hall. apply andb_true_iff in Hall as [Hw _]. destruct Hc as [Hc| ->]; [|discriminate Hw].
  destruct c as [[] [] [] [] [] [] [] []]; discriminate.
Qed.

Lemma require_env_name_Ok field v : require_env_name field v = Ok tt <-> is_env_name v.
Proof.
  unfold require_env_name. rewrite seq_Ok, require_value_Ok. unfold is_env_name. destruct v as [|c rest].
  { split; [|by intros (? & ? & [=] & _)]. intros [Hb _]. by destruct Hb. }
  assert (Hchars : (if negb (forallb (fun b => b) (imap env_name_char (list_ascii_of_string (String c rest))))
                    then Err (Invalid (field +:+ " must name an uppercase environment variable")) else Ok tt)
                   = Ok tt <->
                   env_name_char 0 c = true /\ forall d, d ∈ list_ascii_of_string rest ->
                     is_ascii_uppercase d = true \/ d = "_"%char \/ is_ascii_digit d = true).
  { rewrite <- (env_name_chars 0), <- andb_true_iff. cbn [list_ascii_of_string imap forallb].
    change (env_name_char ∘ S) with (fun i => env_name_char (1 + i)). by destruct (_ && _). }
  rewrite Hchars. unfold env_name_char at 1. rewrite andb_false_r, orb_false_r, orb_true_iff, Ascii.eqb_eq. split.
  - intros (_ & Hc & Hrest). by exists c, rest.
  - intros (? & ? & [= <- <-] & Hc & Hrest). split; [by apply env_char_not_blank|done].
Qed.

Lemma validate_forward_Ok c : validate_forward_proxy c = Ok tt <-> forward_valid c.
Proof.
  unfold validate_forward_proxy. rewrite !seq_Ok, require_socket_addr_Ok, !require_value_Ok, require_hosts_Ok,
    require_Ok, negb_true_iff, bool_decide_eq_false.
  split; [intros (? & ? & ? & ? & ?); by constructor|intros []; auto].
Qed.

Lemma validate_Ok c : config_typed c -> validate c = Ok tt <-> config_valid c.
Proof.
  intros [Hmax Hdays]. unfold validate.
  rewrite !seq_Ok, require_socket_addr_Ok, !require_value_Ok, require_hosts_Ok, !require_env_name_Ok,
    !require_Ok, !negb_true_iff, !orb_false_iff, bool_decide_eq_false, !Z.eqb_neq, !Z.ltb_ge.
  assert (Hf : (if forward_enabled (forward_proxy c) then validate_forward_proxy c else Ok tt) = Ok tt <->
    (forward_enabled (forward_proxy c) = true -> forward_valid c)).
  { rewrite <- validate_forward_Ok. destruct (forward_enabled _); naive_solver. }
  rewrite Hf. split.
  - intros (? & ? & ? & ? & ? & ? & ? & ? & ? & ?). constructor; try done; lia.
  - intros []. split_and!; try done; lia.
Qed.

(** ** Loading *)

Definition mode_name (m : AuthMode) : string :=
  match m with Off => "off" | Observe => "observe" | Enforce => "enforce" end.

Lemma parse_mode_Some text m : parse_mode text = Some m <-> to_ascii_lowercase (trim text) = mode_name m.
Proof.
  unfold parse_mode. generalize (to_ascii_lowercase (trim text)). intros w.
  destruct m; cbn [mode_name]; repeat case_bool_decide; split; congruence.
Qed.

(** The mode comes from the environment when it is set there, and only then the
    control plane shows it as locked; everything else comes from the file. *)
Record loaded_from (t : ConfigTable) (mode : option AuthMode) (c : Config) : Prop := {
  lf_server : server c = server (with_defaults t);
  lf_forward : forward_proxy c = forward_proxy (with_defaults t);
  lf_mode : config_mode (auth c) = default (raw_mode t) mode;
  lf_locked : mode_locked_by_environment (auth c) = bool_decide (is_Some mode);
  lf_storage : storage c = raw_storage t;
  lf_admin : admin c = admin (with_defaults t);
  lf_telemetry : telemetry c = telemetry (with_defaults t)
}.

Lemma loaded_from_unique t mode c :
  loaded_from t mode c <->
  c = match mode with Some m => with_mode (with_defaults t) m | None => with_defaults t end.
Proof.
  split.
  - intros [H1 H2 H3 H4 H5 H6 H7]. destruct c as [s f [m l] st ad te]. cbn in *. subst.
    by destruct mode.
  - intros ->. by destruct mode.
Qed.

(** What is loaded is valid. *)
Lemma from_toml_valid (toml_from_str : string -> result ConfigTable string) source environment c :
  (forall t, toml_from_str source = Ok t -> table_typed t) ->
  from_toml_with_env toml_from_str source environment = Ok c -> config_valid c.
Proof.
  intros Htoml. unfold from_toml_with_env. destruct (toml_from_str source) as [t|]; [|done].
  pose proof (with_defaults_typed t (Htoml t eq_refl)) as Ht. cbn [map_err].
  destruct (environment !! "LLMAP_AUTH_MODE") as [text|];
    [destruct (parse_mode text) as [m|]; cbn [ok_or]; [|done]|]; rewrite seq_Ok, validate_Ok by done;
    by intros [Hv [= <-]].
Qed.

(** Loading, with the check on the listeners as the code makes it, on their texts. *)
Lemma config_accepted (toml_from_str : string -> result ConfigTable string)
    (source : string) (environment : gmap string string) (c : Config)
    (Htoml : forall t, toml_from_str source = Ok t -> table_typed t) :
  from_toml_with_env toml_from_str source environment = Ok c <->
  exists t mode, toml_from_str source = Ok t /\
    match environment !! "LLMAP_AUTH_MODE" with
    | None => mode = None
    | Some text => exists m, mode = Some m /\ to_ascii_lowercase (trim text) = mode_name m
    end /\
    loaded_from t mode c /\ config_valid c.
Proof.
  unfold from_toml_with_env. setoid_rewrite loaded_from_unique.
  destruct (toml_from_str source) as [t|e]; [|by split; [|intros (? & ? & [=] & _)]].
  specialize (Htoml t eq_refl). apply with_defaults_typed in Htoml. cbn [map_err].
  destruct (environment !! "LLMAP_AUTH_MODE") as [text|].
  - destruct (parse_mode text) as [m|] eqn:Hm; cbn [ok_or].
    + rewrite seq_Ok, validate_Ok by done. apply parse_mode_Some in Hm. split.
      * intros [Hv [= <-]]. exists t, (Some m). split_and!; try done. by exists m.
      * intros (t' & mode & [= <-] & (m' & -> & Hm') & -> & Hv).
        rewrite <- parse_mode_Some, (proj2 (parse_mode_Some text m) Hm) in Hm'. injection Hm' as <-. done.
    + split; [done|]. intros (t' & mode & _ & (m' & _ & Hm') & _).
      apply parse_mode_Some in Hm'. congruence.
  - rewrite seq_Ok, validate_Ok by done. split.
    + intros [Hv [= <-]]. by exists t, None.
    + by intros (t' & mode & [= <-] & -> & -> & Hv).
Qed.

(** The forward and reverse sockets differ, as docs/configuration.md asks. *)
Definition sockets_differ (c : Config) : Prop :=
  forward_enabled (forward_proxy c) = true ->
  socket_addr_from_str (forward_bind (forward_proxy c)) <> socket_addr_from_str (server_bind (server c)).

(** One socket is not written in two ways ([equal_listeners_accepted] is such a file). *)
Definition one_spelling (c : Config) : Prop :=
  socket_addr_from_str (forward_bind (forward_proxy c)) = socket_addr_from_str (server_bind (server c)) ->
  forward_bind (forward_proxy c) = server_bind (server c).

(** C30.  The service starts only with a sound configuration, and refuses no sound one:
    for a file that does not write one socket in two ways, loading succeeds exactly when
    the file parses, an [LLMAP_AUTH_MODE] in the environment names a mode (up to case and
    surrounding whitespace), and the result is valid: socket addresses parse, the sockets
    of the two listeners differ, the request limit is 1 to 268435456 bytes, every host
    pattern is non-blank without port or path, the secrets come from two different
    upper-case environment variables, and audit rows are kept 1 to 365 days.  The
    environment's mode wins over the file's and locks it. *)
Theorem config_accepted_iff_valid (toml_from_str : string -> result ConfigTable string)
    (source : string) (environment : gmap string string) (c : Config)
    (Htoml : forall t, toml_from_str source = Ok t -> table_typed t)
    (Hspelling : forall t, toml_from_str source = Ok t -> one_spelling (with_defaults t)) :
  from_toml_with_env toml_from_str source environment = Ok c <->
  exists t mode, toml_from_str source = Ok t /\
    match environment !! "LLMAP_AUTH_MODE" with
    | None => mode = None
    | Some text => exists m, mode = Some m /\ to_ascii_lowercase (trim text) = mode_name m
    end /\
    loaded_from t mode c /\ config_valid c /\ sockets_differ c.
Proof.
  rewrite config_accepted by done. split.
  - intros (t & mode & Ht & Hmode & Hl & Hv). exists t, mode. split_and!; try done. intros Hen Heq.
    specialize (Hspelling t Ht). unfold one_spelling in Hspelling. rewrite <- (lf_forward _ _ _ Hl), <- (lf_server _ _ _ Hl) in Hspelling.
    exact (fv_differs c (cv_forward c Hv Hen) (Hspelling Heq)).
  - intros (t & mode & Ht & Hmode & Hl & Hv & _). by exists t, mode.
Qed.

(** ** Examples *)

Definition sample_table : ConfigTable :=
  {| raw_server_bind := "127.0.0.1:8080"; raw_max_request_bytes := None; raw_upstream_hosts := None;
     raw_forward_proxy := Some {| raw_enabled := Some true; raw_bind := None; raw_ca_cert_path := None;
                                  raw_ca_key_path := None; raw_allowed_hosts := None |};
     raw_mode := Observe;
     raw_storage := {| database_path := "state/llmap.db"; master_key_env := "LLMAP_MASTER_KEY" |};
     raw_username := "admin"; raw_password_env := "LLMAP_ADMIN_PASSWORD";
     raw_secure_cookies := None; raw_telemetry := None |}.

Definition sample_toml (source : string) : result ConfigTable string :=
  if bool_decide (source = "file") then Ok sample_table else Err "expected a table".

Definition sample_environment : gmap string string := {["LLMAP_AUTH_MODE" := " Enforce "]}.

(** The limits of the loaded sample follow from the theorem. *)
Lemma config_accepted_iff_valid_witness :
  exists c, from_toml_with_env sample_toml "file" sample_environment = Ok c /\
    config_mode (auth c) = Enforce /\ mode_locked_by_environment (auth c) = true /\ config_valid c.
Proof.
  assert (Hload : from_toml_with_env sample_toml "file" sample_environment
                  = Ok (with_mode (with_defaults sample_table) Enforce)) by (vm_compute; reflexivity).
  exists (with_mode (with_defaults sample_table) Enforce). split; [exact Hload|].
  apply config_accepted_iff_valid in Hload as (t & mode & _ & _ & _ & Hvalid & _).
  - split; [reflexivity|]. split; [reflexivity|exact Hvalid].
  - intros t [= <-]. split; intros n [=].
  - intros t [= <-] Heq. vm_compute in Heq. discriminate Heq.
Defined.

(** Two spellings of one address pass the test that the listeners differ. *)
Example equal_listeners_accepted :
  let table := {| raw_server_bind := "127.0.0.1:8080"; raw_max_request_bytes := None;
                  raw_upstream_hosts := None;
                  raw_forward_proxy := Some {| raw_enabled := Some true; raw_bind := Some "127.0.0.1:08080";
                    raw_ca_cert_path := None; raw_ca_key_path := None; raw_allowed_hosts := None |};
                  raw_mode := Enforce; raw_storage := raw_storage sample_table; raw_username := "admin";
                  raw_password_env := "PASSWORD"; raw_secure_cookies := None; raw_telemetry := None |} in
  validate (with_defaults table) = Ok tt /\
  socket_addr_from_str "127.0.0.1:8080" = socket_addr_from_str "127.0.0.1:08080".
Proof. vm_compute. auto. Qed.
