(* ===== verification/System.v ===== *)
(** * The running system

    Clients, the data plane, the router and the store together.  The data plane knows
    the store only as an [AccountRepository] (src/src/data_plane.rs); what it relies on
    is the class [RepositoryContract], and the theorems of the first part are proved
    against it.  The second part shows that the SQLite store (Storage.v) fulfils it.

    A step is one critical section: an effect of one client's handler, answered by the
    store or the router; the arrival or the cancellation of a request; an operation of the store by the control plane or the refresh
    task; and the two halves of [refresh_routes] (src/src/http_app.rs), which reads the
    routes from the store and installs them in the router under another lock. *)
From stdpp Require Import relations.
From S2P Require Import Prelude Interfaces Models Routing Auth Egress Bedrock Secrets Providers DataPlane Storage AuditLog.

(** ** What the data plane asks of a repository *)

Section Interface.
Context `{U : UrlLib} `{L : CryptoLib}.

(** The [bool] is a failure of the store's backend. *)
Class AccountRepository (S : Type) := {
  repo_credential_snapshot : bool -> S -> Authenticator -> DateTime -> result CredentialSnapshot RepositoryError;
  repo_load : bool -> S -> string -> result (ProviderAccount * string) RepositoryError;
  repo_append_proxy_audit : bool -> S -> ProxyAuditRecord -> result unit RepositoryError * S
}.

(** [repo_live s now aid token]: [token] is at [now] a valid credential of the enabled
    account [aid]; [repo_holds s aid account credential]: what is stored under [aid]. *)
Class RepositoryContract (S : Type) `{AccountRepository S} := {
  repo_inv : S -> Prop;
  repo_live : S -> DateTime -> string -> string -> Prop;
  repo_holds : S -> string -> ProviderAccount -> string -> Prop;
  repo_snapshot_live : forall fault s auth now credentials c presented,
    repo_inv s -> repo_credential_snapshot fault s auth now = Ok (Available credentials) ->
    c ∈ credentials -> account_matches presented now c = true ->
    exists token, repo_live s now (cred_account_id c) token /\
      presented = authenticator_digest hmac_sha256 auth token;
  repo_load_holds : forall fault s aid account credential,
    repo_inv s -> repo_load fault s aid = Ok (account, credential) -> repo_holds s aid account credential;
  repo_append_inv : forall fault s record, repo_inv s -> repo_inv (repo_append_proxy_audit fault s record).2
}.

(** A repository that others change, and whose accounts the router is filled from. *)
Class ManagedRepository (S : Type) `{RepositoryContract S} := {
  repo_initial : S -> Prop;
  repo_initial_inv : forall s, repo_initial s -> repo_inv s;
  repo_step : S -> S -> Prop;
  repo_routes : S -> list RouteAccount -> Prop;
  repo_step_inv : forall s s', repo_inv s -> repo_step s s' -> repo_inv s';
  repo_routes_idle : forall s l, repo_routes s l ->
    Forall (fun a => account_typed a /\ Routing.in_flight a = 0) l
}.
End Interface.

(** ** Steps *)

Section System.
Context `{U : UrlLib} `{H : HeaderLib} `{L : CryptoLib} `{J : JsonLib}.
Context (crc32 : bytes -> Z) (base64_decode : string -> option bytes)
        (parse_aws_envelope : string -> option AwsCredentialEnvelope)
        (format_date format_amz_date : DateTime -> string).
Context {S : Type} `{R : !AccountRepository S} `{K : !RepositoryContract S} `{M : !ManagedRepository S}.

Abbreviation handler := (prog (option (result ProxyResponse DataPlaneError))).
Abbreviation handle' := (handle crc32 base64_decode parse_aws_envelope format_date format_amz_date).

(** A client's request, the account whose load it holds, what happened so far and what
    is left of its handler. *)
Record client := {
  c_request : ProxyRequest;
  c_held : option string;
  c_hist : list event;
  c_prog : handler
}.

(** [s_dropped]: the requests that were cancelled, as they were then; [s_past]: every
    state the store has been in. *)
Record system := {
  s_store : S;
  s_router : Router;
  s_reloads : list (list RouteAccount);
  s_clients : list client;
  s_dropped : list client;
  s_past : list S
}.

Definition set_store (s : system) (store : S) : system :=
  {| s_store := store; s_router := s_router s; s_reloads := s_reloads s; s_clients := s_clients s;
     s_dropped := s_dropped s; s_past := store :: s_past s |}.
Definition set_router (s : system) (r : Router) : system :=
  {| s_store := s_store s; s_router := r; s_reloads := s_reloads s; s_clients := s_clients s;
     s_dropped := s_dropped s; s_past := s_past s |}.
Definition set_reloads (s : system) (l : list (list RouteAccount)) : system :=
  {| s_store := s_store s; s_router := s_router s; s_reloads := l; s_clients := s_clients s;
     s_dropped := s_dropped s; s_past := s_past s |}.
Definition set_clients (s : system) (l : list client) : system :=
  {| s_store := s_store s; s_router := s_router s; s_reloads := s_reloads s; s_clients := l;
     s_dropped := s_dropped s; s_past := s_past s |}.
Definition set_dropped (s : system) (l : list client) : system :=
  {| s_store := s_store s; s_router := s_router s; s_reloads := s_reloads s; s_clients := s_clients s;
     s_dropped := l; s_past := s_past s |}.

(** How the store answers an effect; the others leave it alone. *)
Definition store_answers (dp : DataPlane) (store : S) (e : effect) : answer e -> S -> Prop :=
  match e return answer e -> S -> Prop with
  | ESnapshot now => fun x store' => store' = store /\
      exists fault, x = repo_credential_snapshot fault store (authenticator dp) now
  | ELoad aid => fun x store' => store' = store /\ exists fault, x = repo_load fault store aid
  | EAudit record => fun x store' => exists fault, (x, store') = repo_append_proxy_audit fault store record
  | _ => fun _ store' => store' = store
  end.

Definition arrived (dp : DataPlane) (request : ProxyRequest) : client :=
  {| c_request := request; c_held := None; c_hist := []; c_prog := handle' dp request |}.

Definition after_effect (c : client) (e : effect) (x : answer e) (k : answer e -> handler) : client :=
  {| c_request := c_request c; c_held := held_after e x (c_held c); c_hist := c_hist c ++ [ev e x];
     c_prog := k x |}.

(** One effect of client [i]. *)
Inductive effect_step (dp : DataPlane) (i : nat) (s : system) : system -> Prop :=
| es_effect c e k x store' r' :
    s_clients s !! i = Some c -> c_prog c = Do e k ->
    store_answers dp (s_store s) e x store' -> exec (s_router s) e x r' ->
    effect_step dp i s (set_clients (set_router (set_store s store') r')
                          (<[i := after_effect c e x k]> (s_clients s))).

Inductive system_step (dp : DataPlane) (s : system) : system -> Prop :=
| sy_effect i s' : effect_step dp i s s' -> system_step dp s s'
| sy_arrive request : system_step dp s (set_clients s (arrived dp request :: s_clients s))
| sy_drop i c : s_clients s !! i = Some c ->
    system_step dp s (set_dropped (set_clients s (delete i (s_clients s))) (c :: s_dropped s))
| sy_store store' : repo_step (s_store s) store' -> system_step dp s (set_store s store')
| sy_read_routes l : repo_routes (s_store s) l -> system_step dp s (set_reloads s (l :: s_reloads s))
| sy_install i l : s_reloads s !! i = Some l ->
    system_step dp s (set_reloads (set_router s (replace_accounts (s_router s) l)) (delete i (s_reloads s)))
| sy_reset aid : system_step dp s (set_router s (reset_account_health (s_router s) aid).1)
| sy_count now : system_step dp s (set_router s (session_count (s_router s) now).1).

Inductive system_reachable (dp : DataPlane) : system -> Prop :=
| system_start store l :
    repo_initial store -> repo_routes store l ->
    system_reachable dp {| s_store := store; s_router := router_new l; s_reloads := []; s_clients := [];
                           s_dropped := []; s_past := [store] |}
| system_next s s' : system_reachable dp s -> system_step dp s s' -> system_reachable dp s'.

(** ** Refinement: the components as seen from the system *)

Definition pool_of (s : system) : pool :=
  {| pool_router := s_router s; threads := map (fun c => (c_held c, c_prog c)) (s_clients s);
     dropped := map c_held (s_dropped s) |}.

Lemma pool_of_insert s i c c' :
  s_clients s !! i = Some c ->
  map (fun c => (c_held c, c_prog c)) (<[i := c']> (s_clients s))
  = <[i := (c_held c', c_prog c')]> (threads (pool_of s)).
Proof. intros Hi. apply (list_fmap_insert (fun c => (c_held c, c_prog c))). Qed.

Lemma threads_lookup s i c : s_clients s !! i = Some c -> threads (pool_of s) !! i = Some (c_held c, c_prog c).
Proof. intros Hi. cbn. rewrite list_lookup_fmap, Hi. done. Qed.

(** Lists read from the store have counters at zero. *)
Definition idle_routes (l : list RouteAccount) : Prop :=
  Forall (fun a => account_typed a /\ Routing.in_flight a = 0) l.

Lemma idle_typed l : idle_routes l -> Forall account_typed l.
Proof. intros Hl. eapply Forall_impl; [exact Hl|]. by intros a [Ht _]. Qed.
Lemma idle_zero l : idle_routes l -> Forall (fun a => Routing.in_flight a = 0) l.
Proof. intros Hl. eapply Forall_impl; [exact Hl|]. by intros a [_ Hz]. Qed.

Lemma exec_router_step r e x r' : exec r e x r' -> r' = r \/ router_step r r'.
Proof.
  destruct e as [| | | | | |request now|aid|aid o|]; cbn; intros Hx; try (by left); right.
  - replace r' with (choose r request now).1 by by rewrite <- Hx. constructor.
  - replace r' with (start_request r aid).1 by by rewrite <- Hx. constructor.
  - replace r' with (record_outcome r aid o).1 by by rewrite <- Hx. constructor.
Qed.

(** Every step of the system is one of the pool of requests, or not visible there. *)
Lemma system_refines_pool dp s s' :
  Forall idle_routes (s_reloads s) -> system_step dp s s' ->
  pool_of s' = pool_of s \/
  pool_step crc32 base64_decode parse_aws_envelope format_date format_amz_date dp (pool_of s) (pool_of s').
Proof.
  intros Hidle Hstep.
  destruct Hstep as [i s' [c e k x store' r' Hi Hp _ Hx]|request|i c Hi|store' _|l _|i l Hl|aid|now]; try (by left); right.
  - pose proof (threads_lookup s i c Hi) as Ht. rewrite Hp in Ht.
    unfold pool_of at 2. cbn [s_router s_clients set_clients set_router]. rewrite (pool_of_insert s i c) by done.
    by apply (ps_effect _ _ _ _ _ dp (pool_of s) i (c_held c) e k x r').
  - apply ps_spawn.
  - unfold pool_of at 2. cbn [s_router s_clients s_dropped set_clients set_dropped].
    replace (map (fun c => (c_held c, c_prog c)) (delete i (s_clients s))) with (delete i (threads (pool_of s)))
      by by rewrite (list_fmap_delete (fun c => (c_held c, c_prog c))).
    exact (ps_drop _ _ _ _ _ dp (pool_of s) i (c_held c) (c_prog c) (threads_lookup s i c Hi)).
  - apply (ps_reload _ _ _ _ _ dp (pool_of s) l). rewrite Forall_lookup in Hidle. by eapply idle_zero, Hidle.
  - apply (ps_reset _ _ _ _ _ dp (pool_of s) aid).
  - apply (ps_count _ _ _ _ _ dp (pool_of s) now).
Qed.

(** ** The invariant *)

(** What has been read from the store was in it at some time. *)
Definition read_from_past (dp : DataPlane) (past : list S) (v : event) : Prop :=
  match v with
  | existT (ESnapshot now) x => exists store fault, store ∈ past /\
      x = repo_credential_snapshot fault store (authenticator dp) now
  | existT (ELoad aid) x => exists store fault, store ∈ past /\ x = repo_load fault store aid
  | _ => True
  end.

(** The rest of a handler after [hist]: what holds at the end of every execution. *)
Definition client_ok (dp : DataPlane) (past : list S) (c : client) : Prop :=
  all_paths (c_prog c) (c_hist c)
    (fun hist _ => guarded_by touches_account (authorized_in dp (c_request c)) hist /\
                   sends_safe (c_request c) hist) /\
  Forall (read_from_past dp past) (c_hist c).

Record system_inv (dp : DataPlane) (s : system) : Prop := {
  si_past : Forall repo_inv (s_past s) /\ s_store s ∈ s_past s;
  si_reloads : Forall idle_routes (s_reloads s);
  si_router : router_wf (s_router s);
  si_pool : pool_inv (pool_of s);
  si_clients : Forall (client_ok dp (s_past s)) (s_clients s);
  si_dropped : Forall (client_ok dp (s_past s)) (s_dropped s)
}.

Lemma read_from_past_mono dp past past' v :
  past ⊆ past' -> read_from_past dp past v -> read_from_past dp past' v.
Proof.
  intros Hsub. destruct v as [[] x]; cbn; try done; intros (store & fault & Hin & ->); exists store, fault; auto.
Qed.

Lemma client_ok_mono dp past past' c : past ⊆ past' -> client_ok dp past c -> client_ok dp past' c.
Proof.
  intros Hsub [Hp Hr]. split; [done|]. eapply Forall_impl; [exact Hr|]. intros v. by apply read_from_past_mono.
Qed.

Lemma store_answers_past dp store e x store' past :
  store ∈ past -> store_answers dp store e x store' -> read_from_past dp past (ev e x).
Proof.
  intros Hin. destruct e; cbn; try done; intros [_ [fault ->]]; by exists store, fault.
Qed.

Lemma store_answers_inv dp store e x store' :
  repo_inv store -> store_answers dp store e x store' -> repo_inv store'.
Proof.
  intros Hi. destruct e; cbn; try (by intros ->); try (by intros [-> _]).
  intros [fault Heq]. pose proof (repo_append_inv fault store record Hi) as Ha. by rewrite <- Heq in Ha.
Qed.

Lemma arrived_ok dp past request : client_ok dp past (arrived dp request).
Proof.
  split; [|constructor]. cbn [arrived c_prog c_hist c_request].
  eapply all_paths_mono; [|apply all_paths_and; [apply handle_guarded|apply handle_safe]].
  by intros hist out _ [Hg [_ Hs]].
Qed.

Lemma system_step_inv dp s s' : system_inv dp s -> system_step dp s s' -> system_inv dp s'.
Proof.
  intros [[Hpast Hin] Hrel Hrouter Hpool Hclients Hdropped] Hstep.
  assert (Hpool' : pool_inv (pool_of s')).
  { destruct (system_refines_pool dp s s' Hrel Hstep) as [->|Hps]; [done|by eapply pool_step_inv]. }
  assert (Hnow : repo_inv (s_store s)) by (rewrite Forall_forall in Hpast; by apply Hpast).
  assert (Hsub : forall store, s_past s ⊆ store :: s_past s) by set_solver.
  assert (Hmono : forall store, Forall (client_ok dp (store :: s_past s)) (s_clients s)).
  { intros store. eapply Forall_impl; [exact Hclients|]. intros c. by apply client_ok_mono. }
  assert (Hmono' : forall store, Forall (client_ok dp (store :: s_past s)) (s_dropped s)).
  { intros store. eapply Forall_impl; [exact Hdropped|]. intros c. by apply client_ok_mono. }
  destruct Hstep as [i s' [c e k x store' r' Hi Hp Hst Hx]|request|i c Hi|store' Hst|l Hl|i l Hl|aid|now];
    (split; cbn; [try done|try done|try done|done|try done|try done]).
  - split; [|by left]. constructor; [by eapply store_answers_inv|done].
  - destruct (exec_router_step _ _ _ _ Hx) as [->|Hrs]; [done|by eapply wf_step].
  - apply Forall_insert; [apply Hmono|].
    pose proof (proj1 (Forall_lookup _ _) (Hmono store') _ _ Hi) as [Hall Hread]. rewrite Hp in Hall. split; cbn.
    + exact (Hall x).
    + apply Forall_app. split; [done|]. constructor; [|done].
      eapply store_answers_past; [|exact Hst]. by right.
  - constructor; [apply arrived_ok|done].
  - by apply Forall_delete.
  - constructor; [|done]. exact (Forall_lookup_1 _ _ _ _ Hclients Hi).
  - split; [|by left]. constructor; [by eapply repo_step_inv|done].
  - constructor; [by eapply repo_routes_idle|done].
  - by apply Forall_delete.
  - apply wf_replace; [done|]. rewrite Forall_lookup in Hrel. by eapply idle_typed, Hrel.
  - by apply wf_reset.
  - by apply wf_count.
Qed.

Lemma system_reachable_inv dp s : system_reachable dp s -> system_inv dp s.
Proof.
  induction 1 as [store l Hs Hl|s s' _ IH Hstep]; [|by eapply system_step_inv].
  apply repo_routes_idle in Hl. apply repo_initial_inv in Hs.
  split; cbn; [by split; [constructor|left]|constructor| | |constructor|constructor].
  - by apply wf_new, idle_typed.
  - split; cbn; [constructor|]. intros aid a [Hin _]%collect_accounts_lookup.
    apply idle_zero in Hl. rewrite Forall_forall in Hl. rewrite (Hl a Hin). unfold taken, holders, leaked. cbn. lia.
Qed.

(** ** Executions that are still running *)

Definition some_answer (e : effect) : answer e :=
  match e return answer e with
  | ECount _ => tt
  | ENow | EElapsed => 0
  | ESnapshot _ | ELoad _ | EAudit _ => Err RepoUnavailable
  | EChoose _ _ | EStart _ | ERecord _ _ => Err NoEligibleAccount
  | ESend _ => Err TransportFailed
  end.

Lemma all_paths_complete {A} (p : prog A) hist (Post : list event -> A -> Prop) :
  all_paths p hist Post -> exists rest a, Post (hist ++ rest) a.
Proof.
  revert hist. induction p as [a|e k IH]; cbn; intros hist Hp; [exists [], a; by rewrite app_nil_r|].
  destruct (IH (some_answer e) _ (Hp (some_answer e))) as (rest & a & Ha).
  exists ([ev e (some_answer e)] ++ rest), a. by rewrite app_assoc.
Qed.

(** What an upstream request of a client, finished or not, came after. *)
Lemma client_send_inv dp past c before r x after :
  client_ok dp past c -> c_hist c = before ++ ev (ESend r) x :: after ->
  authorized_in dp (c_request c) before /\
  exists aid account credential, ev (ELoad aid) (Ok (account, credential)) ∈ before /\
    upstream_safe (c_request c) account credential r.
Proof.
  intros [Hall _] Hh. apply all_paths_complete in Hall as (rest & _ & Hg & Hs).
  assert (Heq : c_hist c ++ rest = before ++ ev (ESend r) x :: (after ++ rest))
    by (by rewrite Hh, <- app_assoc).
  split; [by eapply Hg|by eapply Hs].
Qed.

(** An accepted token is a live credential in the store it was checked against. *)
Lemma authorized_live dp past c before :
  auth_mode dp = Enforce -> Forall repo_inv past -> Forall (read_from_past dp past) before ->
  authorized_in dp (c_request c) before ->
  exists store now aid presented token, store ∈ past /\ ev ENow now ∈ before /\
    presented_token (req_headers (c_request c)) = Ok presented /\ repo_live store now aid token /\
    authenticator_digest hmac_sha256 (authenticator dp) (default "" presented)
    = authenticator_digest hmac_sha256 (authenticator dp) token.
Proof.
  intros Hmode Hinv Hread (presented & now & snapshot & d & Htok & Hnow & Hin & Hauth & _).
  rewrite Hmode in Hauth. cbn in Hauth. unfold check_snapshot, matching_account in Hauth.
  destruct snapshot as [creds|]; [|done]. rewrite scan_all_spec in Hauth.
  destruct (last (List.filter _ creds)) as [cred|] eqn:Hlast; [|done].
  apply last_Some_elem_of, elem_of_bool_filter in Hlast as [Hc Hm].
  rewrite Forall_forall in Hread. rewrite Forall_forall in Hinv. destruct (Hread _ Hin) as (store & fault & Hst & Hsnap).
  symmetry in Hsnap. destruct (repo_snapshot_live _ _ _ _ _ _ _ (Hinv _ Hst) Hsnap Hc Hm) as (token & Hlive & Hd).
  by exists store, now, (cred_account_id cred), presented, token.
Qed.

(** Every upstream request, in any interleaving: authorised by a token that was live in
    the store, sent with an account the store held. *)
Lemma upstream_requests_authorised dp s c before r x after :
  auth_mode dp = Enforce -> system_reachable dp s ->
  c ∈ s_clients s ++ s_dropped s -> c_hist c = before ++ ev (ESend r) x :: after ->
  (exists store now aid presented token, store ∈ s_past s /\ ev ENow now ∈ before /\
     presented_token (req_headers (c_request c)) = Ok presented /\ repo_live store now aid token /\
     authenticator_digest hmac_sha256 (authenticator dp) (default "" presented)
     = authenticator_digest hmac_sha256 (authenticator dp) token) /\
  (exists store aid account credential, store ∈ s_past s /\ repo_holds store aid account credential /\
     upstream_safe (c_request c) account credential r).
Proof.
  intros Hmode Hreach Hc Hh. destruct (system_reachable_inv dp s Hreach) as [[Hinv _] _ _ _ Hclients Hdropped].
  assert (Hok : client_ok dp (s_past s) c).
  { apply elem_of_app in Hc as [Hc|Hc]; [by eapply Forall_forall in Hclients|by eapply Forall_forall in Hdropped]. }
  destruct (client_send_inv _ _ _ _ _ _ _ Hok Hh) as [Hauth (aid & account & credential & Hload & Hsafe)].
  assert (Hread : Forall (read_from_past dp (s_past s)) before).
  { destruct Hok as [_ Hr]. rewrite Hh in Hr. by apply Forall_app in Hr as [Hr _]. }
  split; [by eapply authorized_live|].
  rewrite Forall_forall in Hread. rewrite Forall_forall in Hinv. destruct (Hread _ Hload) as (store & fault & Hst & Hl). symmetry in Hl.
  exists store, aid, account, credential. split_and!; [done| |done]. eapply repo_load_holds; [by apply Hinv|done].
Qed.

(** ** Running the system

    One effect of the first client, answered without failures by a provider that
    returns an empty response. *)
Definition calm_answer (dp : DataPlane) (store : S) (r : Router) (e : effect) : answer e * S * Router :=
  match e return answer e * S * Router with
  | ECount _ => (tt, store, r)
  | ENow | EElapsed => (0, store, r)
  | ESnapshot now => (repo_credential_snapshot false store (authenticator dp) now, store, r)
  | ELoad aid => (repo_load false store aid, store, r)
  | EAudit record => let '(x, store) := repo_append_proxy_audit false store record in (x, store, r)
  | EChoose request now => let '(r, x) := choose r request now in (x, store, r)
  | EStart aid => let '(r, x) := start_request r aid in (x, store, r)
  | ERecord aid o => let '(r, x) := record_outcome r aid o in (x, store, r)
  | ESend _ => (Ok {| resp_status := 200; resp_headers := hm_empty; resp_body := RawBody [] |}, store, r)
  end.

Definition advance (dp : DataPlane) (s : system) : system :=
  match s_clients s with
  | c :: rest =>
      match c_prog c with
      | Do e k =>
          let '(x, store, r) := calm_answer dp (s_store s) (s_router s) e in
          set_clients (set_router (set_store s store) r) (after_effect c e x k :: rest)
      | Ret _ => s
      end
  | [] => s
  end.

Lemma calm_answer_ok dp store r e :
  let '(x, store', r') := calm_answer dp store r e in
  store_answers dp store e x store' /\ exec r e x r'.
Proof.
  destruct e; cbn; try done; try (by split; [split; [|exists false]|]).
  - destruct (repo_append_proxy_audit false store record) as [x store'] eqn:E.
    split; [by exists false|done].
  - by destruct (choose _ _ _).
  - by destruct (start_request _ _).
  - by destruct (record_outcome _ _ _).
Qed.

Lemma advance_reachable dp s : system_reachable dp s -> system_reachable dp (advance dp s).
Proof.
  intros Hs. unfold advance. destruct (s_clients s) as [|c rest] eqn:Hc; [done|].
  destruct (c_prog c) as [|e k] eqn:Hp; [done|].
  pose proof (calm_answer_ok dp (s_store s) (s_router s) e) as Hok.
  destruct (calm_answer _ _ _ _) as [[x store'] r']. destruct Hok as [Hst Hx].
  apply (system_next dp s); [done|]. apply (sy_effect dp s 0).
  replace (after_effect c e x k :: rest) with (<[0%nat := after_effect c e x k]> (s_clients s))
    by by rewrite Hc.
  by apply es_effect; [rewrite Hc|..].
Qed.

Lemma advances_reachable dp n s : system_reachable dp s -> system_reachable dp (Nat.iter n (advance dp) s).
Proof. intros Hs. induction n as [|n IH]; cbn; [done|by apply advance_reachable]. Qed.

Definition sent_event (v : event) : bool := is_send (projT1 v).

Lemma sent_event_inv (hist : list event) :
  existsb sent_event hist = true -> exists before r x after, hist = before ++ ev (ESend r) x :: after.
Proof.
  induction hist as [|[e x] hist IH]; cbn; [done|].
  destruct (sent_event (existT e x)) eqn:Hs; cbn.
  - intros _. destruct e; try done. by eexists [], _, _, _.
  - intros (before & r & y & after & ->)%IH. by exists (existT e x :: before), r, y, after.
Qed.
End System.

(** ** The SQLite store as the repository *)

Section Store.
Context `{U : UrlLib} `{H : HeaderLib} `{L : CryptoLib} `{!CryptoLaws L} `{J : JsonLib}
        `{C : !StoreCodec} `{!StoreCodecLaws C}.
Context (crc32 : bytes -> Z) (base64_decode : string -> option bytes)
        (parse_aws_envelope : string -> option AwsCredentialEnvelope)
        (format_date format_amz_date : DateTime -> string).
Context (box : SecretBox).

(** [token] is the current credential of the enabled account [aid], not expired, or its
    previous one within the rotation window; it is not empty. *)
Definition live_token (db : Db) (now : DateTime) (aid token : string) : Prop :=
  string_is_empty token = false /\ exists row account, provider_accounts db !! aid = Some row /\
    account_from_json (row_json row) = Some account /\ id account = aid /\ enabled account = true /\
    ((exists secret expiry, decrypt box (row_ciphertext row) (account_aad aid) = Ok secret /\
        decoded_credential (kind account) secret = Ok (token, expiry) /\
        is_none_or expiry (fun t => now <? t) = true) \/
     (exists h until secret expiry, credential_history db !! aid = Some h /\
        parse_rfc3339 (hist_expires_at h) = Some until /\ now < until /\
        decrypt box (hist_ciphertext h) (account_aad aid) = Ok secret /\
        decoded_credential (kind account) secret = Ok (token, expiry))).

Lemma decoded_nonempty k stored token expiry :
  decoded_credential k stored = Ok (token, expiry) -> string_is_empty stored = false ->
  string_is_empty token = false.
Proof.
  unfold decoded_credential. destruct (_ || _); [by intros [= <- <-]|].
  destruct (oauth_from_json stored) as [e|]; [|done]. cbn [ok_or].
  destruct (string_is_empty (oauth_access_token e)) eqn:E; [done|]. by intros [= <- <-].
Qed.

Lemma snapshot_row_live (auth : Authenticator) now db k row c presented :
  store_wf box db -> provider_accounts db !! k = Some row ->
  snapshot_row box auth now db (k, row) = Ok c -> account_matches presented now c = true ->
  exists token, live_token db now (cred_account_id c) token /\
    presented = authenticator_digest hmac_sha256 auth token.
Proof.
  intros [Hrows Hhistory] Hk Hrow Hm. destruct (Hrows k row Hk) as [(a & Ha & Hid) (secret' & Hsec' & Hne) _].
  unfold snapshot_row in Hrow. cbn [fst snd] in Hrow. rewrite Ha in Hrow. cbn [ok_or] in Hrow. subst k.
  rewrite Hsec' in Hrow. cbn [map_err] in Hrow. rename secret' into secret, Hsec' into Hsec.
  destruct (decoded_credential (kind a) secret) as [[tok ex]|] eqn:Hdec; [|done]. cbn [map_err fst snd] in Hrow.
  set (base := with_current_expiry (credential_active hmac_sha256 auth (id a) tok) ex) in *.
  assert (Hprev : exists prev, c = (let full := match prev with
      | Some (t, e) => with_previous hmac_sha256 base auth t e | None => base end in
      if enabled a then full else paused full) /\
    forall t e, prev = Some (t, e) -> exists h s x, credential_history db !! id a = Some h /\
      parse_rfc3339 (hist_expires_at h) = Some e /\ decrypt box (hist_ciphertext h) (account_aad (id a)) = Ok s /\
      decoded_credential (kind a) s = Ok (t, x)).
  { destruct (credential_history db !! id a) as [h|]; [|injection Hrow as <-; by exists None].
    destruct (parse_rfc3339 (hist_expires_at h)) as [until|] eqn:Hun; [|done]. cbn [ok_or] in Hrow.
    destruct (now <? until); [|injection Hrow as <-; by exists None].
    destruct (decrypt box (hist_ciphertext h) _) as [s|] eqn:Hs; [|done]. cbn [map_err] in Hrow.
    destruct (decoded_credential (kind a) s) as [[t x]|] eqn:Hd; [|done]. cbn [map_err fst] in Hrow.
    injection Hrow as <-. exists (Some (t, until)). split; [done|]. intros t' e' [= <- <-]. by exists h, s, x. }
  destruct Hprev as (prev & Hc & Hhist).
  assert (Hcid : cred_account_id c = id a) by (rewrite Hc; destruct prev as [[]|], (enabled a); reflexivity).
  rewrite Hc in Hm. apply (snapshot_entry_matches auth (id a) (enabled a) tok ex prev presented now) in Hm.
  rewrite Hcid. destruct Hm as [Hen [[Hex Hp]|(t & e & -> & Hlt & Hp)]].
  - exists tok. split; [|done]. split; [by eapply decoded_nonempty|]. exists row, a. split_and!; try done. left. by exists secret, ex.
  - exists t. split; [|done]. destruct (Hhist t e eq_refl) as (h & s & x & Hh & Hpar & Hs & Hd).
    destruct (Hhistory _ _ Hh) as [_ [(s' & Hs' & Hne') _]]. rewrite Hs in Hs'. injection Hs' as <-.
    split; [by eapply decoded_nonempty|]. exists row, a. split_and!; try done. right. by exists h, e, s, x.
Qed.

Lemma credential_snapshot_live fault db (auth : Authenticator) now credentials c presented :
  store_wf box db -> credential_snapshot box db fault auth now = Ok (Available credentials) ->
  c ∈ credentials -> account_matches presented now c = true ->
  exists token, live_token db now (cred_account_id c) token /\
    presented = authenticator_digest hmac_sha256 auth token.
Proof.
  intros Hwf Hsnap Hin Hm. unfold credential_snapshot in Hsnap. destruct fault; [done|].
  destruct (collect_results _ _) as [cs|] eqn:Hc; [|done]. injection Hsnap as <-.
  apply collect_results_elem in Hc. apply list_elem_of_lookup in Hin as [i Hi].
  destruct (Forall2_lookup_r _ _ _ _ _ Hc Hi) as ([k row] & Hk & Hrow).
  apply list_elem_of_lookup_2, rows_by_id_elem in Hk. by eapply snapshot_row_live.
Qed.

Lemma loaded_id fault db aid account credential :
  store_wf box db -> repo_load_account box db fault aid = Ok (account, credential) ->
  id account = aid /\ load_account box db false aid = Ok (account, credential).
Proof.
  intros [Hrows _]. unfold repo_load_account. destruct fault; [done|].
  destruct (load_account box db false aid) as [p|] eqn:Hl; [|done]. cbn [map_err]. intros [= ->]. split; [|done].
  unfold load_account in Hl. destruct (provider_accounts db !! aid) as [row|] eqn:Hrow; [|done]. cbn [ok_or] in Hl.
  destruct (Hrows _ _ Hrow) as [(a & Ha & Hid) _ _]. rewrite Ha in Hl. cbn [ok_or] in Hl.
  destruct (hydrate_account_egress box a (row_egress row)) as [a'|] eqn:Hh; [|done].
  apply hydrate_id in Hh as [Hh _]. destruct (decrypt _ _ _); [|done]. cbn [map_err] in Hl.
  destruct (decoded_credential _ _); [|done]. cbn [map_err] in Hl. injection Hl as <- _. congruence.
Qed.

#[local] Instance store_repository : AccountRepository sys := {|
  repo_credential_snapshot := fun fault s auth now => credential_snapshot box (sys_db s) fault auth now;
  repo_load := fun fault s aid => repo_load_account box (sys_db s) fault aid;
  repo_append_proxy_audit := fun fault s record =>
    let '(res, db) := append_proxy_audit (sys_db s) fault record in (res, set_db s db)
|}.

(** Appending an audit record is the audit step of the store. *)
Lemma append_is_step fault (s : sys) record :
  store_step box s (repo_append_proxy_audit fault s record).2.
Proof.
  cbn. unfold append_proxy_audit. pose proof (st_audit box s fault (proxy_event record)) as Hs.
  unfold proxy_event in Hs. by destruct (append_audit _ _ _).
Qed.

#[local] Program Instance store_contract : RepositoryContract sys := {|
  repo_inv := sys_wf box;
  repo_live := fun s => live_token (sys_db s);
  repo_holds := fun s aid account credential =>
    id account = aid /\ load_account box (sys_db s) false aid = Ok (account, credential)
|}.
Next Obligation.
  intros fault s auth now credentials c presented [Hwf _ _] Hs Hc Hm.
  exact (credential_snapshot_live fault _ auth now credentials c presented Hwf Hs Hc Hm).
Qed.
Next Obligation. intros fault s aid account credential [Hwf _ _] Hl. exact (loaded_id fault _ aid _ _ Hwf Hl). Qed.
Next Obligation. intros fault s record Hwf. eapply store_step_wf; [done|apply append_is_step]. Qed.

#[local] Program Instance store_managed : ManagedRepository sys := {|
  repo_initial := fun s => exists db, store_wf box db /\ s = {| sys_db := db; sys_pending := []; sys_candidates := [] |};
  repo_step := store_step box;
  repo_routes := fun s l => exists fault, route_accounts (sys_db s) fault = Some (Ok l)
|}.
Next Obligation. intros s (db & Hwf & ->). by split. Qed.
Next Obligation. intros s s' Hwf Hst. by eapply store_step_wf. Qed.
Next Obligation.
  intros s l [fault Hl]. unfold route_accounts in Hl. destruct (list_accounts _ _) as [[pubs|]|]; [|done|done].
  injection Hl as <-. apply Forall_fmap, Forall_true. intros p. unfold account_typed, U32_MAX, U16_MAX. cbn. lia.
Qed.

(** ** The system with the store *)

Definition store_system_reachable : DataPlane -> system -> Prop :=
  system_reachable crc32 base64_decode parse_aws_envelope format_date format_amz_date.
Definition store_system_step : DataPlane -> system -> system -> Prop :=
  system_step crc32 base64_decode parse_aws_envelope format_date format_amz_date.

(** The tables at every moment of a run. *)
Definition past_tables (s : system) : list Db := sys_db <$> s_past s.

Lemma effect_store_step dp store e x store' :
  store_answers dp store e x store' -> store' = store \/ store_step box store store'.
Proof.
  destruct e; cbn; try (by left); try (intros [-> _]; by left).
  intros [fault Heq]. right. pose proof (append_is_step fault store record) as Hs. cbn in Hs.
  by rewrite <- Heq in Hs.
Qed.

Lemma reachable_reloads dp s : store_system_reachable dp s -> Forall idle_routes (s_reloads s).
Proof. intros Hs. apply (si_reloads dp s). by eapply system_reachable_inv. Qed.

(** The running system refines its components: in every state that clients, the
    control plane, the refresh task and the retention job can bring it to, in any
    interleaving of their critical sections, the store is in a state its own operations
    reach, the router in one its operations reach, and the requests with the router in
    one of the pool of concurrent requests.  So what is proved of each component holds
    of it inside the system. *)
Lemma system_refines_components (dp : DataPlane) (s : system)
    (Hreach : store_system_reachable dp s) :
  store_reachable box (s_store s) /\
  Routing.reachable (s_router s) /\
  pool_reachable crc32 base64_decode parse_aws_envelope format_date format_amz_date dp (pool_of s).
Proof.
  induction Hreach as [store l (db & Hwf & ->) Hl|s s' Hs (IHst & IHr & IHp) Hstep].
  - apply (repo_routes_idle (ManagedRepository := store_managed)) in Hl. cbn. split_and!.
    + by apply store_start.
    + by apply reachable_new, idle_typed.
    + apply (pool_start _ _ _ _ _ dp l). by apply idle_zero.
  - pose proof (reachable_reloads dp s Hs) as Hrel. split_and!.
    + destruct Hstep as [i s' [c e k x store' r' Hi Hp Hst Hx]|request|i c Hi|store' Hst|l Hl|i l Hl|aid|now]; cbn; try done.
      * apply effect_store_step in Hst as [->|Hst]; [done|by eapply store_next].
      * by eapply store_next.
    + destruct Hstep as [i s' [c e k x store' r' Hi Hp Hst Hx]|request|i c Hi|store' Hst|l Hl|i l Hl|aid|now]; cbn; try done.
      * destruct (exec_router_step _ _ _ _ Hx) as [->|Hrs]; [done|by eapply reachable_step].
      * eapply reachable_step; [done|]. constructor. rewrite Forall_lookup in Hrel. by eapply idle_typed, Hrel.
      * eapply reachable_step; [done|constructor].
      * eapply reachable_step; [done|constructor].
    + destruct (system_refines_pool _ _ _ _ _ dp s s' Hrel Hstep) as [->|Hps]; [done|by eapply pool_next].
Qed.

(** C5.  Authorisation end to end, in enforce mode: whatever the clients, the
    administrators and the refresh task do concurrently, and whichever requests are
    cancelled, when a request has gone to a provider, the token its client presented had
    the digest of a credential that was, at the time the request itself read from the
    clock, live for an enabled account in the tables of some moment of the run (the
    current one, not expired, or the previous one within its rotation window, and never
    the empty text, so that a request without a token passes only if digests collide),
    and what was sent is the request of one account as the store held it at some moment:
    to its base URL, through its proxies, with its credential. *)
Theorem authorised_end_to_end (dp : DataPlane) (s : system) (c : client)
    (before after : list event) (r : UpstreamRequest) (x : answer (ESend r))
    (Hmode : auth_mode dp = Enforce)
    (Hreach : store_system_reachable dp s)
    (Hclient : c ∈ s_clients s ++ s_dropped s)
    (Hsent : c_hist c = before ++ ev (ESend r) x :: after) :
  (exists db now aid presented token, db ∈ past_tables s /\ ev ENow now ∈ before /\
     presented_token (req_headers (c_request c)) = Ok presented /\ live_token db now aid token /\
     authenticator_digest hmac_sha256 (authenticator dp) (default "" presented)
     = authenticator_digest hmac_sha256 (authenticator dp) token) /\
  (exists db aid account credential, db ∈ past_tables s /\ id account = aid /\
     load_account box db false aid = Ok (account, credential) /\
     upstream_safe (c_request c) account credential r).
Proof.
  destruct (upstream_requests_authorised _ _ _ _ _ dp s c before r x after Hmode Hreach Hclient Hsent)
    as [(st & now & aid & presented & token & Hst & Hnow & Htok & Hlive & Hd)
        (st' & aid' & a & cr & Hst' & [Hid Hl] & Hsafe)].
  split.
  - exists (sys_db st), now, aid, presented, token. split_and!; try done. by apply list_elem_of_fmap_2.
  - exists (sys_db st'), aid', a, cr. split_and!; try done. by apply list_elem_of_fmap_2.
Qed.

(** ** A race between reloads

    Two control-plane requests may read the routes in one order and install them in the
    other; nothing in the second half of [refresh_routes] notices that its list is old. *)
Lemma stale_reload_revives_paused_account (dp : DataPlane) (s : system) (i : nat) (l : list RouteAccount)
    (a : RouteAccount) (row : account_row) (account : ProviderAccount) :
  s_reloads s !! i = Some l -> NoDup (map Routing.id l) -> a ∈ l -> Routing.enabled a = true ->
  provider_accounts (sys_db (s_store s)) !! Routing.id a = Some row ->
  account_from_json (row_json row) = Some account -> enabled account = false ->
  exists s' row' account' a', store_system_step dp s s' /\
    provider_accounts (sys_db (s_store s')) !! Routing.id a = Some row' /\
    account_from_json (row_json row') = Some account' /\ enabled account' = false /\
    Routing.accounts (s_router s') !! Routing.id a = Some a' /\ Routing.enabled a' = true.
Proof.
  intros Hi Hnd Ha Hen Hrow Hacc Hoff. eexists _, row, account, (merge_account (s_router s) a).
  split; [by apply (sy_install _ _ _ _ _ dp s i l)|]. split_and!; [done|done|done| |by rewrite merge_account_enabled].
  cbn. rewrite <- (merge_account_id (s_router s) a). apply collect_accounts_NoDup.
  - rewrite map_map. by rewrite (map_ext _ Routing.id) by apply merge_account_id.
  - by apply list_elem_of_fmap_2.
Qed.
End Store.

(** ** Examples *)

Section Witnesses.
#[local] Existing Instance simple_url_lib.
#[local] Existing Instance simple_header_lib.
#[local] Existing Instance simple_crypto_lib.
#[local] Existing Instance simple_crypto_laws.
#[local] Existing Instance simple_json_lib.
#[local] Existing Instance sample_codec.
#[local] Existing Instance sample_codec_laws.
#[local] Instance sample_repository : AccountRepository sys := store_repository sample_box.
#[local] Instance sample_contract : RepositoryContract sys := store_contract sample_box.
#[local] Instance sample_managed : ManagedRepository sys := store_managed sample_box.

(** Is account "a" enabled in the routes, and in the store? *)
Definition routed (r : Router) : bool := is_some_and (Routing.accounts r !! "a") Routing.enabled.
Definition routes_or_none (db : Db) : list RouteAccount :=
  match route_accounts db false with Some (Ok l) => l | _ => [] end.
Definition stored_enabled (db : Db) : bool :=
  match load_account sample_box db false "a" with Ok (account, _) => enabled account | Err _ => false end.

(** The race: a reload reads the routes; the account is paused and the routes are
    reloaded; then the first reload installs its list, and the paused account is back. *)
Example paused_account_is_routed_again :
  let early := routes_or_none old_db in
  let paused := (set_account_enabled old_db false false (fun db => db) "a" false).2 in
  let router := replace_accounts (router_new early) (routes_or_none paused) in
  (routed router, routed (replace_accounts router early), stored_enabled paused) = (false, true, false).
Proof. vm_compute. reflexivity. Qed.

Abbreviation sample_reachable :=
  (store_system_reachable crc32_ieee (fun _ => None) no_envelope no_date no_date sample_box).
Abbreviation sample_arrived := (arrived crc32_ieee (fun _ => None) no_envelope no_date no_date).

Definition opus_request : ProxyRequest :=
  {| req_method := "POST"; path_and_query := "/v1/messages"; session_from_path := None;
     req_headers := [("authorization", "Bearer sk-old"); ("accept", "*/*")];
     req_body := simple_print (VObject [("model", VString "opus")]) |}.

(** One account in the store and in the router, and one client. *)
Definition idle_system : system :=
  let store := {| sys_db := old_db; sys_pending := []; sys_candidates := [] |} in
  {| s_store := store; s_router := router_new (routes_or_none old_db); s_reloads := []; s_clients := [];
     s_dropped := []; s_past := [store] |}.
Definition one_client : system := set_clients idle_system [sample_arrived sample_dp opus_request].

Lemma one_client_reachable : sample_reachable sample_dp one_client.
Proof.
  apply (system_next _ _ _ _ _ sample_dp idle_system).
  - apply system_start.
    + exists old_db. split; [exact old_db_wf|reflexivity].
    + exists false. vm_compute. reflexivity.
  - apply (sy_arrive _ _ _ _ _ sample_dp idle_system opus_request).
Qed.

(** After seven effects the client's request has gone to the provider. *)
Definition after_send : system := Nat.iter 7 (advance sample_dp) one_client.
Definition first_history (s : system (S := sys)) : list event := match s_clients s with c :: _ => c_hist c | [] => [] end.

Lemma request_was_sent :
  exists s, sample_reachable sample_dp s /\ existsb sent_event (first_history s) = true.
Proof.
  exists after_send. split; [|vm_compute; reflexivity]. apply advances_reachable. exact one_client_reachable.
Qed.

Lemma authorised_end_to_end_witness :
  exists s db now aid token, sample_reachable sample_dp s /\ db ∈ past_tables s /\
    live_token sample_box db now aid token.
Proof.
  destruct request_was_sent as (s & Hreach & Hsent). unfold first_history in Hsent.
  destruct (s_clients s) as [|c rest] eqn:Hc; [discriminate Hsent|].
  apply sent_event_inv in Hsent as (before & r & x & after & Hh).
  destruct (authorised_end_to_end crc32_ieee (fun _ => None) no_envelope no_date no_date sample_box
              sample_dp s c before after r x) as [(db & now & aid & p & token & Hdb & _ & _ & Hl & _) _].
  - reflexivity.
  - exact Hreach.
  - rewrite Hc. apply elem_of_app. left. by left.
  - exact Hh.
  - exists s, db, now, aid, token. split; [exact Hreach|]. split; [exact Hdb|exact Hl].
Defined.

(** The request is answered after twelve effects. *)
Example sample_finishes :
  match s_clients (Nat.iter 12 (advance sample_dp) one_client) with
  | c :: _ => match c_prog c with Ret (Some (Ok response)) => bool_decide (proxy_status response = 200) | _ => false end
  | [] => false
  end = true.
Proof. vm_compute. reflexivity. Qed.

End Witnesses.
