(* ===== verification/ControlPlane.v ===== *)
(** * The control plane inside the system (src/src/http_app.rs)

    HttpApp models a control-plane request as one function on the store, the sessions
    and the router; System models the store and the router under concurrent critical
    sections.  Here the first is shown to be a run of the second: whatever a request
    does to the store and the router, it does in steps of the system, so between any two
    of them other requests, clients and refreshes may come, and the system's theorems
    cover the control plane.  Pausing and deleting are then followed through every
    interleaving of their steps with others. *)
From stdpp Require Import relations.
From S2P Require Import Prelude Interfaces Models Routing Auth Egress Bedrock Secrets Providers DataPlane Storage Admin HttpApp System.

Section ControlPlane.
Context `{U : UrlLib} `{H : HeaderLib} `{L : CryptoLib} `{!CryptoLaws L} `{J : JsonLib}
        `{C : !StoreCodec} `{!StoreCodecLaws C}.
Context (crc32 : bytes -> Z) (base64_decode : string -> option bytes)
        (parse_aws_envelope : string -> option AwsCredentialEnvelope)
        (format_date format_amz_date : DateTime -> string).
Context (box : SecretBox) (manager : AdminSessionManager) (runtime : AdminRuntimeConfig)
        (header_value_valid : string -> bool) (dp : DataPlane).

Abbreviation step := (store_system_step crc32 base64_decode parse_aws_envelope format_date format_amz_date box dp).
Abbreviation state := (system (S := sys)).

(** A system whose store and router are those of the control plane's state. *)
Definition shows (s : state) (st : AdminState) : Prop :=
  sys_db (s_store s) = st_db st /\ s_router s = st_router st.

(** From every such system, steps that leave the clients alone lead to the new state. *)
Definition moves (st st' : AdminState) : Prop :=
  forall s : state, shows s st -> exists s', rtc step s s' /\ shows s' st' /\ s_clients s' = s_clients s.

Lemma moves_same st st' : st_db st' = st_db st -> st_router st' = st_router st -> moves st st'.
Proof. intros Hd Hr s [H1 H2]. exists s. split_and!; [apply rtc_refl|split; congruence|done]. Qed.

Lemma moves_trans st1 st2 st3 : moves st1 st2 -> moves st2 st3 -> moves st1 st3.
Proof.
  intros H12 H23 s Hs. destruct (H12 s Hs) as (s2 & Hr2 & Hs2 & Hc2). destruct (H23 s2 Hs2) as (s3 & Hr3 & Hs3 & Hc3).
  exists s3. split_and!; [by etrans|done|congruence].
Qed.

(** ** The operations *)

Lemma store_steps_lift (s : state) (store : sys) :
  rtc (store_step box) (s_store s) store ->
  exists s', rtc step s s' /\ s_store s' = store /\ s_router s' = s_router s /\ s_clients s' = s_clients s.
Proof.
  remember (s_store s) as x eqn:Hx. intros Hst. revert s Hx. induction Hst as [x|x y z Hxy _ IH]; intros s ->.
  - exists s. split_and!; [apply rtc_refl|done..].
  - destruct (IH (set_store s y) eq_refl) as (s' & Hrun & Hs & Hr & Hc). exists s'. split_and!; [|done..].
    eapply rtc_l; [by apply sy_store|done].
Qed.

Lemma moves_store st db :
  (forall s : sys, sys_db s = st_db st -> exists s', rtc (store_step box) s s' /\ sys_db s' = db) ->
  moves st (with_db st db).
Proof.
  intros Hrun s [Hdb Hr]. destruct (Hrun (s_store s) Hdb) as (s1 & Hs1 & Hdb1).
  destruct (store_steps_lift s s1 Hs1) as (s' & Hrun' & Hst & Hrr & Hcc). exists s'. split; [done|]. split; [|done].
  split; cbn; congruence.
Qed.

(** One critical section of the store. *)
Lemma moves_store_step st db :
  (forall s : sys, sys_db s = st_db st -> store_step box s (set_db s db)) -> moves st (with_db st db).
Proof. intros Hstep. apply moves_store. intros s Hs. exists (set_db s db). split; [by apply rtc_once, Hstep|done]. Qed.

Lemma moves_router_step st r :
  (forall s : state, s_router s = st_router st -> step s (set_router s r)) -> moves st (with_router st r).
Proof.
  intros Hstep s [Hdb Hr]. exists (set_router s r). split_and!; [by apply rtc_once, Hstep|by split|done].
Qed.

Lemma moves_audited st fault event : moves st (audited st fault event).
Proof. apply moves_store_step. intros s <-. apply st_audit. Qed.

Lemma moves_reset st aid res st' : dp_reset_account_health st aid = (res, st') -> moves st st'.
Proof.
  unfold dp_reset_account_health. destruct (reset_account_health (st_router st) aid) as [r x] eqn:Hx. intros [= _ <-].
  apply moves_router_step. intros s Hs. replace r with (reset_account_health (s_router s) aid).1 by by rewrite Hs, Hx.
  apply sy_reset.
Qed.

(** A reload is the reading of the routes and their installation. *)
Lemma moves_refresh st fault res st' : refresh_routes st fault = Some (res, st') -> moves st st'.
Proof.
  unfold refresh_routes. destruct (route_accounts (st_db st) fault) as [[l|err]|] eqn:Hl; cbn; [|by intros [= _ <-]; apply moves_same|done].
  intros [= _ <-] s [Hdb Hr]. exists (set_router s (replace_accounts (st_router st) l)).
  split; [|by split]. eapply rtc_l; [apply (sy_read_routes _ _ _ _ _ dp s l); exists fault; by rewrite Hdb|].
  apply rtc_once. rewrite <- Hr. apply (sy_install _ _ _ _ _ dp (set_reloads s (l :: s_reloads s)) 0 l). done.
Qed.

(** What the environment of a request provides: nonces of the cipher's length, and a
    clock whose years have four digits. *)
Record env_typed (e : env) : Prop := {
  ev_nonce : forall k, String.length (env_nonce e k) = 24%nat;
  ev_now : forall k, four_digit_year (env_now e k + minutes 10)
}.

Lemma moves_credential st e keep a credential res db :
  env_typed e -> utf8_valid (list_ascii_of_string credential) = true -> string_is_empty credential = false ->
  store_credential box (st_db st) e keep a credential = Some (res, db) -> moves st (with_db st db).
Proof.
  intros [Hn Ht] Hu Hne Hs. apply moves_store_step. intros s Hdb. unfold store_credential in Hs. rewrite <- Hdb in Hs.
  destruct keep; [by eapply (st_rotate box s (env_nonce e 0) (env_nonce e 1))|].
  by eapply (st_upsert box s (env_nonce e 0) (env_nonce e 1)).
Qed.

Lemma moves_enabled st f1 f2 aid value :
  moves st (with_db st (set_account_enabled (st_db st) f1 f2 (fun db => db) aid value).2).
Proof.
  apply moves_store. intros s Hdb. unfold set_account_enabled. rewrite <- Hdb.
  destruct (let? json := read_account_json (sys_db s) f1 aid in enabled_json json value) as [updated|err] eqn:Hread.
  2:{ exists s. split; [apply rtc_refl|done]. }
  eexists. split; [eapply rtc_l; [by apply (st_enable_read box s f1 aid value updated)|]; apply rtc_once;
    by apply (st_enable_write box _ f2 (aid, updated)); left|done].
Qed.

Lemma moves_delete st fault aid : moves st (with_db st (delete_account (st_db st) fault aid).2).
Proof. apply moves_store_step. intros s <-. apply st_delete. Qed.

Lemma moves_session st headers csrf now res st' :
  authenticated_session manager st headers csrf now = (res, st') -> moves st st'.
Proof.
  unfold authenticated_session. destruct (cookie_value _ _); [|intros [= _ <-]; by apply moves_same].
  destruct (authenticate _ _ _ _ _ _). intros [= _ <-]. by apply moves_same.
Qed.

(** What follows the check of a session. *)
Lemma moves_gated st headers csrf now (k : string -> AdminState -> option (Response * AdminState)) rsp st' :
  (forall session st1, k session st1 = Some (rsp, st') -> moves st1 st') ->
  (let '(res, st1) := authenticated_session manager st headers csrf now in
   match res with Err rejection => Some (rejection_response rejection, st1) | Ok session => k session st1 end)
    = Some (rsp, st') ->
  moves st st'.
Proof.
  intros Hk Hrun. destruct (authenticated_session _ _ _ _ _) as [res st1] eqn:Ha. apply moves_session in Ha.
  eapply moves_trans; [exact Ha|]. destruct res; [by eapply Hk|]. injection Hrun as _ <-. by apply moves_same.
Qed.

(** ** The handlers *)

(** The texts of a request are UTF-8, as Rust strings are. *)
Definition request_typed (r : admin_request) : Prop :=
  match r with
  | ReqCreate _ credential | ReqRotate _ credential => utf8_valid (list_ascii_of_string credential) = true
  | _ => True
  end.

Lemma validated_nonempty a credential : validate_account_input a credential = Ok tt -> string_is_empty credential = false.
Proof.
  unfold validate_account_input. destruct (negb _); [done|]. destruct (string_is_empty (trim (label a)) || _); [done|].
  destruct (_ || _ || _ || _); [done|]. by destruct (string_is_empty credential).
Qed.

Lemma moves_create st e account credential rsp st' :
  env_typed e -> utf8_valid (list_ascii_of_string credential) = true ->
  create_account box st e account credential = Some (rsp, st') -> moves st st'.
Proof.
  intros He Hu Hrun. unfold create_account in Hrun.
  destruct (validate_account_input account credential) as [[]|] eqn:Hv; [|injection Hrun as _ <-; by apply moves_same].
  destruct (store_credential box (st_db st) e _ account credential) as [[res db]|] eqn:Hs; [|done].
  apply moves_credential in Hs; [|done|done|by eapply validated_nonempty]. cbn [mbind option_bind] in Hrun.
  destruct res as [[]|]; [|injection Hrun as _ <-; done].
  eapply moves_trans; [exact Hs|]. clear Hs.
  eapply moves_trans; [apply (moves_audited _ (env_fault e 2) (admin_event (env_now e 2) "account.upsert" (id account)
    (Some (provider_name (kind account))) 201))|].
  destruct (refresh_routes _ _) as [[res2 st2]|] eqn:Hr; [|done]. cbn [mbind option_bind] in Hrun.
  eapply moves_trans; [by eapply moves_refresh|]. destruct res2; [|injection Hrun as _ <-; by apply moves_same].
  destruct (dp_reset_account_health st2 (id account)) as [res3 st3] eqn:Hx. injection Hrun as _ <-. by eapply moves_reset.
Qed.

Lemma moves_rotate st e aid credential rsp st' :
  env_typed e -> utf8_valid (list_ascii_of_string credential) = true ->
  rotate_credential box st e aid credential = Some (rsp, st') -> moves st st'.
Proof.
  intros He Hu Hrun. unfold rotate_credential in Hrun.
  destruct (string_is_empty credential) eqn:Hne; cbn [orb] in Hrun; [injection Hrun as _ <-; by apply moves_same|].
  destruct (_ <? _); [injection Hrun as _ <-; by apply moves_same|].
  destruct (load_account box (st_db st) (env_fault e 0) aid) as [[account x]|]; [|injection Hrun as _ <-; by apply moves_same].
  destruct (store_credential box (st_db st) e _ account credential) as [[res db]|] eqn:Hs; [|done].
  apply moves_credential in Hs; [|done..]. cbn [mbind option_bind] in Hrun.
  destruct res as [[]|]; [|injection Hrun as _ <-; done]. eapply moves_trans; [exact Hs|].
  destruct (dp_reset_account_health _ aid) as [res3 st3] eqn:Hx. apply moves_reset in Hx.
  destruct res3; injection Hrun as _ <-; [|done]. eapply moves_trans; [exact Hx|]. apply moves_audited.
Qed.

Lemma moves_finish st e action aid rsp st' : finish_change st e action aid = Some (rsp, st') -> moves st st'.
Proof.
  unfold finish_change. intros Hrun.
  eapply moves_trans; [apply (moves_audited _ (env_fault e 2) (admin_event (env_now e 2) action aid None 204))|].
  destruct (refresh_routes _ _) as [[res st2]|] eqn:Hr; [|done]. injection Hrun as _ <-. by eapply moves_refresh.
Qed.

Lemma moves_session_api st e headers rsp st' :
  admin_session_api manager runtime st e headers = (rsp, st') -> moves st st'.
Proof.
  unfold admin_session_api. destruct (authenticated_session _ _ _ _ _) as [res st1] eqn:Ha. apply moves_session in Ha.
  intros Hrun. eapply moves_trans; [exact Ha|]. destruct res as [session|]; [|injection Hrun as _ <-; by apply moves_same].
  destruct (issue_csrf _ _ _ _ _) as [[csrf|] ss]; [|injection Hrun as _ <-; by apply moves_same].
  destruct (active_session_count _ _ _) as [n ss'].
  destruct (session_count (st_router (with_session_state st1 ss)) (env_now e 3)) as [r k] eqn:Hc. injection Hrun as _ <-.
  eapply (moves_trans _ (with_session_state st1 ss')); [by apply moves_same|]. apply moves_router_step.
  intros s Hs. replace r with (session_count (s_router s) (env_now e 3)).1 by (rewrite Hs; exact (f_equal fst Hc)).
  apply sy_count.
Qed.

(** C7.  The control plane runs inside the system: whatever a control-plane request does
    to the store and the router, success or error on any of its calls, it does by a
    sequence of system steps that touches no client's request.  In particular the
    credentials it stores are not empty, and its reload of the routes is the reading and
    the later installation between which others may act. *)
Theorem admin_requests_are_system_runs (st st' : AdminState) (e : env) (headers : HeaderMap)
    (r : admin_request) (rsp : Response) (s : state)
    (Henv : env_typed e)
    (Htyped : request_typed r)
    (Hrun : admin_handle box manager runtime header_value_valid st e headers r = Some (rsp, st'))
    (Hshows : shows s st) :
  exists s', rtc step s s' /\ shows s' st' /\ s_clients s' = s_clients s.
Proof.
  enough (Hm : moves st st') by by apply Hm. clear s Hshows.
  destruct r as [|key user password| | | |account credential|aid credential|aid value|aid|]; cbn in Hrun, Htyped.
  - injection Hrun as Hrun. unfold admin_dashboard in Hrun.
    destruct (authenticated_session _ _ _ _ _) as [res st1] eqn:Ha. injection Hrun as _ <-. by eapply moves_session.
  - injection Hrun as Hrun. unfold admin_login_api in Hrun. destruct (login _ _ _ _ _ _ _ _) as [[g|[]] ss];
      injection Hrun as _ <-; by apply moves_same.
  - injection Hrun as Hrun. unfold admin_logout_api in Hrun.
    destruct (authenticated_session _ _ _ _ _) as [res st1] eqn:Ha. apply moves_session in Ha.
    eapply moves_trans; [exact Ha|]. destruct res; injection Hrun as _ <-; by apply moves_same.
  - injection Hrun as Hrun. by eapply moves_session_api.
  - revert Hrun. apply moves_gated. intros session st1. destruct (list_accounts _ _) as [[l|]|]; [| |done]; intros [= _ <-]; by apply moves_same.
  - revert Hrun. apply moves_gated. intros session st1. by apply moves_create.
  - revert Hrun. apply moves_gated. intros session st1. by apply moves_rotate.
  - revert Hrun. apply moves_gated. intros session st1. pose proof (moves_enabled st1 (env_fault e 0) (env_fault e 1) aid value) as Hm.
    destruct (set_account_enabled _ _ _ _ _ _) as [res db]. cbn in Hm. intros Hrun.
    destruct res; [|injection Hrun as _ <-; done]. eapply moves_trans; [exact Hm|]. by eapply moves_finish.
  - revert Hrun. apply moves_gated. intros session st1. pose proof (moves_delete st1 (env_fault e 0) aid) as Hm.
    destruct (delete_account _ _ _) as [res db]. cbn in Hm. intros Hrun.
    destruct res; [|injection Hrun as _ <-; done]. eapply moves_trans; [exact Hm|]. by eapply moves_finish.
  - injection Hrun as Hrun. unfold admin_audit_api in Hrun.
    destruct (authenticated_session _ _ _ _ _) as [res st1] eqn:Ha. injection Hrun as _ <-. by eapply moves_session.
Qed.
(** ** Pausing and deleting, interleaved

    [set_account_enabled] reads the account, then writes it back; the handlers then
    append an audit event, read the routes and install them in the router, and reply
    204.  Each is a step of its own, and anything may come between. *)

(** The write of a pause (its text was read before and waits) or of a deletion. *)
Inductive switches_off (aid : string) (s : state) : Db -> Prop :=
| so_pause fault json updated db :
    (aid, updated) ∈ sys_pending (s_store s) -> enabled_json json false = Ok updated ->
    update_account_json (sys_db (s_store s)) fault aid updated = (Ok tt, db) -> switches_off aid s db
| so_delete fault db :
    delete_account (sys_db (s_store s)) fault aid = (Ok tt, db) -> switches_off aid s db.

(** A step after which the account is still off in the store: nobody resumed it, or
    stored it anew. *)
Definition keeps_off (aid : string) (s s' : state) : Prop :=
  step s s' /\ all_disabled aid (sys_db (s_store s')).

(** The runs from the write on; [true] once a reload has been installed, which the
    handler does before it replies. *)
Inductive switched_off (aid : string) (s : state) : bool -> state -> Prop :=
| sw_write db : switches_off aid s db -> switched_off aid s false (set_store s (set_db (s_store s) db))
| sw_other reloaded s1 s2 :
    switched_off aid s reloaded s1 -> keeps_off aid s1 s2 -> switched_off aid s reloaded s2
| sw_install s1 i l :
    switched_off aid s false s1 -> s_reloads s1 !! i = Some l ->
    switched_off aid s true
      (set_reloads (set_router s1 (replace_accounts (s_router s1) l)) (delete i (s_reloads s1))).

(** The lists of routes in which the account is not enabled. *)
Definition routes_off (aid : string) (l : list RouteAccount) : Prop :=
  forall a, a ∈ l -> Routing.id a = aid -> Routing.enabled a = false.

Definition off_in_router (aid : string) (r : Router) : Prop :=
  forall a, Routing.accounts r !! aid = Some a -> Routing.enabled a = false.

Lemma switches_off_step aid s db :
  sys_wf box (s_store s) -> switches_off aid s db ->
  step s (set_store s (set_db (s_store s) db)) /\ all_disabled aid db.
Proof.
  intros [Hwf Hpend _] Hoff. destruct Hoff as [fault json updated db Hin Hj Hu|fault db Hd].
  - split.
    + apply sy_store. replace db with (update_account_json (sys_db (s_store s)) fault aid updated).2 by by rewrite Hu.
      apply (st_enable_write box (s_store s) fault (aid, updated) Hin).
    + rewrite Forall_forall in Hpend. destruct (Hpend _ Hin) as (a & Ha & Hid). cbn in Ha, Hid.
      unfold enabled_json in Hj. destruct (account_from_json json) as [b|]; [|done]. cbn in Hj. injection Hj as <-.
      rewrite account_codec in Ha. injection Ha as <-. unfold update_account_json in Hu. destruct fault; [done|].
      injection Hu as <-. intros k row c Hk Hc Hcid. cbn in Hk. destruct (decide (k = aid)) as [->|Hne].
      * rewrite lookup_alter_eq in Hk. apply fmap_Some in Hk as (row0 & _ & ->). cbn in Hc.
        rewrite account_codec in Hc. by injection Hc as <-.
      * rewrite lookup_alter_ne in Hk by done. destruct Hwf as [Hrows _].
        destruct (Hrows _ _ Hk) as [(x & Hx & Hxid) _ _]. exfalso. apply Hne. congruence.
  - split; [|by eapply delete_all_disabled].
    apply sy_store. replace db with (delete_account (sys_db (s_store s)) fault aid).2 by by rewrite Hd. apply st_delete.
Qed.

Lemma off_router_step aid r e x r' : exec r e x r' -> off_in_router aid r -> off_in_router aid r'.
Proof.
  destruct e as [| | | | | |request now|b|b o|]; cbn; intros Hx Hoff; try (by subst).
  - replace r' with (choose r request now).1 by by rewrite <- Hx. intros a. rewrite choose_accounts. apply Hoff.
  - replace r' with (start_request r b).1 by by rewrite <- Hx. unfold start_request.
    destruct (Routing.accounts r !! b) as [c|] eqn:E; [|exact Hoff]. intros a. cbn.
    destruct (decide (b = aid)) as [->|?]; intros; simplify_map_eq; [by apply (Hoff c)|by apply Hoff].
  - replace r' with (record_outcome r b o).1 by by rewrite <- Hx. unfold record_outcome.
    destruct (Routing.accounts r !! b) as [c|] eqn:E; [|exact Hoff]. intros a. cbn.
    destruct (decide (b = aid)) as [->|?]; intros; simplify_map_eq; [|by apply Hoff].
    pose proof (Hoff c E). by destruct o.
Qed.

Lemma off_install aid r l : routes_off aid l -> off_in_router aid (replace_accounts r l).
Proof. intros Hl a (a0 & Hin & Hid & ->)%replacement_lookup. rewrite merge_account_enabled. by apply Hl. Qed.

(** No step makes an account of the router enabled that is off in the store and in
    every list that waits to be installed. *)
Lemma keeps_off_inv aid s s' :
  keeps_off aid s s' -> Forall (routes_off aid) (s_reloads s) ->
  Forall (routes_off aid) (s_reloads s') /\ (off_in_router aid (s_router s) -> off_in_router aid (s_router s')).
Proof.
  intros [Hstep Hdis] Hrel.
  destruct Hstep as [i s' [c e k x store' r' Hi Hp Hst Hx]|request|i c Hi|store' Hst|l [fault Hl]|i l Hl|b|now]; cbn in *;
    (split; [try done|try done]).
  - by apply (off_router_step aid _ e x).
  - constructor; [|done]. exact (proj2 (routes_typed_disabled _ _ _ _ Hdis Hl)).
  - by apply Forall_delete.
  - intros _. apply off_install. exact (Forall_lookup_1 _ _ _ _ Hrel Hl).
  - unfold reset_account_health. intros Hoff. destruct (Routing.accounts (s_router s) !! b) as [c|] eqn:E; [|exact Hoff].
    intros a. cbn. destruct (decide (b = aid)) as [->|?]; intros; simplify_map_eq; [by apply (Hoff c)|by apply Hoff].
Qed.

Lemma switched_off_inv aid s reloaded s' :
  store_system_reachable crc32 base64_decode parse_aws_envelope format_date format_amz_date box dp s ->
  Forall (routes_off aid) (s_reloads s) -> switched_off aid s reloaded s' ->
  store_system_reachable crc32 base64_decode parse_aws_envelope format_date format_amz_date box dp s' /\
  all_disabled aid (sys_db (s_store s')) /\ Forall (routes_off aid) (s_reloads s') /\
  (reloaded = true -> off_in_router aid (s_router s')).
Proof.
  intros Hreach Hrel. induction 1 as [db Hoff|reloaded s1 s2 _ (IH1 & IH2 & IH3 & IH4) Hk|s1 i l _ (IH1 & IH2 & IH3 & _) Hi].
  - pose proof (system_reachable_inv _ _ _ _ _ dp s Hreach) as [[Hpast Hin] _ _ _ _ _].
    rewrite Forall_forall in Hpast. destruct (switches_off_step aid s db (Hpast _ Hin) Hoff) as [Hst Hdis].
    split_and!; [by eapply system_next|done|done|done].
  - destruct (keeps_off_inv aid s1 s2 Hk IH3) as [Hr Ho]. destruct Hk as [Hst Hdis].
    split_and!; [by eapply system_next|done|done|auto].
  - split_and!; [|done|by apply Forall_delete|].
    + eapply system_next; [exact IH1|]. by apply sy_install.
    + intros _. apply off_install. exact (Forall_lookup_1 _ _ _ _ IH3 Hi).
Qed.

(** The end of a handler, run without interruption, is such a run: a confirmed change
    has been followed by the installation of reloaded routes. *)
Lemma confirmed_change_reloads (aid action : string) (st st' : AdminState) (e : env) (rsp : Response) (s0 s : state) :
  switched_off aid s0 false s -> all_disabled aid (st_db st) -> shows s st ->
  finish_change st e action aid = Some (rsp, st') -> rsp_status rsp = 204 ->
  exists s', switched_off aid s0 true s' /\ shows s' st'.
Proof.
  intros Hoff Hdis [Hdb Hr] Hfin Hok. pose proof Hfin as Hfin'.
  apply finish_change_ok in Hfin as (Hacc & _ & routes & Hroutes & Hrouter); [|done].
  assert (Hdis' : all_disabled aid (st_db st')) by (unfold all_disabled; by rewrite Hacc).
  assert (Hdb' : st_db st' = (append_audit (st_db st) (env_fault e 2) (admin_event (env_now e 2) action aid None 204)).2).
  { unfold finish_change, refresh_routes in Hfin'. destruct (route_accounts _ _) as [[l|err]|] in Hfin'; [| |done];
      by injection Hfin' as _ <-. }
  set (s1 := set_store s (set_db (s_store s) (st_db st'))).
  assert (H1 : switched_off aid s0 false s1).
  { eapply sw_other; [exact Hoff|]. split; [|done]. apply sy_store. rewrite Hdb', <- Hdb. apply st_audit. }
  set (s2 := set_reloads s1 (routes :: s_reloads s1)).
  assert (H2 : switched_off aid s0 false s2).
  { eapply sw_other; [exact H1|]. split; [|done]. apply sy_read_routes. by exists (env_fault e 3). }
  eexists. split; [exact (sw_install aid s0 s2 0 routes H2 eq_refl)|]. split; [done|]. cbn. by rewrite Hrouter, Hr.
Qed.

(** C18.  Pausing or deleting an account takes effect in every interleaving: from the
    write to the store on, whatever clients and other control-plane requests do in
    between, as long as nobody resumes or stores the account anew, a credential snapshot
    accepts none of the account's credentials, current or previous; and from the
    installation of the reloaded routes on (the handler's reply comes after it) no
    request is routed to the account.  The condition is that no overlapping request
    still holds a list of routes, read before the write, in which the account is
    enabled: without it a confirmed pause can be undone in the router. *)
Theorem pause_and_delete_take_effect (s s' : state) (aid : string) (reloaded : bool)
    (Hreach : store_system_reachable crc32 base64_decode parse_aws_envelope format_date format_amz_date box dp s)
    (Hoverlap : Forall (routes_off aid) (s_reloads s))
    (Hrun : switched_off aid s reloaded s') :
  (forall auth now creds c d, credential_snapshot box (sys_db (s_store s')) false auth now = Ok (Available creds) ->
     c ∈ creds -> cred_account_id c = aid -> account_matches d now c = false) /\
  (reloaded = true -> forall request now r sel,
     choose (s_router s') request now = (r, Ok sel) -> sel_account_id sel <> aid).
Proof.
  destruct (switched_off_inv aid s reloaded s' Hreach Hoverlap Hrun) as (Hreach' & Hdis & _ & Hoff). split.
  - intros auth now creds c d Hs Hin Hid. by eapply snapshot_refuses_disabled.
  - intros Hr request now r sel. apply barred_not_chosen.
    + by destruct (system_reachable_inv _ _ _ _ _ dp s' Hreach').
    + intros a Ha. left. by apply Hoff.
Qed.
End ControlPlane.

Section Witnesses.
#[local] Existing Instance simple_url_lib.
#[local] Existing Instance simple_header_lib.
#[local] Existing Instance simple_crypto_lib.
#[local] Existing Instance simple_crypto_laws.
#[local] Existing Instance simple_json_lib.
#[local] Existing Instance sample_codec.
#[local] Existing Instance sample_codec_laws.

Definition sample_system : system (S := sys) :=
  let store := {| sys_db := old_db; sys_pending := []; sys_candidates := [] |} in
  {| s_store := store; s_router := router_new []; s_reloads := []; s_clients := []; s_dropped := [];
     s_past := [store] |}.

(** An administrator pauses an account. *)
Lemma admin_requests_are_system_runs_witness :
  exists rsp st' s', pause_sample = Some (rsp, st') /\
    rtc (store_system_step crc32_ieee (fun _ => None) no_envelope no_date no_date sample_box sample_dp) sample_system s' /\
    shows s' st' /\ s_clients s' = [].
Proof.
  destruct pause_sample as [[rsp st']|] eqn:Hp.
  2:{ exfalso. pose proof pause_sample_confirmed as Hx. rewrite Hp in Hx. discriminate Hx. }
  destruct (admin_requests_are_system_runs crc32_ieee (fun _ => None) no_envelope no_date no_date sample_box
    example_manager sample_runtime (fun _ => true) sample_dp sample_state st' sample_env sample_headers
    (ReqEnabled "a" false) rsp sample_system) as (s' & Hrun & Hs & Hc).
  - split; [reflexivity|]. intros k. split; [apply Z.leb_le|apply Z.ltb_lt]; vm_compute; reflexivity.
  - exact I.
  - exact Hp.
  - split; reflexivity.
  - exists rsp, st', s'. split; [reflexivity|]. split; [exact Hrun|]. split; [exact Hs|exact Hc].
Defined.

(** Account "a" is deleted; then the routes are read and installed. *)
Definition after_delete : Db := (delete_account old_db false "a").2.
Definition delete_written : system (S := sys) :=
  set_store idle_system (set_db (s_store idle_system) after_delete).
Definition delete_read : system (S := sys) := set_reloads delete_written [[]].

Lemma after_delete_disabled : all_disabled "a" after_delete.
Proof. eapply (delete_all_disabled sample_box old_db false); [exact old_db_wf|vm_compute; reflexivity]. Qed.

Lemma pause_and_delete_take_effect_witness :
  exists s', switched_off crc32_ieee (fun _ => None) no_envelope no_date no_date sample_box sample_dp "a"
    idle_system true s' /\
    forall request now r sel, choose (s_router s') request now = (r, Ok sel) -> sel_account_id sel <> "a".
Proof.
  assert (Hrun : switched_off crc32_ieee (fun _ => None) no_envelope no_date no_date sample_box sample_dp "a"
    idle_system true (set_reloads (set_router delete_read (replace_accounts (s_router delete_read) [])) [])).
  { apply (sw_install _ _ _ _ _ _ _ "a" idle_system delete_read 0 []); [|reflexivity].
    eapply sw_other; [apply (sw_write _ _ _ _ _ _ _ "a" idle_system after_delete), (so_delete "a" _ false); vm_compute; reflexivity|].
    split; [|exact after_delete_disabled]. apply (sy_read_routes _ _ _ _ _ sample_dp delete_written []).
    exists false. vm_compute. reflexivity. }
  eexists. split; [exact Hrun|].
  refine (proj2 (pause_and_delete_take_effect crc32_ieee (fun _ => None) no_envelope no_date no_date sample_box
    sample_dp idle_system _ "a" true _ _ Hrun) eq_refl).
  - apply system_start; [exists old_db; split; [exact old_db_wf|reflexivity]|exists false; vm_compute; reflexivity].
  - constructor.
Defined.
End Witnesses.
