(* ===== verification/Startup.v ===== *)
(** * Start-up and the command line (src/src/main.rs)

    The commands of the program, from the configuration file to a running service: the
    files and the environment are the state, every call of the operating system, of
    SQLite and of the random generator may fail, and its answers are the record
    [os_env].  Parsing the arguments (clap), logging and printing are left out. *)
From Stdlib Require Import Sorting.Sorted.
From S2P Require Import Prelude Interfaces Models Routing Auth Egress Bedrock Secrets Admin Providers DataPlane Transport Endpoints Storage AuditLog StoreOpen Files HttpApp Migration Config System.

Inductive StartupError :=
| FileUnreadable
| ConfigRejected (e : ConfigError)
| EnvironmentMissing (name : string)
| SecretRejected (e : SecretError)
| DirectoryFailed
| StoreFailed (e : StorageError)
| ImportFailed (e : MigrationError)
| ForwardFailed (e : ForwardProxyError)
| BindFailed.

Inductive Command :=
| Serve (config : string)
| ConfigCheck (config : string)
| CaInit (config : string)
| MigrateClaudeproxyEnv (config input : string) (replace : bool)
| BackupCreate (config output : string).

(** ** A monad for the commands: files as state, errors, panics *)

Definition io (A : Type) : Type := Files -> option (result A StartupError * Files).

Definition io_ret {A} (a : A) : io A := fun fs => Some (Ok a, fs).
Definition io_result {A} (r : result A StartupError) : io A := fun fs => Some (r, fs).
Definition io_panicking {A} (r : option (result A StartupError)) : io A := fun fs => (fun r => (r, fs)) <$> r.
Definition io_bind {A B} (m : io A) (k : A -> io B) : io B := fun fs =>
  match m fs with
  | None => None
  | Some (Err e, fs) => Some (Err e, fs)
  | Some (Ok a, fs) => k a fs
  end.

Notation "'run!' x ':=' m 'in' k" := (io_bind m (fun x => k))
  (at level 10, x name, m at level 200, k at level 200,
   format "'[v' 'run!'  x  ':='  m  'in' '/' k ']'").

(** ** What the system contributes *)

Section Startup.
Context `{U : UrlLib} `{H : HeaderLib} `{L : CryptoLib} `{C : !StoreCodec} `{Q : SqliteFormat} `{T : CertLib}.
Context (toml_from_str : string -> result ConfigTable string)
        (legacy_from_json : string -> option LegacyCredential)
        (oauth_envelope_to_json : OAuthEnvelope -> option string)
        (aws_envelope_to_json : AwsEnvelope -> option string)
        (from_timestamp_millis : Z -> option DateTime).

Record os_env := {
  os_vars : gmap string string;              (* bytes, not necessarily UTF-8 *)
  os_read_fails : string -> bool;
  os_mkdir_fails : string -> bool;
  os_umask : Z;
  os_now : DateTime;
  os_salt : string;
  os_open : open_env;
  os_prune_fails : bool;
  os_routes_fail : bool;
  os_import_fails : bool;
  os_import_nonces : nat -> string * string;
  os_import_faults : nat -> bool;
  os_ca : ca_env;
  os_backup : backup_env;
  os_bind_fails : bool;
  os_proxy_fails : bool
}.

Definition is_unicode (s : string) : bool := utf8_valid (list_ascii_of_string s).

(** [std::env::vars] panics at a name or value that is not UTF-8. *)
Definition vars_unicode (vars : gmap string string) : bool :=
  forallb (fun kv => is_unicode kv.1 && is_unicode kv.2) (map_to_list vars).

Definition read_text (e : os_env) (path : string) : io string := fun fs =>
  Some (ok_or (read_to_string (os_read_fails e) fs path) FileUnreadable, fs).

Definition load_config (e : os_env) (path : string) : io Config :=
  run! source := read_text e path in
  io_panicking (if vars_unicode (os_vars e)
                then Some (map_err ConfigRejected (from_toml_with_env toml_from_str source (os_vars e)))
                else None).

Definition required_environment (e : os_env) (name : string) : result string StartupError :=
  ok_or (option_filter is_unicode (os_vars e !! name)) (EnvironmentMissing name).

Definition derive_key (master_key purpose : string) : string := sha256 (master_key +:+ purpose).

Definition CLIENT_AUTH_PURPOSE : string := "llmap-client-auth-v1".
Definition ADMIN_SESSION_PURPOSE : string := "llmap-admin-session-v1".

Definition create_database_parent (e : os_env) (path : string) : io unit :=
  io_result (match parent_to_create path with
             | Some _ => if os_mkdir_fails e path then Err DirectoryFailed else Ok tt
             | None => Ok tt
             end).

Definition open_database (e : os_env) (box : SecretBox) (path : string) : io Db := fun fs =>
  '(res, fs) ← open_path box (os_umask e) (os_open e) fs path;
  Some (map_err StoreFailed res, fs).

(** The file of an open store always holds the store's tables. *)
Definition write_tables (path : string) (db : Db) (fs : Files) : Files :=
  alter (fun f => {| file_content := match file_content f with
                                     | DbContent d => DbContent (with_tables d db)
                                     | text => text
                                     end; file_mode := file_mode f |}) path fs.

(** A call of the store at [path] that returns a result and new tables. *)
Definition on_store {A} (path : string) (outcome : option (result A StartupError * Db)) : io (A * Db) :=
  fun fs => '(res, db) ← outcome;
            Some (match res with Ok a => Ok (a, db) | Err err => Err err end, write_tables path db fs).

(** ** A running service *)

Record Service := {
  svc_config : Config;
  svc_box : SecretBox;
  svc_state : AdminState;
  svc_chains : gmap string AccountProxyChain;
  svc_metrics : MetricsSnapshot;
  svc_policy : DestinationPolicy;
  svc_data_plane : DataPlane;
  svc_manager : AdminSessionManager;
  svc_runtime : AdminRuntimeConfig;
  svc_forward : option (ForwardProxyHandler * (SocketAddr * Z) * Issuer)
}.

(** The constructors; each starts with fresh state. *)
Definition DestinationPolicy_new (hosts : list string) (allow_private : bool) : DestinationPolicy :=
  {| allowlist := hosts; allow_unsafe_private_networks := allow_private |}.

Definition Authenticator_new (key : string) : Authenticator := {| digest_key := key |}.

Definition zero_metrics : MetricsSnapshot :=
  {| requests_total := 0; authentication_failures_total := 0; upstream_failures_total := 0; responses_total := 0 |}.

(** The repository, the router and the transport are other parts of the service. *)
Definition DataPlane_new (mode : AuthMode) (a : Authenticator) (max : Z) : DataPlane * MetricsSnapshot :=
  ({| auth_mode := mode; authenticator := a; max_request_bytes := max |}, zero_metrics).

Definition ReqwestTransport_new (policy : DestinationPolicy) : DestinationPolicy * gmap string AccountProxyChain :=
  (policy, ∅).

Definition AdminSessionManager_new (username : string) (hash : AdminPasswordHash) (key : string)
    (policy : SessionPolicy) : AdminSessionManager * SessionState :=
  ({| mgr_username := username; mgr_password_hash := hash; mgr_digest_key := key; mgr_policy := policy |},
   initial_state).

Definition ForwardProxyHandler_new (dp : DataPlane) (policy : DestinationPolicy) (max : Z) : ForwardProxyHandler :=
  {| fph_data_plane := dp; fph_policy := policy; fph_max_request_bytes := max |}.

Definition serve_forward_proxy (e : os_env) (bind cert_path key_path : string) (handler : ForwardProxyHandler) :
    io (ForwardProxyHandler * (SocketAddr * Z) * Issuer) := fun fs =>
  Some (map_err ForwardFailed (
    let? address := ok_or (socket_addr_from_str bind) InvalidAddress in
    let? authority := load_ca (os_read_fails e) fs cert_path key_path in
    if os_proxy_fails e then Err ProxyFailed else Ok (handler, address, authority)), fs).

(** The two listeners: the reverse proxy's is bound first, then the forward proxy is
    started if it is configured. *)
Definition start_servers (e : os_env) (config : Config) (data_plane : DataPlane) :
    io (option (ForwardProxyHandler * (SocketAddr * Z) * Issuer)) :=
  run! _ := io_result (if os_bind_fails e then Err BindFailed else Ok tt) in
  if forward_enabled (forward_proxy config)
  then run! started := serve_forward_proxy e (forward_bind (forward_proxy config))
                         (ca_cert_path (forward_proxy config)) (ca_key_path (forward_proxy config))
                         (ForwardProxyHandler_new data_plane
                            (DestinationPolicy_new (forward_allowed_hosts (forward_proxy config)) false)
                            (server_max_request_bytes (server config))) in
       io_ret (Some started)
  else io_ret None.

(** [serve] up to the running servers.  What runs from then on is not part of it: the
    requests (DataPlane, HttpApp, Endpoints), the spawned task that calls
    [refresh_due_oauth] every minute (Storage), and the wait for the servers to end. *)
Definition serve (e : os_env) (config_path : string) : io Service :=
  run! config := load_config e config_path in
  run! encoded_master_key := io_result (required_environment e (master_key_env (storage config))) in
  run! master_key := io_result (map_err SecretRejected (parse_master_key encoded_master_key)) in
  run! admin_password := io_result (required_environment e (bootstrap_password_env (admin config))) in
  let path := database_path (storage config) in
  run! _ := create_database_parent e path in
  let box := {| box_key := master_key |} in
  run! db := open_database e box path in
  let expired_before := os_now e - hours (24 * audit_retention_days (telemetry config)) in
  run! pruned := on_store path
    (let '(res, db) := prune_audit_before db (os_prune_fails e) expired_before in
     Some (map_err StoreFailed res, db)) in
  let db := pruned.2 in
  let auth_key := derive_key master_key CLIENT_AUTH_PURPOSE in
  let session_key := derive_key master_key ADMIN_SESSION_PURPOSE in
  run! routes := io_panicking (map_err StoreFailed <$> route_accounts db (os_routes_fail e)) in
  let '(destination_policy, chains) :=
    ReqwestTransport_new (DestinationPolicy_new (allowed_upstream_hosts (server config)) false) in
  let '(data_plane, metrics) := DataPlane_new (config_mode (auth config)) (Authenticator_new auth_key)
                                  (server_max_request_bytes (server config)) in
  run! password_hash := io_result (map_err SecretRejected (password_hash_create (os_salt e) admin_password)) in
  let '(manager, sessions) := AdminSessionManager_new (config_username (admin config)) password_hash session_key
                                default_policy in
  run! forward := start_servers e config data_plane in
  io_ret {| svc_config := config; svc_box := box;
            svc_state := {| st_db := db; st_sessions := sessions; st_router := router_new routes |};
            svc_chains := chains; svc_metrics := metrics; svc_policy := destination_policy;
            svc_data_plane := data_plane; svc_manager := manager;
            svc_runtime := {| rt_auth_mode := config_mode (auth config);
                              auth_mode_locked := mode_locked_by_environment (auth config);
                              secure_cookies := config_secure_cookies (admin config) |};
            svc_forward := forward |}.

(** ** The other commands *)

Definition backup_database (e : os_env) (config_path output : string) : io unit :=
  run! config := load_config e config_path in
  run! encoded_master_key := io_result (required_environment e (master_key_env (storage config))) in
  run! master_key := io_result (map_err SecretRejected (parse_master_key encoded_master_key)) in
  run! _ := open_database e {| box_key := master_key |} (database_path (storage config)) in
  fun fs =>
    match file_content <$> fs !! database_path (storage config) with
    | Some (DbContent source) =>
        let '(res, fs) := backup_to (os_backup e) source fs output in Some (map_err StoreFailed res, fs)
    | _ => Some (Err (StoreFailed Database), fs)      (* unreachable: the store is open *)
    end.

Definition migrate_claudeproxy_env (e : os_env) (config_path input : string) (replace : bool) : io ImportSummary :=
  run! config := load_config e config_path in
  run! encoded_master_key := io_result (required_environment e (master_key_env (storage config))) in
  run! master_key := io_result (map_err SecretRejected (parse_master_key encoded_master_key)) in
  let path := database_path (storage config) in
  run! _ := create_database_parent e path in
  run! source := read_text e input in
  run! accounts := io_panicking (map_err ImportFailed <$>
    parse_claudeproxy_env legacy_from_json oauth_envelope_to_json aws_envelope_to_json from_timestamp_millis source) in
  let box := {| box_key := master_key |} in
  run! db := open_database e box path in
  run! summary := on_store path
    ('(res, db) ← import_claudeproxy_env box db (os_import_fails e) (os_import_nonces e) (os_import_faults e)
                    accounts replace;
     Some (map_err ImportFailed res, db)) in
  io_ret summary.1.

Definition ca_init (e : os_env) (config_path : string) : io unit :=
  run! config := load_config e config_path in
  fun fs =>
    let '(res, fs) := generate_ca (os_ca e) fs (ca_cert_path (forward_proxy config))
                        (ca_key_path (forward_proxy config)) in
    Some (map_err ForwardFailed res, fs).

Inductive outcome :=
| Finished
| Imported (summary : ImportSummary)
| Serving (service : Service).

Definition run_command (e : os_env) (command : Command) : io outcome :=
  match command with
  | ConfigCheck config => run! _ := load_config e config in io_ret Finished
  | Serve config => run! service := serve e config in io_ret (Serving service)
  | CaInit config => run! _ := ca_init e config in io_ret Finished
  | MigrateClaudeproxyEnv config input replace =>
      run! summary := migrate_claudeproxy_env e config input replace in io_ret (Imported summary)
  | BackupCreate config output => run! _ := backup_database e config output in io_ret Finished
  end.
End Startup.

(** ** Theorems *)

Lemma io_bind_inv {A B} (m : io A) (k : A -> io B) fs r fs' :
  io_bind m k fs = Some (r, fs') ->
  (exists err, m fs = Some (Err err, fs') /\ r = Err err) \/
  (exists a fs1, m fs = Some (Ok a, fs1) /\ k a fs1 = Some (r, fs')).
Proof.
  unfold io_bind. destruct (m fs) as [[[a|err] fs1]|]; [| |done].
  - intros Hk. right. by exists a, fs1.
  - intros [= <- <-]. left. by exists err.
Qed.

Lemma io_result_inv {A} (x : result A StartupError) fs r fs' :
  io_result x fs = Some (r, fs') -> r = x /\ fs' = fs.
Proof. by intros [= <- <-]. Qed.

Lemma io_ret_inv {A} (a : A) fs r fs' : io_ret a fs = Some (r, fs') -> r = Ok a /\ fs' = fs.
Proof. by intros [= <- <-]. Qed.

Lemma io_panicking_inv {A} (x : option (result A StartupError)) fs r fs' :
  io_panicking x fs = Some (r, fs') -> x = Some r /\ fs' = fs.
Proof. unfold io_panicking. destruct x as [y|]; [|done]. by intros [= <- <-]. Qed.

Create HintDb reads.

(** One step of a command: it failed there, or it went on. *)
Ltac io_step H :=
  let err := fresh "err" in let a := fresh "a" in let fs1 := fresh "fs1" in let Hm := fresh "Hm" in
  apply io_bind_inv in H as [(err & Hm & ->)|(a & fs1 & Hm & H)].

Section Theorems.
Context `{U : UrlLib} `{H : HeaderLib} `{L : CryptoLib} `{!CryptoLaws L} `{C : !StoreCodec} `{!StoreCodecLaws C}.
Context `{Q : SqliteFormat} `{T : CertLib}.
Context (toml_from_str : string -> result ConfigTable string)
        (legacy_from_json : string -> option LegacyCredential)
        (oauth_envelope_to_json : OAuthEnvelope -> option string)
        (aws_envelope_to_json : AwsEnvelope -> option string)
        (from_timestamp_millis : Z -> option DateTime).
Abbreviation load_config' := (load_config toml_from_str).
Abbreviation serve' := (serve toml_from_str).
Abbreviation run_command' := (run_command toml_from_str legacy_from_json oauth_envelope_to_json
                                aws_envelope_to_json from_timestamp_millis).

(** *** The tables in a file *)

Definition tables (fs : Files) (path : string) : Db :=
  match file_content <$> fs !! path with
  | Some (DbContent f) => file_db f
  | _ => file_db empty_file
  end.

Lemma write_tables_other path p db fs : p <> path -> write_tables path db fs !! p = fs !! p.
Proof. intros Hne. unfold write_tables. by rewrite lookup_alter_ne. Qed.

Lemma write_tables_at path db fs f mode :
  fs !! path = Some {| file_content := DbContent f; file_mode := mode |} ->
  write_tables path db fs !! path = Some {| file_content := DbContent (with_tables f db); file_mode := mode |} /\
  tables (write_tables path db fs) path = db.
Proof.
  intros Hf. unfold tables, write_tables. rewrite lookup_alter_eq, Hf. cbn. by rewrite with_tables_db.
Qed.

(** *** Opening the database of a command *)

(** What an opening may have done to the files, whether it succeeded or not. *)
Record opened (box : SecretBox) (path : string) (fs fs' : Files) : Prop := {
  op_frame : forall p, p <> path -> fs' !! p = fs !! p;
  op_rows : rows_kept box (provider_accounts (tables fs path)) (provider_accounts (tables fs' path));
  op_history : credential_history (tables fs' path) = credential_history (tables fs path);
  op_audit : audit_events (tables fs' path) = audit_events (tables fs path);
  op_sequence : audit_sequence (tables fs' path) = audit_sequence (tables fs path)
}.

Definition open_at (path : string) (fs : Files) (db : Db) : Prop :=
  exists f mode, fs !! path = Some {| file_content := DbContent f; file_mode := mode |} /\
    file_db f = db /\ schema_current f /\ legacy_rows db = [].

Lemma opened_refl box path fs : opened box path fs fs.
Proof. by split; try apply rows_kept_refl. Qed.

Lemma open_database_spec (e : os_env) box path fs :
  (forall k, String.length (oe_nonces (os_open e) k) = 24%nat) ->
  exists r fs', open_database e box path fs = Some (r, fs') /\ opened box path fs fs' /\
    (forall db, r = Ok db -> open_at path fs' db).
Proof.
  intros Hn. unfold open_database, open_path.
  assert (Hon : forall f mode, file_db f = tables fs path ->
    exists r fs', ('(res, f) ← open_store box f (os_open e);
       Some (res, <[path := {| file_content := DbContent f; file_mode := mode |}]> fs)) = Some (r, fs') /\
      opened box path fs fs' /\ (forall db, r = Ok db -> open_at path fs' db)).
  { intros f mode Hf. destruct (open_store_spec box f (os_open e) Hn)
      as (res & f' & Hopen & Hk & Hh & He & Hs & Hok).
    rewrite Hopen. cbn. eexists _, _. split; [done|].
    assert (Ht : tables (<[path := {| file_content := DbContent f'; file_mode := mode |}]> fs) path = file_db f')
      by (unfold tables; by rewrite lookup_insert_eq).
    split.
    - split; rewrite ?Ht, <- ?Hf; try done. intros p Hp. by rewrite lookup_insert_ne.
    - intros db Hdb. destruct (Hok db Hdb) as (-> & Hcur & Hleg).
      exists f', mode. by rewrite lookup_insert_eq. }
  assert (Hwrap : forall m : option (result Db StorageError * Files),
    (exists r fs', m = Some (r, fs') /\ opened box path fs fs' /\ (forall db, r = Ok db -> open_at path fs' db)) ->
    exists r fs', ('(res, fs) ← m; Some (map_err StoreFailed res, fs)) = Some (r, fs') /\
      opened box path fs fs' /\ (forall db, r = Ok db -> open_at path fs' db)).
  { intros m (r & fs' & -> & Ho & Hr). cbn. eexists _, fs'. split; [done|]. split; [done|].
    intros db. destruct r; [|done]. intros [= <-]. by apply Hr. }
  apply Hwrap. unfold tables in Hon. destruct (fs !! path) as [[[bytes|f] mode]|] eqn:Hf.
  - destruct (string_is_empty bytes); [by apply Hon|]. eexists _, _. split; [done|].
    split; [apply opened_refl|done].
  - by apply Hon.
  - destruct (oe_fails (os_open e) 0); [|by apply Hon]. eexists _, _. split; [done|].
    split; [apply opened_refl|done].
Qed.

(** *** What a command may change *)

(** Only the database at [path] and new files among [outs] are written; unless accounts
    are to be replaced, every stored account loads as before. *)
Record harmless (box : SecretBox) (path : string) (outs : list string) (replace : bool) (fs fs' : Files) : Prop := {
  hl_frame : forall p, p <> path -> p ∉ outs -> fs' !! p = fs !! p;
  hl_files : forall p f, p <> path -> fs !! p = Some f -> fs' !! p = Some f;
  hl_accounts : replace = false -> store_wf box (tables fs path) ->
    forall aid, is_Some (provider_accounts (tables fs path) !! aid) ->
      load_account box (tables fs' path) false aid = load_account box (tables fs path) false aid
}.

Lemma harmless_refl box path outs replace fs : harmless box path outs replace fs fs.
Proof. by split. Qed.

Lemma opened_harmless box path outs replace fs fs' : opened box path fs fs' -> harmless box path outs replace fs fs'.
Proof.
  intros [Hframe Hrows _ _ _]. split.
  - auto.
  - intros p f Hp. by rewrite Hframe.
  - intros _ _ aid _. apply kept_or_encrypted_loads, Hrows.
Qed.

(** Writing tables that keep the rows of the accounts that were there. *)
Lemma written_harmless box path outs replace fs fs1 db db' :
  opened box path fs fs1 -> open_at path fs1 db ->
  (replace = false -> store_wf box db -> forall aid, is_Some (provider_accounts db !! aid) ->
     provider_accounts db' !! aid = provider_accounts db !! aid) ->
  harmless box path outs replace fs (write_tables path db' fs1).
Proof.
  intros Hop (f & mode & Hf & Hdb & _) Hsame. pose proof Hop as [Hframe Hrows Hhist _ _].
  assert (Ht1 : tables fs1 path = db) by (unfold tables; by rewrite Hf).
  destruct (write_tables_at path db' fs1 f mode Hf) as [_ Ht]. split.
  - intros p Hp _. by rewrite write_tables_other, Hframe.
  - intros p g Hp Hg. by rewrite write_tables_other, Hframe.
  - intros Hrep Hwf aid [row Hrow]. rewrite Ht. rewrite Ht1 in Hrows, Hhist.
    assert (Hwf1 : store_wf box db) by by eapply rows_kept_wf.
    etrans; [|by apply kept_or_encrypted_loads, Hrows]. apply load_account_ext, Hsame; [done|done|].
    specialize (Hrows aid). rewrite Hrow in Hrows. destruct (provider_accounts db !! aid); [by eexists|done].
Qed.

(** A file that is there keeps its tables. *)
Lemma kept_files_harmless box path outs replace fs fs' :
  (forall p, p ∉ outs -> fs' !! p = fs !! p) -> (forall p f, fs !! p = Some f -> fs' !! p = Some f) ->
  harmless box path outs replace fs fs'.
Proof.
  intros Hframe Hkeep. split; [auto|auto|]. intros _ _ aid Haid. unfold tables in *.
  destruct (fs !! path) as [f|] eqn:Hf; [by rewrite (Hkeep _ _ Hf)|]. cbn in Haid.
  rewrite lookup_empty in Haid. by destruct Haid.
Qed.

Lemma harmless_trans box path outs fs fs1 fs2 :
  opened box path fs fs1 -> (forall p, p ∉ outs -> fs2 !! p = fs1 !! p) ->
  (forall p f, fs1 !! p = Some f -> fs2 !! p = Some f) ->
  (exists f, fs1 !! path = Some f) -> harmless box path outs false fs fs2.
Proof.
  intros Hop Hframe Hkeep [f Hf].
  destruct (opened_harmless box path outs false fs fs1 Hop) as [H1 H2 H3]. split.
  - intros p Hp Hout. by rewrite Hframe, H1.
  - intros p g Hp Hg. by apply Hkeep, H2.
  - intros Hr Hwf aid Haid. rewrite <- (H3 Hr Hwf aid Haid). unfold tables.
    by rewrite Hf, (Hkeep _ _ Hf).
Qed.

(** *** The commands *)

Definition master_key (e : os_env) (c : Config) : result string StartupError :=
  let? encoded := required_environment e (master_key_env (storage c)) in
  map_err SecretRejected (parse_master_key encoded).

Lemma load_config_files e path fs r fs' : load_config' e path fs = Some (r, fs') -> fs' = fs.
Proof.
  unfold load_config. intros Hl. io_step Hl.
  - by injection Hm as _ <-.
  - injection Hm as _ <-. by apply io_panicking_inv in Hl as [_ ->].
Qed.

(** The prefix the commands with a database share: configuration, key. *)
Lemma keyed_inv {A} e path fs (k : Config -> string -> io A) r fs' :
  (run! config := load_config' e path in
   run! encoded := io_result (required_environment e (master_key_env (storage config))) in
   run! key := io_result (map_err SecretRejected (parse_master_key encoded)) in
   k config key) fs = Some (r, fs') ->
  match load_config' e path fs with
  | Some (Ok c, _) =>
      match master_key e c with
      | Ok key => k c key fs = Some (r, fs')
      | Err err => r = Err err /\ fs' = fs
      end
  | Some (Err err, _) => r = Err err /\ fs' = fs
  | None => False
  end.
Proof.
  intros Hrun. unfold io_bind in Hrun at 1.
  destruct (load_config' e path fs) as [[[c|err] fs1]|] eqn:Hl; [| |done];
    apply load_config_files in Hl as ->; [|by injection Hrun as <- <-].
  unfold master_key, io_bind, io_result in *.
  destruct (required_environment e _) as [encoded|err]; [|by injection Hrun as <- <-].
  destruct (parse_master_key encoded) as [key|err]; cbn [map_err] in *; [done|by injection Hrun as <- <-].
Qed.

Context (e : os_env) (nonces : forall k, String.length (oe_nonces (os_open e) k) = 24%nat).

Lemma open_database_inv box path fs r fs' :
  open_database e box path fs = Some (r, fs') ->
  opened box path fs fs' /\ (forall db, r = Ok db -> open_at path fs' db).
Proof.
  intros Hrun. destruct (open_database_spec e box path fs nonces) as (r0 & fs0 & Hopen & Ho & Hr).
  rewrite Hopen in Hrun. injection Hrun as <- <-. done.
Qed.

Lemma on_store_inv {A} path (x : option (result A StartupError * Db)) fs r fs' :
  on_store path x fs = Some (r, fs') ->
  exists res db, x = Some (res, db) /\ fs' = write_tables path db fs /\
    r = match res with Ok a => Ok (a, db) | Err err => Err err end.
Proof.
  unfold on_store. destruct x as [[res db]|]; [|done]. intros [= <- <-]. by exists res, db.
Qed.

(** A command that only reads has the files of its argument. *)
Definition reads_only {A} (m : io A) : Prop := forall fs r fs', m fs = Some (r, fs') -> fs' = fs.

Lemma reads_only_bind {A B} (m : io A) (k : A -> io B) :
  reads_only m -> (forall a, reads_only (k a)) -> reads_only (io_bind m k).
Proof.
  intros Hm Hk fs r fs' Hrun. apply io_bind_inv in Hrun as [(err & Hrun & ->)|(a & fs1 & H1 & H2)].
  - by eapply Hm.
  - apply Hm in H1 as ->. by eapply Hk.
Qed.

Lemma reads_only_result {A} (x : result A StartupError) : reads_only (io_result x).
Proof. by intros fs r fs' [_ ->]%io_result_inv. Qed.
Lemma reads_only_ret {A} (a : A) : reads_only (io_ret a).
Proof. by intros fs r fs' [_ ->]%io_ret_inv. Qed.
Lemma reads_only_panicking {A} (x : option (result A StartupError)) : reads_only (io_panicking x).
Proof. by intros fs r fs' [_ ->]%io_panicking_inv. Qed.
Lemma reads_only_text path : reads_only (read_text e path).
Proof. by intros fs r fs' [= _ <-]. Qed.
Lemma reads_only_forward bind cert key handler : reads_only (serve_forward_proxy e bind cert key handler).
Proof. by intros fs r fs' [= _ <-]. Qed.
#[local] Hint Resolve reads_only_bind reads_only_result reads_only_ret reads_only_panicking reads_only_text
  reads_only_forward : reads.

Lemma serve_harmless config_path fs c key r fs' :
  load_config' e config_path fs = Some (Ok c, fs) -> master_key e c = Ok key ->
  serve' e config_path fs = Some (r, fs') ->
  harmless {| box_key := key |} (database_path (storage c)) [] false fs fs'.
Proof.
  intros Hl Hkey Hrun. apply keyed_inv in Hrun. rewrite Hl, Hkey in Hrun. cbn zeta in Hrun.
  io_step Hrun; apply reads_only_result in Hm as ->; [apply harmless_refl|].
  io_step Hrun; apply reads_only_result in Hm as ->; [apply harmless_refl|].
  io_step Hrun; apply open_database_inv in Hm as [Hop Hat]; [by apply opened_harmless|].
  specialize (Hat _ eq_refl).
  assert (Hst : forall r2 fs2, on_store (database_path (storage c))
    (let '(res, db) := prune_audit_before a1 (os_prune_fails e)
                         (os_now e - hours (24 * audit_retention_days (telemetry c))) in
     Some (map_err StoreFailed res, db)) fs1 = Some (r2, fs2) ->
    harmless {| box_key := key |} (database_path (storage c)) [] false fs fs2).
  { intros r2 fs2 (res & db & Hx & -> & _)%on_store_inv.
    eapply written_harmless; [done|done|]. intros _ _ aid _.
    unfold prune_audit_before in Hx. destruct (os_prune_fails e); by injection Hx as _ <-. }
  io_step Hrun; apply Hst in Hm as Hh; [done|].
  match type of Hrun with ?m ?f = _ => assert (Hro : reads_only m) end.
  { unfold start_servers. destruct (forward_enabled (forward_proxy c));
      repeat (apply reads_only_bind; [repeat (apply reads_only_bind; [auto with reads|intros ?]); auto with reads|intros ?]);
      auto with reads. }
  by apply Hro in Hrun as ->.
Qed.

Lemma migrate_harmless config_path input replace fs c key r fs' :
  load_config' e config_path fs = Some (Ok c, fs) -> master_key e c = Ok key ->
  migrate_claudeproxy_env toml_from_str legacy_from_json oauth_envelope_to_json aws_envelope_to_json
    from_timestamp_millis e config_path input replace fs = Some (r, fs') ->
  harmless {| box_key := key |} (database_path (storage c)) [] replace fs fs'.
Proof.
  intros Hl Hkey Hrun. apply keyed_inv in Hrun. rewrite Hl, Hkey in Hrun. cbn zeta in Hrun.
  io_step Hrun; apply reads_only_result in Hm as ->; [apply harmless_refl|].
  io_step Hrun; apply reads_only_text in Hm as ->; [apply harmless_refl|].
  io_step Hrun; apply reads_only_panicking in Hm as ->; [apply harmless_refl|].
  io_step Hrun; apply open_database_inv in Hm as [Hop Hat]; [by apply opened_harmless|].
  specialize (Hat _ eq_refl).
  assert (Hst : forall r2 fs2, on_store (database_path (storage c))
    ('(res, db) ← import_claudeproxy_env {| box_key := key |} a2 (os_import_fails e) (os_import_nonces e)
                    (os_import_faults e) a1 replace;
     Some (map_err ImportFailed res, db)) fs1 = Some (r2, fs2) ->
    harmless {| box_key := key |} (database_path (storage c)) [] replace fs fs2).
  { intros r2 fs2 (res & db & Hx & -> & _)%on_store_inv.
    eapply written_harmless; [done|done|]. intros -> Hwf aid Haid.
    destruct (import_claudeproxy_env _ _ _ _ _ _ _) as [[res' db']|] eqn:Himp; [|done]. injection Hx as _ <-.
    pose proof (import_keeps_existing _ _ _ _ _ _ _ _ aid Hwf Himp Haid) as Hs. by injection Hs. }
  io_step Hrun; apply Hst in Hm as Hh; [done|]. by apply io_ret_inv in Hrun as [_ ->].
Qed.

Lemma backup_harmless config_path output fs c key r fs' :
  load_config' e config_path fs = Some (Ok c, fs) -> master_key e c = Ok key ->
  backup_database toml_from_str e config_path output fs = Some (r, fs') ->
  harmless {| box_key := key |} (database_path (storage c)) [output] false fs fs'.
Proof.
  intros Hl Hkey Hrun. apply keyed_inv in Hrun. rewrite Hl, Hkey in Hrun. cbn zeta in Hrun.
  io_step Hrun; apply open_database_inv in Hm as [Hop Hat]; [by apply opened_harmless|].
  destruct (Hat _ eq_refl) as (f & mode & Hf & Hdb & _). rewrite Hf in Hrun. cbn in Hrun.
  pose proof (backup_frame (os_backup e) f fs1 output) as [Hframe Hex].
  destruct (backup_to (os_backup e) f fs1 output) as [res fs2]. injection Hrun as _ <-. cbn in Hframe, Hex.
  eapply harmless_trans; [exact Hop| | |by eexists].
  - intros p Hp. apply Hframe. set_solver.
  - intros p g Hg. destruct (decide (p = output)) as [->|Hne]; [by rewrite Hex by by eexists|by rewrite Hframe].
Qed.

Lemma ca_init_harmless config_path fs c r fs' box :
  load_config' e config_path fs = Some (Ok c, fs) ->
  ca_init toml_from_str e config_path fs = Some (r, fs') ->
  harmless box (database_path (storage c)) [ca_cert_path (forward_proxy c); ca_key_path (forward_proxy c)]
    false fs fs'.
Proof.
  intros Hl Hrun. unfold ca_init, io_bind in Hrun. rewrite Hl in Hrun.
  pose proof (generate_ca_frame (os_ca e) fs (ca_cert_path (forward_proxy c)) (ca_key_path (forward_proxy c)))
    as [Hkeep Hframe].
  destruct (generate_ca _ _ _ _) as [res fs2]. injection Hrun as _ <-. by apply kept_files_harmless.
Qed.

(** *** No command loses anything *)

Definition config_of (command : Command) : string :=
  match command with
  | Serve c | ConfigCheck c | CaInit c | MigrateClaudeproxyEnv c _ _ | BackupCreate c _ => c
  end.

(** The files a command may create, besides the database. *)
Definition creates (c : Config) (command : Command) : list string :=
  match command with
  | CaInit _ => [ca_cert_path (forward_proxy c); ca_key_path (forward_proxy c)]
  | BackupCreate _ output => [output]
  | _ => []
  end.

Definition replaces (command : Command) : bool :=
  match command with MigrateClaudeproxyEnv _ _ replace => replace | _ => false end.

Definition uses_database (command : Command) : bool :=
  match command with ConfigCheck _ | CaInit _ => false | _ => true end.

Lemma run_then {A} (m : io A) (f : A -> outcome) fs r fs' :
  (run! x := m in io_ret (f x)) fs = Some (r, fs') -> exists r0, m fs = Some (r0, fs') /\ is_ok r0 = is_ok r.
Proof.
  intros Hrun. io_step Hrun; [by eexists|]. apply io_ret_inv in Hrun as [-> ->]. by eexists.
Qed.

(** C9.  No command loses or damages anything, however it ends.  When the configuration
    cannot be loaded, or the master key is missing or malformed, it fails and no file
    changes.  Otherwise only the database and the files the command is there to create
    change; a file that exists is kept, the database apart; and every account in the
    database is read back with the same key exactly as before, unless accounts are
    imported with replacement. *)
Theorem commands_lose_nothing (command : Command) (fs fs' : Files) (r : result outcome StartupError)
    (Hrun : run_command' e command fs = Some (r, fs')) :
  match load_config' e (config_of command) fs with
  | Some (Ok c, _) =>
      match master_key e c with
      | Ok key => harmless {| box_key := key |} (database_path (storage c)) (creates c command)
                    (replaces command) fs fs'
      | Err _ => forall box, harmless box (database_path (storage c)) (creates c command) false fs fs' /\
                   (uses_database command = true -> is_ok r = false /\ fs' = fs)
      end
  | Some (Err _, _) => is_ok r = false /\ fs' = fs
  | None => False
  end.
Proof.
  destruct (load_config' e (config_of command) fs) as [[[c|err] fs0]|] eqn:Hl.
  - pose proof (load_config_files _ _ _ _ _ Hl) as ->.
    destruct (master_key e c) as [key|err] eqn:Hkey; [|intros box]; destruct command; cbn [config_of run_command] in Hl, Hrun;
      apply run_then in Hrun as (r0 & Hrun & Hr).
    + by eapply serve_harmless.
    + apply load_config_files in Hrun as ->. apply harmless_refl.
    + by eapply ca_init_harmless.
    + by eapply migrate_harmless.
    + by eapply backup_harmless.
    + apply keyed_inv in Hrun. rewrite Hl, Hkey in Hrun. destruct Hrun as [-> ->].
      by rewrite <- Hr; split; [apply harmless_refl|].
    + apply load_config_files in Hrun as ->. by split; [apply harmless_refl|].
    + split; [by eapply ca_init_harmless|done].
    + apply keyed_inv in Hrun. rewrite Hl, Hkey in Hrun. destruct Hrun as [-> ->].
      by rewrite <- Hr; split; [apply harmless_refl|].
    + apply keyed_inv in Hrun. rewrite Hl, Hkey in Hrun. destruct Hrun as [-> ->].
      by rewrite <- Hr; split; [apply harmless_refl|].
  - pose proof (load_config_files _ _ _ _ _ Hl) as ->.
    destruct command; cbn [config_of run_command] in Hl, Hrun; apply run_then in Hrun as (r0 & Hrun & Hr); unfold ca_init in Hrun;
      try (apply keyed_inv in Hrun; rewrite Hl in Hrun; rewrite <- Hr; destruct Hrun as [-> ->]; done);
      unfold io_bind in Hrun; rewrite Hl in Hrun; rewrite <- Hr; by injection Hrun as <- <-.
  - destruct command; cbn [config_of run_command] in Hl, Hrun; apply run_then in Hrun as (r0 & Hrun & Hr); unfold ca_init in Hrun;
      try (apply keyed_inv in Hrun; rewrite Hl in Hrun; done); unfold io_bind in Hrun; by rewrite Hl in Hrun.
Qed.

(** *** The started service *)

Lemma io_bind_Ok {A B} (m : io A) (k : A -> io B) fs b fs' :
  io_bind m k fs = Some (Ok b, fs') ->
  exists a fs1, m fs = Some (Ok a, fs1) /\ k a fs1 = Some (Ok b, fs').
Proof. by intros [(err & _ & [=])|Hk]%io_bind_inv. Qed.

Lemma load_config_valid path fs c fs' :
  (forall source t, toml_from_str source = Ok t -> table_typed t) ->
  load_config' e path fs = Some (Ok c, fs') -> config_valid c.
Proof.
  intros Htoml Hl. apply io_bind_Ok in Hl as (source & fs1 & _ & [Hp _]%io_panicking_inv).
  destruct (vars_unicode _); [|done]. injection Hp as Hc.
  destruct (from_toml_with_env _ _ _) as [c'|] eqn:Hf; [|done]. injection Hc as ->.
  eapply from_toml_valid; [apply Htoml|exact Hf].
Qed.

(** Different inputs with the same digest. *)
Definition sha256_collision : Prop := exists x y, x <> y /\ sha256 x = sha256 y.

(** The state of the running system (System.v) a service starts in. *)
Definition initial_system (s : Service) : system :=
  let store := {| sys_db := st_db (svc_state s); sys_pending := []; sys_candidates := [] |} in
  {| s_store := store; s_router := st_router (svc_state s); s_reloads := []; s_clients := [];
     s_dropped := []; s_past := [store] |}.

(** A path's database before the start: the audit events that are still kept. *)
Definition retained (c : Config) (db : Db) : list audit_row :=
  List.filter (fun r => negb (ae_occurred_at (audit_event r) <?
                 os_now e - hours (24 * audit_retention_days (telemetry c)))) (audit_events db).

Record service_sound (fs fs' : Files) (s : Service) : Prop := {
  ss_config : config_valid (svc_config s);
  ss_key : master_key e (svc_config s) = Ok (box_key (svc_box s));
  ss_keys_differ : digest_key (authenticator (svc_data_plane s)) = mgr_digest_key (svc_manager s) ->
    sha256_collision;
  ss_limit : 1 <= max_request_bytes (svc_data_plane s) <= 268435456;
  ss_store : open_at (database_path (storage (svc_config s))) fs' (st_db (svc_state s));
  ss_accounts : forall aid, load_account (svc_box s) (st_db (svc_state s)) false aid
    = load_account (svc_box s) (tables fs (database_path (storage (svc_config s)))) false aid;
  ss_audit : audit_events (st_db (svc_state s))
    = retained (svc_config s) (tables fs (database_path (storage (svc_config s))));
  ss_router : router_wf (st_router (svc_state s));
  ss_routes : forall aid, is_Some (Routing.accounts (st_router (svc_state s)) !! aid) <->
    is_Some (provider_accounts (st_db (svc_state s)) !! aid);
  ss_idle : forall aid a, Routing.accounts (st_router (svc_state s)) !! aid = Some a -> Routing.in_flight a = 0;
  ss_sessions : Admin.sessions (st_sessions (svc_state s)) = ∅ /\ Routing.sessions (st_router (svc_state s)) = ∅;
  ss_policy : allow_unsafe_private_networks (svc_policy s) = false /\ are_host_patterns (allowlist (svc_policy s));
  ss_forward : match svc_forward s with
    | None => forward_enabled (forward_proxy (svc_config s)) = false
    | Some (handler, address, issuer) =>
        forward_enabled (forward_proxy (svc_config s)) = true /\
        fph_data_plane handler = svc_data_plane s /\
        allow_unsafe_private_networks (fph_policy handler) = false /\
        are_host_patterns (allowlist (fph_policy handler)) /\
        load_ca (os_read_fails e) fs' (ca_cert_path (forward_proxy (svc_config s)))
          (ca_key_path (forward_proxy (svc_config s))) = Ok issuer
    end;
  ss_system : forall (J : JsonLib) crc32 base64_decode parse_aws_envelope format_date format_amz_date,
    store_system_reachable crc32 base64_decode parse_aws_envelope format_date format_amz_date (svc_box s)
      (svc_data_plane s) (initial_system s)
}.

(** The data plane and the forward handler of a configuration. *)
Definition data_plane_of (c : Config) (key : string) : DataPlane :=
  (DataPlane_new (config_mode (auth c)) (Authenticator_new (derive_key key CLIENT_AUTH_PURPOSE))
     (server_max_request_bytes (server c))).1.

Definition forward_handler_of (c : Config) (key : string) : ForwardProxyHandler :=
  ForwardProxyHandler_new (data_plane_of c key)
    (DestinationPolicy_new (forward_allowed_hosts (forward_proxy c)) false) (server_max_request_bytes (server c)).

(** The steps of a successful start. *)
Record serve_steps (fs fs' : Files) (s : Service) : Prop := {
  sv_config : exists path, load_config' e path fs = Some (Ok (svc_config s), fs);
  sv_key : master_key e (svc_config s) = Ok (box_key (svc_box s));
  sv_data_plane : svc_data_plane s = data_plane_of (svc_config s) (box_key (svc_box s));
  sv_manager : mgr_digest_key (svc_manager s) = derive_key (box_key (svc_box s)) ADMIN_SESSION_PURPOSE;
  sv_policy : svc_policy s = DestinationPolicy_new (allowed_upstream_hosts (server (svc_config s))) false;
  sv_sessions : st_sessions (svc_state s) = initial_state;
  sv_opened : exists fs1 db0 n, opened (svc_box s) (database_path (storage (svc_config s))) fs fs1 /\
    open_at (database_path (storage (svc_config s))) fs1 db0 /\
    prune_audit_before db0 (os_prune_fails e)
      (os_now e - hours (24 * audit_retention_days (telemetry (svc_config s)))) = (Ok n, st_db (svc_state s)) /\
    fs' = write_tables (database_path (storage (svc_config s))) (st_db (svc_state s)) fs1;
  sv_routes : exists routes, route_accounts (st_db (svc_state s)) (os_routes_fail e) = Some (Ok routes) /\
    st_router (svc_state s) = router_new routes;
  sv_forward : match svc_forward s with
    | None => forward_enabled (forward_proxy (svc_config s)) = false
    | Some (handler, address, issuer) =>
        forward_enabled (forward_proxy (svc_config s)) = true /\
        handler = forward_handler_of (svc_config s) (box_key (svc_box s)) /\
        load_ca (os_read_fails e) fs' (ca_cert_path (forward_proxy (svc_config s)))
          (ca_key_path (forward_proxy (svc_config s))) = Ok issuer
    end
}.

Lemma serve_inv config_path fs fs' s : serve' e config_path fs = Some (Ok s, fs') -> serve_steps fs fs' s.
Proof.
  intros Hrun. apply keyed_inv in Hrun.
  destruct (load_config' e config_path fs) as [[[c|err] fs0]|] eqn:Hl; [|by destruct Hrun|done].
  pose proof (load_config_files _ _ _ _ _ Hl) as ->.
  destruct (master_key e c) as [key|err] eqn:Hkey; [|by destruct Hrun]. cbn zeta in Hrun.
  apply io_bind_Ok in Hrun as (password & fs1 & [_ ->]%io_result_inv & Hrun).
  apply io_bind_Ok in Hrun as ([] & fs1 & [_ ->]%io_result_inv & Hrun).
  apply io_bind_Ok in Hrun as (db0 & fs1 & [Hop Hat]%open_database_inv & Hrun). specialize (Hat db0 eq_refl).
  apply io_bind_Ok in Hrun as ([n db] & fs2 & (res & db' & Hpr & -> & Hres)%on_store_inv & Hrun).
  apply io_bind_Ok in Hrun as (routes & fs2 & [Hroutes ->]%io_panicking_inv & Hrun).
  apply io_bind_Ok in Hrun as (hash & fs2 & [_ ->]%io_result_inv & Hrun).
  apply io_bind_Ok in Hrun as (forward & fs2 & Hstart & [Hs ->]%io_ret_inv). injection Hs as ->.
  apply io_bind_Ok in Hstart as ([] & fs3 & [_ ->]%io_result_inv & Hfwd).
  destruct (prune_audit_before db0 _ _) as [r0 db1] eqn:Hprune. injection Hpr as <- <-.
  destruct r0 as [n0|err0]; [|done]. injection Hres as -> ->.
  cbn [snd] in Hroutes.
  destruct (route_accounts db1 _) as [[routes'|]|] eqn:Hr; [|done|done]. injection Hroutes as ->.
  assert (Hfwd' : fs2 = write_tables (database_path (storage c)) db1 fs1 /\
    match forward with
    | None => forward_enabled (forward_proxy c) = false
    | Some (handler, address, issuer) => forward_enabled (forward_proxy c) = true /\
        handler = forward_handler_of c key /\
        load_ca (os_read_fails e) fs2 (ca_cert_path (forward_proxy c)) (ca_key_path (forward_proxy c)) = Ok issuer
    end).
  { destruct (forward_enabled (forward_proxy c)); [|by injection Hfwd as <- <-].
    apply io_bind_Ok in Hfwd as (started & fs3 & Hst & [Hs ->]%io_ret_inv). injection Hs as ->.
    injection Hst as Hst <-. split; [done|]. destruct (socket_addr_from_str _); [|done]. cbn [ok_or] in Hst.
    destruct (load_ca _ _ _ _) as [issuer|]; [|done]. destruct (os_proxy_fails e); [done|].
    cbn [map_err] in Hst. by injection Hst as <-. }
  destruct Hfwd' as [-> Hfwd'].
  split; cbn [svc_config svc_state st_db svc_forward st_router svc_box]; try done;
    [by eexists|by exists fs1, db0, n0|by exists routes].
Qed.

(** The routes of the stored accounts. *)
Lemma routes_match box db routes :
  store_wf box db -> route_accounts db false = Some (Ok routes) ->
  router_wf (router_new routes) /\
  (forall aid, is_Some (Routing.accounts (router_new routes) !! aid) <-> is_Some (provider_accounts db !! aid)) /\
  (forall aid a, Routing.accounts (router_new routes) !! aid = Some a -> Routing.in_flight a = 0).
Proof.
  intros Hwf Hr. unfold route_accounts in Hr.
  destruct (list_accounts db false) as [[pubs|]|] eqn:Hl; [|done|done]. injection Hr as <-.
  split_and!.
  - apply wf_new, Forall_fmap, Forall_true. intros p. unfold account_typed, U32_MAX, U16_MAX. cbn. lia.
  - intros aid. rewrite <- (listed_ids box db pubs aid Hwf Hl). cbn. rewrite collect_accounts_dom. split.
    + intros (a & (p & -> & Hp)%list_elem_of_fmap & <-). by apply (list_elem_of_fmap_2 pub_id).
    + intros (p & -> & Hp)%list_elem_of_fmap. exists (route_account p). split; [|done]. by apply (list_elem_of_fmap_2 route_account).
  - intros aid a [(p & -> & _)%list_elem_of_fmap _]%collect_accounts_lookup. done.
Qed.

Lemma prune_keeps_open path db0 db fs f n cutoff fault :
  open_at path fs db0 -> prune_audit_before db0 fault cutoff = (Ok n, db) ->
  fs !! path = Some f -> open_at path (write_tables path db fs) db.
Proof.
  intros (d & mode & Hf & Hd & Hcur & Hleg) Hp _. destruct (write_tables_at path db fs d mode Hf) as [Hw _].
  exists (with_tables d db), mode. split_and!; [done|by rewrite with_tables_db|by apply with_tables_current|].
  unfold prune_audit_before in Hp. destruct fault; [done|]. by injection Hp as _ <-.
Qed.

(** C8.  A service that starts is sound.  Its configuration is valid and its key is the
    one of the environment; the store is the database of the configured file, migrated,
    with every account as it was before and exactly the audit events within the
    retention period; the router is well formed, knows exactly the stored accounts and
    counts no load; no session is open.  Client authentication and administrator
    sessions use different keys unless SHA-256 collides, no destination policy admits
    private networks, and the forward proxy runs exactly if it is enabled, with the
    authority in its files.  Store, router and data plane are an initial state of the
    running system, so its theorems hold from there on.  The database that is there
    before, if any, must hold readable rows and well-formed audit events. *)
Theorem started_service_is_sound (config_path : string) (fs fs' : Files) (s : Service)
    (Htoml : forall source t, toml_from_str source = Ok t -> table_typed t)
    (Hnow : 0 <= os_now e < seconds 253402300800)
    (Hstore : store_wf (svc_box s) (tables fs (database_path (storage (svc_config s)))))
    (Haudit : audit_wf (tables fs (database_path (storage (svc_config s)))))
    (Hrun : serve' e config_path fs = Some (Ok s, fs')) :
  service_sound fs fs' s.
Proof.
  apply serve_inv in Hrun as [[cpath Hcfg] Hkey Hdp Hmgr Hpol Hses (fs1 & db0 & n & Hop & Hat & Hprune & ->)
    (routes & Hroutes & Hrouter) Hfwd].
  pose proof (load_config_valid _ _ _ _ Htoml Hcfg) as Hvalid.
  set (c := svc_config s) in *. set (path := database_path (storage c)) in *. set (db := st_db (svc_state s)) in *.
  destruct (os_prune_fails e) eqn:Epf; [done|]. destruct (os_routes_fail e) eqn:Erf; [done|].
  assert (Ht1 : tables fs1 path = db0).
  { destruct Hat as (d & mode & Hf & Hd & _). unfold tables. by rewrite Hf. }
  pose proof Hop as [Hframe Hrows Hhist Hev Hseq]. rewrite Ht1 in Hrows, Hhist, Hev, Hseq.
  assert (Haw : audit_wf db0) by (destruct Haudit; split; rewrite ?Hev, ?Hseq; done).
  assert (Hwf0 : store_wf (svc_box s) db0) by by eapply rows_kept_wf.
  destruct (prune_audit_spec db0 (os_now e - hours (24 * audit_retention_days (telemetry c)))) as
    (db' & Hspec & Hevents & Hacc & Hh); [done| |].
  { destruct (cv_retention _ Hvalid). revert Hnow. unfold four_digit_year, hours, minutes, seconds. lia. }
  rewrite Hspec in Hprune. injection Hprune as Hn Hdb. rewrite Hdb in Hevents, Hacc, Hh, Hspec.
  assert (Hwf : store_wf (svc_box s) db) by (destruct Hwf0; split; rewrite ?Hacc, ?Hh; done).
  destruct (routes_match _ _ _ Hwf Hroutes) as (Hrwf & Hdom & Hidle). rewrite <- Hrouter in Hrwf, Hdom, Hidle.
  pose proof Hat as (d & mode & Hf & _).
  split; try done.
  - rewrite Hdp, Hmgr. intros Heq. exists (box_key (svc_box s) +:+ CLIENT_AUTH_PURPOSE),
      (box_key (svc_box s) +:+ ADMIN_SESSION_PURPOSE). split; [|exact Heq].
    intros Hx. by apply (inj (String.append _)) in Hx.
  - rewrite Hdp. apply (cv_limit _ Hvalid).
  - eapply prune_keeps_open; [exact Hat|exact Hspec|exact Hf].
  - intros aid. fold db path. etrans; [|by apply kept_or_encrypted_loads, Hrows].
    apply load_account_ext. by rewrite Hacc.
  - fold db. rewrite Hevents. unfold retained. fold path. by rewrite Hev.
  - rewrite Hses, Hrouter. done.
  - rewrite Hpol. split; [done|]. apply (cv_hosts _ Hvalid).
  - destruct (svc_forward s) as [[[handler address] issuer]|]; [|done].
    destruct Hfwd as (Hen & -> & Hca). do 3 (split; [done|]). split; [|done].
    apply (fv_hosts _ (cv_forward _ Hvalid Hen)).
  - intros J crc32 base64_decode parse_aws_envelope format_date format_amz_date. unfold initial_system.
    rewrite Hrouter. apply system_start; [by exists db|by exists false].
Qed.
End Theorems.

(** ** Examples *)

Section Witnesses.
#[local] Existing Instance simple_url_lib.
#[local] Existing Instance simple_header_lib.
#[local] Existing Instance simple_crypto_lib.
#[local] Existing Instance simple_crypto_laws.
#[local] Existing Instance sample_codec.
#[local] Existing Instance sample_codec_laws.
#[local] Existing Instance two_key_lib.
#[local] Existing Instance opaque_databases.

Definition text_file (s : string) : file := {| file_content := TextFile s; file_mode := mode_0600 |}.

(** The sample configuration with its authority; no database yet. *)
Definition sample_files : Files :=
  {["llmap.toml" := text_file "file"; default_ca_cert_path := text_file "CERT 1";
    default_ca_key_path := text_file "KEY 1"]}.

Definition sample_os (vars : gmap string string) : os_env :=
  {| os_vars := vars; os_read_fails := fun _ => false; os_mkdir_fails := fun _ => false; os_umask := 18;
     os_now := seconds 1700000000; os_salt := "salt"; os_open := quiet_open; os_prune_fails := false;
     os_routes_fail := false; os_import_fails := false; os_import_nonces := fun _ => (nonce_a, nonce_b);
     os_import_faults := fun _ => false; os_ca := sample_ca_env NoFault NoFault; os_backup := sample_backup_env;
     os_bind_fails := false; os_proxy_fails := false |}.

Definition sample_vars : gmap string string :=
  {["LLMAP_MASTER_KEY" := hex "0123456789abcdef0123456789abcdef"; "LLMAP_ADMIN_PASSWORD" := "secret"]}.

Abbreviation sample_serve := (serve sample_toml (sample_os sample_vars) "llmap.toml" sample_files).
Abbreviation sample_run :=
  (run_command sample_toml (fun _ => None) (fun _ => None) (fun _ => None) Some (sample_os sample_vars)).

(** The service starts, with its forward proxy; its database is where it was configured. *)
Lemma sample_service_starts :
  match sample_serve with
  | Some (Ok s, _) => (database_path (storage (svc_config s)), bool_decide (is_Some (svc_forward s)))
  | _ => ("", false)
  end = ("state/llmap.db", true).
Proof. vm_compute. reflexivity. Qed.

(** A variable that is not text stops every command. *)
Example binary_environment_panics :
  bool_decide (is_Some (load_config sample_toml (sample_os {["BIN" := String "255" ""]}) "llmap.toml" sample_files))
  = false.
Proof. vm_compute. reflexivity. Qed.

Lemma empty_tables_wf box : store_wf box (file_db empty_file) /\ audit_wf (file_db empty_file).
Proof.
  split; [|by repeat constructor].
  split; intros k x Hx; cbn in Hx; rewrite lookup_empty in Hx; discriminate Hx.
Qed.

Lemma started_service_is_sound_witness :
  exists s fs', sample_serve = Some (Ok s, fs') /\ router_wf (st_router (svc_state s)) /\
    allow_unsafe_private_networks (svc_policy s) = false.
Proof.
  pose proof sample_service_starts as Hstart.
  destruct sample_serve as [[[s|] fs']|] eqn:Hrun; [|discriminate Hstart|discriminate Hstart].
  injection Hstart as Hpath _.
  assert (Ht : tables sample_files "state/llmap.db" = file_db empty_file) by reflexivity.
  destruct (empty_tables_wf (svc_box s)) as [Hwf Haw].
  exists s, fs'. split; [reflexivity|].
  destruct (started_service_is_sound sample_toml (sample_os sample_vars) (fun _ => eq_refl) "llmap.toml"
              sample_files fs' s) as [_ _ _ _ _ _ _ Hr _ _ _ [Hp _] _].
  - intros source t. unfold sample_toml. case_bool_decide; [|discriminate]. intros [= <-]. split; intros n [=].
  - cbn. unfold seconds. lia.
  - rewrite Hpath, Ht. exact Hwf.
  - rewrite Hpath, Ht. exact Haw.
  - exact Hrun.
  - split; [exact Hr|exact Hp].
Defined.

(** A start creates the database and touches nothing else. *)
Lemma commands_lose_nothing_witness :
  exists r fs', sample_run (Serve "llmap.toml") sample_files = Some (r, fs') /\
    (match load_config sample_toml (sample_os sample_vars) "llmap.toml" sample_files with
     | Some (Ok c, _) => forall key, master_key (sample_os sample_vars) c = Ok key ->
         harmless {| box_key := key |} (database_path (storage c)) [] false sample_files fs'
     | _ => False
     end).
Proof.
  pose proof sample_service_starts as Hstart.
  destruct (sample_run (Serve "llmap.toml") sample_files) as [[r fs']|] eqn:Hrun.
  2:{ cbn [run_command] in Hrun. unfold io_bind at 1 in Hrun.
      destruct sample_serve as [[[s|] fs']|]; discriminate || discriminate Hstart. }
  exists r, fs'. split; [reflexivity|].
  pose proof (commands_lose_nothing sample_toml (fun _ => None) (fun _ => None) (fun _ => None) Some
                (sample_os sample_vars) (fun _ => eq_refl) _ _ _ _ Hrun) as Hc.
  cbn [config_of] in Hc.
  destruct (load_config sample_toml (sample_os sample_vars) "llmap.toml" sample_files) as [[[c|err] fs0]|] eqn:Hl.
  - intros key Hkey. rewrite Hkey in Hc. exact Hc.
  - assert (Hx : match load_config sample_toml (sample_os sample_vars) "llmap.toml" sample_files with
                 | Some (Ok _, _) => true | _ => false end = true) by (vm_compute; reflexivity).
    rewrite Hl in Hx. discriminate Hx.
  - exact Hc.
Defined.
End Witnesses.
